(* ===== verification/_CoqProject ===== *)
-Q . S2P
Prelude.v
Numbers.v
Prog.v
Node.v
Balancer.v
RoundRobin.v
PriorityFree.v
PriorityFreeConc.v
Config.v
ConfigRead.v
Grouped.v
Json.v
JsonText.v
Context.v
Metrics.v
Utf8.v
UnixPath.v
Net.v
HolderState.v
HolderScreen.v
HolderViews.v
Formatter.v
Export.v
JsonScan.v
RequestLog.v
FixTypes.v
Traverse.v
NullIndex.v
BadFilepath.v
MalformedArgs.v
Fixes.v
Framing.v
Sse.v
HolderArgs.v
Holder.v
HolderCheck.v
HolderWorld.v
HolderFacts.v
HolderRuns.v
KvLabels.v
Jsonc.v
JsoncFacts.v
Switcher.v
StreamPass.v
Merge.v
Observer.v
Synthesis.v
PromptCache.v
Reprompt.v
Http.v
Preflight.v
Compat.v
Decode.v
Augment.v
Rewrite.v
Anthropic.v
SseText.v
Wire.v
WireFacts.v
Dump.v
MetricsText.v
Handler.v
HandlerFacts.v
Served.v
HandlerWorld.v
Drain.v
Server.v
Startup.v
Clients.v
SwitcherDraw.v
Terminals.v
Witnesses.v
RequestWitnesses.v
ProbeWitnesses.v
MetricsWitnesses.v
WireWitnesses.v
HolderWitnesses.v
ServerWitnesses.v
StreamTests.v
Tests.v
