(* ===== verification/Prelude.v ===== *)
(** * llama-proxy: a model of the proxy's core and the proof that it is correct

    llama-proxy (src/llama-proxy) stands between OpenAI- and Anthropic-speaking
    clients and a set of llama.cpp servers.  A request is routed to a backend
    group by its model, a node of the group is claimed, the response comes back
    as JSON or as a stream of server-sent events, malformed tool calls in it are
    repaired, and the client gets JSON, the backend's own stream, or a stream
    synthesized from the complete response.  Paths below are relative to
    src/llama-proxy/src.  Beside the proxy, the repository's model switcher
    (src/opencode/helpers/model-switcher/src) edits the configuration files of
    its client in place, and the model holder (src/model-holder/src) keeps model
    files in memory between runs of the servers that map them.

    ** Files

    - [Prelude] (this file): bytes and UTF-8 strings, machine-width counters,
      the [result] monad, sorting of maps by key, list and string lemmas, the
      tactics [inv_result] and [vm_decide] and the hint database [lm].
    - [Prog]: programs over the events of an environment, the weakest
      precondition [wp] over every answer, and any number of programs
      interleaved over a shared world ([System], [reaches]).
    - Balancing: [Node] (backends/node.rs), [Balancer] (backends/balancer.rs),
      [RoundRobin] and [PriorityFree] (the two strategies), [PriorityFreeConc]
      (the same strategy one atomic access at a time), [Grouped]
      (backends/grouped.rs and the factory of backends/mod.rs).
    - Configuration: [Config] (config/mod.rs, config/loader.rs,
      config/validate.rs), [ConfigRead] (the derived decoders of config/mod.rs).
    - JSON: [Json] (values, and serde_json as the class [Serde]), [JsonText] (a
      concrete codec), [JsonScan] (fixes/json_scan.rs), [Utf8] (facts on
      characters).
    - Fixes: [FixTypes] (fixes/mod.rs and the registry of fixes/registry.rs),
      [Traverse] (the walk over tool calls the fixers share), [NullIndex],
      [BadFilepath] and [MalformedArgs] (the three fixers), [Fixes] (the
      registries built at startup).
    - Streams: [Framing] (the SSE framer), [Sse] (reading events, completion
      detection), [StreamPass] (the pass-through stream), [Merge] (one response
      out of an accumulated stream), [Observer] (how a stream ended and what is
      recorded of it), all of proxy/streaming.rs, [Synthesis]
      (proxy/synthesis.rs) and [SseText] (its streams as bytes).
    - The wire: [Anthropic] (the message types of api/openai.rs and the streams
      made from them), [Wire] (the request and message types of api/openai.rs
      with their codecs and conversions, and the typed round trip of
      augment.rs), [WireFacts] (its theorems).
    - A request's way: [Http] and [Decode] (header rules, error envelopes, body decoding),
      [Rewrite] (what a backend is sent), [MetricsText] (the counters and the
      text of /proxy/metrics), [Dump] (the dump files, of proxy/streaming.rs
      too), [Handler] (the handler itself), all of proxy/handler.rs,
      [HandlerFacts] (its theorems), [Served] (what a client reads of its
      replies) and [HandlerWorld] (any number of requests at once).
    - Around it: [PromptCache] (prompt_cache.rs), [Reprompt]
      (proxy/reprompt.rs), [Augment] (augment.rs).
    - Probes: [Context] (proxy/context.rs and the choice among model entries of
      backends/preflight.rs), [Preflight] (the rest of backends/preflight.rs),
      [KvLabels] (proxy/kv_labels.rs) and [Compat] (proxy/compat.rs).
    - The process: [Net] (addresses of the standard library), [Startup]
      (main.rs), [Server] (the start of proxy/server.rs), [Drain] (its serve
      loop and the shutdown), [Clients] (the HTTP client of a node, the exporter
      and its manager, the probe of the vram shim).
    - Metrics: [Metrics] (stats/collector.rs), [RequestLog]
      (stats/request_log.rs), [Formatter] (stats/formatter.rs) and [Export]
      (exporters/mod.rs, exporters/influxdb.rs and its writer thread in
      exporters/influxdb/worker.rs).
    - The model switcher: [Jsonc] (the line edits of config.rs), [JsoncFacts]
      (its theorems), [Switcher] (the file operations of config.rs, the
      screens and commands of main.rs), [SwitcherDraw] (what main.rs draws
      and prints) and [Terminals] (who takes the terminal and gives it back, in
      the switcher and in the holder).
    - The model holder: [UnixPath] (paths of the standard library), [Numbers]
      (decimals), [HolderState] (ui/state.rs), [HolderScreen] and [HolderViews]
      (ui/terminal.rs: keys and texts, layout and lists), [HolderArgs] (the
      arguments and the patterns of main.rs), [Holder] (its holding commands as
      programs), [HolderWorld] (the machine of main thread, locking threads and
      screen), [HolderFacts] and [HolderRuns] (its theorems), [HolderCheck] (the
      check command).
    - [Witnesses], [RequestWitnesses], [ProbeWitnesses], [MetricsWitnesses],
      [WireWitnesses], [HolderWitnesses] and [ServerWitnesses]: every property
      with a hypothesis, at a concrete input (some of them in [Tests] and
      [StreamTests]).
    - [Tests] and [StreamTests]: the repository's own tests, evaluated in the
      model: inputs as the tests give them, results as the tests expect them.

    ** How the model reads the code

    A [String] is its list of bytes; [chars] cuts it into UTF-8 characters.
    A [usize] is a [Z] with its wrap-around written out ([wrap_usize]).  An
    [Arc<BackendNode>] is an index into a store of nodes, so that balancers and
    guards that share a node share its counters.  A [Result] is [result]; an
    [option] around it is a panic where the code can panic ([outcome] in
    [Traverse], [select] of the balancers, [merge_openai]).  A [HashMap] is the
    list of its entries in the order the map yields them where order can
    matter, and a [gmap] where it cannot.  Logging is a value.  Clocks, parsers
    of third-party crates (YAML, URLs, JSON text, regular expressions), the file
    system and the HTTP client are parameters: fields of [Serde], [SlotRegex],
    [HeaderText], [Codecs], [WireDeps] (the rounding of an [f32] and the order
    of a [HashMap], with the laws [WireLaws]), [Deps], [EventText] (the text of
    a server-sent event), [Yaml] (a document and what it answers) and [Display],
    section variables of [Config], [Grouped], [Synthesis], [Preflight] and
    [Export]; [JsonText] serves the witnesses and the evaluated tests only.  An [f64] is IEEE 754
    binary64, and prints exactly.  A derived decoder is a reader over
    an object or an array ([Reader]).  The request handler is a program
    ([prog]) that hands each shared access and each call to the environment as
    an event: a statement under [wp] holds for every answer, and [HandlerWorld]
    interleaves the programs event by event, as [Preflight] and [Compat] do with
    the probes.  The exporter's thread is a step function over its own program
    counter ([worker_step]), and the stream observer's race is a machine against the two
    channels it waits on ([BodyStep]).  The switcher's commands are programs
    over reads, writes and screens ([Ed]), and a screen is a loop over the keys
    typed at it.  The model holder is a machine of threads over one world: the
    main thread's program, a worker per file with its own program counter, and a
    screen that may take keys, quit or panic at any time; /proc and the memory
    calls answer as they like.  The serve loop is a step relation over its own
    turns, its connection tasks, the tasks that export samples, the writer
    thread, the signal and the clock, in any order.  The start-up commands are
    programs over files, probes and the network ([Boot], [Sock]), and a dump is
    one over calls to the file system that may each fail ([Fs]); the handler
    hands a dump to its environment whole, as the task it spawns.  Destructors
    are written out where they run.

    Loops over bytes recurse over the bytes.  The loops that jump take fuel:
    the scanners of [JsonScan] take the length of the text and consume at least
    a byte per turn ([scan_container_fuel], [depth1_loop_fuel],
    [keys_after_loop_fuel]); [take_all] takes three turns, which settle the
    framer whatever is pushed ([take_all_settles]); [drive] takes four turns per
    item of the backend's script ([pass_through_ends]); [drain_lines] takes one
    turn per pending byte; [find_key] takes the length of the text and moves on
    by at least a byte per turn; the exporter's thread, once its queue is closed, takes
    [remaining] accesses at most ([writer_drains]).  The rounds of a
    reprompt are bounded by the configured count, and handler programs are
    finite by construction.

    ** What is shown

    - Selecting a node.  [select] never panics on a well-formed balancer and
      moves one counter by one ([LoadBalancerLaws], kept by both strategies and
      by the router over them).  The priority-free strategy picks what an
      abstract specification calls right ([pf_select_right]); its concurrent
      program refines that function ([pf_select_refined]), is wait-free within a
      bound of its own steps ([pf_wait_free]), grants a free node to one request only
      ([pf_free_claim_exclusive]) and leaves no phantom claim behind
      ([pf_no_phantom_claims]).  Round robin is fair ([rr_fair]).
    - Configuration to routing.  A configuration written down is read back as it
      is, whichever defaults are left out, and no section with fields of its own is
      read with a key it does not know ([config_documents]); the entries of
      fixes.modules take any.  The loader's validation establishes what the
      router needs ([load_config_groups_ok]), the router built is well formed
      and independent of map order ([grouped_new_wf],
      [grouped_new_deterministic]), requests go to the best qualifying group
      ([grouped_select_routed]), and a mapped model to a node built for
      its own group's entries ([validated_config_routes]).
    - JSON text.  The scanners return exactly the keys and spans of every
      laid-out object, agree with each other, and never return an unsafe span.
    - Fixes.  Each fixer changes only what it repairs, repairs by the rule its
      comment gives, and leaves everything alone when it cannot
      ([content_never_deleted], [empty_keys_filled], [empty_keys_no_guess],
      [null_index_repairs] and their companions); the one input on which a
      fixer panics is characterized ([fix_arguments_panics]).  The registry
      skips what is disabled and shrugs off a fixer's error.
    - Requests.  A request gives back the gauge, its claim and its permit exactly
      once ([handle_gives_back]), is sent on once at most and reprompted once at
      most, and the node's health is judged by the answer
      ([handle_exchanges_once]); a failure is never presented as a success
      ([handle_status_honest]), the capacity limit is respected and a monitoring
      request takes no permit ([handle_capacity]); with any number of requests interleaved and
      clients disconnecting, the shared counters are exactly what is in flight
      ([proxy_balanced]), and the scrape prints them so that they read back
      ([scrape_reads_back]).  What a backend is sent is characterized
      ([backend_sees]), with the inputs on which the rewrite panics
      ([overrides_panic]); decoded bodies are whole ([decode_whole_or_refused]);
      injections append ([inject_appends]); a reprompted conversation loses no
      text and no other field ([reprompt_keeps_text], [follow_up_extends]).
    - What a client reads.  A buffered answer is the backend's, changed nowhere
      outside what the fixes and a reprompt repair, as JSON or as a synthesized
      body, which reads back under the conditions the theorem names
      ([buffered_answer_served]); a streamed one is the bytes of the one backend
      asked, with a blank line where an event grows over 1 MiB, and its headers
      but the length and repeated values ([stream_served]).  The dump of a buffered
      exchange holds what was sent and received ([buffered_dump_true]).
    - Streams.  Framing loses nothing and, while no event is over the framer's
      limit, does not depend on how the transport cuts the stream
      ([framing_chunk_independent]); the pass-through stream delivers it and ends
      the way the backend did ([pass_through_delivers]); completion detection is exact behind its prefilter.
      Interleaved tool-call fragments and text deltas reassemble, after a first
      delta that is taken by position ([tool_calls_reassemble]); synthesized
      streams merge back to the response ([synthesis_merges_back],
      [anthropic_stream_merges_back]), and converted ones are Anthropic streams
      whose blocks carry what the choices hold ([converted_stream_faithful]); the bytes of a synthesized body read back whole, with the
      pause asked for before every event ([openai_body_reads_back],
      [anthropic_body_reads_back]).  What is recorded of a stream is recorded once, of the
      bytes the client was sent, under the reason the body gave
      ([stream_reported], [verdict_true]); so is a buffered response
      ([buffered_reported]).
    - The wire types.  What is written is read back, an f32 out of range apart
      ([chat_request_roundtrip], [block_roundtrip]); a message survives the
      conversions between the two formats ([formats_roundtrip]), and the augmented request keeps every key
      of the client's ([augmentation_keeps_fields]); the request it does not
      read is characterized ([string_stop_not_augmented]), and so is what a
      block loses ([block_drops_unknown]).
    - Probes.  The label parser reads back what is printed ([series_roundtrip]);
      the scan of a metrics stream does not depend on how it is cut
      ([scan_right]) and holds a bounded amount ([scan_memory_bounded]); what is
      remembered of a backend is what an answer of it is evidence of, the absence
      of the gauge only what one read to its clean end is ([kv_memory_honest]); every cached window is one its backend stated
      ([context_cache_honest]), and discovery gives each node the result of its
      own probe ([preflight_fills_models]).
    - Metrics.  A sample is finite and its counts are reported ones
      ([sample_wire_safe], [sample_counts_bounded], [counts_are_reported]); no
      outside text can forge a column, a line or a tag
      ([compact_unforgeable], [point_unforgeable]); the writer thread loses
      nothing it accepted and ends when told to ([writer_loses_nothing],
      [writer_drains]).
    - The model switcher.  Comments and trailing commas are stripped
      and nothing else ([strip_jsonc_right]); a limit edit, of an object laid out as the
      tool writes it, is the edit of the list of the object's entries and leaves
      the rest of the line alone ([edit_limit_right]); an agent's model is read back as written
      ([agent_model_roundtrip]).  No command writes a file other than the
      configuration and the agents it has read to pin a model, nor a
      configuration that would not parse; the default command writes nothing
      before its confirmation is answered yes, and [all], which shows none,
      nothing before a model is taken on its screen ([switcher_safe]); the selector picks a model that is shown
      ([selector_right]), the row drawn as selected is the one Enter takes
      ([rows_right]), and the screens fit the terminal ([screens_fit]).  A screen that
      answers has given the terminal back ([on_screen_gives_back]); one that
      fails may not have ([raw_mode_left_on]), as the holder's does
      ([holder_screen_gives_back]).
    - The process.  A configuration the loader accepts starts a server over a
      well-formed, idle balancer, unless its limit is over what a semaphore
      takes ([server_starts]); the run command serves nothing else, whatever is
      overridden, and needs the exporter it configures compiled in
      ([run_serves_valid]); the binder asks the network for no host the loader
      refuses and tries addresses in order ([bind_right]); the exporter asked for is never refused
      ([exporters_of_loaded]).  The shutdown leaves no connection and
      delivers, or drops and counts, every sample accepted
      ([shutdown_keeps_samples]), though one handed in late is refused
      ([late_sample_lost]), and ends in bounded time ([drain_ends]).  A
      dump touches its own files only and its files are whole when it says so
      ([dump_right], [dumps_apart]).
    - The model holder.  While its screen is up everything it shows as locked is
      mapped and pinned and nothing has been released ([screen_honest]); the files,
      sizes and counts it prints are true when they are read ([reports_true]); it waits for nothing
      but its screen ([holder_ends]), which two key presses bring down
      ([two_presses_quit]); it holds exactly the files its
      patterns name ([expand_globs_right]); the check command counts each file of
      either side once ([comparison_right]).

    ** What is not modelled

    The routes, sockets and the HTTP libraries, the matching of CORS origins,
    clap and the tracing subscriber, and most log lines: library calls with
    nothing of the program's own in them.  The wording of serde's errors, the
    usage text and some of the lines the switcher prints on the way; of the
    model holder the colours, the wording of the check report and a holding
    command that nothing calls.  The response types of api/openai.rs beyond the
    message and its blocks are read off the wire nowhere, and nothing uses the
    types of api/llama.rs.  The end-to-end tests are test code, and the scripts
    and containers that run model servers are no part of the program.

    Over HTTP/2 hyper would run handlers in tasks of their own; [Drain] has the
    handlers of a connection end with it, as over HTTP/1.  In [HandlerWorld] a
    select and a reprompt are single events: the accesses inside a select
    interleave in [PriorityFreeConc], and a reprompt gives back the claims of its
    own follow-ups ([reprompt_keeps_text]).  A dump is a single event of the
    handler's run, its writing a program of its own ([Dump]).  The order in which
    a swept list of flush tickets ends up is not kept, since no ticket can
    tell. *)
From stdpp Require Export base tactics list numbers option strings sorting gmap pretty.
From Stdlib Require Export ZArith Lia Ascii.
From Stdlib Require String.
From Stdlib Require Export SpecFloat.

#[global] Set Default Proof Using "Type".

(** ** Bytes and UTF-8 strings

    A Rust [String]/[&str] is its sequence of UTF-8 bytes; [lit] reads a
    literal of the source. *)
Abbreviation str := (list ascii) (only parsing).

Definition lit (s : String.string) : str := String.list_ascii_of_string s.
Arguments lit : simpl never.

(** A literal holding double quotes, written with single ones. *)
Definition qlit (s : String.string) : str :=
  (λ c, if decide (c = "'"%char) then ascii_of_nat 34 else c) <$> lit s.

Definition byte_val (c : ascii) : Z := Z.of_N (N_of_ascii c).

(** A UTF-8 continuation byte: [(b as i8) < -0x40]. *)
Definition is_cont (c : ascii) : bool := (128 <=? byte_val c)%Z && (byte_val c <? 192)%Z.

(** [str::chars]: the maximal groups of one leading byte and its continuation
    bytes.  A [char] is carried as its encoding. *)
Definition push_byte (c : ascii) (s' : str) (gs : list str) : list str :=
  match s', gs with
  | d :: _, g :: gs' => if is_cont d then (c :: g) :: gs' else [c] :: gs
  | _, _ => [c] :: gs
  end.

Fixpoint chars (s : str) : list str :=
  match s with
  | [] => []
  | c :: s' => push_byte c s' (chars s')
  end.

(** [str::is_char_boundary]. *)
Definition is_char_boundary (s : str) (i : nat) : bool :=
  match i with
  | 0 => true
  | _ => match s !! i with
         | Some c => negb (is_cont c)
         | None => i =? length s
         end
  end.

(** [char::is_whitespace] (Unicode [White_Space]) on an encoded char. *)
Definition is_whitespace (g : str) : bool :=
  match byte_val <$> g with
  | [b] => ((9 <=? b) && (b <=? 13) || (b =? 32))%Z
  | [194; b] => ((b =? 133) || (b =? 160))%Z
  | [225; 154; 128] => true
  | [226; 128; b] =>
      ((128 <=? b) && (b <=? 138) || (b =? 168) || (b =? 169) || (b =? 175))%Z
  | [226; 129; 159] => true
  | [227; 128; 128] => true
  | _ => false
  end%Z.

(** ASCII classes of a byte. *)
Definition is_ascii_digit (c : ascii) : bool :=
  ((48 <=? byte_val c) && (byte_val c <=? 57))%Z.
Definition is_ascii_alphabetic (c : ascii) : bool :=
  ((65 <=? byte_val c) && (byte_val c <=? 90) || (97 <=? byte_val c) && (byte_val c <=? 122))%Z.
Definition is_ascii_alphanumeric (c : ascii) : bool :=
  is_ascii_digit c || is_ascii_alphabetic c.

(** [str::to_ascii_lowercase]. *)
Definition ascii_lower (c : ascii) : ascii :=
  if ((65 <=? byte_val c) && (byte_val c <=? 90))%Z then ascii_of_N (N_of_ascii c + 32) else c.
Definition to_ascii_lowercase (s : str) : str := ascii_lower <$> s.

(** ** Results *)
Inductive result (E A : Type) :=
  | Ok (a : A)
  | Err (e : E).
Arguments Ok {E A} a.
Arguments Err {E A} e.

#[global] Instance result_ret {E} : MRet (result E) := λ A, Ok.
#[global] Instance result_bind {E} : MBind (result E) := λ A B f m,
  match m with Ok a => f a | Err e => Err e end.
#[global] Instance result_fmap {E} : FMap (result E) := λ A B f m,
  match m with Ok a => Ok (f a) | Err e => Err e end.

Definition is_ok {E A} (r : result E A) : bool :=
  match r with Ok _ => true | Err _ => false end.

(** ** Machine integers *)
Definition u64_modulus : Z := 2 ^ 64.
Definition usize_max : Z := 2 ^ 64 - 1.
(** [AtomicUsize::fetch_add] / [fetch_sub] wrap around. *)
Definition wrap_usize (z : Z) : Z := z mod 2 ^ 64.

(** [f64] values, as IEEE 754 binary64 data. *)
Abbreviation f64 := spec_float (only parsing).

(** ** Slices and searches of Rust's [str] *)
Fixpoint strip_prefix (s p : str) : option str :=
  match p, s with
  | [], _ => Some s
  | c :: p', d :: s' => if decide (c = d) then strip_prefix s' p' else None
  | _ :: _, [] => None
  end.

Definition starts_with (s p : str) : bool :=
  match strip_prefix s p with Some _ => true | None => false end.

Definition strip_suffix (s p : str) : option str :=
  reverse <$> strip_prefix (reverse s) (reverse p).

Definition ends_with (s p : str) : bool :=
  match strip_suffix s p with Some _ => true | None => false end.

(** [&s[i..j]]. *)
Definition slice {A} (s : list A) (i j : nat) : list A := take (j - i) (drop i s).

(** [str::find] of a substring: byte offset of the first occurrence. *)
Fixpoint find_sub (s p : str) : option nat :=
  if starts_with s p then Some 0
  else match s with
       | [] => None
       | _ :: s' => S <$> find_sub s' p
       end.

Definition contains_sub (s p : str) : bool :=
  match find_sub s p with Some _ => true | None => false end.

(** [str::trim_end_matches(char)] for an ASCII char. *)
Fixpoint drop_while {A} (f : A → bool) (l : list A) : list A :=
  match l with
  | [] => []
  | x :: l' => if f x then drop_while f l' else l
  end.

Definition trim_end_matches (c : ascii) (s : str) : str :=
  reverse (drop_while (λ d, bool_decide (d = c)) (reverse s)).

(** [str::trim]. *)
Definition trim (s : str) : str :=
  concat (reverse (drop_while is_whitespace (reverse (drop_while is_whitespace (chars s))))).
Definition trim_start (s : str) : str := concat (drop_while is_whitespace (chars s)).
Definition trim_end (s : str) : str := concat (reverse (drop_while is_whitespace (reverse (chars s)))).

(** [str::split(char)] for an ASCII char. *)
Fixpoint split_char (c : ascii) (s : str) : list str :=
  match s with
  | [] => [[]]
  | d :: s' =>
      if decide (d = c) then [] :: split_char c s'
      else match split_char c s' with
           | [] => [[d]]
           | w :: ws => (d :: w) :: ws
           end
  end.

(** [[a, b, ..].join(sep)]. *)
Fixpoint join (sep : str) (parts : list str) : str :=
  match parts with
  | [] => []
  | [p] => p
  | p :: parts' => p ++ sep ++ join sep parts'
  end.

(** [for x in l { f(x)?; }]. *)
Fixpoint try_for {E A} (f : A → result E unit) (l : list A) : result E unit :=
  match l with
  | [] => Ok ()
  | x :: l' => _ ← f x; try_for f l'
  end.

(** ** Floating point *)
Definition f64_is_finite (x : f64) : bool :=
  match x with S754_zero _ | S754_finite _ _ _ => true | _ => false end.
Definition f64_zero : f64 := S754_zero false.
Definition f64_of_Z (z : Z) : f64 := binary_normalize 53 1024 z 0 false.
(** [a <= b] on [f64]: false when either is NaN. *)
Definition f64_le (a b : f64) : bool := SFleb a b.
Definition f64_lt (a b : f64) : bool := SFltb a b.

(** Decimal display of an unsigned integer. *)
Definition show_N (n : N) : str := lit (pretty n).
Definition show_nat (n : nat) : str := show_N (N.of_nat n).
Definition show_Z (z : Z) : str := lit (pretty z).

(** [Ord for String]: byte-wise lexicographic order. *)
Definition str_le (a b : str) : Prop :=
  String.le (String.string_of_list_ascii a) (String.string_of_list_ascii b).
#[export] Instance str_le_dec : RelDecision str_le.
Proof. intros a b. unfold str_le. apply _. Defined.

(** [v.sort_by(|a, b| a.0.cmp(&b.0))]. *)
Definition key_le {A} (x y : str * A) : Prop := str_le x.1 y.1.
#[export] Instance key_le_dec {A} : RelDecision (@key_le A).
Proof. intros x y. unfold key_le. apply _. Defined.
Definition sort_by_key {A} (l : list (str * A)) : list (str * A) := merge_sort key_le l.

(** Decides a closed goal by running its decision procedure. *)
Ltac vm_decide := apply (bool_decide_unpack _); vm_compute; exact I.

(** ** Lemmas *)
Create HintDb lm.

Lemma filter_all {A} (P : A → Prop) `{∀ x, Decision (P x)} l : Forall P l → filter P l = l.
Proof. induction 1 as [|x l Hx _ IH]; [done|]. rewrite filter_cons, decide_True by done. by rewrite IH. Qed.
Lemma filter_none {A} (P : A → Prop) `{∀ x, Decision (P x)} l : Forall (λ x, ¬ P x) l → filter P l = [].
Proof. induction 1 as [|x l Hx _ IH]; [done|]. by rewrite filter_cons, decide_False. Qed.

#[export] Instance str_le_trans : Transitive str_le.
Proof. intros a b c. unfold str_le. apply transitivity. Qed.
#[export] Instance str_le_total : Total str_le.
Proof. intros a b. unfold str_le. apply (total String.le). Qed.
#[export] Instance str_le_antisymm : AntiSymm (=) str_le.
Proof.
  intros a b Hab Hba. unfold str_le in *.
  pose proof (anti_symm String.le _ _ Hab Hba) as E.
  apply (f_equal String.list_ascii_of_string) in E.
  by rewrite !String.list_ascii_of_string_of_list_ascii in E.
Qed.
#[export] Instance key_le_trans {A} : Transitive (@key_le A).
Proof. intros x y z. unfold key_le. apply transitivity. Qed.
#[export] Instance key_le_total {A} : Total (@key_le A).
Proof. intros x y. unfold key_le. apply (total str_le). Qed.

Lemma result_bind_Ok {E A B} (m : result E A) (f : A → result E B) b :
  m ≫= f = Ok b ↔ ∃ a, m = Ok a ∧ f a = Ok b.
Proof. destruct m; simpl; naive_solver. Qed.

(** Splits every [x ← m; k = Ok _] hypothesis into its steps. *)
Ltac inv_result :=
  repeat match goal with
  | H : _ ≫= _ = Ok _ |- _ =>
      let a := fresh "a" in let Ha := fresh H in
      apply result_bind_Ok in H as (a & Ha & H)
  | H : Err _ = Ok _ |- _ => discriminate H
  | H : Ok _ = Ok _ |- _ => injection H as H
  | u : unit |- _ => destruct u
  end.

Lemma try_for_Ok {E A} (f : A → result E unit) l :
  try_for f l = Ok () ↔ Forall (λ x, f x = Ok ()) l.
Proof.
  induction l as [|x l IH]; simpl; [by split; [constructor|]|].
  rewrite Forall_cons, <- IH. destruct (f x) as [[]|e]; simpl; naive_solver.
Qed.

Lemma sort_by_key_perm {A} (l : list (str * A)) : sort_by_key l ≡ₚ l.
Proof. apply merge_sort_Permutation. Qed.

Lemma fst_NoDup_inj {A} (l : list (str * A)) x y :
  NoDup l.*1 → x ∈ l → y ∈ l → x.1 = y.1 → x = y.
Proof.
  intros Hnd Hx Hy E. apply list_elem_of_lookup in Hx as [i Hi], Hy as [j Hj].
  assert (i = j) as ->; [|congruence].
  eapply (NoDup_lookup l.*1 i j x.1); [done|..]; rewrite list_lookup_fmap.
  - by rewrite Hi.
  - by rewrite Hj, E.
Qed.

(** Sorting by a unique key forgets the order the entries came in. *)
Lemma sort_by_key_unique {A} (l l' : list (str * A)) :
  NoDup l.*1 → l ≡ₚ l' → sort_by_key l = sort_by_key l'.
Proof.
  intros Hnd Hp. apply (Sorted_unique_strong key_le).
  - intros x y Hx Hy Hxy Hyx. rewrite sort_by_key_perm in Hx, Hy. rewrite <- Hp in Hy.
    eapply fst_NoDup_inj; [done..|]. by apply (anti_symm str_le).
  - apply Sorted_merge_sort, _.
  - apply Sorted_merge_sort, _.
  - by rewrite !sort_by_key_perm.
Qed.

Lemma concat_chars s : concat (chars s) = s.
Proof.
  induction s as [|c s IH]; [done|]. simpl. unfold push_byte.
  destruct s as [|d s]; [done|].
  destruct (chars (d :: s)) as [|g gs]; [done|].
  destruct (is_cont d); simpl in *; by rewrite IH.
Qed.

Lemma chars_nonempty s : Forall (λ g, g ≠ []) (chars s).
Proof.
  induction s as [|c s IH]; [constructor|]. simpl. unfold push_byte.
  destruct s as [|d s]; [by constructor|].
  destruct (chars (d :: s)) as [|g gs]; [by constructor|].
  apply Forall_cons in IH as [??]. destruct (is_cont d); by repeat constructor.
Qed.

Lemma strip_prefix_Some s p r : strip_prefix s p = Some r ↔ s = p ++ r.
Proof.
  revert s. induction p as [|c p IH]; intros [|d s]; simpl.
  - split; [by intros [= ->]|by intros <-].
  - split; [by intros [= ->]|by intros <-].
  - done.
  - case_decide; subst; [rewrite IH|]; split; intros ?; simplify_eq; done.
Qed.

Lemma strip_prefix_None s p : strip_prefix s p = None ↔ ¬ p `prefix_of` s.
Proof.
  split.
  - intros H [r ->]. assert (strip_prefix (p ++ r) p = Some r) by by apply strip_prefix_Some.
    congruence.
  - intros H. destruct (strip_prefix s p) eqn:E; [|done].
    apply strip_prefix_Some in E as ->. destruct H. by eexists.
Qed.

Lemma starts_with_spec s p : starts_with s p = true ↔ p `prefix_of` s.
Proof.
  unfold starts_with. destruct (strip_prefix s p) eqn:E.
  - apply strip_prefix_Some in E as ->. split; [by eexists|done].
  - apply strip_prefix_None in E. naive_solver.
Qed.

Lemma strip_suffix_Some s p r : strip_suffix s p = Some r ↔ s = r ++ p.
Proof.
  unfold strip_suffix. rewrite fmap_Some. setoid_rewrite strip_prefix_Some. split.
  - intros (x & Hx & ->). apply (f_equal reverse) in Hx.
    by rewrite reverse_app, !reverse_involutive in Hx.
  - intros ->. exists (reverse r). by rewrite reverse_app, reverse_involutive.
Qed.

Lemma ends_with_spec s p : ends_with s p = true ↔ p `suffix_of` s.
Proof.
  unfold ends_with. destruct (strip_suffix s p) eqn:E.
  - apply strip_suffix_Some in E as ->. split; [by eexists|done].
  - split; [done|]. intros [r ->]. assert (strip_suffix (r ++ p) p = Some r)
      by by apply strip_suffix_Some. congruence.
Qed.

Lemma drop_while_suffix {A} (f : A → bool) l : drop_while f l `suffix_of` l.
Proof.
  induction l as [|x l IH]; simpl; [done|].
  destruct (f x); [by apply suffix_cons_r|done].
Qed.

Lemma drop_while_head {A} (f : A → bool) l x r :
  drop_while f l = x :: r → f x = false.
Proof.
  induction l as [|y l IH]; simpl; [done|].
  destruct (f y) eqn:E; [done|]. by intros [= -> ->].
Qed.

Lemma split_char_cut c p s : c ∉ p → split_char c (p ++ c :: s) = p :: split_char c s.
Proof.
  induction p as [|d p IH]; simpl; [by rewrite decide_True|]. intros [Hd Hp]%not_elem_of_cons.
  rewrite decide_False by congruence. by rewrite IH.
Qed.

Lemma trim_end_matches_spec c s :
  trim_end_matches c s `prefix_of` s ∧ ¬ [c] `suffix_of` trim_end_matches c s.
Proof.
  unfold trim_end_matches. split.
  - destruct (drop_while_suffix (λ d, bool_decide (d = c)) (reverse s)) as [k Hk].
    exists (reverse k). by rewrite <- reverse_app, <- Hk, reverse_involutive.
  - intros [k Hk]. apply (f_equal reverse) in Hk.
    rewrite reverse_involutive, reverse_app in Hk. simpl in Hk.
    apply drop_while_head in Hk. by rewrite bool_decide_eq_false in Hk.
Qed.

(** [str::find] answers an occurrence, and the first one. *)
Lemma find_sub_Some s p i :
  find_sub s p = Some i → p `prefix_of` drop i s ∧ ∀ j, j < i → ¬ p `prefix_of` drop j s.
Proof.
  assert (∀ s, match find_sub s p with
               | Some i => p `prefix_of` drop i s ∧ ∀ j, j < i → ¬ p `prefix_of` drop j s
               | None => True end) as H; [|intros E; specialize (H s); by rewrite E in H].
  clear. intros s. induction s as [|c s IH]; simpl.
  - destruct (starts_with [] p) eqn:E; [|done]. apply starts_with_spec in E. split; [done|lia].
  - destruct (starts_with (c :: s) p) eqn:E; [apply starts_with_spec in E; split; [done|lia]|].
    destruct (find_sub s p) as [i|]; [|done]. destruct IH as [IH1 IH2]. split; [done|].
    intros [|j] Hj; simpl; [rewrite <- starts_with_spec; congruence|]. apply IH2. lia.
Qed.

(** The characters of a printed number. *)
Lemma pretty_go_Forall (P : ascii → Prop) x s :
  (∀ n, P (pretty_N_char n)) → Forall P (lit s) → Forall P (lit (pretty_N_go x s)).
Proof.
  intros HP. revert s. induction (N.lt_wf_0 x) as [x _ IH]; intros s Hs.
  destruct (decide (x = 0)%N) as [->|Hx]; [by rewrite pretty_N_go_0|].
  rewrite pretty_N_go_step by lia. apply IH; [by apply N.div_lt; lia|]. by constructor.
Qed.

Lemma show_N_Forall (P : ascii → Prop) n : (∀ n, P (pretty_N_char n)) → Forall P (show_N n).
Proof.
  intros HP. unfold show_N, pretty, pretty_N. destruct (decide _); [repeat constructor; apply (HP 0%N)|].
  apply pretty_go_Forall; [done|constructor].
Qed.
