(* ===== verification/Numbers.v ===== *)
(** * Numbers of the standard library

    Arithmetic, conversion and decimal printing of [f64] - exact, rounding half
    to even on the exact value as the standard library does - and the parser of
    unsigned integers. *)
From S2P Require Import Prelude.

(** ** [f64] *)
Definition f64_mul : f64 → f64 → f64 := SFmul 53 1024.
Definition f64_div : f64 → f64 → f64 := SFdiv 53 1024.
Definition f64_add : f64 → f64 → f64 := SFadd 53 1024.
Definition f64_sub : f64 → f64 → f64 := SFsub 53 1024.

(** [x as u64]: towards zero, saturating. *)
Definition f64_as_u64 (x : f64) : Z :=
  match x with
  | S754_finite false m e => Z.min (u64_modulus - 1) (Z.shiftl (Z.pos m) e)
  | S754_infinity false => u64_modulus - 1
  | _ => 0
  end.

(** [x.round() as usize]: half away from zero, saturating. *)
Definition f64_round_usize (x : f64) : Z :=
  match x with
  | S754_finite false m e =>
      Z.min usize_max (if 0 <=? e then Z.pos m * 2 ^ e else (2 * Z.pos m + 2 ^ (- e)) / (2 * 2 ^ (- e)))%Z
  | S754_infinity false => usize_max
  | _ => 0
  end.

(** ** [{:.N}] of an [f64] *)
Definition div_half_even (n d : Z) : Z :=
  let q := (n / d)%Z in
  let r := (2 * (n mod d))%Z in
  if (d <? r)%Z || ((r =? d)%Z && Z.odd q) then (q + 1)%Z else q.

Definition pad_left (fill : ascii) (width : nat) (s : str) : str := replicate (width - length s) fill ++ s.

(** [q / 10^prec], written out. *)
Definition show_fixed (prec : nat) (q : Z) : str :=
  let scale := (10 ^ Z.of_nat prec)%Z in
  show_Z (q / scale) ++
  match prec with
  | 0 => []
  | _ => lit "." ++ pad_left "0"%char prec (show_Z (q mod scale))
  end.

Definition fmt_f64 (prec : nat) (v : f64) : str :=
  let sign (s : bool) := if s then lit "-" else [] in
  match v with
  | S754_nan => lit "NaN"
  | S754_infinity s => sign s ++ lit "inf"
  | S754_zero s => sign s ++ show_fixed prec 0
  | S754_finite s m e =>
      let scaled := (Zpos m * 10 ^ Z.of_nat prec)%Z in
      sign s ++ show_fixed prec
        (if (0 <=? e)%Z then scaled * 2 ^ e else div_half_even scaled (2 ^ (- e)))%Z
  end.

(** [{:>W.N}]. *)
Definition fmt_right (width prec : nat) (v : f64) : str := pad_left " "%char width (fmt_f64 prec v).

(** [f64::min], the other operand when one is NaN. *)
Definition f64_min (a b : f64) : f64 :=
  match a, b with
  | S754_nan, _ => b
  | _, S754_nan => a
  | _, _ => if f64_lt b a then b else a
  end.

(** [{:x}] of a [u64], and [{:#x}]. *)
Fixpoint hex_digits (fuel : nat) (n : Z) (acc : str) : str :=
  match fuel with
  | 0 => acc
  | S fuel' =>
      let acc := default "0"%char (lit "0123456789abcdef" !! Z.to_nat (n mod 16)) :: acc in
      if (n <? 16)%Z then acc else hex_digits fuel' (n / 16) acc
  end.
Definition hex (n : Z) : str := hex_digits 16 n [].
Definition show_hex (n : Z) : str := lit "0x" ++ hex n.

(** ** Parsing *)
(** [u64::from_str]. *)
Definition parse_u64 (s : str) : option Z :=
  let digits := match s with "+"%char :: rest => rest | _ => s end in
  if bool_decide (digits = []) || negb (forallb is_ascii_digit digits) then None
  else
    let n := foldl (λ n c, 10 * n + (byte_val c - 48))%Z 0%Z digits in
    if (n <? u64_modulus)%Z then Some n else None.

(** [u32::from_str] and [u64::from_str_radix(_, 16)]. *)
Definition parse_u32 (s : str) : option Z := n ← parse_u64 s; if (n <? 2 ^ 32)%Z then Some n else None.

Definition hex_value (c : ascii) : option Z :=
  let b := byte_val c in
  if is_ascii_digit c then Some (b - 48)%Z
  else if ((97 <=? b) && (b <=? 102))%Z then Some (b - 87)%Z
  else if ((65 <=? b) && (b <=? 70))%Z then Some (b - 55)%Z
  else None.
Fixpoint hex_fold (n : Z) (s : str) : option Z :=
  match s with
  | [] => Some n
  | c :: s' => d ← hex_value c; hex_fold (16 * n + d)%Z s'
  end.
Definition parse_hex (s : str) : option Z :=
  let digits := match s with "+"%char :: rest => rest | _ => s end in
  if bool_decide (digits = []) then None
  else n ← hex_fold 0 digits; if (n <? u64_modulus)%Z then Some n else None.

(** ** Order of [f64] *)
Lemma f64_compare_antisym a b : SFcompare b a = CompOpp <$> SFcompare a b.
Proof.
  destruct a as [sa|sa| |sa ma ea], b as [sb|sb| |sb mb eb]; try (destruct sa); try (destruct sb); try done; cbn [SFcompare].
  all: rewrite (Z.compare_antisym ea eb); destruct (ea ?= eb)%Z; cbn; try done.
  - f_equal. change (Pos.compare_cont Eq mb ma) with (mb ?= ma)%positive. change (Pos.compare_cont Eq ma mb) with (ma ?= mb)%positive.
    by rewrite (Pos.compare_antisym ma mb).
  - f_equal. change (Pos.compare_cont Eq mb ma) with (mb ?= ma)%positive. change (Pos.compare_cont Eq ma mb) with (ma ?= mb)%positive.
    by rewrite (Pos.compare_antisym ma mb).
Qed.

Lemma f64_lt_asym a b : f64_lt a b = true → f64_lt b a = false.
Proof. unfold f64_lt, SFltb. rewrite (f64_compare_antisym a b). by destruct (SFcompare a b) as [[]|]. Qed.

Lemma f64_round_nonneg x : (0 ≤ f64_round_usize x)%Z.
Proof.
  assert (0 ≤ usize_max)%Z by done.
  destruct x as [[]|[]| |[] m e]; cbn [f64_round_usize]; try done. apply Z.min_glb; [done|].
  destruct (0 <=? e)%Z eqn:E; [apply Z.leb_le in E; apply Z.mul_nonneg_nonneg; [lia|by apply Z.pow_nonneg]|].
  apply Z.leb_gt in E. pose proof (Z.pow_pos_nonneg 2 (- e)) as Hp. apply Z.div_pos; lia.
Qed.
