(* ===== verification/Prog.v ===== *)
(** * Programs over the events of an environment

    A request handler is a finite program: at each event it hands something to
    the environment (shared state, a backend, the client) and goes on with
    whatever it is answered.  [wp] holds for every answer to every event; the
    books keep what an execution did. *)
From S2P Require Import Prelude.

Section Programs.
Context {E : Type → Type}.

Inductive prog (A : Type) : Type :=
  | Ret (a : A)
  | Vis (X : Type) (e : E X) (k : X → prog A).
Arguments Ret {A} a.
Arguments Vis {A} X e k.

Fixpoint bind {A B} (p : prog A) (f : A → prog B) : prog B :=
  match p with
  | Ret a => f a
  | Vis X e k => Vis X e (λ x, bind (k x) f)
  end.

Definition trigger {X} (e : E X) : prog X := Vis X e Ret.

(** ** Every execution *)
Context {S : Type} (account : ∀ X, E X → X → S → S).

Fixpoint wp {A} (p : prog A) (Q : A → S → Prop) (s : S) : Prop :=
  match p with
  | Ret a => Q a s
  | Vis X e k => ∀ x, wp (k x) Q (account X e x s)
  end.

Lemma wp_bind {A B} (p : prog A) (f : A → prog B) Q s :
  wp p (λ a s', wp (f a) Q s') s → wp (bind p f) Q s.
Proof using Type. revert s. induction p as [a|X e k IH]; intros s; simpl; [done|]. intros H x. apply IH, H. Qed.

Lemma wp_mono {A} (p : prog A) (P Q : A → S → Prop) s :
  wp p P s → (∀ a s', P a s' → Q a s') → wp p Q s.
Proof using Type. revert s. induction p as [a|X e k IH]; intros s; simpl; auto. Qed.

(** One execution, the answers chosen by [answer]. *)
Fixpoint run {A} (answer : ∀ X, S → E X → X) (p : prog A) (s : S) : A * S :=
  match p with
  | Ret a => (a, s)
  | Vis X e k => let x := answer X s e in run answer (k x) (account X e x s)
  end.

Lemma wp_run {A} answer (p : prog A) Q s : wp p Q s → Q (run answer p s).1 (run answer p s).2.
Proof using Type. revert s. induction p as [a|X e k IH]; intros s; simpl; auto. Qed.
End Programs.

Arguments prog E A : clear implicits.
Arguments Ret {E A} a.
Arguments Vis {E A} X e k.

#[global] Instance prog_ret {E} : MRet (prog E) := λ A a, Ret a.
#[global] Instance prog_bind {E} : MBind (prog E) := λ A B f p, bind p f.

(** *** [?] in a program *)
Definition tbind {E Er A B} (p : prog E (result Er A)) (f : A → prog E (result Er B)) : prog E (result Er B) :=
  p ≫= λ r, match r with Ok a => f a | Err e => Ret (Err e) end.
Notation "x ←? p ; k" := (tbind p (λ x, k)) (at level 20, p at level 100, k at level 200, right associativity).
Notation "p ;;? k" := (tbind p (λ _, k)) (at level 100, k at level 200, right associativity).

(** *** A deadline: the program is dropped after [n] events and answers nothing *)
Fixpoint timeout {E A} (n : nat) (p : prog E A) {struct p} : prog E (option A) :=
  match p with
  | Ret a => Ret (Some a)
  | Vis X e k => match n with 0 => Ret None | S n => Vis X e (λ x, timeout n (k x)) end
  end.

(** Runs the symbolic execution up to the next program of its own. *)
Ltac wp_steps :=
  repeat first [progress cbn [bind trigger wp mbind prog_bind mret prog_ret] | intro].

Lemma wp_timeout {E S A} (account : ∀ X, E X → X → S → S) n (p : prog E A) Q s :
  wp account p Q s → wp account (timeout n p) (λ r s', match r with Some a => Q a s' | None => True end) s.
Proof. revert n s. induction p as [a|X e k IH]; intros n s H; [exact H|]. destruct n as [|n]; [exact I|]. intros x. apply IH, H. Qed.

(** Two accounts of the same executions, and what they agree on. *)
Definition both {E S T} (n1 : ∀ X, E X → X → S → S) (n2 : ∀ X, E X → X → T → T) (X : Type) (e : E X) (x : X) (st : S * T) : S * T :=
  (n1 X e x st.1, n2 X e x st.2).
Lemma wp_both {E S T A} n1 n2 (R : S → T → Prop) (p : prog E A) Q1 Q2 s t :
  (∀ X e x s t, R s t → R (n1 X e x s) (n2 X e x t)) →
  wp n1 p Q1 s → wp n2 p Q2 t → R s t → wp (both n1 n2) p (λ r st, Q1 r st.1 ∧ Q2 r st.2 ∧ R st.1 st.2) (s, t).
Proof. intros HR. revert s t. induction p as [a|X e k IH]; intros s t H1 H2 H; [done|]. intros x. apply IH; [apply H1|apply H2|by apply HR]. Qed.

(** * Programs interleaved over a shared world

    Any number of programs over one world: a step is one event of one program,
    answered as [effect] allows; programs start at any time and are dropped at
    any event ([sys_drop], a cancelled future). *)
Section Interleaving.
Context {E : Type → Type} {S W A : Type}.
Context (account : ∀ X, E X → X → S → S) (effect : ∀ X, E X → X → W → W → Prop).
Context (spawn : prog E A → S → Prop).

Record System := mkSystem { sys_threads : list (prog E A * S); sys_world : W }.

Inductive sys_step : System → System → Prop :=
  | sys_spawn p s ts w : spawn p s → sys_step (mkSystem ts w) (mkSystem (ts ++ [(p, s)]) w)
  | sys_event i X (e : E X) k s x ts w w' :
      ts !! i = Some (Vis X e k, s) → effect X e x w w' →
      sys_step (mkSystem ts w) (mkSystem (<[i := (k x, account X e x s)]> ts) w')
  | sys_drop i ts w : sys_step (mkSystem ts w) (mkSystem (delete i ts) w).

Definition reaches : System → System → Prop := rtc sys_step.

(** Every event of every execution meets [pre]. *)
Fixpoint safe {B} (pre : ∀ X, E X → S → Prop) (p : prog E B) (s : S) : Prop :=
  match p with
  | Ret a => True
  | Vis X e k => pre X e s ∧ ∀ x, safe pre (k x) (account X e x s)
  end.

(** A world invariant [I] and what every thread may count on, [T]: kept when
    each event that meets [pre] keeps them, for its own thread and the others. *)
Lemma interleaving_invariant (pre : ∀ X, E X → S → Prop) (I : W → Prop) (T : S → W → Prop) w0 sys :
  (∀ p s w, spawn p s → I w → safe pre p s ∧ T s w) →
  (∀ X (e : E X) x s w w', I w → T s w → pre X e s → effect X e x w w' →
     I w' ∧ T (account X e x s) w' ∧ ∀ s', T s' w → T s' w') →
  I w0 → reaches (mkSystem [] w0) sys →
  I (sys_world sys) ∧ Forall (λ t, safe pre t.1 t.2 ∧ T t.2 (sys_world sys)) (sys_threads sys).
Proof using Type.
  intros Hspawn Hstep H0 Hr.
  assert (∀ a b, sys_step a b →
    I (sys_world a) ∧ Forall (λ t, safe pre t.1 t.2 ∧ T t.2 (sys_world a)) (sys_threads a) →
    I (sys_world b) ∧ Forall (λ t, safe pre t.1 t.2 ∧ T t.2 (sys_world b)) (sys_threads b)) as Hinv.
  { clear -Hspawn Hstep. intros a b Hs [HI HT]. destruct Hs as [p s ts w Hp|i X e k s x ts w w' Hi He|i ts w]; simpl in *.
    - split; [done|]. apply Forall_app. split; [done|]. constructor; [by apply Hspawn|constructor].
    - rewrite Forall_lookup in HT. destruct (HT _ _ Hi) as [[Hpre Hk] Ht]. simpl in *.
      destruct (Hstep _ _ _ _ _ _ HI Ht Hpre He) as (HI' & Ht' & Hothers). split; [done|].
      apply Forall_insert; [|simpl; auto].
      apply Forall_lookup. intros j t Hj. destruct (HT _ _ Hj). auto.
    - split; [done|]. by apply Forall_delete. }
  remember (mkSystem [] w0) as sys0 eqn:E0.
  assert (I (sys_world sys0) ∧ Forall (λ t, safe pre t.1 t.2 ∧ T t.2 (sys_world sys0)) (sys_threads sys0)) as Hi
    by (subst; by split; [|constructor]).
  clear E0. induction Hr; eauto.
Qed.

Lemma safe_bind {B C} pre (p : prog E B) (f : B → prog E C) s :
  safe pre p s → wp account p (λ b s', safe pre (f b) s') s → safe pre (bind p f) s.
Proof using Type.
  revert s. induction p as [b|X e k IH]; intros s; simpl; [done|].
  intros [Hp Hk] Hw. split; [done|]. intros x. apply IH; auto.
Qed.

(** Every event meets [pre], and every result [Q]. *)
Fixpoint swp {B} (pre : ∀ X, E X → S → Prop) (p : prog E B) (Q : B → S → Prop) (s : S) : Prop :=
  match p with
  | Ret a => Q a s
  | Vis X e k => pre X e s ∧ ∀ x, swp pre (k x) Q (account X e x s)
  end.

Lemma swp_bind {B C} pre (p : prog E B) (f : B → prog E C) Q s :
  swp pre p (λ b s', swp pre (f b) Q s') s → swp pre (bind p f) Q s.
Proof using Type. revert s. induction p as [b|X e k IH]; intros s; simpl; [done|]. intros [? Hk]. auto. Qed.

Lemma swp_mono {B} pre (p : prog E B) (P Q : B → S → Prop) s :
  swp pre p P s → (∀ b s', P b s' → Q b s') → swp pre p Q s.
Proof using Type. revert s. induction p as [b|X e k IH]; intros s; simpl; [auto|]. intros [? Hk] HPQ. eauto. Qed.

Lemma swp_safe {B} pre (p : prog E B) Q s : swp pre p Q s → safe pre p s.
Proof using Type. revert s. induction p as [b|X e k IH]; intros s; simpl; [done|]. intros [? Hk]. auto. Qed.
End Interleaving.

Arguments mkSystem {E S W A} _ _.
Arguments sys_threads {E S W A} _.
Arguments sys_world {E S W A} _.
