(* ===== verification/Node.v ===== *)
(** * Backend nodes (llama-proxy/src/backends/node.rs)

    The shared node store, failure cooldown, and the two URL/path strippers.
    A [BackendNode] lives behind an [Arc]; the store [heap] is the memory those
    [Arc]s point to and a [NodeRef] is such a pointer, so two balancer slots (or
    a guard and a balancer) that share a node alias the same counters. *)
From S2P Require Import Prelude.

(** [Instant]s and [Duration]s in nanoseconds; an [Instant] holds an [i64]
    number of seconds on the platforms the proxy runs on. *)
Abbreviation Instant := Z (only parsing).
Abbreviation Duration := Z (only parsing).
Definition ns_per_sec : Z := 1000000000.
Definition instant_max : Z := 2 ^ 63 * ns_per_sec - 1.

Definition instant_checked_add (t : Instant) (d : Duration) : option Instant :=
  if (t + d <=? instant_max)%Z then Some (t + d)%Z else None.

Definition COOLDOWN_CLAMP_CAP : Duration := 24 * 60 * 60 * ns_per_sec.

(** The HTTP client is opaque third-party data and is left out. *)
Record BackendNode := mkNode {
  url : str;
  model : option str;
  api_key : option str;
  timeout_seconds : Z;
  active_requests : Z;
  strip_path_prefix : option str;
  temperature : option f64;
  healthy : bool;
  cooldown_until : Instant;
}.

#[export] Instance BackendNode_inhabited : Inhabited BackendNode :=
  populate (mkNode [] None None 0 0 None None true 0).

Abbreviation NodeRef := nat (only parsing).
Abbreviation heap := (list BackendNode) (only parsing).

(** [BackendNode::from_config]; [client] is the outcome of building the HTTP
    client and [now] the clock reading. *)
Definition from_config (client : result str unit) (now : Instant) (url : str)
    (timeout_seconds : Z) (model api_key strip_path_prefix : option str)
    (temperature : option f64) : result str BackendNode :=
  _ ← client;
  Ok (mkNode url model api_key timeout_seconds 0 strip_path_prefix temperature true now).

Definition set_active (a : Z) (n : BackendNode) : BackendNode :=
  mkNode (url n) (model n) (api_key n) (timeout_seconds n) a (strip_path_prefix n)
    (temperature n) (healthy n) (cooldown_until n).

Definition set_health (hl : bool) (t : Instant) (n : BackendNode) : BackendNode :=
  mkNode (url n) (model n) (api_key n) (timeout_seconds n) (active_requests n)
    (strip_path_prefix n) (temperature n) hl t.

(** [BackendNode::mark_failed] at clock reading [now]. *)
Definition mark_failed (now : Instant) (cooldown : Duration) (n : BackendNode) : BackendNode :=
  let expiry :=
    match instant_checked_add now cooldown with
    | Some e => e
    | None => default now (instant_checked_add now COOLDOWN_CLAMP_CAP)
    end in
  set_health false expiry n.

Definition mark_healthy (n : BackendNode) : BackendNode :=
  set_health true (cooldown_until n) n.

Definition in_cooldown (now : Instant) (n : BackendNode) : bool :=
  negb (healthy n) && (now <? cooldown_until n)%Z.

Definition cooldown_expiry (n : BackendNode) : Instant := cooldown_until n.

Definition base_url (n : BackendNode) : str := trim_end_matches "/"%char (url n).

Definition strip_at_segment_boundary (path prefix : str) : str :=
  match strip_prefix path prefix with
  | None => path
  | Some rest =>
      if bool_decide (rest = []) || starts_with rest (lit "/") || ends_with prefix (lit "/")
      then rest
      else path
  end.

Definition effective_path (n : BackendNode) (path : str) : str :=
  match strip_path_prefix n with
  | Some prefix => strip_at_segment_boundary path prefix
  | None => path
  end.

Definition node_url (base path : str) (prefix : option str) : str :=
  let native :=
    match prefix with
    | Some p => strip_at_segment_boundary path p
    | None => path
    end in
  base ++ native.

(** A request builder by its headers: the header of the key is added last. *)
Definition with_auth (req : list (str * str)) (key : option str) : list (str * str) :=
  match key with
  | Some key => req ++ [(lit "authorization", lit "Bearer " ++ key)]
  | None => req
  end.

(** [min_by_key] keeps the first minimum; [None] is the [expect] panic on an
    empty node set. *)
Fixpoint min_by_expiry (best : NodeRef) (nodes : list NodeRef) (h : heap) : NodeRef :=
  match nodes with
  | [] => best
  | r :: rest =>
      if (cooldown_expiry (h !!! r) <? cooldown_expiry (h !!! best))%Z
      then min_by_expiry r rest h
      else min_by_expiry best rest h
  end.

Definition soonest_recovering_node (nodes : list NodeRef) (h : heap) : option NodeRef :=
  match nodes with
  | [] => None
  | r :: rest => Some (min_by_expiry r rest h)
  end.

(** ** The counter as an atomic cell *)

(** [active_requests.fetch_add(k)] ([k] may be negative: [fetch_sub]). *)
Definition bump (k : Z) (r : NodeRef) (h : heap) : heap :=
  alter (λ n, set_active (wrap_usize (active_requests n + k)) n) r h.

(** Every reachable counter is a [usize] strictly below [usize::MAX]. *)
Definition counters_ok (h : heap) : Prop :=
  Forall (λ n, 0 ≤ active_requests n < usize_max)%Z h.

Definition counters_usize (h : heap) : Prop :=
  Forall (λ n, 0 ≤ active_requests n ≤ usize_max)%Z h.

(** * Facts *)
Implicit Types (h : list BackendNode).

Lemma with_auth_spec req key f :
  f ∈ with_auth req key ↔ f ∈ req ∨ ∃ k, key = Some k ∧ f = (lit "authorization", lit "Bearer " ++ k).
Proof. destruct key; cbn; [rewrite elem_of_app, list_elem_of_singleton|]; naive_solver. Qed.

(** ** Cooldown *)

(** A failed node is excluded exactly until its expiry, the expiry being the
    requested window when it fits the clock and at most 24h otherwise. *)
Lemma mark_failed_in_cooldown now d n t :
  in_cooldown t (mark_failed now d n)
  = (t <? match instant_checked_add now d with
          | Some e => e
          | None => default now (instant_checked_add now COOLDOWN_CLAMP_CAP)
          end)%Z.
Proof. reflexivity. Qed.

Lemma mark_failed_expiry_bounds now d n :
  (0 ≤ d)%Z → (now ≤ instant_max)%Z →
  (now ≤ cooldown_expiry (mark_failed now d n) ≤ instant_max)%Z
  ∧ (cooldown_expiry (mark_failed now d n) ≤ now + Z.max d COOLDOWN_CLAMP_CAP)%Z.
Proof.
  intros Hd Hnow. unfold mark_failed, cooldown_expiry, instant_checked_add. simpl.
  assert (0 ≤ COOLDOWN_CLAMP_CAP)%Z by (vm_compute; congruence).
  destruct (Z.leb_spec (now + d) instant_max); simpl; [lia|].
  destruct (Z.leb_spec (now + COOLDOWN_CLAMP_CAP) instant_max); simpl; lia.
Qed.

Lemma mark_healthy_selectable now n : in_cooldown now (mark_healthy n) = false.
Proof. done. Qed.

(** ** Soonest-recovering node *)
Lemma min_by_expiry_spec best nodes h :
  let r := min_by_expiry best nodes h in
  r ∈ best :: nodes ∧
  (∀ r', r' ∈ best :: nodes → cooldown_expiry (h !!! r) ≤ cooldown_expiry (h !!! r'))%Z.
Proof.
  revert best. induction nodes as [|r nodes IH]; intros best; simpl.
  - split; [set_solver|]. intros r' Hr'. assert (r' = best) as -> by set_solver. lia.
  - destruct (Z.ltb_spec (cooldown_expiry (h !!! r)) (cooldown_expiry (h !!! best)));
      [specialize (IH r)|specialize (IH best)]; simpl in IH; destruct IH as [Hin Hmin];
      (split; [set_solver|]); intros r' Hr';
      [pose proof (Hmin r ltac:(set_solver))|pose proof (Hmin best ltac:(set_solver))];
      rewrite !elem_of_cons in Hr'; destruct Hr' as [->|[->|Hr']];
      first [lia | apply Hmin; set_solver].
Qed.

Lemma soonest_recovering_node_spec nodes h r :
  soonest_recovering_node nodes h = Some r →
  r ∈ nodes ∧ ∀ r', r' ∈ nodes → (cooldown_expiry (h !!! r) ≤ cooldown_expiry (h !!! r'))%Z.
Proof. destruct nodes as [|r0 nodes]; [done|]. intros [= <-]. apply min_by_expiry_spec. Qed.

(** ** Segment stripping *)
Lemma strip_at_segment_boundary_suffix path prefix :
  strip_at_segment_boundary path prefix `suffix_of` path.
Proof.
  unfold strip_at_segment_boundary. destruct (strip_prefix path prefix) as [rest|] eqn:E; [|done].
  apply strip_prefix_Some in E as ->. destruct (_ || _); [by eexists|done].
Qed.

(** ** Counter algebra *)
Lemma wrap_usize_small z : (0 ≤ z ≤ usize_max)%Z → wrap_usize z = z.
Proof. unfold wrap_usize, usize_max. intros. apply Z.mod_small. lia. Qed.

Lemma wrap_usize_add z k : wrap_usize (wrap_usize z + k) = wrap_usize (z + k).
Proof. unfold wrap_usize. apply Zplus_mod_idemp_l. Qed.

Lemma length_bump k r h : length (bump k r h) = length h.
Proof. apply length_alter. Qed.

Lemma bump_bump k1 k2 r h : bump k1 r (bump k2 r h) = bump (k2 + k1) r h.
Proof.
  unfold bump. rewrite list_alter_alter_eq. apply list_alter_ext; [|done]. intros n _. simpl.
  unfold set_active; simpl. by rewrite wrap_usize_add, Z.add_assoc.
Qed.

Lemma bump_comm k1 k2 r1 r2 h : bump k1 r1 (bump k2 r2 h) = bump k2 r2 (bump k1 r1 h).
Proof.
  destruct (decide (r1 = r2)) as [->|Hne].
  - rewrite !bump_bump. f_equal. lia.
  - unfold bump. by apply list_alter_alter_ne.
Qed.

Lemma bump_0 r h : counters_usize h → bump 0 r h = h.
Proof.
  intros Hok. unfold bump. etrans; [|apply (list_alter_id id h r); done].
  apply list_alter_ext; [|done]. intros n Hn.
  apply (Forall_lookup_1 _ _ _ _ Hok) in Hn. destruct n; unfold set_active; simpl in *.
  by rewrite Z.add_0_r, wrap_usize_small by lia.
Qed.

Lemma lookup_total_bump k r h r' :
  r' < length h →
  bump k r h !!! r' = if decide (r = r')
    then set_active (wrap_usize (active_requests (h !!! r') + k)) (h !!! r')
    else h !!! r'.
Proof.
  intros Hlt. apply list_lookup_total_correct. unfold bump. case_decide; subst.
  - rewrite list_lookup_alter_eq.
    by rewrite (list_lookup_lookup_total_lt h r' Hlt).
  - rewrite list_lookup_alter_ne by done. by apply list_lookup_lookup_total_lt.
Qed.

Lemma active_bump k r h r' :
  r' < length h → (0 ≤ active_requests (h !!! r') + (if decide (r = r') then k else 0) ≤ usize_max)%Z →
  active_requests (bump k r h !!! r')
  = (active_requests (h !!! r') + if decide (r = r') then k else 0)%Z.
Proof.
  intros Hlt Hb. rewrite lookup_total_bump by done. case_decide; simpl; [|lia].
  by rewrite wrap_usize_small.
Qed.

Lemma counters_ok_usize h : counters_ok h → counters_usize h.
Proof. intros H. eapply Forall_impl; [exact H|]. simpl. lia. Qed.

Lemma counters_usize_bump k r h : counters_usize h → counters_usize (bump k r h).
Proof.
  intros H. apply Forall_lookup. intros i n. unfold bump. rewrite list_lookup_alter.
  case_decide; subst; [|by intros; eapply (Forall_lookup_1 _ _ _ _ H)].
  intros (n' & _ & ->)%fmap_Some. unfold wrap_usize, usize_max. simpl.
  pose proof (Z.mod_pos_bound (active_requests n' + k) (2 ^ 64)). lia.
Qed.

Lemma bump_cancel k r h : counters_usize h → bump (- k) r (bump k r h) = h.
Proof. intros. rewrite bump_bump, Z.add_opp_diag_r. by apply bump_0. Qed.

(** Bumping never touches cooldown state. *)
Lemma in_cooldown_bump now k r h r' :
  in_cooldown now (bump k r h !!! r') = in_cooldown now (h !!! r').
Proof.
  destruct (decide (r' < length h)).
  - rewrite lookup_total_bump by done. by case_decide.
  - by rewrite !list_lookup_total_alt, !lookup_ge_None_2 by (rewrite ?length_bump; lia).
Qed.

#[export] Hint Rewrite in_cooldown_bump length_bump : lm.
