(* ===== verification/Balancer.v ===== *)
(** * The load-balancer contract (llama-proxy/src/backends/balancer.rs)

    [BackendGuard] and its slot release, the node-visit order every strategy
    shares, the [LoadBalancer] trait as a type class, and the laws a strategy
    promises to its clients. *)
From S2P Require Import Prelude Node.

(** ** Guards *)
Record BackendGuard := mkGuard {
  _busy : NodeRef;         (** the node whose counter this claim sits on *)
  node : NodeRef;
  group_name : option str;
}.

Definition from_claimed (r : NodeRef) : BackendGuard := mkGuard r r None.

(** [BackendGuard::new]: [fetch_add(1)], then wrap the claim. *)
Definition guard_new (r : NodeRef) (h : heap) : BackendGuard * heap :=
  (from_claimed r, bump 1 r h).

(** [BusyHandle::drop], run when the last clone of a guard drops: [fetch_sub],
    undone when the counter was already zero. *)
Definition busy_drop (g : BackendGuard) (h : heap) : heap :=
  let prev := active_requests (h !!! _busy g) in
  let h1 := bump (-1) (_busy g) h in
  if (prev =? 0)%Z then bump 1 (_busy g) h1 else h1.

(** ** Visit order: [(start % len + step) % len] for [step] in [0..len]. *)
Definition visit_index (len : nat) (start : Z) (step : nat) : nat :=
  Z.to_nat ((start mod Z.of_nat len + Z.of_nat step) mod Z.of_nat len).

Definition candidate_order (nodes : list NodeRef) (start : Z) : list (nat * NodeRef) :=
  (λ step, let idx := visit_index (length nodes) start step in (idx, nodes !!! idx))
    <$> seq 0 (length nodes).

(** ** The [LoadBalancer] trait.

    [select] reads the clock ([Instant]) and threads the balancer's interior
    counters and the node store; [None] is a panic. *)
Definition NoMatchingBackend : Type := option str.

Class LoadBalancer (B : Type) := {
  select : B → Instant → option str → heap →
           option (result NoMatchingBackend BackendGuard * B * heap);
  strategy_name : B → str;
  all_nodes : B → list NodeRef;
}.

(** What a balancer over well-formed state promises: it never panics, a
    successful select claims exactly one slot, on one of its own nodes, and
    leaves every other counter and every cooldown alone; a refused one changes
    no node. *)
Definition nodes_ok (nodes : list NodeRef) (h : heap) : Prop :=
  nodes ≠ [] ∧ Forall (λ r, r < length h) nodes ∧ counters_ok h.

Definition claims_one (nodes : list NodeRef) (h : heap)
    (r : result NoMatchingBackend BackendGuard) (h' : heap) : Prop :=
  match r with
  | Ok g => node g ∈ nodes ∧ _busy g = node g ∧ h' = bump 1 (node g) h
  | Err _ => h' = h
  end.

Class LoadBalancerLaws (B : Type) `{LoadBalancer B} (wf : B → heap → Prop) := {
  select_no_panic b now m h : wf b h → is_Some (select b now m h);
  select_claims_one b now m h r b' h' :
    wf b h → select b now m h = Some (r, b', h') → claims_one (all_nodes b) h r h';
  select_keeps_nodes b now m h r b' h' :
    wf b h → select b now m h = Some (r, b', h') → all_nodes b' = all_nodes b;
}.

(** A single-group strategy additionally never refuses. *)
Class NeverRefuses (B : Type) `{LoadBalancer B} (wf : B → heap → Prop) := {
  select_never_refuses b now m h r b' h' :
    wf b h → select b now m h = Some (r, b', h') → is_ok r = true;
}.

(** * Facts *)
Lemma visit_index_lt len start step : 0 < len → visit_index len start step < len.
Proof.
  intros H. unfold visit_index.
  pose proof (Z.mod_pos_bound (start mod Z.of_nat len + Z.of_nat step) (Z.of_nat len)). lia.
Qed.

Lemma visit_index_inj len start i j :
  i < len → j < len → visit_index len start i = visit_index len start j → i = j.
Proof.
  intros Hi Hj. unfold visit_index. intros E.
  pose proof (Z.mod_pos_bound start (Z.of_nat len) ltac:(lia)) as Hs.
  apply Z2Nat.inj in E; [|apply Z.mod_pos_bound; lia..].
  set (s := (start mod Z.of_nat len)%Z) in *.
  assert (∀ k : nat, k < len → ((s + Z.of_nat k) mod Z.of_nat len =
    if decide (s + Z.of_nat k < Z.of_nat len) then s + Z.of_nat k else s + Z.of_nat k - Z.of_nat len)%Z)
    as Hk.
  { intros k Hk. case_decide; [apply Z.mod_small; lia|].
    replace (s + Z.of_nat k)%Z with ((s + Z.of_nat k - Z.of_nat len) + 1 * Z.of_nat len)%Z at 1 by lia.
    rewrite Z.mod_add by lia. apply Z.mod_small. lia. }
  rewrite !Hk in E by done. repeat case_decide; lia.
Qed.

Lemma visit_index_0 len step : step < len → visit_index len 0 step = step.
Proof.
  intros H. unfold visit_index. rewrite Z.mod_0_l by lia. rewrite Z.mod_small by lia. lia.
Qed.

Lemma candidate_order_nil start : candidate_order [] start = [].
Proof. done. Qed.

Lemma length_candidate_order nodes start : length (candidate_order nodes start) = length nodes.
Proof. unfold candidate_order. by rewrite length_fmap, length_seq. Qed.

Lemma candidate_order_lookup nodes start idx r :
  (idx, r) ∈ candidate_order nodes start → idx < length nodes ∧ r = nodes !!! idx ∧ r ∈ nodes.
Proof.
  unfold candidate_order. rewrite list_elem_of_fmap. intros (step & E & Hs). simplify_eq.
  apply elem_of_seq in Hs. pose proof (visit_index_lt (length nodes) start step ltac:(lia)).
  split; [done|]. split; [done|]. by apply list_elem_of_lookup_total_2.
Qed.

(** The walk visits every slot exactly once. *)
Lemma candidate_order_indices nodes start :
  (candidate_order nodes start).*1 ≡ₚ seq 0 (length nodes).
Proof.
  assert ((candidate_order nodes start).*1
    = visit_index (length nodes) start <$> seq 0 (length nodes)) as ->.
  { unfold candidate_order. by rewrite <- list_fmap_compose. }
  apply submseteq_length_Permutation; [|by rewrite length_fmap].
  apply NoDup_submseteq.
  - apply NoDup_fmap_2_strong; [|apply NoDup_seq]. intros i j Hi Hj.
    apply elem_of_seq in Hi, Hj. apply visit_index_inj; lia.
  - intros i. rewrite list_elem_of_fmap. intros (k & -> & Hk). apply elem_of_seq in Hk.
    apply elem_of_seq. pose proof (visit_index_lt (length nodes) start k). lia.
Qed.

Lemma candidate_order_complete nodes start i :
  i < length nodes → (i, nodes !!! i) ∈ candidate_order nodes start.
Proof.
  intros Hi. assert (i ∈ (candidate_order nodes start).*1) as Hin.
  { rewrite candidate_order_indices. apply elem_of_seq. lia. }
  apply list_elem_of_fmap in Hin as ([j r] & -> & Hin). simpl in *.
  by pose proof (candidate_order_lookup _ _ _ _ Hin) as (_ & -> & _).
Qed.

Lemma candidate_order_from_0 nodes :
  candidate_order nodes 0 = (λ i, (i, nodes !!! i)) <$> seq 0 (length nodes).
Proof.
  unfold candidate_order. apply list_fmap_ext. intros k i Hi. apply lookup_seq in Hi as [-> ?].
  by rewrite visit_index_0.
Qed.

Lemma fmap_lookup_total_seq (nodes : list NodeRef) :
  (λ i, nodes !!! i) <$> seq 0 (length nodes) = nodes.
Proof.
  apply list_eq. intros i. rewrite list_lookup_fmap.
  destruct (decide (i < length nodes)).
  - rewrite lookup_seq_lt by done. simpl. by rewrite list_lookup_lookup_total_lt.
  - rewrite !lookup_ge_None_2; rewrite ?length_seq; [done|lia..].
Qed.

Lemma candidate_order_nodes nodes start : (candidate_order nodes start).*2 ≡ₚ nodes.
Proof.
  assert ((candidate_order nodes start).*2
    = (λ i, nodes !!! i) <$> (candidate_order nodes start).*1) as ->.
  { unfold candidate_order. by rewrite <- !list_fmap_compose. }
  rewrite candidate_order_indices. by rewrite fmap_lookup_total_seq.
Qed.
