(* ===== verification/RoundRobin.v ===== *)
(** * The round-robin strategy (llama-proxy/src/backends/round_robin.rs) *)
From S2P Require Import Prelude Node Balancer.

Record RoundRobinBalancer := mkRR {
  rr_nodes : list NodeRef;
  counter : Z;
  rr_all_cooled_fallbacks : Z;
}.

Definition rr_new (nodes : list NodeRef) : result str RoundRobinBalancer :=
  if bool_decide (nodes = []) then Err (lit "RoundRobinBalancer requires at least one node")
  else Ok (mkRR nodes 0 0).

(** [RoundRobinBalancer::select]; the warning it may log is not modelled. *)
Definition rr_select (b : RoundRobinBalancer) (now : Instant) (_model : option str) (h : heap)
    : option (result NoMatchingBackend BackendGuard * RoundRobinBalancer * heap) :=
  let start := counter b in
  let counter' := wrap_usize (start + 1) in
  match List.find (λ '(_, r), negb (in_cooldown now (h !!! r)))
          (candidate_order (rr_nodes b) start) with
  | Some (_, r) =>
      let '(g, h') := guard_new r h in
      Some (Ok g, mkRR (rr_nodes b) counter' (rr_all_cooled_fallbacks b), h')
  | None =>
      let fallbacks' := (rr_all_cooled_fallbacks b + 1) mod u64_modulus in
      r ← soonest_recovering_node (rr_nodes b) h;
      let '(g, h') := guard_new r h in
      Some (Ok g, mkRR (rr_nodes b) counter' fallbacks', h')
  end%Z.

#[export] Instance rr_balancer : LoadBalancer RoundRobinBalancer := {
  select := rr_select;
  strategy_name _ := lit "round_robin";
  all_nodes := rr_nodes;
}.

Definition rr_wf (b : RoundRobinBalancer) (h : heap) : Prop := nodes_ok (rr_nodes b) h.

(** Selecting once per clock reading of [nows], every guard kept alive: the
    nodes served, in order. *)
Fixpoint rr_run (b : RoundRobinBalancer) (nows : list Instant) (m : option str) (h : heap)
    : option (list NodeRef) :=
  match nows with
  | [] => Some []
  | now :: nows' =>
      match rr_select b now m h with
      | Some (Ok g, b', h') => cons (node g) <$> rr_run b' nows' m h'
      | _ => None
      end
  end.

(** * Facts *)
Implicit Types (h : list BackendNode) (m : option str).
Lemma rr_find_in b now h i r :
  List.find (λ '(_, r), negb (in_cooldown now (h !!! r)))
    (candidate_order (rr_nodes b) (counter b)) = Some (i, r) →
  r ∈ rr_nodes b ∧ in_cooldown now (h !!! r) = false.
Proof.
  intros H. apply List.find_some in H as [Hin Hc].
  apply list_elem_of_In, candidate_order_lookup in Hin as (_ & _ & ?).
  by apply negb_true_iff in Hc.
Qed.

Lemma rr_select_cases b now m h r b' h' :
  rr_select b now m h = Some (r, b', h') →
  ∃ n, r = Ok (from_claimed n) ∧ n ∈ rr_nodes b ∧ h' = bump 1 n h ∧ rr_nodes b' = rr_nodes b
     ∧ counter b' = wrap_usize (counter b + 1)
     ∧ (in_cooldown now (h !!! n) = false
        ∨ (∀ n', n' ∈ rr_nodes b →
             in_cooldown now (h !!! n') = true
             ∧ cooldown_expiry (h !!! n) ≤ cooldown_expiry (h !!! n'))%Z).
Proof.
  unfold rr_select, guard_new. destruct (List.find _ _) as [[i n]|] eqn:E.
  - intros [= <- <- <-]. apply rr_find_in in E as [??]. exists n. eauto 10.
  - destruct (soonest_recovering_node _ _) as [n|] eqn:Es; [|done].
    intros [= <- <- <-]. apply soonest_recovering_node_spec in Es as [Hin Hmin].
    exists n. do 5 (split; [done|]). right. intros n' Hn'. split; [|by apply Hmin].
    apply list_elem_of_lookup_total_1 in Hn' as (k & Hk & <-).
    pose proof (List.find_none _ _ E (k, _)
      (proj1 (list_elem_of_In _ _) (candidate_order_complete _ _ k Hk))) as Hn.
    by apply negb_false_iff in Hn.
Qed.

#[export] Instance rr_laws : LoadBalancerLaws RoundRobinBalancer rr_wf.
Proof.
  split.
  - intros b now m h (Hne & _). unfold select; simpl. unfold rr_select.
    destruct (List.find _ _) as [[i n]|]; [by eexists|].
    destruct (rr_nodes b); [done|]. by eexists.
  - intros b now m h r b' h' _ (n & -> & Hin & -> & _)%rr_select_cases. done.
  - intros b now m h r b' h' _ (n & -> & Hin & -> & Hn & _)%rr_select_cases. done.
Qed.

#[export] Instance rr_never_refuses : NeverRefuses RoundRobinBalancer rr_wf.
Proof. split. by intros b now m h r b' h' _ (n & -> & _)%rr_select_cases. Qed.

Lemma find_head {A} (f : A → bool) x l : f x = true → List.find f (x :: l) = Some x.
Proof. intros H. simpl. by rewrite H. Qed.

Lemma rr_select_healthy b now m h :
  rr_nodes b ≠ [] → (∀ r, r ∈ rr_nodes b → healthy (h !!! r) = true) →
  rr_select b now m h =
    let r := rr_nodes b !!! Z.to_nat (counter b mod Z.of_nat (length (rr_nodes b))) in
    Some (Ok (from_claimed r),
          mkRR (rr_nodes b) (wrap_usize (counter b + 1)) (rr_all_cooled_fallbacks b), bump 1 r h).
Proof.
  intros Hne Hh. unfold rr_select, guard_new. simpl.
  destruct (rr_nodes b) as [|r0 rs] eqn:E; [done|].
  pose proof (candidate_order_lookup (r0 :: rs) (counter b)) as Hl. revert Hl.
  unfold candidate_order. simpl seq. rewrite fmap_cons. intros Hl.
  rewrite find_head.
  - unfold visit_index. rewrite Z.add_0_r, Z.mod_mod by (simpl; lia). done.
  - unfold in_cooldown. rewrite Hh; [done|]. eapply Hl. by left.
Qed.

Lemma healthy_bump k r h r' : healthy (bump k r h !!! r') = healthy (h !!! r').
Proof.
  destruct (decide (r' < length h)).
  - rewrite lookup_total_bump by done. by case_decide.
  - by rewrite !list_lookup_total_alt, !lookup_ge_None_2 by (rewrite ?length_bump; lia).
Qed.

Lemma wrap_usize_counter c n : (0 ≤ c → 0 ≤ n → c + n < 2 ^ 64 → wrap_usize (c + n) = c + n)%Z.
Proof. intros. apply wrap_usize_small. unfold usize_max. lia. Qed.

(** Rotation: while every node is healthy and the counter does not wrap, the
    [k]-th select serves slot [(counter + k) mod len]. *)
Lemma rr_rotates b nows m h :
  rr_nodes b ≠ [] → (∀ r, r ∈ rr_nodes b → healthy (h !!! r) = true) →
  (0 ≤ counter b)%Z → (counter b + Z.of_nat (length nows) < 2 ^ 64)%Z →
  rr_run b nows m h =
    Some ((λ k, rr_nodes b !!! Z.to_nat ((counter b + Z.of_nat k) mod Z.of_nat (length (rr_nodes b))))
      <$> seq 0 (length nows)).
Proof.
  revert b h. induction nows as [|now nows IH]; intros b h Hne Hh Hc Hw; [done|].
  simpl rr_run. rewrite rr_select_healthy by done. simpl in Hw |- *.
  rewrite wrap_usize_counter by lia.
  rewrite IH; simpl; [|done| |lia|lia].
  - f_equal. f_equal; [by rewrite Z.add_0_r|].
    rewrite <- fmap_S_seq, <- list_fmap_compose. apply list_fmap_ext. intros i k _. simpl.
    do 3 f_equal. lia.
  - intros r Hr. rewrite healthy_bump. by apply Hh.
Qed.

(** Fairness: while every node is healthy, [len] consecutive selects serve
    every slot exactly once, wherever the counter stands. *)
Theorem rr_fair b nows m h :
  rr_nodes b ≠ [] → (∀ r, r ∈ rr_nodes b → healthy (h !!! r) = true) →
  (0 ≤ counter b)%Z → (counter b + Z.of_nat (length nows) < 2 ^ 64)%Z →
  length nows = length (rr_nodes b) →
  ∃ served, rr_run b nows m h = Some served ∧ served ≡ₚ rr_nodes b.
Proof.
  intros Hne Hh Hc Hw Hlen. eexists. split; [by apply rr_rotates|].
  etrans; [|apply (candidate_order_nodes (rr_nodes b) (counter b))].
  unfold candidate_order. rewrite <- list_fmap_compose, Hlen. apply reflexive_eq.
  apply list_fmap_ext. intros i k _. simpl. unfold visit_index.
  by rewrite Zplus_mod_idemp_l.
Qed.
