(* ===== verification/PriorityFree.v ===== *)
(** * The priority-free strategy (llama-proxy/src/backends/priority_free.rs)

    [pf_select] is one [select] run without interference.  The concurrent
    behaviour, one atomic operation at a time, is in [PriorityFreeConc]. *)
From S2P Require Import Prelude Node Balancer.

Record PriorityFreeBalancer := mkPF {
  pf_nodes : list NodeRef;
  pf_all_cooled_fallbacks : Z;
}.

Definition pf_new (nodes : list NodeRef) : result str PriorityFreeBalancer :=
  if bool_decide (nodes = []) then Err (lit "PriorityFreeBalancer requires at least one node")
  else Ok (mkPF nodes 0).

(** The counter half of [warn_all_cooled]; the warning itself is logging. *)
Definition warn_all_cooled (b : PriorityFreeBalancer) : PriorityFreeBalancer :=
  mkPF (pf_nodes b) ((pf_all_cooled_fallbacks b + 1) mod u64_modulus)%Z.

(** First walk: skip cooled nodes, [compare_exchange(0, 1)] the others. *)
Fixpoint free_claim (order : list (nat * NodeRef)) (now : Instant) (h : heap)
    : option (NodeRef * heap) :=
  match order with
  | [] => None
  | (_, r) :: rest =>
      if in_cooldown now (h !!! r) then free_claim rest now h
      else if (active_requests (h !!! r) =? 0)%Z
      then Some (r, alter (set_active 1) r h)
      else free_claim rest now h
  end.

(** Second walk: reserve every non-cooled candidate, remembering the least
    loaded one ([best_idx], [best_load]) and the reserved indices. *)
Record Scan := mkScan {
  best_idx : option nat;
  best_load : Z;
  reserved : list nat;
}.

Definition scan_init : Scan := mkScan None usize_max [].

Definition scan_step (now : Instant) (acc : Scan * heap) (c : nat * NodeRef) : Scan * heap :=
  let '(s, h) := acc in
  let '(idx, r) := c in
  if in_cooldown now (h !!! r) then (s, h)
  else
    let load := active_requests (h !!! r) in
    let h' := bump 1 r h in
    let reserved' := reserved s ++ [idx] in
    if (load <? best_load s)%Z
    then (mkScan (Some idx) load reserved', h')
    else (mkScan (best_idx s) (best_load s) reserved', h').

Definition reserve_scan (order : list (nat * NodeRef)) (now : Instant) (h : heap) : Scan * heap :=
  foldl (scan_step now) (scan_init, h) order.

(** Release of every reserved candidate but the best. *)
Definition release_others (nodes : list NodeRef) (best : nat) (idxs : list nat) (h : heap) : heap :=
  foldl (λ h idx, if decide (idx = best) then h else bump (-1) (nodes !!! idx) h) h idxs.

Definition pf_select (b : PriorityFreeBalancer) (now : Instant) (_model : option str) (h : heap)
    : option (result NoMatchingBackend BackendGuard * PriorityFreeBalancer * heap) :=
  let nodes := pf_nodes b in
  match free_claim (candidate_order nodes 0) now h with
  | Some (r, h') => Some (Ok (from_claimed r), b, h')
  | None =>
      let '(s, h1) := reserve_scan (candidate_order nodes 0) now h in
      match best_idx s with
      | Some best =>
          Some (Ok (from_claimed (nodes !!! best)), b, release_others nodes best (reserved s) h1)
      | None =>
          let b' := warn_all_cooled b in
          r ← soonest_recovering_node nodes h1;
          let '(g, h2) := guard_new r h1 in
          Some (Ok g, b', h2)
      end
  end.

#[export] Instance pf_balancer : LoadBalancer PriorityFreeBalancer := {
  select := pf_select;
  strategy_name _ := lit "priority_free";
  all_nodes := pf_nodes;
}.

Definition pf_wf (b : PriorityFreeBalancer) (h : heap) : Prop := nodes_ok (pf_nodes b) h.

(** ** Abstract specification of the choice, over slot indices *)
Definition load_of (nodes : list NodeRef) (h : heap) (i : nat) : Z :=
  active_requests (h !!! (nodes !!! i)).

Definition cooled_at (nodes : list NodeRef) (now : Instant) (h : heap) (i : nat) : bool :=
  in_cooldown now (h !!! (nodes !!! i)).

(** Slot [i] is the right answer: the lowest free slot if there is one, else
    the least-loaded non-cooled slot (lowest index on ties), else, everything
    being cooled, a slot of earliest expiry. *)
Definition right_choice (nodes : list NodeRef) (now : Instant) (h : heap) (i : nat) : Prop :=
  i < length nodes ∧
  if cooled_at nodes now h i then
    (∀ j : nat, j < length nodes →
       cooled_at nodes now h j = true ∧
       (cooldown_expiry (h !!! (nodes !!! i)) ≤ cooldown_expiry (h !!! (nodes !!! j)))%Z)
  else
    (∀ j : nat, j < length nodes → cooled_at nodes now h j = false →
       (load_of nodes h i ≤ load_of nodes h j)%Z ∧
       (j < i → (load_of nodes h i < load_of nodes h j)%Z)).

(** * Facts *)
Implicit Types (h : list BackendNode) (nodes : list nat).

(** ** Reserving and releasing *)
Definition bump_all (k : Z) nodes (idxs : list nat) h : heap :=
  foldl (λ h i, bump k (nodes !!! i) h) h idxs.

Lemma bump_all_cons k nodes i l h :
  bump_all k nodes (i :: l) h = bump k (nodes !!! i) (bump_all k nodes l h).
Proof.
  unfold bump_all. simpl. revert h. induction l as [|j l IH]; intros h; [done|]. simpl.
  by rewrite bump_comm, IH.
Qed.

Lemma bump_bump_all k1 k2 nodes l r h :
  bump k1 r (bump_all k2 nodes l h) = bump_all k2 nodes l (bump k1 r h).
Proof.
  induction l as [|i l IH]; [done|]. by rewrite !bump_all_cons, bump_comm, IH.
Qed.

Lemma bump_all_perm k nodes l l' h : l ≡ₚ l' → bump_all k nodes l h = bump_all k nodes l' h.
Proof.
  intros Hp. revert h. induction Hp as [|i l l' _ IH|i j l|l l' l'' _ IH _ IH']; intros h.
  - done.
  - by rewrite !bump_all_cons, IH.
  - by rewrite !bump_all_cons, bump_comm.
  - by rewrite IH.
Qed.

Lemma counters_usize_bump_all k nodes l h :
  counters_usize h → counters_usize (bump_all k nodes l h).
Proof.
  intros. induction l; [done|]. rewrite bump_all_cons. by apply counters_usize_bump.
Qed.

Lemma bump_all_cancel nodes l h :
  counters_usize h → bump_all (-1) nodes l (bump_all 1 nodes l h) = h.
Proof.
  intros Hh. induction l as [|i l IH]; [done|].
  rewrite !bump_all_cons, <- bump_bump_all, IH.
  by apply (bump_cancel 1).
Qed.

Lemma in_cooldown_bump_all now k nodes l h r :
  in_cooldown now (bump_all k nodes l h !!! r) = in_cooldown now (h !!! r).
Proof. induction l; [done|]. by rewrite bump_all_cons, in_cooldown_bump. Qed.

Lemma length_bump_all k nodes l h : length (bump_all k nodes l h) = length h.
Proof. induction l; [done|]. by rewrite bump_all_cons, length_bump. Qed.

Lemma release_others_bump nodes best l h :
  release_others nodes best l h = bump_all (-1) nodes (filter (.≠ best) l) h.
Proof.
  unfold release_others. revert h. induction l as [|i l IH]; intros h; [done|]. simpl.
  rewrite IH. destruct (decide (i = best)) as [->|Hne].
  - by rewrite filter_cons_False by auto.
  - by rewrite filter_cons_True by done.
Qed.

Lemma best_first (l : list nat) (best : nat) : NoDup l → best ∈ l → best :: filter (.≠ best) l ≡ₚ l.
Proof.
  intros Hnd Hin. induction l as [|i l IH]; [set_solver|].
  apply NoDup_cons in Hnd as [Hi Hnd]. destruct (decide (i = best)) as [->|Hne].
  - rewrite filter_cons_False by auto. f_equiv. apply reflexive_eq.
    clear -Hi. induction l as [|j l IH]; [done|].
    rewrite filter_cons_True by set_solver. f_equal. apply IH. set_solver.
  - rewrite filter_cons_True, Permutation_swap by done. f_equiv. apply IH; [done|set_solver].
Qed.

(** Reserving a duplicate-free set and releasing all of it but one slot nets
    exactly one claim, on that slot. *)
Lemma reserve_release nodes best l h :
  counters_usize h → NoDup l → best ∈ l →
  release_others nodes best l (bump_all 1 nodes l h) = bump 1 (nodes !!! best) h.
Proof.
  intros Hh Hnd Hin. rewrite release_others_bump.
  pose proof (best_first l best Hnd Hin) as Hp.
  rewrite (bump_all_perm 1 nodes _ _ h (symmetry Hp)), bump_all_cons, bump_bump_all.
  apply bump_all_cancel. by apply counters_usize_bump.
Qed.

(** ** The scan *)
Definition uncooled nodes (now : Instant) h (i : nat) : Prop := cooled_at nodes now h i = false.
#[export] Instance uncooled_dec nodes now h i : Decision (uncooled nodes now h i).
Proof. unfold uncooled. apply _. Defined.

Lemma foldl_snoc {A B} (f : A → B → A) a l x : foldl f a (l ++ [x]) = f (foldl f a l) x.
Proof. by rewrite foldl_app. Qed.

Lemma fmap_snoc {A B} (f : A → B) l x : f <$> (l ++ [x]) = (f <$> l) ++ [f x].
Proof. by rewrite fmap_app. Qed.

(** What the scan has recorded after visiting the slots of [ks]. *)
Record scan_ok nodes now h (ks : list nat) (s : Scan) : Prop := {
  scan_reserved : reserved s = filter (uncooled nodes now h) ks;
  scan_best_in : ∀ best, best_idx s = Some best → best ∈ reserved s;
  scan_best_none : best_idx s = None → reserved s = [] ∧ best_load s = usize_max;
}.

Lemma reserve_scan_ok nodes now h ks :
  (∀ i, i ∈ ks → nodes !!! i < length h) → counters_ok h →
  let '(s, h1) := foldl (scan_step now) (scan_init, h) ((λ i, (i, nodes !!! i)) <$> ks) in
  scan_ok nodes now h ks s ∧ h1 = bump_all 1 nodes (reserved s) h.
Proof.
  intros Hin Hok. induction ks as [|k ks IH] using rev_ind; [by repeat split|].
  rewrite fmap_snoc, foldl_snoc. specialize (IH ltac:(set_solver)).
  destruct (foldl _ _ _) as [s h1]. destruct IH as [[Hres Hbi Hbn] ->]. simpl.
  rewrite in_cooldown_bump_all. fold (cooled_at nodes now h k).
  destruct (cooled_at nodes now h k) eqn:Hc.
  - split; [|done]. split; [|done..].
    rewrite filter_app, filter_cons_False, filter_nil, app_nil_r; [done|]. unfold uncooled. congruence.
  - assert (∀ b l, scan_ok nodes now h (ks ++ [k]) (mkScan (Some b) l (reserved s ++ [k])) ↔
      b ∈ reserved s ++ [k]) as Hiff.
    { intros b l. split; [intros [_ H _]; by apply H|]. intros Hb. split; simpl; [|naive_solver|done].
      by rewrite filter_app, filter_cons_True, filter_nil, Hres by done. }
    assert (bump 1 (nodes !!! k) (bump_all 1 nodes (reserved s) h)
      = bump_all 1 nodes (reserved s ++ [k]) h) as Hh.
    { unfold bump_all. by rewrite foldl_snoc. }
    destruct (_ <? _)%Z eqn:Hlt.
    + split; [apply Hiff; set_solver|done].
    + split; [|done]. simpl. destruct (best_idx s) as [b|] eqn:Hb.
      * apply Hiff. set_solver.
      * destruct (Hbn eq_refl) as [Hnil Hmax]. exfalso.
        rewrite Hnil, Hmax in Hlt. simpl in Hlt. apply Z.ltb_ge in Hlt.
        pose proof (Forall_lookup_total_1 _ _ (nodes !!! k) Hok (Hin k ltac:(set_solver))).
        simpl in *. lia.
Qed.

(** On distinct nodes the scan's best is the least-loaded slot, lowest index
    first. *)
Record scan_min nodes now h (ks : list nat) (s : Scan) : Prop := {
  scan_best_load : ∀ best, best_idx s = Some best → best_load s = load_of nodes h best;
  scan_best_min : ∀ best, best_idx s = Some best →
    ∀ j, j ∈ ks → uncooled nodes now h j →
      (load_of nodes h best ≤ load_of nodes h j)%Z ∧
      (j < best → (load_of nodes h best < load_of nodes h j)%Z);
}.

Lemma lookup_total_bump_all_ne nodes l r h k :
  (∀ i, i ∈ l → nodes !!! i ≠ r) → bump_all k nodes l h !!! r = h !!! r.
Proof.
  intros Hne. induction l as [|i l IH]; [done|]. rewrite bump_all_cons.
  rewrite <- IH by set_solver. unfold bump.
  apply list_lookup_total_alter_ne, Hne. set_solver.
Qed.

Lemma NoDup_lookup_total_inj nodes i j :
  NoDup nodes → i < length nodes → j < length nodes → nodes !!! i = nodes !!! j → i = j.
Proof.
  intros Hnd Hi Hj E. eapply (NoDup_lookup nodes); [done|by apply list_lookup_lookup_total_lt|].
  rewrite E. by apply list_lookup_lookup_total_lt.
Qed.

Lemma reserve_scan_min nodes now h n :
  NoDup nodes → n ≤ length nodes → (∀ i, i < n → nodes !!! i < length h) → counters_ok h →
  scan_min nodes now h (seq 0 n)
    (foldl (scan_step now) (scan_init, h) ((λ i, (i, nodes !!! i)) <$> seq 0 n)).1.
Proof.
  intros Hnd Hn Hlt Hok. induction n as [|n IH]; [by split|].
  rewrite seq_S, fmap_snoc, foldl_snoc. specialize (IH ltac:(lia) ltac:(auto with lia)).
  pose proof (reserve_scan_ok nodes now h (seq 0 n)) as Hscan. simpl in *.
  destruct (foldl _ _ _) as [s h1]. simpl in *.
  destruct Hscan as [[Hres Hbi Hbn] ->]; [|done|].
  { intros i Hi%elem_of_seq. auto with lia. }
  destruct IH as [Hload Hmin].
  rewrite in_cooldown_bump_all. fold (cooled_at nodes now h n).
  destruct (cooled_at nodes now h n) eqn:Hc; simpl.
  { split; [done|]. intros best Hb j Hj Hu.
    apply elem_of_app in Hj as [Hj|Hj]; [by apply Hmin|].
    apply list_elem_of_singleton in Hj as ->. unfold uncooled in Hu. congruence. }
  assert (active_requests (bump_all 1 nodes (reserved s) h !!! (nodes !!! n)) = load_of nodes h n) as Hl.
  { rewrite lookup_total_bump_all_ne; [done|]. intros i Hi E. rewrite Hres in Hi.
    apply list_elem_of_filter in Hi as [_ Hi%elem_of_seq].
    apply (NoDup_lookup_total_inj nodes) in E; [lia|done|lia..]. }
  rewrite Hl.
  destruct (Z.ltb_spec (load_of nodes h n) (best_load s)); split; simpl.
  - by intros best [= <-].
  - intros best [= <-] j Hj Hu. apply elem_of_app in Hj as [Hj|Hj].
    + destruct (best_idx s) as [b|] eqn:Hb.
      * destruct (Hmin b eq_refl j Hj Hu). rewrite (Hload b eq_refl) in *. lia.
      * destruct (Hbn eq_refl) as [Hnil _]. exfalso. rewrite Hres in Hnil.
        assert (j ∈ filter (uncooled nodes now h) (seq 0 n)) as Hx
          by by apply list_elem_of_filter. rewrite Hnil in Hx. set_solver.
    + apply list_elem_of_singleton in Hj as ->. lia.
  - done.
  - intros best Hb j Hj Hu. apply elem_of_app in Hj as [Hj|Hj]; [by apply Hmin|].
    apply list_elem_of_singleton in Hj as ->. rewrite (Hload best Hb) in *. split; [done|].
    intros Hlt'. apply Hbi in Hb. rewrite Hres in Hb.
    apply list_elem_of_filter in Hb as [_ Hb%elem_of_seq]. lia.
Qed.

(** ** The free claim *)
Lemma free_claim_Some nodes now h m n r h' :
  free_claim ((λ i, (i, nodes !!! i)) <$> seq m n) now h = Some (r, h') →
  ∃ i, m ≤ i < m + n ∧ r = nodes !!! i ∧ uncooled nodes now h i ∧ load_of nodes h i = 0%Z ∧
    h' = bump 1 r h ∧ ∀ j, m ≤ j < i → uncooled nodes now h j → load_of nodes h j ≠ 0%Z.
Proof.
  revert m. induction n as [|n IH]; intros m; [done|]. simpl.
  fold (cooled_at nodes now h m). destruct (cooled_at nodes now h m) eqn:Hc.
  - intros (i & Hi & -> & Hu & Hl & -> & Hj)%IH. exists i. do 5 (split; [done || lia|]).
    intros j Hji Huj. destruct (decide (j = m)) as [->|]; [unfold uncooled in *; congruence|].
    apply Hj; [lia|done].
  - fold (load_of nodes h m). destruct (Z.eqb_spec (load_of nodes h m) 0) as [Hz|Hz].
    + intros [= <- <-]. exists m. do 4 (split; [done || lia|]). split; [|lia].
      unfold bump, load_of in *. apply list_alter_ext; [|done]. intros x Hx.
      rewrite (list_lookup_total_correct _ _ _ Hx) in Hz. by rewrite Hz.
    + intros (i & Hi & -> & Hu & Hl & -> & Hj)%IH. exists i. do 5 (split; [done || lia|]).
      intros j Hji Huj. destruct (decide (j = m)) as [->|]; [done|]. apply Hj; [lia|done].
Qed.

(** ** The strategy meets the contract *)
Lemma best_idx_candidate nodes now h best :
  nodes_ok nodes h →
  best_idx (reserve_scan (candidate_order nodes 0) now h).1 = Some best →
  best < length nodes ∧ uncooled nodes now h best ∧
  release_others nodes best (reserved (reserve_scan (candidate_order nodes 0) now h).1)
    (reserve_scan (candidate_order nodes 0) now h).2 = bump 1 (nodes !!! best) h.
Proof.
  intros (Hne & Hlt & Hok) Hb. unfold reserve_scan in *.
  rewrite candidate_order_from_0 in *.
  pose proof (reserve_scan_ok nodes now h (seq 0 (length nodes))) as Hs.
  destruct (foldl _ _ _) as [s h1]. simpl in *.
  destruct Hs as [[Hres Hbi _] ->]; [|done|].
  { intros i Hi%elem_of_seq. eapply Forall_lookup_total_1; [done|lia]. }
  apply Hbi in Hb. rewrite Hres in Hb.
  assert (Hb' := Hb). apply list_elem_of_filter in Hb' as [Hu Hi%elem_of_seq].
  split; [lia|]. split; [done|]. rewrite Hres. apply reserve_release; [|apply NoDup_filter, NoDup_seq|done].
  by apply counters_ok_usize.
Qed.

Lemma no_best_all_cooled nodes now h :
  nodes_ok nodes h →
  best_idx (reserve_scan (candidate_order nodes 0) now h).1 = None →
  (reserve_scan (candidate_order nodes 0) now h).2 = h ∧
  ∀ i, i < length nodes → cooled_at nodes now h i = true.
Proof.
  intros (Hne & Hlt & Hok) Hb. unfold reserve_scan in *.
  rewrite candidate_order_from_0 in *.
  pose proof (reserve_scan_ok nodes now h (seq 0 (length nodes))) as Hs.
  destruct (foldl _ _ _) as [s h1]. simpl in *.
  destruct Hs as [[Hres _ Hbn] ->]; [|done|].
  { intros i Hi%elem_of_seq. eapply Forall_lookup_total_1; [done|lia]. }
  destruct (Hbn Hb) as [Hnil _]. rewrite Hnil. split; [done|]. intros i Hi.
  destruct (cooled_at nodes now h i) eqn:Hc; [done|]. exfalso. rewrite Hres in Hnil.
  assert (i ∈ filter (uncooled nodes now h) (seq 0 (length nodes))) as Hx
    by (apply list_elem_of_filter; split; [done|apply elem_of_seq; lia]).
  rewrite Hnil in Hx. set_solver.
Qed.

(** Every successful select is a single claim on some slot of the balancer,
    and the slot is characterised by which phase produced it. *)
Lemma pf_select_cases b now m h r b' h' :
  pf_wf b h → pf_select b now m h = Some (r, b', h') →
  ∃ i, i < length (pf_nodes b) ∧ r = Ok (from_claimed (pf_nodes b !!! i)) ∧
    h' = bump 1 (pf_nodes b !!! i) h ∧ pf_nodes b' = pf_nodes b.
Proof.
  intros Hwf. unfold pf_select. rewrite candidate_order_from_0.
  destruct (free_claim _ now h) as [[n hc]|] eqn:Hf.
  { intros [= <- <- <-]. apply free_claim_Some in Hf as (i & Hi & -> & _ & _ & -> & _).
    exists i. split; [lia|done]. }
  rewrite <- candidate_order_from_0.
  pose proof (best_idx_candidate (pf_nodes b) now h) as Hbest.
  pose proof (no_best_all_cooled (pf_nodes b) now h Hwf) as Hnone.
  destruct (reserve_scan _ now h) as [s h1]. simpl in *. destruct (best_idx s) as [best|].
  - intros [= <- <- <-]. destruct (Hbest best Hwf eq_refl) as (Hlt & _ & ->). by exists best.
  - destruct (Hnone eq_refl) as [-> _].
    destruct (soonest_recovering_node _ _) as [n|] eqn:Es; [|done].
    intros [= <- <- <-]. apply soonest_recovering_node_spec in Es as [Hin _].
    apply list_elem_of_lookup_total_1 in Hin as (i & Hi & <-). by exists i.
Qed.

#[export] Instance pf_laws : LoadBalancerLaws PriorityFreeBalancer pf_wf.
Proof.
  split.
  - intros b now m h Hwf. unfold select; simpl. unfold pf_select.
    destruct (free_claim _ _ _) as [[??]|]; [by eexists|].
    destruct (reserve_scan _ _ _) as [s h1]. destruct (best_idx s); [by eexists|].
    destruct Hwf as [Hne _]. destruct (pf_nodes b); [done|]. by eexists.
  - intros b now m h r b' h' Hwf (i & Hi & -> & -> & _)%pf_select_cases; [|done].
    split; [|done]. simpl. by apply list_elem_of_lookup_total_2.
  - by intros b now m h r b' h' Hwf (i & _ & _ & _ & ?)%pf_select_cases.
Qed.

#[export] Instance pf_never_refuses : NeverRefuses PriorityFreeBalancer pf_wf.
Proof. split. by intros b now m h r b' h' Hwf (i & _ & -> & _)%pf_select_cases. Qed.

(** On distinct nodes the served slot is the one the abstract specification
    calls right. *)
Lemma pf_select_choice b now m h r b' h' :
  pf_wf b h → NoDup (pf_nodes b) →
  pf_select b now m h = Some (r, b', h') →
  ∃ i, right_choice (pf_nodes b) now h i ∧ r = Ok (from_claimed (pf_nodes b !!! i)) ∧
    h' = bump 1 (pf_nodes b !!! i) h.
Proof.
  intros Hwf Hnd. assert (Hwf' := Hwf). destruct Hwf' as (Hne & Hlt & Hok).
  assert (∀ i, i < length (pf_nodes b) → pf_nodes b !!! i < length h) as Hlt'.
  { intros i Hi. by eapply Forall_lookup_total_1 in Hlt. }
  assert (∀ i, i < length (pf_nodes b) → (0 ≤ load_of (pf_nodes b) h i)%Z) as Hpos.
  { intros i Hi. by apply (Forall_lookup_total_1 _ _ _ Hok (Hlt' i Hi)). }
  unfold pf_select. rewrite candidate_order_from_0.
  destruct (free_claim _ now h) as [[n hc]|] eqn:Hf.
  { intros [= <- <- <-].
    apply free_claim_Some in Hf as (i & Hi & -> & Hu & Hl & -> & Hj).
    exists i. split; [|done]. split; [lia|]. unfold uncooled in Hu. rewrite Hu, Hl.
    intros j Hjl Huj. pose proof (Hpos j Hjl). split; [done|]. intros.
    specialize (Hj j ltac:(lia) Huj). lia. }
  rewrite <- candidate_order_from_0.
  pose proof (best_idx_candidate (pf_nodes b) now h) as Hbest.
  pose proof (no_best_all_cooled (pf_nodes b) now h Hwf) as Hnone.
  pose proof (reserve_scan_min (pf_nodes b) now h _ Hnd (Nat.le_refl _) Hlt' Hok) as Hmin.
  rewrite <- candidate_order_from_0 in Hmin. unfold reserve_scan in *.
  destruct (foldl _ _ _) as [s h1]. simpl in *. destruct (best_idx s) as [best|] eqn:Hb.
  - intros [= <- <- <-]. destruct (Hbest best Hwf eq_refl) as (Hbl & Hu & ->). exists best.
    split; [|done]. split; [done|]. unfold uncooled in Hu. rewrite Hu. intros j Hj Huj.
    apply (scan_best_min _ _ _ _ _ Hmin best Hb); [apply elem_of_seq; lia|done].
  - destruct (Hnone eq_refl) as [-> Hall].
    destruct (soonest_recovering_node _ _) as [n|] eqn:Es; [|done].
    intros [= <- <- <-]. apply soonest_recovering_node_spec in Es as [Hin Hsoon].
    apply list_elem_of_lookup_total_1 in Hin as (i & Hi & <-). exists i. split; [|done].
    split; [done|]. rewrite (Hall i Hi). intros j Hj. split; [by apply Hall|].
    apply Hsoon. by apply list_elem_of_lookup_total_2.
Qed.

(** C25: Selection always succeeds, without a panic, and on distinct nodes it
    serves the slot the abstract specification calls right, claimed once. *)
Theorem pf_select_right b now m h :
  pf_wf b h → NoDup (pf_nodes b) →
  ∃ i b', right_choice (pf_nodes b) now h i ∧ pf_nodes b' = pf_nodes b ∧
    pf_select b now m h = Some (Ok (from_claimed (pf_nodes b !!! i)), b', bump 1 (pf_nodes b !!! i) h).
Proof.
  intros Hwf Hnd. destruct (select_no_panic b now m h Hwf) as [[[r b'] h'] E].
  destruct (pf_select_choice b now m h r b' h' Hwf Hnd E) as (i & Hi & -> & ->).
  exists i, b'. split_and!; [done| |done]. by destruct (pf_select_cases b now m h _ b' _ Hwf E) as (_ & _ & _ & _ & ?).
Qed.
