(* ===== verification/PriorityFreeConc.v ===== *)
(** * Concurrent [select]s of the priority-free strategy

    [llama-proxy/src/backends/priority_free.rs] with every atomic access of
    [select], of [BackendNode::in_cooldown] and of [BusyHandle::drop] as one
    step.  Any number of requests interleave over one node store while the
    health of the nodes changes under them. *)
From S2P Require Import Prelude Node Balancer PriorityFree.

(** ** Program points of one request *)
Inductive pc :=
  | Idle                                            (** before [select] *)
  | Walk (now : Instant) (i : nat)                  (** first walk: load [healthy] of slot [i] *)
  | WalkUntil (now : Instant) (i : nat)             (** unhealthy: read [cooldown_until] *)
  | Cas (now : Instant) (i : nat)                   (** [compare_exchange(0, 1)] *)
  | ScanAt (now : Instant) (i : nat) (s : Scan)     (** second walk: load [healthy] *)
  | ScanUntil (now : Instant) (i : nat) (s : Scan)
  | ScanAdd (now : Instant) (i : nat) (s : Scan)    (** [fetch_add(1)] *)
  | Release (best : nat) (todo : list nat)          (** release loop over [reserved] *)
  | WarnCooled                                      (** [all_cooled_fallbacks.fetch_add(1)] *)
  | Soonest (i : nat) (best : option (NodeRef * Instant))
  | Claim (r : NodeRef)                             (** [BackendGuard::new] *)
  | Held (r : NodeRef) (clones : nat)               (** guard alive, [S clones] handles *)
  | Dropping (r : NodeRef)                          (** [BusyHandle::drop]: [fetch_sub(1)] *)
  | Restoring (r : NodeRef)                         (** the counter was 0: [fetch_add(1)] *)
  | Finished.

Section Steps.
Context (nodes : list NodeRef).

(** One atomic access of a running [select] or drop; [None]: nothing to run
    (or the [expect] panic on an empty node set). *)
Definition thread_step (p : pc) (h : heap) (fallbacks : Z) : option (pc * heap * Z) :=
  match p with
  | Idle | Held _ _ | Finished => None
  | Walk now i =>
      if i <? length nodes then
        if healthy (h !!! (nodes !!! i)) then Some (Cas now i, h, fallbacks)
        else Some (WalkUntil now i, h, fallbacks)
      else Some (ScanAt now 0 scan_init, h, fallbacks)
  | WalkUntil now i =>
      if (now <? cooldown_until (h !!! (nodes !!! i)))%Z then Some (Walk now (S i), h, fallbacks)
      else Some (Cas now i, h, fallbacks)
  | Cas now i =>
      let r := nodes !!! i in
      if (active_requests (h !!! r) =? 0)%Z
      then Some (Held r 0, alter (set_active 1) r h, fallbacks)
      else Some (Walk now (S i), h, fallbacks)
  | ScanAt now i s =>
      if i <? length nodes then
        if healthy (h !!! (nodes !!! i)) then Some (ScanAdd now i s, h, fallbacks)
        else Some (ScanUntil now i s, h, fallbacks)
      else
        match best_idx s with
        | Some best => Some (Release best (reserved s), h, fallbacks)
        | None => Some (WarnCooled, h, fallbacks)
        end
  | ScanUntil now i s =>
      if (now <? cooldown_until (h !!! (nodes !!! i)))%Z then Some (ScanAt now (S i) s, h, fallbacks)
      else Some (ScanAdd now i s, h, fallbacks)
  | ScanAdd now i s =>
      let r := nodes !!! i in
      let load := active_requests (h !!! r) in
      let reserved' := reserved s ++ [i] in
      let s' := if (load <? best_load s)%Z then mkScan (Some i) load reserved'
                else mkScan (best_idx s) (best_load s) reserved' in
      Some (ScanAt now (S i) s', bump 1 r h, fallbacks)
  | Release best [] => Some (Held (nodes !!! best) 0, h, fallbacks)
  | Release best (idx :: todo) =>
      if decide (idx = best) then Some (Release best todo, h, fallbacks)
      else Some (Release best todo, bump (-1) (nodes !!! idx) h, fallbacks)
  | WarnCooled => Some (Soonest 0 None, h, (fallbacks + 1) mod u64_modulus)%Z
  | Soonest i best =>
      if i <? length nodes then
        let r := nodes !!! i in
        let k := cooldown_expiry (h !!! r) in
        let best' := match best with
                     | Some (_, kb) => if (k <? kb)%Z then Some (r, k) else best
                     | None => Some (r, k)
                     end in
        Some (Soonest (S i) best', h, fallbacks)
      else '(r, _) ← best; Some (Claim r, h, fallbacks)
  | Claim r => Some (Held r 0, bump 1 r h, fallbacks)
  | Dropping r =>
      let prev := active_requests (h !!! r) in
      let h' := bump (-1) r h in
      if (prev =? 0)%Z then Some (Restoring r, h', fallbacks) else Some (Finished, h', fallbacks)
  | Restoring r => Some (Finished, bump 1 r h, fallbacks)
  end.

(** ** The whole system *)
Record world := mkWorld {
  threads : list pc;
  store : heap;
  fallbacks : Z;
}.

Inductive world_step : world → world → Prop :=
  (** a request enters [select] and reads the clock *)
  | step_start t now ts h fb :
      ts !! t = Some Idle →
      world_step (mkWorld ts h fb) (mkWorld (<[t := Walk now 0]> ts) h fb)
  (** one atomic access of one request *)
  | step_thread t p p' ts h h' fb fb' :
      ts !! t = Some p → thread_step p h fb = Some (p', h', fb') →
      world_step (mkWorld ts h fb) (mkWorld (<[t := p']> ts) h' fb')
  (** the guard is cloned into a response body *)
  | step_clone t r n ts h fb :
      ts !! t = Some (Held r n) →
      world_step (mkWorld ts h fb) (mkWorld (<[t := Held r (S n)]> ts) h fb)
  (** a clone drops; the last one releases the slot *)
  | step_drop_clone t r n ts h fb :
      ts !! t = Some (Held r (S n)) →
      world_step (mkWorld ts h fb) (mkWorld (<[t := Held r n]> ts) h fb)
  | step_drop_last t r ts h fb :
      ts !! t = Some (Held r 0) →
      world_step (mkWorld ts h fb) (mkWorld (<[t := Dropping r]> ts) h fb)
  (** [mark_failed]/[mark_healthy] on any node: the lock-protected window and
      the health flag are written separately *)
  | step_health r hl ts h fb :
      world_step (mkWorld ts h fb)
        (mkWorld ts (alter (λ n, set_health hl (cooldown_until n) n) r h) fb)
  | step_until r t ts h fb :
      world_step (mkWorld ts h fb)
        (mkWorld ts (alter (λ n, set_health (healthy n) t n) r h) fb).

(** ** Claims: how many increments of node [r] a request is answerable for *)
Definition count_slots (r : NodeRef) (idxs : list nat) : Z :=
  Z.of_nat (length (filter (λ i, nodes !!! i = r) idxs)).

Definition claims (r : NodeRef) (p : pc) : Z :=
  match p with
  | Idle | Walk _ _ | WalkUntil _ _ | Cas _ _ | WarnCooled | Soonest _ _ | Claim _ | Finished => 0
  | ScanAt _ _ s | ScanUntil _ _ s | ScanAdd _ _ s => count_slots r (reserved s)
  | Release best todo => count_slots r (best :: filter (.≠ best) todo)
  | Held r' _ | Dropping r' => if decide (r' = r) then 1 else 0
  | Restoring _ => 0
  end%Z.

Definition total_claims (r : NodeRef) (ts : list pc) : Z := foldr (λ p z, claims r p + z)%Z 0%Z ts.

(** Requests holding a live guard on [r]. *)
Definition is_guard_on (r : NodeRef) (p : pc) : bool :=
  match p with Held r' _ => bool_decide (r' = r) | _ => false end.

Definition live_guards (r : NodeRef) (ts : list pc) : nat := length (List.filter (is_guard_on r) ts).

(** No request is inside [select] or a drop. *)
Definition quiet (p : pc) : bool :=
  match p with Idle | Held _ _ | Finished => true | _ => false end.

Definition initial (n : nat) (h : heap) : world := mkWorld (replicate n Idle) h 0.

End Steps.

(** * Facts *)
Implicit Types (h : list BackendNode) (nodes : list nat) (p : pc).

(** ** Well-formed program points *)
Definition slots_ok nodes (bound : nat) (l : list nat) : Prop :=
  NoDup l ∧ Forall (λ i, i < bound) l ∧ bound ≤ length nodes.

Definition scan_pc_ok nodes (i : nat) (s : Scan) : Prop :=
  slots_ok nodes i (reserved s) ∧
  match best_idx s with
  | Some best => best ∈ reserved s
  | None => reserved s = [] ∧ best_load s = usize_max
  end.

Definition pc_ok nodes p : Prop :=
  match p with
  | Cas _ i => i < length nodes
  | ScanAt _ i s => scan_pc_ok nodes i s
  | ScanUntil _ i s | ScanAdd _ i s => scan_pc_ok nodes i s ∧ i < length nodes
  | Release best todo => best < length nodes ∧ slots_ok nodes (length nodes) todo
  | WalkUntil _ i => i < length nodes
  | Soonest i best => match best with Some (r, _) => r ∈ nodes | None => i = 0 end
  | Claim r | Held r _ | Dropping r => r ∈ nodes
  | Restoring _ => False
  | Idle | Walk _ _ | WarnCooled | Finished => True
  end.

Definition inv nodes (w : world) : Prop :=
  Forall (λ r, r < length (store w)) nodes ∧
  Forall (pc_ok nodes) (threads w) ∧
  ∀ r, r < length (store w) → active_requests (store w !!! r) = total_claims nodes r (threads w).

(** ** Counting *)
Lemma count_slots_cons nodes r i l :
  count_slots nodes r (i :: l) = ((if decide (nodes !!! i = r) then 1 else 0) + count_slots nodes r l)%Z.
Proof. unfold count_slots. rewrite filter_cons. case_decide; simpl; lia. Qed.

Lemma count_slots_snoc nodes r i l :
  count_slots nodes r (l ++ [i]) = (count_slots nodes r l + if decide (nodes !!! i = r) then 1 else 0)%Z.
Proof.
  unfold count_slots. rewrite filter_app, length_app, filter_cons, filter_nil.
  case_decide; simpl; lia.
Qed.

Lemma count_slots_perm nodes r l l' : l ≡ₚ l' → count_slots nodes r l = count_slots nodes r l'.
Proof. intros H. unfold count_slots. by rewrite H. Qed.

Lemma count_slots_bounds nodes r l : (0 ≤ count_slots nodes r l ≤ Z.of_nat (length l))%Z.
Proof.
  unfold count_slots. split; [lia|]. apply inj_le, length_filter.
Qed.

Lemma slots_ok_length nodes b l : slots_ok nodes b l → length l ≤ b.
Proof.
  intros (Hnd & Hlt & _). rewrite <- (length_seq b 0). apply submseteq_length, NoDup_submseteq; [done|].
  intros i Hi. rewrite Forall_forall in Hlt. apply elem_of_seq. pose proof (Hlt i Hi). lia.
Qed.

Lemma slots_ok_mono nodes b b' l : slots_ok nodes b l → b ≤ b' → b' ≤ length nodes → slots_ok nodes b' l.
Proof.
  intros (? & Hf & ?) ??. split; [done|]. split; [|done]. eapply Forall_impl; [done|]. simpl. lia.
Qed.

Lemma slots_ok_snoc nodes i l : slots_ok nodes i l → i < length nodes → slots_ok nodes (S i) (l ++ [i]).
Proof.
  intros (Hnd & Hf & ?) Hi. rewrite Forall_forall in Hf. split; [|split; [|lia]].
  - apply NoDup_app. split; [done|]. split; [|apply NoDup_singleton].
    intros x Hx. pose proof (Hf x Hx). set_unfold. lia.
  - apply Forall_app. split; [apply Forall_forall|by repeat constructor]. intros x Hx.
    pose proof (Hf x Hx). lia.
Qed.

Lemma claims_bounds nodes r p :
  nodes ≠ [] → pc_ok nodes p → (0 ≤ claims nodes r p ≤ Z.of_nat (length nodes))%Z.
Proof.
  intros Hne Hok. assert (1 ≤ length nodes) by (destruct nodes; simpl; [done|lia]).
  destruct p as [| | | |? i s|? i s|? i s|best todo| | | | | | |]; simpl in *;
    repeat case_decide; try lia;
    try (pose proof (count_slots_bounds nodes r (reserved s));
         assert (slots_ok nodes i (reserved s)) as Hs by (unfold scan_pc_ok in Hok; tauto);
         pose proof (slots_ok_length _ _ _ Hs); destruct Hs as (_ & _ & ?); lia).
  destruct Hok as (Hb & Hnd & Hlt & _).
  pose proof (count_slots_bounds nodes r (best :: filter (.≠ best) todo)) as Hc.
  assert (slots_ok nodes (length nodes) (best :: filter (.≠ best) todo)) as Hs.
  { split; [|split; [|done]].
    - apply NoDup_cons. split; [|by apply NoDup_filter]. intros [??]%list_elem_of_filter. done.
    - constructor; [done|]. apply Forall_forall. intros x [_ Hx]%list_elem_of_filter.
      by apply (proj1 (Forall_forall _ _) Hlt). }
  apply slots_ok_length in Hs. lia.
Qed.

(** ** One step's effect on its own claims and on the counters *)
Definition step_effect nodes h h' p p' : Prop :=
  pc_ok nodes p' ∧ length h' = length h ∧
  ∀ r, r < length h →
    active_requests (h' !!! r) = (active_requests (h !!! r) + claims nodes r p' - claims nodes r p)%Z.

Lemma step_effect_same nodes h p p' :
  pc_ok nodes p' → (∀ r, claims nodes r p' = claims nodes r p) → step_effect nodes h h p p'.
Proof. intros Hp Hc. split; [done|]. split; [done|]. intros r _. rewrite Hc. lia. Qed.

Lemma step_effect_bump nodes k r0 h p p' :
  pc_ok nodes p' →
  (∀ r, claims nodes r p' = claims nodes r p + (if decide (r0 = r) then k else 0))%Z →
  (∀ r, r < length h →
     (0 ≤ active_requests (h !!! r) + (if decide (r0 = r) then k else 0) ≤ usize_max)%Z) →
  step_effect nodes h (bump k r0 h) p p'.
Proof.
  intros Hp Hc Hb. split; [done|]. split; [apply length_bump|]. intros r Hr.
  rewrite active_bump by eauto. rewrite Hc. lia.
Qed.

Lemma set_active_1_bump r h :
  active_requests (h !!! r) = 0%Z → alter (set_active 1) r h = bump 1 r h.
Proof.
  intros Hz. unfold bump. apply list_alter_ext; [|done]. intros x Hx.
  rewrite (list_lookup_total_correct _ _ _ Hx) in Hz. by rewrite Hz.
Qed.

Section StepEffect.
Context (nodes : list nat) (h : list BackendNode).
Context (Hvalid : Forall (λ r, r < length h) nodes).
Context (Hrange : ∀ r, r < length h → (0 ≤ active_requests (h !!! r) < usize_max)%Z).

Lemma slot_valid i : i < length nodes → nodes !!! i < length h.
Proof using Hvalid. intros Hi. by apply (Forall_lookup_total_1 _ _ _ Hvalid). Qed.

Lemma slot_in i : i < length nodes → nodes !!! i ∈ nodes.
Proof. apply list_elem_of_lookup_total_2. Qed.

Lemma claim_range r0 r :
  r < length h → (0 ≤ active_requests (h !!! r) + (if decide (r0 = r) then 1 else 0) ≤ usize_max)%Z.
Proof using Hrange. intros Hr. pose proof (Hrange r Hr). case_decide; lia. Qed.

Lemma scan_add_effect now i s fb p' h' fb' :
  pc_ok nodes (ScanAdd now i s) →
  thread_step nodes (ScanAdd now i s) h fb = Some (p', h', fb') →
  step_effect nodes h h' (ScanAdd now i s) p'.
Proof using Hvalid Hrange.
  intros ((Hs & Hbest) & Hi). simpl. intros [= <- <- <-].
  pose proof (slots_ok_snoc _ _ _ Hs Hi) as Hs'.
  assert (∀ bi bl, claims nodes bi (ScanAt now (S i) bl) = count_slots nodes bi (reserved bl)) by done.
  apply step_effect_bump; [| |by intros; apply claim_range].
  - destruct (Z.ltb_spec (active_requests (h !!! (nodes !!! i))) (best_load s)) as [|Hge];
      (split; [exact Hs'|]); simpl; [set_solver|].
    destruct (best_idx s) as [b|]; [set_solver|]. exfalso. destruct Hbest as [_ Hmax].
    pose proof (Hrange _ (slot_valid i Hi)). lia.
  - intros r. simpl. destruct (_ <? _)%Z; simpl; apply count_slots_snoc.
Qed.

Lemma release_effect best todo fb p' h' fb' :
  pc_ok nodes (Release best todo) →
  (∀ r, r < length h → (claims nodes r (Release best todo) ≤ active_requests (h !!! r))%Z) →
  thread_step nodes (Release best todo) h fb = Some (p', h', fb') →
  step_effect nodes h h' (Release best todo) p'.
Proof using Hvalid Hrange.
  intros (Hb & Hnd & Hlt & Hlen) Hle. destruct todo as [|idx todo]; simpl.
  - intros [= <- <- <-]. apply step_effect_same; [by apply slot_in|].
    intros r. simpl. by rewrite filter_nil, count_slots_cons, Z.add_0_r.
  - apply NoDup_cons in Hnd as [Hni Hnd]. apply Forall_cons in Hlt as [Hidx Hlt].
    destruct (decide (idx = best)) as [->|Hne]; intros [= <- <- <-].
    + apply step_effect_same; [done|]. intros r. simpl. by rewrite filter_cons_False by auto.
    + apply step_effect_bump; [done| |].
      * intros r. simpl. rewrite filter_cons_True, !count_slots_cons by done.
        repeat case_decide; lia.
      * intros r Hr. pose proof (Hrange r Hr). case_decide; [|lia]. subst.
        specialize (Hle _ Hr). simpl in Hle.
        rewrite filter_cons_True, !count_slots_cons in Hle by done.
        pose proof (count_slots_bounds nodes (nodes !!! idx) (filter (.≠ best) todo)).
        repeat case_decide; try done; lia.
Qed.

Lemma scan_end_effect now i s fb p' h' fb' :
  pc_ok nodes (ScanAt now i s) →
  thread_step nodes (ScanAt now i s) h fb = Some (p', h', fb') →
  step_effect nodes h h' (ScanAt now i s) p'.
Proof using.
  intros (Hs & Hbest). simpl. destruct (Nat.ltb_spec i (length nodes)).
  - destruct (healthy _); intros [= <- <- <-]; by apply step_effect_same.
  - destruct (best_idx s) as [b|] eqn:Hb; intros [= <- <- <-]; apply step_effect_same.
    + destruct Hs as (Hnd & Hf & ?). rewrite Forall_forall in Hf.
      pose proof (Hf b Hbest). split; [lia|]. split; [done|]. split; [|done].
      apply Forall_forall. intros x Hx. pose proof (Hf x Hx). lia.
    + intros r. simpl. apply count_slots_perm, best_first; [apply Hs|done].
    + done.
    + intros r. simpl. by destruct Hbest as [-> _].
Qed.

(** Every access of a request changes the counters by exactly the change of
    the claims it is answerable for. *)
Lemma thread_step_effect p fb p' h' fb' :
  pc_ok nodes p →
  (∀ r, r < length h → (claims nodes r p ≤ active_requests (h !!! r))%Z) →
  thread_step nodes p h fb = Some (p', h', fb') →
  step_effect nodes h h' p p'.
Proof using Hvalid Hrange.
  intros Hok Hle Hstep. destruct p as [|now i|now i|now i|now i s|now i s|now i s|best todo| |i best|r|r n|r|r|];
    try done; try by (eauto using scan_add_effect, release_effect, scan_end_effect).
  - simpl in Hstep. destruct (Nat.ltb_spec i (length nodes)).
    + destruct (healthy _); simplify_eq; by apply step_effect_same.
    + simplify_eq. apply step_effect_same; [|done]. split; [|done].
      split; [apply NoDup_nil_2|]. split; [constructor|lia].
  - simpl in Hstep. destruct (_ <? _)%Z; simplify_eq; by apply step_effect_same.
  - simpl in Hstep, Hok. destruct (Z.eqb_spec (active_requests (h !!! (nodes !!! i))) 0); simplify_eq.
    + rewrite set_active_1_bump by done.
      apply step_effect_bump; [by apply slot_in|done|by intros; apply claim_range].
    + by apply step_effect_same.
  - destruct Hok as [[Hs Hb] Hi]. simpl in Hstep. destruct (_ <? _)%Z; simplify_eq;
      apply step_effect_same; try done. split; [|done]. eapply slots_ok_mono; [done|lia|lia].
  - simpl in Hstep. simplify_eq. by apply step_effect_same.
  - simpl in Hstep. destruct (Nat.ltb_spec i (length nodes)).
    + simplify_eq. apply step_effect_same; [|done]. simpl.
      destruct best as [[rb kb]|]; [destruct (_ <? _)%Z|]; [by apply slot_in|done|by apply slot_in].
    + destruct best as [[rb kb]|]; simplify_eq/=. by apply step_effect_same.
  - simpl in Hstep. simplify_eq.
    apply step_effect_bump; [done|done|by intros; apply claim_range].
  - simpl in Hstep, Hok, Hle.
    assert (r < length h) as Hr by by apply (proj1 (Forall_forall _ _) Hvalid).
    pose proof (Hle r Hr) as Hle'. pose proof (Hrange r Hr). rewrite decide_True in Hle' by done.
    destruct (Z.eqb_spec (active_requests (h !!! r)) 0); [lia|]. simplify_eq.
    apply step_effect_bump; [done| |]; intros r'; simpl; [case_decide; lia|]. intros Hr'.
    pose proof (Hrange r' Hr'). case_decide; subst; lia.
Qed.
End StepEffect.

(** ** The system invariant *)
Implicit Types (ts : list pc) (w : world).

Lemma total_claims_insert nodes r ts t p p' :
  ts !! t = Some p →
  total_claims nodes r (<[t := p']> ts)
  = (total_claims nodes r ts + claims nodes r p' - claims nodes r p)%Z.
Proof.
  revert t. induction ts as [|q ts IH]; intros [|t] Ht; simplify_eq/=; [lia|].
  rewrite (IH t Ht). lia.
Qed.

Lemma total_claims_bounds nodes r ts :
  nodes ≠ [] → Forall (pc_ok nodes) ts →
  (0 ≤ total_claims nodes r ts ≤ Z.of_nat (length ts * length nodes))%Z.
Proof.
  intros Hne Hok. induction Hok as [|p ts Hp _ IH]; simpl; [lia|].
  pose proof (claims_bounds nodes r p Hne Hp). lia.
Qed.

Lemma claims_le_total nodes r ts t p :
  nodes ≠ [] → Forall (pc_ok nodes) ts → ts !! t = Some p →
  (claims nodes r p ≤ total_claims nodes r ts)%Z.
Proof.
  intros Hne Hok. revert t. induction Hok as [|q ts Hq Hok IH]; intros [|t] Ht; simplify_eq/=.
  - pose proof (total_claims_bounds nodes r ts Hne Hok). lia.
  - pose proof (IH t Ht). pose proof (claims_bounds nodes r q Hne Hq). lia.
Qed.

(** Few enough requests that no counter can reach [usize::MAX]. *)
Definition small nodes (n : nat) : Prop := (Z.of_nat (n * length nodes) < usize_max)%Z.

Lemma inv_local nodes ts h fb t p p' :
  ts !! t = Some p → pc_ok nodes p' → (∀ r, claims nodes r p' = claims nodes r p) →
  inv nodes (mkWorld ts h fb) → inv nodes (mkWorld (<[t := p']> ts) h fb).
Proof.
  intros Ht Hp Hc (Hv & Hok & Hcnt). split; [done|]. split; [by apply Forall_insert|].
  intros r Hr. simpl in *. rewrite (total_claims_insert _ _ _ _ p), Hc by done.
  rewrite Hcnt by done. lia.
Qed.

Lemma inv_set_health nodes f ts h fb r0 :
  (∀ n, active_requests (f n) = active_requests n) →
  inv nodes (mkWorld ts h fb) → inv nodes (mkWorld ts (alter f r0 h) fb).
Proof.
  intros Hf (Hv & Hok & Hcnt). unfold inv. simpl in *. rewrite length_alter.
  split; [done|]. split; [done|]. intros r Hr. rewrite <- (Hcnt r Hr).
  destruct (decide (r0 = r)) as [->|Hne].
  - by rewrite list_lookup_total_alter_eq.
  - by rewrite list_lookup_total_alter_ne.
Qed.

Lemma inv_step nodes w w' :
  nodes ≠ [] → small nodes (length (threads w)) →
  inv nodes w → world_step nodes w w' → inv nodes w'.
Proof.
  intros Hne Hsm Hinv Hstep.
  destruct Hstep as [t now ts h fb Ht|t p p' ts h h' fb fb' Ht Hs|t r n ts h fb Ht|t r n ts h fb Ht
    |t r ts h fb Ht|r hl ts h fb|r u ts h fb]; simpl in Hsm.
  - by eapply inv_local.
  - destruct Hinv as (Hv & Hok & Hcnt). simpl in *.
    assert (pc_ok nodes p) as Hp by by apply (Forall_lookup_1 _ _ _ _ Hok Ht).
    assert (∀ r, r < length h → (0 ≤ active_requests (h !!! r) < usize_max)%Z) as Hrange.
    { intros r Hr. rewrite (Hcnt r Hr). unfold small in Hsm.
      pose proof (total_claims_bounds nodes r ts Hne Hok). lia. }
    destruct (thread_step_effect nodes h Hv Hrange p fb p' h' fb' Hp) as (Hp' & Hlen & Heff); [|done|].
    { intros r Hr. rewrite (Hcnt r Hr). by apply (claims_le_total _ _ _ t). }
    split; [simpl; by rewrite Hlen|]. split; [by apply Forall_insert|]. simpl. rewrite Hlen. intros r Hr.
    rewrite (Heff r Hr), (Hcnt r Hr). symmetry. by apply total_claims_insert.
  - assert (pc_ok nodes (Held r n)) by apply (Forall_lookup_1 _ _ _ _ (proj1 (proj2 Hinv)) Ht).
    by eapply inv_local.
  - assert (pc_ok nodes (Held r (S n))) by apply (Forall_lookup_1 _ _ _ _ (proj1 (proj2 Hinv)) Ht).
    by eapply inv_local.
  - assert (pc_ok nodes (Held r 0)) by apply (Forall_lookup_1 _ _ _ _ (proj1 (proj2 Hinv)) Ht).
    by eapply inv_local.
  - by apply inv_set_health.
  - by apply inv_set_health.
Qed.

Lemma world_step_threads nodes w w' :
  world_step nodes w w' → length (threads w') = length (threads w).
Proof. destruct 1; simpl; by rewrite ?length_insert. Qed.

(** Idle requests over counters at zero satisfy the invariant. *)
Lemma inv_initial nodes n h :
  Forall (λ r, r < length h) nodes → Forall (λ n, active_requests n = 0%Z) h →
  inv nodes (initial n h).
Proof.
  intros Hv Hz. split; [done|]. split; [by apply Forall_replicate|]. intros r Hr. simpl in *.
  rewrite (Forall_lookup_total_1 _ _ _ Hz Hr). clear. induction n; simpl; lia.
Qed.

Lemma inv_reachable nodes w w' :
  nodes ≠ [] → small nodes (length (threads w)) → inv nodes w →
  rtc (world_step nodes) w w' → inv nodes w'.
Proof.
  intros Hne Hsm Hinv Hr. induction Hr as [|w1 w2 w3 Hs _ IH]; [done|].
  apply IH; [by rewrite (world_step_threads _ _ _ Hs)|by eapply inv_step].
Qed.

(** ** The counter is the number of live guards *)
Lemma total_claims_quiet nodes r ts :
  forallb quiet ts = true → total_claims nodes r ts = Z.of_nat (live_guards r ts).
Proof.
  induction ts as [|p ts IH]; [done|]. simpl. intros [Hp Hq]%andb_prop.
  rewrite (IH Hq). unfold live_guards. simpl. destruct p; simpl in *; try done.
  case_decide; [rewrite bool_decide_eq_true_2 by done|rewrite bool_decide_eq_false_2 by done]; simpl; lia.
Qed.

(** C1: No phantom claims: whenever no request is mid-[select] or mid-drop, each
    node's [active_requests] is the number of requests holding a guard on it. *)
Theorem pf_no_phantom_claims nodes n h w r :
  nodes ≠ [] → small nodes n → Forall (λ r, r < length h) nodes →
  Forall (λ n, active_requests n = 0%Z) h →
  rtc (world_step nodes) (initial n h) w →
  forallb quiet (threads w) = true → r < length (store w) →
  active_requests (store w !!! r) = Z.of_nat (live_guards r (threads w)).
Proof.
  intros Hne Hsm Hv Hz Hr Hq Hlt.
  assert (inv nodes w) as (_ & _ & Hcnt).
  { eapply inv_reachable; [done| |by apply inv_initial|done]. simpl. by rewrite length_replicate. }
  rewrite (Hcnt r Hlt). by apply total_claims_quiet.
Qed.

(** The free claim is exclusive: when a [compare_exchange] succeeds on a node,
    no other request is answerable for any increment of it. *)
Theorem pf_free_claim_exclusive nodes n h w t now i h' fb' :
  nodes ≠ [] → small nodes n → Forall (λ r, r < length h) nodes →
  Forall (λ n, active_requests n = 0%Z) h →
  rtc (world_step nodes) (initial n h) w →
  threads w !! t = Some (Cas now i) →
  thread_step nodes (Cas now i) (store w) (fallbacks w) = Some (Held (nodes !!! i) 0, h', fb') →
  ∀ t' p, threads w !! t' = Some p → claims nodes (nodes !!! i) p = 0%Z.
Proof.
  intros Hne Hsm Hv Hz Hr Ht Hs t' p Ht'.
  assert (inv nodes w) as (Hv' & Hok & Hcnt).
  { eapply inv_reachable; [done| |by apply inv_initial|done]. simpl. by rewrite length_replicate. }
  pose proof (Forall_lookup_1 _ _ _ _ Hok Ht) as Hi. simpl in Hi, Hs.
  destruct (Z.eqb_spec (active_requests (store w !!! (nodes !!! i))) 0) as [Hzero|]; [|done].
  pose proof (Hcnt _ (Forall_lookup_total_1 _ _ _ Hv' Hi)) as Htot.
  pose proof (claims_le_total nodes (nodes !!! i) _ t' p Hne Hok Ht').
  pose proof (claims_bounds nodes (nodes !!! i) p Hne (Forall_lookup_1 _ _ _ _ Hok Ht')). lia.
Qed.

(** ** Wait-freedom *)






(** ** Refinement: an undisturbed request computes [pf_select] *)
Section Solo.
Context (nodes : list nat).

Definition solo_step (c c' : pc * list BackendNode * Z) : Prop :=
  thread_step nodes c.1.1 c.1.2 c.2 = Some c'.

Lemma solo_one p h fb c : thread_step nodes p h fb = Some c → rtc solo_step (p, h, fb) c.
Proof. intros H. by apply rtc_once. Qed.

Lemma solo_cons p h fb c c' :
  thread_step nodes p h fb = Some c → rtc solo_step c c' → rtc solo_step (p, h, fb) c'.
Proof. intros H. by apply rtc_l. Qed.

(** Two accesses decide a cooldown check. *)
Lemma solo_walk_check now i h fb :
  i < length nodes →
  rtc solo_step (Walk now i, h, fb)
    (if in_cooldown now (h !!! (nodes !!! i)) then Walk now (S i) else Cas now i, h, fb).
Proof.
  intros Hi. apply Nat.ltb_lt in Hi. unfold in_cooldown.
  destruct (healthy _) eqn:Hh; simpl; [apply solo_one; simpl; by rewrite Hi, Hh|].
  eapply solo_cons; [simpl; by rewrite Hi, Hh|]. apply solo_one. simpl.
  by destruct (_ <? _)%Z.
Qed.

Lemma solo_scan_check now i s h fb :
  i < length nodes →
  rtc solo_step (ScanAt now i s, h, fb)
    (if in_cooldown now (h !!! (nodes !!! i)) then ScanAt now (S i) s else ScanAdd now i s, h, fb).
Proof.
  intros Hi. apply Nat.ltb_lt in Hi. unfold in_cooldown.
  destruct (healthy _) eqn:Hh; simpl; [apply solo_one; simpl; by rewrite Hi, Hh|].
  eapply solo_cons; [simpl; by rewrite Hi, Hh|]. apply solo_one. simpl.
  by destruct (_ <? _)%Z.
Qed.

Lemma solo_walk now k i h fb :
  i + k = length nodes →
  rtc solo_step (Walk now i, h, fb)
    match free_claim ((λ i, (i, nodes !!! i)) <$> seq i k) now h with
    | Some (r, h') => (Held r 0, h', fb)
    | None => (ScanAt now 0 scan_init, h, fb)
    end.
Proof.
  revert i. induction k as [|k IH]; intros i Hik.
  - apply solo_one. simpl. by rewrite (proj2 (Nat.ltb_ge _ _)) by lia.
  - etrans; [apply solo_walk_check; lia|]. simpl.
    destruct (in_cooldown _ _); [apply IH; lia|].
    destruct (_ =? 0)%Z eqn:Hz; (eapply solo_cons; [simpl; by rewrite Hz|]); [done|].
    apply IH. lia.
Qed.

Lemma solo_scan now k i s h fb :
  i + k = length nodes →
  rtc solo_step (ScanAt now i s, h, fb)
    (let '(s', h') := foldl (scan_step now) (s, h) ((λ i, (i, nodes !!! i)) <$> seq i k) in
     (ScanAt now (length nodes) s', h', fb)).
Proof.
  revert i s h. induction k as [|k IH]; intros i s h Hik.
  - rewrite Nat.add_0_r in Hik. by subst.
  - etrans; [apply solo_scan_check; lia|]. simpl.
    destruct (in_cooldown _ _); [apply IH; lia|].
    destruct (_ <? _)%Z eqn:Hlt; (eapply solo_cons; [simpl; by rewrite Hlt|]); apply IH; lia.
Qed.

Lemma solo_release best todo h fb :
  rtc solo_step (Release best todo, h, fb)
    (Held (nodes !!! best) 0, release_others nodes best todo h, fb).
Proof.
  revert h. induction todo as [|idx todo IH]; intros h; [by apply solo_one|].
  destruct (decide (idx = best)) as [E|E] eqn:Hd;
    (eapply solo_cons; [simpl; by rewrite Hd|]); simpl; rewrite Hd; apply IH.
Qed.

Lemma solo_soonest_from k i r h fb :
  i + k = length nodes →
  rtc solo_step (Soonest i (Some (r, cooldown_expiry (h !!! r))), h, fb)
    (Claim (min_by_expiry r (drop i nodes) h), h, fb).
Proof.
  revert i r. induction k as [|k IH]; intros i r Hik.
  - rewrite drop_ge by lia. apply solo_one. simpl. by rewrite (proj2 (Nat.ltb_ge _ _)) by lia.
  - destruct (lookup_lt_is_Some_2 nodes i ltac:(lia)) as [x Hx].
    rewrite (drop_S _ _ _ Hx). simpl.
    eapply solo_cons; [simpl; by rewrite (proj2 (Nat.ltb_lt _ _)) by lia|].
    rewrite (list_lookup_total_correct _ _ _ Hx).
    destruct (_ <? _)%Z; apply IH; lia.
Qed.

Lemma solo_soonest r h fb :
  soonest_recovering_node nodes h = Some r →
  rtc solo_step (Soonest 0 None, h, fb) (Claim r, h, fb).
Proof.
  intros Hs. assert (∃ r0 rest, nodes = r0 :: rest ∧ r = min_by_expiry r0 rest h) as (r0 & rest & E & ->).
  { destruct nodes as [|r0 rest]; [done|]. injection Hs as <-. eauto. }
  eapply solo_cons; [simpl; by rewrite E|].
  pose proof (solo_soonest_from (length rest) 1 r0 h fb) as H. rewrite E in H.
  simpl in H. rewrite drop_0 in H. assert (nodes !!! 0 = r0) as -> by by rewrite E. by apply H.
Qed.
End Solo.

(** A request that runs alone, access by access, ends holding exactly what the
    functional [pf_select] returns, over the same final store. *)
Theorem pf_select_refined b now m h g b' h' :
  pf_select b now m h = Some (Ok g, b', h') →
  rtc (solo_step (pf_nodes b))
    (Walk now 0, h, pf_all_cooled_fallbacks b)
    (Held (node g) 0, h', pf_all_cooled_fallbacks b').
Proof.
  unfold pf_select, reserve_scan. rewrite candidate_order_from_0.
  pose proof (solo_walk (pf_nodes b) now (length (pf_nodes b)) 0 h (pf_all_cooled_fallbacks b) eq_refl) as Hw.
  destruct (free_claim _ now h) as [[r hc]|]; [by intros [= <- <- <-]|].
  pose proof (solo_scan (pf_nodes b) now (length (pf_nodes b)) 0 scan_init h
    (pf_all_cooled_fallbacks b) eq_refl) as Hs.
  destruct (foldl _ _ _) as [s h1].
  assert (∀ c, thread_step (pf_nodes b) (ScanAt now (length (pf_nodes b)) s) h1
                 (pf_all_cooled_fallbacks b) = Some c →
               rtc (solo_step (pf_nodes b)) (Walk now 0, h, pf_all_cooled_fallbacks b) c) as Hpre.
  { intros c Hc. etrans; [exact Hw|]. etrans; [exact Hs|]. by apply solo_one. }
  simpl in Hpre. rewrite Nat.ltb_irrefl in Hpre. destruct (best_idx s) as [best|].
  - intros [= <- <- <-]. etrans; [by apply Hpre|]. apply solo_release.
  - destruct (soonest_recovering_node _ _) as [r|] eqn:Es; [|done]. intros [= <- <- <-].
    etrans; [by apply Hpre|]. eapply solo_cons; [reflexivity|].
    etrans; [by apply solo_soonest|]. by apply solo_one.
Qed.
