(* ===== verification/Config.v ===== *)
(** * Configuration and its validation
    (llama-proxy/src/config: mod.rs, loader.rs, validate.rs)

    The typed configuration, its defaults, and the loader's validation sweep.
    A [HashMap] is the list of its entries in the order the map yields them;
    nothing below depends on that order except which error is reported first. *)
From S2P Require Import Prelude.

(** ** Data *)
Inductive ConfigError :=
  | NotFound (path : str)
  | Io (e : str)
  | Parse (e : str)
  | Validation (msg : str).

Record TlsConfig := mkTls {
  accept_invalid_certs : bool;
  ca_cert_path : option str;
  client_cert_path : option str;
  client_key_path : option str;
}.

Record BackendConfig := mkBackendConfig {
  bc_url : str;
  bc_timeout_seconds : Z;
  bc_tls : option TlsConfig;
  bc_model : option str;
  bc_api_key : option str;
  bc_strip_path_prefix : option str;
}.

Record BackendNodeConfig := mkNodeConfig {
  nc_url : str;
  nc_timeout_seconds : Z;
  nc_tls : option TlsConfig;
  nc_model : option str;
  nc_api_key : option str;
  nc_strip_path_prefix : option str;
  nc_temperature : option f64;
}.

Record BackendGroupConfig := mkGroupConfig {
  gc_mappings : list str;
  gc_strategy : str;
  gc_failure_cooldown_secs : Z;
  gc_exclusive : bool;
  gc_nodes : list BackendNodeConfig;
}.

Abbreviation BackendsConfig := (list (str * BackendGroupConfig)) (only parsing).

Record FixModuleConfig := mkFixModule {
  fm_enabled : bool;
  fm_options : list str;      (** the keys of the flattened leftover map *)
}.

Record FixesConfig := mkFixes {
  fixes_enabled : bool;
  modules : list (str * FixModuleConfig);
}.

Inductive StatsFormat := Pretty | Json | Compact.

Record StatsConfig := mkStats {
  st_enabled : bool;
  st_format : StatsFormat;
  max_plausible_prefill_tps : f64;
}.

Inductive StreamingMode := Disabled | Fake | Passthrough.
#[export] Instance StreamingMode_eq_dec : EqDecision StreamingMode.
Proof. solve_decision. Defined.

Record SynthesisConfig := mkSynthesis {
  chunk_delay_ms : Z;
  chunk_size_chars : Z;
}.

Record AugmentBackendConfig := mkAugment {
  ab_enabled : bool;
  ab_url : str;
  ab_model : str;
  ab_prompt_file : str;
  ab_request_prompt_file : str;
  ab_timeout_secs : Z;
}.

Record RepromptConfig := mkReprompt {
  rp_enabled : bool;
  rp_prompt_file : option str;
  rp_prompt : option str;
  rp_max_retries : Z;
  rp_done_sentinels : list str;
  rp_dynamic_prompt : bool;
  rp_log_stop_responses : bool;
  rp_skip_read_only_requests : bool;
  rp_max_total_ms : Z;
}.

Record InfluxDbConfig := mkInflux {
  ix_enabled : bool;
  ix_url : str;
  ix_org : str;
  ix_bucket : str;
  ix_token : str;
}.

Record DumpConfig := mkDump {
  dump_enabled : bool;
  dump_path : str;
}.

Record ServerConfig := mkServer {
  port : Z;
  host : str;
  max_concurrent_requests : Z;
  allowed_origins : option (list str);
}.

Record AppConfig := mkApp {
  server : ServerConfig;
  backend : option BackendConfig;
  backends : option BackendsConfig;
  fixes : FixesConfig;
  stats : StatsConfig;
  exporters_influxdb : InfluxDbConfig;
  streaming : StreamingMode;
  synthesis : SynthesisConfig;
  augment_backend : option AugmentBackendConfig;
  reprompt : option RepromptConfig;
  dump : DumpConfig;
}.

(** ** Defaults *)
Definition default_timeout : Z := 300.
Definition default_strategy : str := lit "round_robin".
Definition default_failure_cooldown_secs : Z := 30.
Definition default_max_concurrent : Z := 0.
Definition default_synthesis_chunk_size_chars : Z := 2000.
Definition default_max_plausible_prefill_tps : f64 := f64_of_Z 50000.

Definition BackendConfig_default : BackendConfig :=
  mkBackendConfig (lit "http://localhost:8080") default_timeout None None None None.
Definition FixesConfig_default : FixesConfig := mkFixes true [].
Definition StatsConfig_default : StatsConfig :=
  mkStats true Pretty default_max_plausible_prefill_tps.
Definition SynthesisConfig_default : SynthesisConfig :=
  mkSynthesis 0 default_synthesis_chunk_size_chars.
Definition AugmentBackendConfig_default : AugmentBackendConfig :=
  mkAugment false [] [] (lit "./augmenter/backend_prompt.md") (lit "./augmenter/request_prompt.md") 15.
Definition RepromptConfig_default : RepromptConfig :=
  mkReprompt false None None 3 [lit "DONE"] true false true 30000.
Definition InfluxDbConfig_default : InfluxDbConfig :=
  mkInflux false (lit "http://localhost:8086") (lit "my-org") (lit "llama-metrics") [].

(** [FixesConfig::leftover_fix_module_options]: pairs sorted by module, then key. *)
Definition pair_le (x y : str * str) : Prop :=
  if decide (x.1 = y.1) then str_le x.2 y.2 else str_le x.1 y.1.
#[export] Instance pair_le_dec : RelDecision pair_le.
Proof. intros x y. unfold pair_le. case_decide; apply _. Defined.

Definition leftover_fix_module_options (c : FixesConfig) : list (str * str) :=
  merge_sort pair_le ('(m, cfg) ← modules c; (λ k, (m, k)) <$> fm_options cfg).

(** [BackendConfig::base_url] and [is_tls]; [to_lowercase] is [str::to_lowercase]. *)
Definition bc_base_url (c : BackendConfig) : str := trim_end_matches "/"%char (bc_url c).
Definition is_tls (to_lowercase : str → str) (c : BackendConfig) : bool :=
  bool_decide (is_Some (strip_prefix (to_lowercase (bc_url c)) (lit "https://"))).

(** [NoMatchingBackend] and [AugmentBackendError] as they print. *)
Definition show_no_matching_backend (requested_model : option str) : str :=
  match requested_model with
  | Some model => lit "No backend configured for model: " ++ model
  | None => lit "No backend configured (no model specified and no catch-all)"
  end.
Definition show_augment_backend_error (message : str) : str := lit "AugmentBackendError: " ++ message.

(** ** Streaming mode *)
Definition is_fake (m : StreamingMode) : bool := bool_decide (m = Fake).
Definition is_disabled (m : StreamingMode) : bool := bool_decide (m = Disabled).
Definition is_passthrough (m : StreamingMode) : bool := bool_decide (m = Passthrough).

Definition mode_as_str (m : StreamingMode) : str :=
  match m with
  | Disabled => lit "disabled"
  | Fake => lit "fake"
  | Passthrough => lit "passthrough"
  end.

Definition effective_label (m : StreamingMode) : str :=
  match m with
  | Fake => lit "backend JSON, synthesized SSE"
  | Passthrough => lit "backend SSE, verbatim (OpenAI path only)"
  | Disabled => lit "backend JSON, synthesized SSE (reserved: disabled)"
  end.

Section Mode.
(** [str::to_lowercase], which needs the Unicode case tables. *)
Context (to_lowercase : str → str).

Definition from_str_mode (s : str) : option StreamingMode :=
  let l := to_lowercase s in
  if decide (l = lit "disabled") then Some Disabled
  else if decide (l = lit "fake") then Some Fake
  else if decide (l = lit "passthrough") then Some Passthrough
  else None.

Definition resolve (cli_override : option str) (config_value : StreamingMode)
    : result str StreamingMode :=
  match cli_override with
  | Some raw =>
      match from_str_mode raw with
      | Some m => Ok m
      | None => Err (lit "Invalid streaming mode: " ++ raw ++ lit ". Use 'disabled', 'fake', or 'passthrough'.")
      end
  | None => Ok config_value
  end.
End Mode.

(** ** Validation (validate.rs) *)
Definition invalid {A} (msg : str) : result ConfigError A := Err (Validation msg).

Definition MAX_TIMEOUT_SECONDS : Z := 86400.
Definition MAX_FAILURE_COOLDOWN_SECS : Z := 86400.
Definition MAX_REPROMPT_TOTAL_MS : Z := 3600000.
Definition MAX_CHUNK_DELAY_MS : Z := 60000.
Definition MIN_CHUNK_SIZE_CHARS : Z := 1.

Definition require_nonempty (value what : str) : result ConfigError unit :=
  if bool_decide (value = []) then invalid (what ++ lit " must not be empty") else Ok ().

Definition reject_over (name : str) (value max : Z) : result ConfigError unit :=
  if (max <? value)%Z
  then invalid (name ++ lit " " ++ show_Z value ++ lit " exceeds the supported maximum " ++ show_Z max)
  else Ok ().

Definition validate_timeout_seconds (secs : Z) (where_ : str) : result ConfigError unit :=
  reject_over (where_ ++ lit " timeout_seconds") secs MAX_TIMEOUT_SECONDS.

Definition validate_failure_cooldown_secs (secs : Z) (group : str) : result ConfigError unit :=
  reject_over (lit "Backend group '" ++ group ++ lit "' failure_cooldown_secs") secs
    MAX_FAILURE_COOLDOWN_SECS.

Definition validate_reprompt_max_total_ms (ms : Z) : result ConfigError unit :=
  reject_over (lit "reprompt max_total_ms") ms MAX_REPROMPT_TOTAL_MS.

Definition validate_synthesis (synth : SynthesisConfig) : result ConfigError unit :=
  _ ← reject_over (lit "synthesis chunk_delay_ms") (chunk_delay_ms synth) MAX_CHUNK_DELAY_MS;
  if (chunk_size_chars synth <? MIN_CHUNK_SIZE_CHARS)%Z
  then invalid (lit "synthesis chunk_size_chars must be at least 1; 0 emits one chunk per character")
  else Ok ().

(** The label tests look at chars; on ASCII classes that is the same as
    looking at bytes. *)
Definition label_ok (label : str) : bool :=
  negb (bool_decide (label = []))
  && (length label <=? 63)
  && match head label with Some c => is_ascii_alphanumeric c | None => false end
  && match last label with Some c => is_ascii_alphanumeric c | None => false end
  && forallb (λ c, is_ascii_alphanumeric c || bool_decide (c = "-"%char)) label.

Definition is_rfc1123_hostname (host : str) : bool :=
  let trimmed := default host (strip_suffix host (lit ".")) in
  if bool_decide (trimmed = []) || (255 <? length trimmed) then false
  else forallb label_ok (split_char "."%char trimmed).

Section Validate.
(** [IpAddr::from_str(..).is_ok()], [Url::parse] (scheme and host, or the
    error text), [Debug] of a string, [Display] of an [f64], [Path::exists]. *)
Context (parse_ip : str → bool).
Context (url_parse : str → result str (str * option str)).
Context (debug_str : str → str).
Context (show_f64 : f64 → str).
Context (path_exists : str → bool).

Definition validate_bind_host (host : str) : result ConfigError unit :=
  let stripped :=
    default host (h ← strip_prefix host (lit "["); strip_suffix h (lit "]")) in
  if parse_ip stripped then Ok ()
  else if is_rfc1123_hostname stripped then Ok ()
  else invalid (lit "server host '" ++ host ++ lit "' is neither an IP address nor a valid RFC-1123 hostname").

Definition validate_http_url (url label : str) : result ConfigError unit :=
  match url_parse url with
  | Err e => invalid (lit "Invalid " ++ label ++ lit " URL '" ++ url ++ lit "': " ++ e)
  | Ok (scheme, url_host) =>
      if negb (bool_decide (scheme = lit "http")) && negb (bool_decide (scheme = lit "https"))
      then invalid (label ++ lit " URL must use http:// or https://, got '" ++ scheme ++ lit "'")
      else match url_host with
           | None | Some [] => invalid (label ++ lit " URL must include a host: '" ++ url ++ lit "'")
           | Some _ => Ok ()
           end
  end.

Definition validate_temperature (t : f64) (where_ : str) : result ConfigError unit :=
  if negb (f64_is_finite t)
  then invalid (where_ ++ lit " temperature " ++ show_f64 t ++ lit " is not a finite number")
  else if negb (f64_le f64_zero t && f64_le t (f64_of_Z 2))
  then invalid (where_ ++ lit " temperature " ++ show_f64 t ++ lit " is outside the valid range 0..=2")
  else Ok ().

Definition is_control_char (g : str) : bool :=
  match g with
  | [c] => (byte_val c <? 32)%Z || (byte_val c =? 127)%Z
  | _ => false
  end.

Definition validate_origin (entry : str) : result ConfigError unit :=
  if bool_decide (entry = []) then invalid (lit "server.allowed_origins contains an empty entry")
  else if existsb is_control_char (chars entry)
  then invalid (lit "server.allowed_origins entry " ++ debug_str entry
                ++ lit " contains control characters; it would be echoed as a response header")
  else if existsb is_whitespace (chars entry)
  then invalid (lit "server.allowed_origins entry " ++ debug_str entry
                ++ lit " contains whitespace; origins are exact tokens like 'https://app.example'")
  else if bool_decide (entry = lit "*")
  then invalid (lit "server.allowed_origins contains '*'; it is not an exact origin — omit allowed_origins to allow every origin")
  else Ok ().

Definition validate_allowed_origins (origins : list str) : result ConfigError unit :=
  try_for validate_origin origins.

(** ** The loader's sweep (loader.rs) *)
Definition validate_reprompt (rep : option RepromptConfig) : result ConfigError unit :=
  match rep with
  | None => Ok ()
  | Some r =>
      if rp_enabled r && bool_decide (rp_prompt_file r = None) && bool_decide (rp_prompt r = None)
      then invalid (lit "reprompt: enabled but neither 'prompt_file' nor 'prompt' is set")
      else
        _ ← match rp_prompt_file r with
            | None => Ok ()
            | Some file =>
                _ ← require_nonempty file (lit "reprompt prompt_file");
                if negb (path_exists file)
                then invalid (lit "reprompt: prompt_file '" ++ file ++ lit "' does not exist")
                else Ok ()
            end;
        _ ← try_for (λ s, require_nonempty s (lit "reprompt done_sentinels entry")) (rp_done_sentinels r);
        validate_reprompt_max_total_ms (rp_max_total_ms r)
  end.

Definition validate_stats (st : StatsConfig) : result ConfigError unit :=
  if negb (f64_is_finite (max_plausible_prefill_tps st))
  then invalid (lit "stats.max_plausible_prefill_tps " ++ show_f64 (max_plausible_prefill_tps st)
                ++ lit " is not a finite number; use a rate, or 0.0 to disable the canary")
  else Ok ().

Definition validate_backend_url (url : str) : result ConfigError unit :=
  validate_http_url url (lit "Backend").

Definition validate_backend_config (c : BackendConfig) : result ConfigError unit :=
  if (bc_timeout_seconds c =? 0)%Z then invalid (lit "Backend timeout_seconds must be greater than 0")
  else validate_timeout_seconds (bc_timeout_seconds c) (lit "Backend").

Definition validate_server_config (c : ServerConfig) : result ConfigError unit :=
  if (port c =? 0)%Z
  then invalid (lit "Server port must be between 1-65535, got " ++ show_Z (port c))
  else
    _ ← match allowed_origins c with
        | Some origins => validate_allowed_origins origins
        | None => Ok ()
        end;
    validate_bind_host (host c).

Definition validate_node (name : str) (n : BackendNodeConfig) : result ConfigError unit :=
  let where_ := lit "Node in group '" ++ name ++ lit "'" in
  _ ← validate_backend_url (nc_url n);
  if (nc_timeout_seconds n =? 0)%Z then invalid (where_ ++ lit " has timeout_seconds of 0")
  else
    _ ← validate_timeout_seconds (nc_timeout_seconds n) where_;
    match nc_temperature n with
    | Some t => validate_temperature t where_
    | None => Ok ()
    end.

(** The mapping loop of one group: every model is claimed in [model_owner]. *)
Fixpoint claim_mappings (name : str) (ms : list str) (model_owner : list (str * str))
    : result ConfigError (list (str * str)) :=
  match ms with
  | [] => Ok model_owner
  | model :: ms' =>
      _ ← require_nonempty model (lit "backend group mapping entry");
      match snd <$> list_find (λ p, p.1 = model) model_owner with
      | Some (_, prev) =>
          invalid (lit "Model '" ++ model ++ lit "' is mapped in both group '" ++ prev
                   ++ lit "' and group '" ++ name ++ lit "'")
      | None => claim_mappings name ms' ((model, name) :: model_owner)
      end
  end.

Fixpoint validate_groups (groups : BackendsConfig) (catch_alls : nat) (model_owner : list (str * str))
    : result ConfigError unit :=
  match groups with
  | [] => Ok ()
  | (name, group) :: rest =>
      _ ← require_nonempty name (lit "backend group name");
      let catch_alls' := if bool_decide (gc_mappings group = []) then S catch_alls else catch_alls in
      if bool_decide (gc_mappings group = []) && (1 <? catch_alls')
      then invalid (lit "Only one catch-all group (empty 'mappings: []') may be configured")
      else
        model_owner' ← claim_mappings name (gc_mappings group) model_owner;
        if bool_decide (gc_nodes group = [])
        then invalid (lit "Backend group '" ++ name ++ lit "' has no nodes configured")
        else if negb (bool_decide (gc_strategy group = lit "round_robin"))
                && negb (bool_decide (gc_strategy group = lit "priority_free"))
        then invalid (lit "Backend group '" ++ name ++ lit "' has invalid strategy '" ++ gc_strategy group
                      ++ lit "'. Use 'round_robin' or 'priority_free'")
        else
          _ ← validate_failure_cooldown_secs (gc_failure_cooldown_secs group) name;
          _ ← try_for (validate_node name) (gc_nodes group);
          validate_groups rest catch_alls' model_owner'
  end.

Definition validate_backends (c : AppConfig) : result ConfigError unit :=
  match backends c with
  | None =>
      match backend c with
      | Some b => _ ← validate_backend_config b; validate_backend_url (bc_url b)
      | None => Ok ()
      end
  | Some [] => invalid (lit "No backend groups configured")
  | Some groups => validate_groups groups 0 []
  end.

(** [load_config] after the file is read and parsed. *)
Definition load_validate (config : AppConfig) : result ConfigError AppConfig :=
  _ ← validate_server_config (server config);
  _ ← validate_reprompt (reprompt config);
  _ ← validate_backends config;
  _ ← validate_synthesis (synthesis config);
  _ ← validate_stats (stats config);
  _ ← match augment_backend config with
      | Some augment =>
          _ ← validate_http_url (ab_url augment) (lit "Augment backend");
          require_nonempty (ab_model augment) (lit "augment-backend model")
      | None => Ok ()
      end;
  _ ← (if ix_enabled (exporters_influxdb config)
       then validate_http_url (ix_url (exporters_influxdb config)) (lit "InfluxDB exporter")
       else Ok ());
  _ ← (if dump_enabled (dump config)
       then require_nonempty (trim (dump_path (dump config))) (lit "dump path while dump is enabled")
       else Ok ());
  Ok config.

(** [load_config]: [path_exists] and [read] are the file system, [yaml] the
    YAML parser. *)
Definition load_config (read : str → result str str) (yaml : str → result str AppConfig)
    (path : str) : result ConfigError AppConfig :=
  if negb (path_exists path) then Err (NotFound path)
  else
    match read path with
    | Err e => Err (Io e)
    | Ok content =>
        match yaml content with
        | Err e => Err (Parse e)
        | Ok config => load_validate config
        end
    end.
End Validate.

(** * Facts *)

Lemma reject_over_Ok name v m : reject_over name v m = Ok () ↔ (v ≤ m)%Z.
Proof. unfold reject_over. destruct (Z.ltb_spec m v); split; intros; try done; lia. Qed.

Lemma require_nonempty_Ok v what : require_nonempty v what = Ok () ↔ v ≠ [].
Proof. unfold require_nonempty. case_bool_decide; naive_solver. Qed.

Lemma claim_mappings_Ok name ms owner owner' :
  claim_mappings name ms owner = Ok owner' →
  owner' = reverse ((., name) <$> ms) ++ owner ∧
  (NoDup owner.*1 → NoDup (reverse ms ++ owner.*1)).
Proof.
  revert owner. induction ms as [|m ms IH]; intros owner H; simpl in H; [by simplify_eq|].
  apply result_bind_Ok in H as ([] & _ & H).
  destruct (list_find _ owner) as [[i [mo po]]|] eqn:Hf; [done|]. simpl in H.
  apply IH in H as [-> Hnd]. split.
  - by rewrite fmap_cons, reverse_cons, <- app_assoc.
  - intros Ho. rewrite reverse_cons, <- app_assoc. apply Hnd. simpl. constructor; [|done].
    intros Hin. apply list_elem_of_fmap in Hin as (p & -> & Hp).
    apply list_find_None in Hf. by apply (proj1 (Forall_forall _ _) Hf p).
Qed.

Definition all_mappings (groups : BackendsConfig) : list str :=
  '(_, g) ← groups; gc_mappings g.

Definition catch_all_groups (groups : BackendsConfig) : BackendsConfig :=
  filter (λ p, gc_mappings p.2 = []) groups.

Record group_ok (g : BackendGroupConfig) : Prop := {
  group_nodes : gc_nodes g ≠ [];
  group_strategy : gc_strategy g = lit "round_robin" ∨ gc_strategy g = lit "priority_free";
  group_cooldown : (gc_failure_cooldown_secs g ≤ MAX_FAILURE_COOLDOWN_SECS)%Z;
  group_timeouts : Forall (λ n, nc_timeout_seconds n ≠ 0 ∧ nc_timeout_seconds n ≤ MAX_TIMEOUT_SECONDS)%Z
                     (gc_nodes g);
}.

Section Facts.
Context (parse_ip : str → bool) (url_parse : str → result str (str * option str)).
Context (debug_str : str → str) (show_f64 : f64 → str) (path_exists : str → bool).

Lemma validate_node_Ok name n :
  validate_node url_parse show_f64 name n = Ok () →
  (nc_timeout_seconds n ≠ 0 ∧ nc_timeout_seconds n ≤ MAX_TIMEOUT_SECONDS)%Z.
Proof.
  unfold validate_node. intros H. inv_result. destruct (Z.eqb_spec (nc_timeout_seconds n) 0); [done|].
  inv_result. split; [done|]. by apply reject_over_Ok in H1.
Qed.

Lemma validate_groups_Ok groups k owner :
  validate_groups url_parse show_f64 groups k owner = Ok () →
  Forall (λ p, p.1 ≠ [] ∧ group_ok p.2) groups ∧
  (k ≤ 1 → k + length (catch_all_groups groups) ≤ 1) ∧
  (NoDup owner.*1 → NoDup (reverse (all_mappings groups) ++ owner.*1)).
Proof.
  revert k owner. induction groups as [|[name g] groups IH]; intros k owner H.
  { split; [constructor|]. split; [simpl; lia|done]. }
  simpl in H. apply result_bind_Ok in H as ([] & Hname & H). apply require_nonempty_Ok in Hname.
  destruct (bool_decide (gc_mappings g = []) && _) eqn:Hca; [done|].
  apply result_bind_Ok in H as (owner' & Hclaim & H).
  apply claim_mappings_Ok in Hclaim as [-> Hnd].
  case_bool_decide as Hnodes; [done|].
  destruct (negb _ && negb _) eqn:Hstrat; [done|].
  apply result_bind_Ok in H as ([] & Hcool & H). apply reject_over_Ok in Hcool.
  apply result_bind_Ok in H as ([] & Hns & H). apply try_for_Ok in Hns.
  apply IH in H as (Hall & Hcount & Huniq). split; [|split].
  - constructor; [|done]. split; [done|]. split; [done| |done|].
    + apply andb_false_iff in Hstrat. rewrite !negb_false_iff, !bool_decide_eq_true in Hstrat. naive_solver.
    + eapply Forall_impl; [exact Hns|]. intros n. apply validate_node_Ok.
  - intros Hk. unfold catch_all_groups in *. rewrite filter_cons. simpl.
    case_bool_decide as Hm; simpl in *.
    + rewrite decide_True by done. simpl. apply Nat.ltb_ge in Hca. pose proof (Hcount Hca). lia.
    + rewrite decide_False by done. auto.
  - intros Ho. unfold all_mappings in *. simpl. rewrite reverse_app, <- app_assoc.
    assert ((reverse ((., name) <$> gc_mappings g) ++ owner).*1 = reverse (gc_mappings g) ++ owner.*1) as E.
    { rewrite fmap_app, fmap_reverse, <- list_fmap_compose.
      unfold compose. simpl. by rewrite list_fmap_id. }
    rewrite E in Huniq. apply Huniq. by apply Hnd.
Qed.

Lemma load_config_groups read yaml path config groups :
  load_config parse_ip url_parse debug_str show_f64 path_exists read yaml path = Ok config →
  backends config = Some groups →
  groups ≠ [] ∧ Forall (λ p, p.1 ≠ [] ∧ group_ok p.2) groups ∧
  length (catch_all_groups groups) ≤ 1 ∧ NoDup (all_mappings groups).
Proof.
  intros H Hb. unfold load_config in H. destruct (negb _); [done|].
  destruct (read path) as [content|]; [|done]. destruct (yaml content) as [c|]; [|done].
  unfold load_validate in H. do 2 apply result_bind_Ok in H as ([] & _ & H).
  apply result_bind_Ok in H as ([] & Hv & H). inv_result. subst c. clear -Hv Hb. rename Hv into H.
  unfold validate_backends in H. rewrite Hb in H. destruct groups as [|p groups]; [done|].
  apply validate_groups_Ok in H as (Hall & Hcount & Huniq). split; [done|]. split; [done|]. split.
  - by apply Hcount, Nat.le_0_l.
  - specialize (Huniq (NoDup_nil_2)). simpl in Huniq. rewrite app_nil_r in Huniq.
    by rewrite reverse_Permutation in Huniq.
Qed.
(** What a configuration that passed [load_config] guarantees the router: at
    least one group, each well formed, at most one catch-all, and no model
    named twice across (or within) the groups' mappings. *)
Theorem load_config_groups_ok read yaml path config groups :
  load_config parse_ip url_parse debug_str show_f64 path_exists read yaml path = Ok config →
  backends config = Some groups →
  groups ≠ [] ∧ Forall (λ p, p.1 ≠ [] ∧ group_ok p.2) groups ∧
  length (catch_all_groups groups) ≤ 1 ∧ NoDup (all_mappings groups).
Proof. apply load_config_groups. Qed.
End Facts.
