(* ===== verification/ConfigRead.v ===== *)
(** * Reading a configuration file (llama-proxy/src/config/mod.rs)

    What the derived decoders accept: the names and aliases of the keys, their
    defaults, their types and widths, and the refusal of keys nobody knows.
    serde_yaml is a parameter: a document is a [Node] it answers typed questions
    about.  [document] writes a configuration down, with any of its default
    values left out, and is what the reader is measured against. *)
From S2P Require Import Prelude Config.

(** ** The parser's answers: one per [deserialize_*] the decoders call *)
Class Yaml := {
  Node : Type;
  y_parse : str → option Node;
  y_error : str → str;                          (** the text of the error of a refused file *)
  y_bool : Node → option bool;
  y_u64 : Node → option Z;
  y_f64 : Node → option f64;
  y_str : Node → option str;
  y_variant : Node → option str;                (** the name of a unit variant *)
  y_some : Node → option Node;                  (** [deserialize_option]: [None] for a null *)
  y_seq : Node → option (list Node);
  y_map : Node → option (list (Node * Node));
  y_any_str : Node → option str;                (** [deserialize_any] visits a string *)
  y_value : Node → bool;                        (** it can be kept as a [serde_yaml::Value] *)
  yield_order : ∀ {A}, list (str * A) → list (str * A);   (** the order a [HashMap] yields its entries in *)
}.

Section Read.
Context `{Yaml}.

(** ** What serde derives *)
Fixpoint field_of {A} (fs : list (str * A)) (k : str) : option A :=
  match fs with
  | [] => None
  | (k', v) :: fs => if decide (k' = k) then Some v else field_of fs k
  end.

(** A struct under [deny_unknown_fields]: an unknown or a repeated key is an error. *)
Definition read_fields (alias : str → str) (names : list str) (n : Node) : option (list (str * Node)) :=
  m ← y_map n;
  fs ← mapM (λ e : Node * Node, k ← y_str e.1; Some (alias k, e.2)) m;
  if bool_decide (NoDup fs.*1) && bool_decide (fs.*1 ⊆ names) then Some fs else None.

Definition req {A} (fs : list (str * Node)) (k : String.string) (dec : Node → option A) : option A :=
  field_of fs (lit k) ≫= dec.
Definition dflt {A} (fs : list (str * Node)) (k : String.string) (d : A) (dec : Node → option A) : option A :=
  match field_of fs (lit k) with Some v => dec v | None => Some d end.
Definition opt {A} (dec : Node → option A) (n : Node) : option (option A) :=
  match y_some n with Some n => Some <$> dec n | None => Some None end.
Definition list_of {A} (dec : Node → option A) (n : Node) : option (list A) := y_seq n ≫= mapM dec.
Definition unsigned (bits : Z) (n : Node) : option Z :=
  z ← y_u64 n; if (z <? 2 ^ bits)%Z then Some z else None.

(** A [HashMap] with keys of type [String]: the last of several equal keys. *)
Fixpoint hash_insert {A} (k : str) (v : A) (m : list (str * A)) : list (str * A) :=
  match m with
  | [] => [(k, v)]
  | (k', v') :: m => if decide (k' = k) then (k, v) :: m else (k', v') :: hash_insert k v m
  end.
Definition hash_of {A} (es : list (str * A)) : list (str * A) := yield_order (foldl (λ m e, hash_insert e.1 e.2 m) [] es).
Definition hash_map {A} (dec : Node → option A) (n : Node) : option (list (str * A)) :=
  m ← y_map n;
  es ← mapM (λ e : Node * Node, k ← y_str e.1; v ← dec e.2; Some (k, v)) m;
  Some (hash_of es).

(** ** Defaults of fields *)
Definition default_fixes_enabled : bool := true.
Definition always_true : bool := true.
Definition default_stats_enabled : bool := true.
Definition default_augment_enabled : bool := false.
Definition default_prompt_file : str := lit "./augmenter/backend_prompt.md".
Definition default_request_prompt_file : str := lit "./augmenter/request_prompt.md".
Definition default_augment_timeout_secs : Z := 15.
Definition default_reprompt_max_retries : Z := 3.
Definition default_reprompt_done_sentinels : list str := [lit "DONE"].
Definition default_reprompt_dynamic_prompt : bool := true.
Definition default_reprompt_skip_read_only : bool := true.
Definition default_reprompt_max_total_ms : Z := 30000.
Definition default_influxdb_url : str := lit "http://localhost:8086".
Definition default_influxdb_org : str := lit "my-org".
Definition default_influxdb_bucket : str := lit "llama-metrics".

(** ** The sections *)
Notation names l := (lit <$> l%string).
Definition read_tls (n : Node) : option TlsConfig :=
  fs ← read_fields id (names ["accept_invalid_certs"; "ca_cert_path"; "client_cert_path"; "client_key_path"]) n;
  a ← dflt fs "accept_invalid_certs" false y_bool;
  ca ← dflt fs "ca_cert_path" None (opt y_str);
  cc ← dflt fs "client_cert_path" None (opt y_str);
  ck ← dflt fs "client_key_path" None (opt y_str);
  Some (mkTls a ca cc ck).

Definition read_backend (n : Node) : option BackendConfig :=
  fs ← read_fields id (names ["url"; "timeout_seconds"; "tls"; "model"; "api_key"; "strip_path_prefix"]) n;
  url ← req fs "url" y_str;
  t ← dflt fs "timeout_seconds" default_timeout y_u64;
  tls ← dflt fs "tls" None (opt read_tls);
  model ← dflt fs "model" None (opt y_str);
  key ← dflt fs "api_key" None (opt y_str);
  p ← dflt fs "strip_path_prefix" None (opt y_str);
  Some (mkBackendConfig url t tls model key p).

Definition read_node (n : Node) : option BackendNodeConfig :=
  fs ← read_fields id (names ["url"; "timeout_seconds"; "tls"; "model"; "api_key"; "strip_path_prefix"; "temperature"]) n;
  url ← req fs "url" y_str;
  t ← dflt fs "timeout_seconds" default_timeout y_u64;
  tls ← dflt fs "tls" None (opt read_tls);
  model ← dflt fs "model" None (opt y_str);
  key ← dflt fs "api_key" None (opt y_str);
  p ← dflt fs "strip_path_prefix" None (opt y_str);
  temp ← dflt fs "temperature" None (opt y_f64);
  Some (mkNodeConfig url t tls model key p temp).

Definition read_group (n : Node) : option BackendGroupConfig :=
  fs ← read_fields id (names ["mappings"; "strategy"; "failure_cooldown_secs"; "exclusive"; "nodes"]) n;
  m ← req fs "mappings" (list_of y_str);
  s ← dflt fs "strategy" default_strategy y_str;
  c ← dflt fs "failure_cooldown_secs" default_failure_cooldown_secs y_u64;
  e ← dflt fs "exclusive" false y_bool;
  ns ← req fs "nodes" (list_of read_node);
  Some (mkGroupConfig m s c e ns).

Definition read_server (n : Node) : option ServerConfig :=
  fs ← read_fields id (names ["port"; "host"; "max_concurrent_requests"; "allowed_origins"]) n;
  p ← req fs "port" (unsigned 16);
  h ← req fs "host" y_str;
  m ← dflt fs "max_concurrent_requests" default_max_concurrent y_u64;
  o ← dflt fs "allowed_origins" None (opt (list_of y_str));
  Some (mkServer p h m o).

(** The flattened map takes every key but [enabled]. *)
Definition read_module (n : Node) : option FixModuleConfig :=
  m ← y_map n;
  es ← mapM (λ e : Node * Node, k ← y_str e.1; Some (k, e.2)) m;
  let enabled := filter (λ e, e.1 = lit "enabled") es in
  let rest := filter (λ e, e.1 ≠ lit "enabled") es in
  if (length enabled <=? 1) && forallb (λ e, y_value e.2) rest then
    b ← dflt enabled "enabled" always_true y_bool;
    Some (mkFixModule b (hash_of rest).*1)
  else None.

Definition read_fixes (n : Node) : option FixesConfig :=
  fs ← read_fields id (names ["enabled"; "modules"]) n;
  e ← dflt fs "enabled" default_fixes_enabled y_bool;
  ms ← dflt fs "modules" [] (hash_map read_module);
  Some (mkFixes e ms).

Definition read_format (n : Node) : option StatsFormat :=
  v ← y_variant n;
  if decide (v = lit "pretty") then Some Pretty
  else if decide (v = lit "json") then Some Json
  else if decide (v = lit "compact") then Some Compact else None.

Definition read_stats (n : Node) : option StatsConfig :=
  fs ← read_fields id (names ["enabled"; "format"; "max_plausible_prefill_tps"]) n;
  e ← dflt fs "enabled" default_stats_enabled y_bool;
  f ← dflt fs "format" Pretty read_format;
  m ← dflt fs "max_plausible_prefill_tps" default_max_plausible_prefill_tps y_f64;
  Some (mkStats e f m).

Definition read_mode (n : Node) : option StreamingMode :=
  v ← y_variant n;
  if decide (v = lit "disabled") then Some Disabled
  else if decide (v = lit "fake") then Some Fake
  else if decide (v = lit "passthrough") then Some Passthrough else None.

Definition read_synthesis (n : Node) : option SynthesisConfig :=
  fs ← read_fields id (names ["chunk_delay_ms"; "chunk_size_chars"]) n;
  d ← dflt fs "chunk_delay_ms" 0%Z y_u64;
  s ← dflt fs "chunk_size_chars" default_synthesis_chunk_size_chars y_u64;
  Some (mkSynthesis d s).

Definition read_augment (n : Node) : option AugmentBackendConfig :=
  fs ← read_fields id (names ["enabled"; "url"; "model"; "prompt_file"; "request_prompt_file"; "timeout_secs"]) n;
  e ← dflt fs "enabled" default_augment_enabled y_bool;
  u ← req fs "url" y_str;
  m ← req fs "model" y_str;
  p ← dflt fs "prompt_file" default_prompt_file y_str;
  r ← dflt fs "request_prompt_file" default_request_prompt_file y_str;
  t ← dflt fs "timeout_secs" default_augment_timeout_secs y_u64;
  Some (mkAugment e u m p r t).

Definition deserialize_string_or_vec (n : Node) : option (list str) :=
  match y_any_str n with
  | Some s => Some [s]
  | None => list_of y_str n
  end.

(** [alias = "done_sentinel"]. *)
Definition reprompt_alias (k : str) : str := if decide (k = lit "done_sentinel") then lit "done_sentinels" else k.

Definition read_reprompt (n : Node) : option RepromptConfig :=
  fs ← read_fields reprompt_alias (names ["enabled"; "prompt_file"; "prompt"; "max_retries"; "done_sentinels";
         "dynamic_prompt"; "log_stop_responses"; "skip_read_only_requests"; "max_total_ms"]) n;
  e ← dflt fs "enabled" false y_bool;
  f ← dflt fs "prompt_file" None (opt y_str);
  p ← dflt fs "prompt" None (opt y_str);
  r ← dflt fs "max_retries" default_reprompt_max_retries (unsigned 32);
  d ← dflt fs "done_sentinels" default_reprompt_done_sentinels deserialize_string_or_vec;
  dy ← dflt fs "dynamic_prompt" default_reprompt_dynamic_prompt y_bool;
  l ← dflt fs "log_stop_responses" false y_bool;
  s ← dflt fs "skip_read_only_requests" default_reprompt_skip_read_only y_bool;
  t ← dflt fs "max_total_ms" default_reprompt_max_total_ms y_u64;
  Some (mkReprompt e f p r d dy l s t).

Definition read_influxdb (n : Node) : option InfluxDbConfig :=
  fs ← read_fields id (names ["enabled"; "url"; "org"; "bucket"; "token"]) n;
  e ← dflt fs "enabled" false y_bool;
  u ← dflt fs "url" default_influxdb_url y_str;
  o ← dflt fs "org" default_influxdb_org y_str;
  b ← dflt fs "bucket" default_influxdb_bucket y_str;
  t ← dflt fs "token" [] y_str;
  Some (mkInflux e u o b t).

Definition read_exporters (n : Node) : option InfluxDbConfig :=
  fs ← read_fields id (names ["influxdb"]) n;
  dflt fs "influxdb" InfluxDbConfig_default read_influxdb.

Definition read_dump (n : Node) : option DumpConfig :=
  fs ← read_fields id (names ["enabled"; "path"]) n;
  e ← dflt fs "enabled" false y_bool;
  p ← dflt fs "path" [] y_str;
  Some (mkDump e p).

Definition APP_FIELDS : list str :=
  names ["server"; "backend"; "backends"; "fixes"; "stats"; "exporters"; "streaming"; "synthesis"; "augment-backend";
         "reprompt"; "dump"].
Definition read_app (n : Node) : option AppConfig :=
  fs ← read_fields id APP_FIELDS n;
  sv ← req fs "server" read_server;
  b ← dflt fs "backend" None (opt read_backend);
  bs ← dflt fs "backends" None (opt (hash_map read_group));
  fx ← dflt fs "fixes" FixesConfig_default read_fixes;
  st ← dflt fs "stats" StatsConfig_default read_stats;
  ex ← dflt fs "exporters" InfluxDbConfig_default read_exporters;
  sm ← dflt fs "streaming" Fake read_mode;
  sy ← dflt fs "synthesis" SynthesisConfig_default read_synthesis;
  ab ← dflt fs "augment-backend" None (opt read_augment);
  rp ← dflt fs "reprompt" None (opt read_reprompt);
  du ← dflt fs "dump" (mkDump false []) read_dump;
  Some (mkApp sv b bs fx st ex sm sy ab rp du).

(** [serde_yaml::from_str::<AppConfig>] *)
Definition yaml_from_str (content : str) : result str AppConfig :=
  match y_parse content ≫= read_app with
  | Some c => Ok c
  | None => Err (y_error content)
  end.
End Read.

(** * What is refused *)
Section Strict.
Context `{Yaml}.

(** Every key of what is read is known, by its name or its alias, and given once. *)
Definition strict {A} (alias : str → str) (names : list str) (read : Node → option A) : Prop :=
  ∀ n a, read n = Some a →
  ∃ m ks, y_map n = Some m ∧ mapM (λ e, y_str e.1) m = Some ks ∧ NoDup (alias <$> ks) ∧ (alias <$> ks) ⊆ names.

Lemma mapM_keys (alias : str → str) m fs :
  mapM (λ e : Node * Node, k ← y_str e.1; Some (alias k, e.2)) m = Some fs →
  ∃ ks, mapM (λ e, y_str e.1) m = Some ks ∧ fs.*1 = alias <$> ks.
Proof.
  intros Hm%mapM_Some.
  cut (∃ ks, Forall2 (λ e k, y_str e.1 = Some k) m ks ∧ fs.*1 = alias <$> ks).
  { intros (ks & Hk & E). exists ks. split; [by apply mapM_Some|done]. }
  induction Hm as [|e f m fs He Hm (ks & Ek & Ef)]; [by exists []|].
  destruct (y_str e.1) as [k|] eqn:Es; [|done]. injection He as <-.
  exists (k :: ks). split; [by constructor|]. by rewrite !fmap_cons, Ef.
Qed.
Lemma read_fields_strict {A} alias names (cont : list (str * Node) → option A) :
  strict alias names (λ n, fs ← read_fields alias names n; cont fs).
Proof.
  intros n a E. apply bind_Some in E as (fs & E & _). unfold read_fields in E.
  apply bind_Some in E as (m & Em & E). apply bind_Some in E as (fs' & Ef & E).
  destruct (bool_decide (NoDup fs'.*1) && bool_decide (fs'.*1 ⊆ names)) eqn:Eb; [|done].
  apply andb_true_iff in Eb as [Hn%bool_decide_eq_true Hs%bool_decide_eq_true].
  destruct (mapM_keys _ _ _ Ef) as (ks & Ek & Ef'). rewrite Ef' in Hn, Hs. eauto 6.
Qed.

Notation names l := (lit <$> l%string).
(** A misspelt key is never taken for an absent one, in any section. *)
Definition sections_strict : Prop :=
  strict id APP_FIELDS read_app ∧
  strict id (names ["port"; "host"; "max_concurrent_requests"; "allowed_origins"]) read_server ∧
  strict id (names ["accept_invalid_certs"; "ca_cert_path"; "client_cert_path"; "client_key_path"]) read_tls ∧
  strict id (names ["url"; "timeout_seconds"; "tls"; "model"; "api_key"; "strip_path_prefix"]) read_backend ∧
  strict id (names ["url"; "timeout_seconds"; "tls"; "model"; "api_key"; "strip_path_prefix"; "temperature"]) read_node ∧
  strict id (names ["mappings"; "strategy"; "failure_cooldown_secs"; "exclusive"; "nodes"]) read_group ∧
  strict id (names ["enabled"; "modules"]) read_fixes ∧
  strict id (names ["enabled"; "format"; "max_plausible_prefill_tps"]) read_stats ∧
  strict id (names ["chunk_delay_ms"; "chunk_size_chars"]) read_synthesis ∧
  strict id (names ["enabled"; "url"; "model"; "prompt_file"; "request_prompt_file"; "timeout_secs"]) read_augment ∧
  strict reprompt_alias (names ["enabled"; "prompt_file"; "prompt"; "max_retries"; "done_sentinels"; "dynamic_prompt";
    "log_stop_responses"; "skip_read_only_requests"; "max_total_ms"]) read_reprompt ∧
  strict id (names ["influxdb"]) read_exporters ∧
  strict id (names ["enabled"; "url"; "org"; "bucket"; "token"]) read_influxdb ∧
  strict id (names ["enabled"; "path"]) read_dump.
Lemma unknown_keys_refused : sections_strict.
Proof. repeat split; apply read_fields_strict. Qed.
End Strict.

(** * Writing a configuration down *)

(** How a document is built, as YAML writes what it reads. *)
Class YamlWriter `{Yaml} := {
  n_bool : bool → Node; n_u64 : Z → Node; n_f64 : f64 → Node; n_str : str → Node; n_null : Node;
  n_seq : list Node → Node; n_map : list (str * Node) → Node;
  (** A null and an absent value, or the value itself. *)
  n_opt (o : option Node) : Node := default n_null o;
}.
Definition u64 (z : Z) : Prop := (0 ≤ z < 2 ^ 64)%Z.
Class YamlLaws `{YamlWriter} : Prop := {
  n_bool_read b : y_bool (n_bool b) = Some b;
  n_u64_read z : u64 z → y_u64 (n_u64 z) = Some z;
  n_f64_read x : y_f64 (n_f64 x) = Some x;
  n_str_read s : y_str (n_str s) = Some s;
  n_variant_read s : y_variant (n_str s) = Some s;
  n_seq_read l : y_seq (n_seq l) = Some l;
  n_map_read l : y_map (n_map l) = Some (prod_map n_str id <$> l);
  n_null_read : y_some n_null = None;
  n_f64_some x : y_some (n_f64 x) = Some (n_f64 x);
  n_str_some s : y_some (n_str s) = Some (n_str s);
  n_seq_some l : y_some (n_seq l) = Some (n_seq l);
  n_map_some l : y_some (n_map l) = Some (n_map l);
  n_seq_any l : y_any_str (n_seq l) = None;
  n_null_value : y_value n_null = true;
  yield_order_perm : ∀ {A} (l : list (str * A)), yield_order l ≡ₚ l;
}.

#[export] Instance f64_eq_dec : EqDecision f64.
Proof. solve_decision. Defined.
#[export] Instance TlsConfig_eq_dec : EqDecision TlsConfig.
Proof. solve_decision. Defined.
#[export] Instance BackendConfig_eq_dec : EqDecision BackendConfig.
Proof. solve_decision. Defined.
#[export] Instance BackendNodeConfig_eq_dec : EqDecision BackendNodeConfig.
Proof. solve_decision. Defined.
#[export] Instance BackendGroupConfig_eq_dec : EqDecision BackendGroupConfig.
Proof. solve_decision. Defined.
#[export] Instance FixModuleConfig_eq_dec : EqDecision FixModuleConfig.
Proof. solve_decision. Defined.
#[export] Instance FixesConfig_eq_dec : EqDecision FixesConfig.
Proof. solve_decision. Defined.
#[export] Instance StatsFormat_eq_dec : EqDecision StatsFormat.
Proof. solve_decision. Defined.
#[export] Instance StatsConfig_eq_dec : EqDecision StatsConfig.
Proof. solve_decision. Defined.
#[export] Instance SynthesisConfig_eq_dec : EqDecision SynthesisConfig.
Proof. solve_decision. Defined.
#[export] Instance AugmentBackendConfig_eq_dec : EqDecision AugmentBackendConfig.
Proof. solve_decision. Defined.
#[export] Instance RepromptConfig_eq_dec : EqDecision RepromptConfig.
Proof. solve_decision. Defined.
#[export] Instance InfluxDbConfig_eq_dec : EqDecision InfluxDbConfig.
Proof. solve_decision. Defined.
#[export] Instance DumpConfig_eq_dec : EqDecision DumpConfig.
Proof. solve_decision. Defined.

Section Write.
Context `{YamlWriter}.

(** The keys of a section, each with its value unless it is left out. *)
Definition Section_ := list (str * option Node).
Definition present (es : Section_) : list (str * Node) := omap (λ e, (e.1,.) <$> e.2) es.
Definition put (k : String.string) (n : Node) : str * option Node := (lit k, Some n).

(** [keep] says which values to spell out although they are the default. *)
Context (keep : str → bool).
Definition may {A} `{EqDecision A} (k : String.string) (x d : A) (enc : A → Node) : str * option Node :=
  (lit k, if bool_decide (x = d) && negb (keep (lit k)) then None else Some (enc x)).

Definition w_opt {A} (enc : A → Node) (o : option A) : Node := n_opt (enc <$> o).
Definition w_strs (l : list str) : Node := n_seq (n_str <$> l).
Definition w_section (es : Section_) : Node := n_map (present es).

Definition w_tls (c : TlsConfig) : Node := w_section [
  may "accept_invalid_certs" (accept_invalid_certs c) false n_bool;
  may "ca_cert_path" (ca_cert_path c) None (w_opt n_str);
  may "client_cert_path" (client_cert_path c) None (w_opt n_str);
  may "client_key_path" (client_key_path c) None (w_opt n_str)].
Definition w_backend (c : BackendConfig) : Node := w_section [
  put "url" (n_str (bc_url c));
  may "timeout_seconds" (bc_timeout_seconds c) 300%Z n_u64;
  may "tls" (bc_tls c) None (w_opt w_tls);
  may "model" (bc_model c) None (w_opt n_str);
  may "api_key" (bc_api_key c) None (w_opt n_str);
  may "strip_path_prefix" (bc_strip_path_prefix c) None (w_opt n_str)].
Definition w_node (c : BackendNodeConfig) : Node := w_section [
  put "url" (n_str (nc_url c));
  may "timeout_seconds" (nc_timeout_seconds c) 300%Z n_u64;
  may "tls" (nc_tls c) None (w_opt w_tls);
  may "model" (nc_model c) None (w_opt n_str);
  may "api_key" (nc_api_key c) None (w_opt n_str);
  may "strip_path_prefix" (nc_strip_path_prefix c) None (w_opt n_str);
  may "temperature" (nc_temperature c) None (w_opt n_f64)].
Definition w_group (c : BackendGroupConfig) : Node := w_section [
  put "mappings" (w_strs (gc_mappings c));
  may "strategy" (gc_strategy c) (lit "round_robin") n_str;
  may "failure_cooldown_secs" (gc_failure_cooldown_secs c) 30%Z n_u64;
  may "exclusive" (gc_exclusive c) false n_bool;
  put "nodes" (n_seq (w_node <$> gc_nodes c))].
Definition w_server (c : ServerConfig) : Node := w_section [
  put "port" (n_u64 (port c));
  put "host" (n_str (host c));
  may "max_concurrent_requests" (max_concurrent_requests c) 0%Z n_u64;
  may "allowed_origins" (allowed_origins c) None (w_opt w_strs)].
Definition w_module (c : FixModuleConfig) : Node :=
  n_map (present [may "enabled" (fm_enabled c) true n_bool] ++ ((., n_null) <$> fm_options c)).
Definition w_named {A} (enc : A → Node) (l : list (str * A)) : Node := n_map (prod_map id enc <$> l).
Definition w_fixes (c : FixesConfig) : Node := w_section [
  may "enabled" (fixes_enabled c) true n_bool;
  may "modules" (modules c) [] (w_named w_module)].
Definition w_format (f : StatsFormat) : Node :=
  n_str (match f with Pretty => lit "pretty" | Json => lit "json" | Compact => lit "compact" end).
Definition w_stats (c : StatsConfig) : Node := w_section [
  may "enabled" (st_enabled c) true n_bool;
  may "format" (st_format c) Pretty w_format;
  may "max_plausible_prefill_tps" (max_plausible_prefill_tps c) (f64_of_Z 50000) n_f64].
Definition w_synthesis (c : SynthesisConfig) : Node := w_section [
  may "chunk_delay_ms" (chunk_delay_ms c) 0%Z n_u64;
  may "chunk_size_chars" (chunk_size_chars c) 2000%Z n_u64].
Definition w_augment (c : AugmentBackendConfig) : Node := w_section [
  may "enabled" (ab_enabled c) false n_bool;
  put "url" (n_str (ab_url c));
  put "model" (n_str (ab_model c));
  may "prompt_file" (ab_prompt_file c) (lit "./augmenter/backend_prompt.md") n_str;
  may "request_prompt_file" (ab_request_prompt_file c) (lit "./augmenter/request_prompt.md") n_str;
  may "timeout_secs" (ab_timeout_secs c) 15%Z n_u64].
Definition w_reprompt (c : RepromptConfig) : Node := w_section [
  may "enabled" (rp_enabled c) false n_bool;
  may "prompt_file" (rp_prompt_file c) None (w_opt n_str);
  may "prompt" (rp_prompt c) None (w_opt n_str);
  may "max_retries" (rp_max_retries c) 3%Z n_u64;
  may "done_sentinels" (rp_done_sentinels c) [lit "DONE"] w_strs;
  may "dynamic_prompt" (rp_dynamic_prompt c) true n_bool;
  may "log_stop_responses" (rp_log_stop_responses c) false n_bool;
  may "skip_read_only_requests" (rp_skip_read_only_requests c) true n_bool;
  may "max_total_ms" (rp_max_total_ms c) 30000%Z n_u64].
Definition w_influxdb (c : InfluxDbConfig) : Node := w_section [
  may "enabled" (ix_enabled c) false n_bool;
  may "url" (ix_url c) (lit "http://localhost:8086") n_str;
  may "org" (ix_org c) (lit "my-org") n_str;
  may "bucket" (ix_bucket c) (lit "llama-metrics") n_str;
  may "token" (ix_token c) [] n_str].
Definition w_exporters (c : InfluxDbConfig) : Node := w_section [
  may "influxdb" c InfluxDbConfig_default w_influxdb].
Definition w_dump (c : DumpConfig) : Node := w_section [
  may "enabled" (dump_enabled c) false n_bool;
  may "path" (dump_path c) [] n_str].
Definition w_mode (m : StreamingMode) : Node := n_str (mode_as_str m).
Definition document (c : AppConfig) : Node := w_section [
  put "server" (w_server (server c));
  may "backend" (backend c) None (w_opt w_backend);
  may "backends" (backends c) None (w_opt (w_named w_group));
  may "fixes" (fixes c) FixesConfig_default w_fixes;
  may "stats" (stats c) StatsConfig_default w_stats;
  may "exporters" (exporters_influxdb c) InfluxDbConfig_default w_exporters;
  may "streaming" (streaming c) Fake w_mode;
  may "synthesis" (synthesis c) SynthesisConfig_default w_synthesis;
  may "augment-backend" (augment_backend c) None (w_opt w_augment);
  may "reprompt" (reprompt c) None (w_opt w_reprompt);
  may "dump" (dump c) (mkDump false []) w_dump].

(** ** The configurations the types hold *)
Definition backend_wf (c : BackendConfig) : Prop := u64 (bc_timeout_seconds c).
Definition node_wf (c : BackendNodeConfig) : Prop := u64 (nc_timeout_seconds c).
Definition group_wf (c : BackendGroupConfig) : Prop := u64 (gc_failure_cooldown_secs c) ∧ Forall node_wf (gc_nodes c).
Definition server_cfg_wf (c : ServerConfig) : Prop :=
  (0 ≤ port c < 2 ^ 16)%Z ∧ u64 (max_concurrent_requests c).
(** A map in the order it yields its entries. *)
Definition yielded {A} (l : list (str * A)) : Prop := NoDup l.*1 ∧ yield_order l = l.
Definition module_wf (c : FixModuleConfig) : Prop :=
  lit "enabled" ∉ fm_options c ∧ yielded ((., n_null) <$> fm_options c).
Definition fixes_wf (c : FixesConfig) : Prop := yielded (modules c) ∧ Forall (λ e, module_wf e.2) (modules c).
Definition synthesis_wf (c : SynthesisConfig) : Prop := u64 (chunk_delay_ms c) ∧ u64 (chunk_size_chars c).
Definition augment_wf (c : AugmentBackendConfig) : Prop := u64 (ab_timeout_secs c).
Definition reprompt_wf (c : RepromptConfig) : Prop := (0 ≤ rp_max_retries c < 2 ^ 32)%Z ∧ u64 (rp_max_total_ms c).
Definition option_all {A} (P : A → Prop) (o : option A) : Prop := match o with Some a => P a | None => True end.
Definition groups_wf (l : BackendsConfig) : Prop := yielded l ∧ Forall (λ e : str * BackendGroupConfig, group_wf e.2) l.
Definition config_wf (c : AppConfig) : Prop :=
  server_cfg_wf (server c) ∧ option_all backend_wf (backend c) ∧ option_all groups_wf (backends c) ∧ fixes_wf (fixes c)
  ∧ synthesis_wf (synthesis c) ∧ option_all augment_wf (augment_backend c) ∧ option_all reprompt_wf (reprompt c).
End Write.

(** * The reader reads what was written *)
Lemma present_keys `{Yaml} es : (present es).*1 `sublist_of` es.*1.
Proof. induction es as [|[k [n|]] es IH]; cbn; [done|by apply sublist_skip|by apply sublist_cons]. Qed.

Lemma mapM_each {A B C} (f : B → option C) (g : A → B) (h : A → C) l :
  (∀ x, x ∈ l → f (g x) = Some (h x)) → mapM f (g <$> l) = Some (h <$> l).
Proof.
  intros Hl. induction l as [|x l IH]; [done|]. change (mapM f (g <$> x :: l)) with (y ← f (g x); k ← mapM f (g <$> l); Some (y :: k)).
  rewrite Hl by left. rewrite IH; [done|]. intros y Hy. apply Hl. by right.
Qed.
Lemma mapM_read `{Yaml} {A} (enc : A → Node) (dec : Node → option A) l :
  Forall (λ x, dec (enc x) = Some x) l → mapM dec (enc <$> l) = Some l.
Proof.
  intros Hl. rewrite (mapM_each _ _ id); [by rewrite list_fmap_id|]. intros x Hx. by eapply (proj1 (Forall_forall _ _) Hl).
Qed.

Section Facts.
Context `{YamlLaws} (keep : str → bool).
#[local] Set Default Proof Using "Type*".

Lemma section_read alias names es :
  NoDup es.*1 → (∀ k, k ∈ es.*1 → alias k = k) → es.*1 ⊆ names →
  read_fields alias names (w_section es) = Some (present es).
Proof.
  intros Hnd Hal Hin. unfold read_fields, w_section. rewrite n_map_read. cbn [mbind option_bind].
  assert (∀ k, k ∈ (present es).*1 → k ∈ es.*1) as Hk.
  { intros k Hk. eapply elem_of_submseteq; [exact Hk|apply sublist_submseteq, present_keys]. }
  rewrite (mapM_each _ _ id), list_fmap_id.
  - cbn [mbind option_bind]. rewrite bool_decide_eq_true_2 by (eapply sublist_NoDup; [done|apply present_keys]).
    rewrite bool_decide_eq_true_2; [done|]. intros k H'. by apply Hin, Hk.
  - intros [k n] He. cbn. rewrite n_str_read. cbn. rewrite Hal; [done|]. apply Hk, list_elem_of_fmap. by exists (k, n).
Qed.

Lemma field_of_key {A} (l : list (str * A)) k v : field_of l k = Some v → k ∈ l.*1.
Proof. induction l as [|[k' v'] l IH]; [done|]. cbn. case_decide; subst; [by left|right; auto]. Qed.
Lemma field_present (es : Section_) k : NoDup es.*1 → field_of (present es) k = field_of es k ≫= id.
Proof.
  induction es as [|[k' o] es IH]; [done|]. intros [Hk Hnd]%NoDup_cons.
  change (present ((k', o) :: es)) with (match (k',.) <$> o with Some y => y :: present es | None => present es end).
  destruct o as [n|]; cbn [fmap option_fmap option_map field_of]; case_decide as E; subst; [done|auto| |auto].
  rewrite IH by done. destruct (field_of es k) eqn:Ef; [|done]. by destruct Hk; eapply field_of_key.
Qed.
Lemma req_present {A} es k n (dec : Node → option A) a :
  NoDup es.*1 → field_of es (lit k) = Some (Some n) → dec n = Some a → req (present es) k dec = Some a.
Proof. intros Hnd Hf Hd. unfold req. by rewrite field_present, Hf. Qed.
Lemma dflt_present {A} `{EqDecision A} es k (x d : A) enc dec :
  NoDup es.*1 → field_of es (lit k) = Some (may keep k x d enc).2 → dec (enc x) = Some x → dflt (present es) k d dec = Some x.
Proof.
  intros Hnd Hf Hd. unfold dflt. rewrite field_present, Hf by done. unfold may. cbn. case_bool_decide; subst; cbn; [|done].
  by destruct (negb _).
Qed.

Lemma read_opt {A} (enc : A → Node) (dec : Node → option A) (o : option A) :
  (∀ a, y_some (enc a) = Some (enc a)) → option_all (λ a, dec (enc a) = Some a) o → opt dec (w_opt enc o) = Some o.
Proof.
  intros Hs Ha. unfold opt, w_opt, n_opt. destruct o as [a|]; cbn; [by rewrite Hs, Ha|by rewrite n_null_read].
Qed.
Lemma read_opt_str o : opt y_str (w_opt n_str o) = Some o.
Proof. apply read_opt; [apply n_str_some|]. destruct o; [apply n_str_read|done]. Qed.
Lemma read_opt_f64 o : opt y_f64 (w_opt n_f64 o) = Some o.
Proof. apply read_opt; [apply n_f64_some|]. destruct o; [apply n_f64_read|done]. Qed.
Lemma read_list {A} (enc : A → Node) dec l : Forall (λ a, dec (enc a) = Some a) l → list_of dec (n_seq (enc <$> l)) = Some l.
Proof. intros Hl. unfold list_of. rewrite n_seq_read. cbn. by apply mapM_read. Qed.
Lemma read_strs l : list_of y_str (w_strs l) = Some l.
Proof. apply read_list, Forall_true. apply n_str_read. Qed.
Lemma read_opt_strs o : opt (list_of y_str) (w_opt w_strs o) = Some o.
Proof. apply read_opt; [intros; apply n_seq_some|]. destruct o; [apply read_strs|done]. Qed.
Lemma hash_insert_new {A} k (v : A) m : k ∉ m.*1 → hash_insert k v m = m ++ [(k, v)].
Proof.
  induction m as [|[k' v'] m IH]; [done|]. cbn. rewrite not_elem_of_cons. intros [Hne Hk].
  rewrite decide_False by congruence. by rewrite IH.
Qed.
Lemma hash_of_yielded {A} (l : list (str * A)) : yielded l → hash_of l = l.
Proof.
  intros [Hnd Hy]. unfold hash_of. rewrite <- Hy at 2. f_equal. change l with ([] ++ l) at 2. revert Hnd. clear.
  change (NoDup l.*1) with (NoDup (([] ++ l).*1)). generalize (@nil (str * A)) as m.
  induction l as [|[k v] l IH]; intros m Hnd; cbn [foldl]; [by rewrite app_nil_r|].
  cbn [fst snd]. rewrite hash_insert_new.
  - rewrite (IH (m ++ [(k, v)])); by rewrite <- app_assoc.
  - rewrite fmap_app in Hnd. apply NoDup_app in Hnd as (_ & Hd & _). intros Hk. apply (Hd k Hk). left.
Qed.
Lemma read_named {A} (enc : A → Node) dec (l : list (str * A)) :
  yielded l → Forall (λ e, dec (enc e.2) = Some e.2) l → hash_map dec (w_named enc l) = Some l.
Proof.
  intros Hy Hl. unfold hash_map, w_named. rewrite n_map_read. cbn [mbind option_bind]. rewrite <- list_fmap_compose.
  rewrite (mapM_each _ _ id), list_fmap_id; [cbn [mbind option_bind]; by rewrite hash_of_yielded|].
  intros [k a] He. cbn. rewrite n_str_read. cbn. by rewrite (proj1 (Forall_forall _ _) Hl _ He : dec (enc a) = Some a).
Qed.
Lemma read_unsigned bits z : (0 ≤ z < 2 ^ bits)%Z → (bits ≤ 64)%Z → unsigned bits (n_u64 z) = Some z.
Proof.
  intros Hz Hb. unfold unsigned. rewrite n_u64_read.
  - cbn. destruct (Z.ltb_spec z (2 ^ bits)); [done|lia].
  - unfold u64. pose proof (Z.pow_le_mono_r 2 bits 64 ltac:(lia) Hb). lia.
Qed.
End Facts.

#[export] Hint Resolve n_bool_read n_f64_read n_str_read read_opt_str read_opt_f64 read_strs read_opt_strs : config_read.
#[export] Hint Extern 1 (y_u64 (n_u64 _) = Some _) => apply n_u64_read; tauto : config_read.
#[export] Hint Extern 1 (unsigned _ (n_u64 _) = Some _) => apply read_unsigned; [tauto|lia] : config_read.

(** The fields of a section, one after the other. *)
Ltac keys := cbv [fmap list_fmap fst may put]; vm_decide.
Ltac read_section :=
  rewrite section_read; [cbn [mbind option_bind]|keys|by intros|keys].
Ltac read_field :=
  first [erewrite req_present; [|keys|reflexivity|eauto with config_read]
        |erewrite dflt_present; [|keys|reflexivity|eauto with config_read]]; cbn [mbind option_bind].

Section Sections.
Context `{YamlLaws} (keep : str → bool).
#[local] Set Default Proof Using "Type*".

Lemma read_w_tls c : read_tls (w_tls keep c) = Some c.
Proof. unfold read_tls, w_tls. read_section. repeat read_field. by destruct c. Qed.
Lemma read_opt_tls o : opt read_tls (w_opt (w_tls keep) o) = Some o.
Proof. apply read_opt; [intros; apply n_map_some|]. destruct o; [apply read_w_tls|done]. Qed.
#[local] Hint Resolve read_opt_tls : config_read.

Lemma read_w_backend c : backend_wf c → read_backend (w_backend keep c) = Some c.
Proof. intros Hwf. unfold read_backend, w_backend. read_section. repeat read_field. by destruct c. Qed.
Lemma read_w_node c : node_wf c → read_node (w_node keep c) = Some c.
Proof. intros Hwf. unfold read_node, w_node. read_section. repeat read_field. by destruct c. Qed.
Lemma read_w_nodes l : Forall node_wf l → list_of read_node (n_seq (w_node keep <$> l)) = Some l.
Proof. intros Hl. apply read_list. eapply Forall_impl; [exact Hl|apply read_w_node]. Qed.
#[local] Hint Resolve read_w_nodes : config_read.
Lemma read_w_group c : group_wf c → read_group (w_group keep c) = Some c.
Proof. intros [Hs Hn]. unfold read_group, w_group. read_section. repeat read_field. by destruct c. Qed.
Lemma read_w_server c : server_cfg_wf c → read_server (w_server keep c) = Some c.
Proof. intros [Hp Hm]. unfold read_server, w_server. read_section. repeat read_field. by destruct c. Qed.
Lemma read_w_module c : module_wf c → read_module (w_module keep c) = Some c.
Proof.
  intros [Hen Hy]. unfold read_module, w_module. rewrite n_map_read. cbn [mbind option_bind].
  rewrite (mapM_each _ _ id), list_fmap_id by (intros [k n] _; cbn; by rewrite n_str_read). cbn [mbind option_bind].
  set (fs := present [may keep "enabled" (fm_enabled c) true n_bool]). set (os := (., n_null) <$> fm_options c).
  assert (filter (λ e : str * Node, e.1 = lit "enabled") os = []
          ∧ filter (λ e : str * Node, e.1 ≠ lit "enabled") os = os) as [Ho1 Ho2].
  { split; [apply filter_none|apply filter_all]; apply Forall_fmap, Forall_forall; intros k Hk E; cbn in *; by subst. }
  assert (filter (λ e : str * Node, e.1 = lit "enabled") fs = fs
          ∧ filter (λ e : str * Node, e.1 ≠ lit "enabled") fs = []) as [Hf1 Hf2].
  { unfold fs, present, may. cbn. by destruct (bool_decide _ && _); cbn. }
  rewrite !filter_app, Ho1, Ho2, Hf1, Hf2, app_nil_r. cbn [app].
  assert (length fs ≤ 1) as Hlen by (unfold fs, present, may; cbn; destruct (bool_decide _ && _); cbn; lia).
  assert (Forall (λ e : str * Node, y_value e.2) os) as Hv.
  { apply Forall_fmap, Forall_true. intros k. cbn. by rewrite n_null_value. }
  rewrite (proj2 (Nat.leb_le _ _) Hlen). rewrite (Is_true_eq_true _ (proj2 (forallb_True (λ e : str * Node, y_value e.2) os) Hv)).
  cbn [andb]. unfold fs. read_field. rewrite hash_of_yielded by done. unfold os. rewrite <- list_fmap_compose. cbn.
  rewrite list_fmap_id. by destruct c.
Qed.
Lemma read_w_modules l :
  yielded l → Forall (λ e, module_wf e.2) l → hash_map read_module (w_named (w_module keep) l) = Some l.
Proof. intros Hy Hl. apply read_named; [done|]. eapply Forall_impl; [exact Hl|]. intros e. apply read_w_module. Qed.
#[local] Hint Resolve read_w_modules : config_read.
Lemma read_w_fixes c : fixes_wf c → read_fixes (w_fixes keep c) = Some c.
Proof. intros [Hy Hm]. unfold read_fixes, w_fixes. read_section. repeat read_field. by destruct c. Qed.
Lemma read_w_format f : read_format (w_format f) = Some f.
Proof. unfold read_format, w_format. rewrite n_variant_read. by destruct f. Qed.
Lemma read_w_mode m : read_mode (w_mode m) = Some m.
Proof. unfold read_mode, w_mode. rewrite n_variant_read. by destruct m. Qed.
#[local] Hint Resolve read_w_format : config_read.
Lemma read_w_stats c : read_stats (w_stats keep c) = Some c.
Proof. unfold read_stats, w_stats. read_section. repeat read_field. by destruct c. Qed.
Lemma read_w_synthesis c : synthesis_wf c → read_synthesis (w_synthesis keep c) = Some c.
Proof. intros [Hd Hs]. unfold read_synthesis, w_synthesis. read_section. repeat read_field. by destruct c. Qed.
Lemma read_w_augment c : augment_wf c → read_augment (w_augment keep c) = Some c.
Proof. intros Hwf. unfold read_augment, w_augment. read_section. repeat read_field. by destruct c. Qed.
Lemma read_w_sentinels l : deserialize_string_or_vec (w_strs l) = Some l.
Proof. unfold deserialize_string_or_vec. unfold w_strs at 1. rewrite n_seq_any. apply read_strs. Qed.
#[local] Hint Resolve read_w_sentinels : config_read.
Lemma read_w_reprompt c : reprompt_wf c → read_reprompt (w_reprompt keep c) = Some c.
Proof.
  intros [Hr Ht]. unfold read_reprompt, w_reprompt. rewrite section_read; [cbn [mbind option_bind]|keys| |keys].
  - repeat read_field. by destruct c.
  - apply Forall_forall. cbv [fmap list_fmap fst may]. repeat constructor.
Qed.
Lemma read_w_influxdb c : read_influxdb (w_influxdb keep c) = Some c.
Proof. unfold read_influxdb, w_influxdb. read_section. repeat read_field. by destruct c. Qed.
#[local] Hint Resolve read_w_influxdb : config_read.
Lemma read_w_exporters c : read_exporters (w_exporters keep c) = Some c.
Proof. unfold read_exporters, w_exporters. read_section. by read_field. Qed.
Lemma read_w_dump c : read_dump (w_dump keep c) = Some c.
Proof. unfold read_dump, w_dump. read_section. repeat read_field. by destruct c. Qed.
Lemma read_w_groups l : groups_wf l → hash_map read_group (w_named (w_group keep) l) = Some l.
Proof. intros [Hy Hl]. apply read_named; [done|]. eapply Forall_impl; [exact Hl|]. intros e. apply read_w_group. Qed.
Lemma read_opt_backend o : option_all backend_wf o → opt read_backend (w_opt (w_backend keep) o) = Some o.
Proof. intros Ho. apply read_opt; [intros; apply n_map_some|]. destruct o; [by apply read_w_backend|done]. Qed.
Lemma read_opt_groups o : option_all groups_wf o → opt (hash_map read_group) (w_opt (w_named (w_group keep)) o) = Some o.
Proof. intros Ho. apply read_opt; [intros; apply n_map_some|]. destruct o; [by apply read_w_groups|done]. Qed.
Lemma read_opt_augment o : option_all augment_wf o → opt read_augment (w_opt (w_augment keep) o) = Some o.
Proof. intros Ho. apply read_opt; [intros; apply n_map_some|]. destruct o; [by apply read_w_augment|done]. Qed.
Lemma read_opt_reprompt o : option_all reprompt_wf o → opt read_reprompt (w_opt (w_reprompt keep) o) = Some o.
Proof. intros Ho. apply read_opt; [intros; apply n_map_some|]. destruct o; [by apply read_w_reprompt|done]. Qed.
#[local] Hint Resolve read_w_server read_opt_backend read_opt_groups read_w_fixes read_w_stats read_w_exporters read_w_mode
  read_w_synthesis read_opt_augment read_opt_reprompt read_w_dump : config_read.

(** C21: A configuration whose numbers fit their types and whose maps come in the
    order and with the keys a map yields is read back as it is when it is written
    down, whichever of its default values are left out, by the parser of files
    too; and none of the sections with fields of their own is read with a key it
    does not know, or with one given twice.  (The entries of [fixes.modules] are
    not among them: their struct takes every other key as an option, and only
    [enabled] is refused twice; nor are the maps of names to groups and modules,
    where the last of a repeated name stands.) *)
Theorem config_documents c :
  config_wf c →
  read_app (document keep c) = Some c ∧
  (∀ content, y_parse content = Some (document keep c) → yaml_from_str content = Ok c) ∧
  sections_strict.
Proof.
  intros (Hsv & Hb & Hbs & Hf & Hsy & Ha & Hr).
  assert (read_app (document keep c) = Some c) as E.
  { unfold read_app, document. read_section. repeat read_field. by destruct c. }
  split; [done|]. split; [|apply unknown_keys_refused]. intros content Hp. unfold yaml_from_str. rewrite Hp. cbn. by rewrite E.
Qed.
End Sections.
