(* ===== verification/Grouped.v ===== *)
(** * Model routing over backend groups
    (llama-proxy/src/backends: grouped.rs, mod.rs)

    [GroupedLoadBalancer] is generic in the strategy of its groups: everything
    it needs from one is the [LoadBalancer] interface and its laws.  The
    strategies a configuration can name are collected in [DynBalancer]. *)
From S2P Require Import Prelude Node Balancer RoundRobin PriorityFree Config.

(** ** The router, over any strategy *)
Section Router.
Context {B : Type} `{LoadBalancer B}.

Record BackendGroup := mkGroup {
  mappings : list str;
  balancer : B;
  name : str;
  exclusive : bool;
}.

Record GroupedLoadBalancer := mkGrouped { groups : list BackendGroup }.

Definition maps_model (g : BackendGroup) (m : str) : bool :=
  existsb (λ m', bool_decide (m' = m)) (mappings g).

Definition is_catch_all (g : BackendGroup) : bool := bool_decide (mappings g = []).

(** [find_group], as the position of the group found. *)
Definition find_index (f : BackendGroup → bool) (gs : list BackendGroup) : option nat :=
  fst <$> list_find (λ g, f g = true) gs.

Definition find_group (b : GroupedLoadBalancer) (m : option str) : option nat :=
  let mapped :=
    match m with
    | Some model_str => find_index (λ g, negb (is_catch_all g) && maps_model g model_str) (groups b)
    | None => None
    end in
  match mapped with
  | Some i => Some i
  | None =>
      match find_index is_catch_all (groups b) with
      | Some i => Some i
      | None => find_index (λ g, negb (exclusive g)) (groups b)
      end
  end.

Definition set_balancer (b' : B) (g : BackendGroup) : BackendGroup :=
  mkGroup (mappings g) b' (name g) (exclusive g).

Definition set_group_name (n : str) (g : BackendGuard) : BackendGuard :=
  mkGuard (_busy g) (node g) (Some n).

Definition grouped_select (b : GroupedLoadBalancer) (now : Instant) (m : option str) (h : heap)
    : option (result NoMatchingBackend BackendGuard * GroupedLoadBalancer * heap) :=
  match (i ← find_group b m; g ← groups b !! i; Some (i, g)) with
  | Some (i, group) =>
      '(r, bal', h') ← select (balancer group) now m h;
      let b' := mkGrouped (<[i := set_balancer bal' group]> (groups b)) in
      match r with
      | Ok guard => Some (Ok (set_group_name (name group) guard), b', h')
      | Err e => Some (Err e, b', h')
      end
  | None => Some (Err m, b, h)
  end.

Definition grouped_all_nodes (b : GroupedLoadBalancer) : list NodeRef :=
  groups b ≫= λ g, all_nodes (balancer g).
End Router.
Arguments BackendGroup B : clear implicits.
Arguments GroupedLoadBalancer B : clear implicits.

#[export] Instance grouped_balancer {B} `{LoadBalancer B} : LoadBalancer (GroupedLoadBalancer B) := {
  select := grouped_select;
  strategy_name _ := lit "grouped";
  all_nodes := grouped_all_nodes;
}.

(** ** The strategies a configuration can name (mod.rs) *)
Inductive BalancingStrategy := PriorityFree | RoundRobin.
#[export] Instance BalancingStrategy_eq_dec : EqDecision BalancingStrategy.
Proof. solve_decision. Defined.

Definition strategy_from_str (s : str) : result str BalancingStrategy :=
  if bool_decide (s = lit "priority-free") || bool_decide (s = lit "priority_free") then Ok PriorityFree
  else if bool_decide (s = lit "round-robin") || bool_decide (s = lit "round_robin") then Ok RoundRobin
  else Err (lit "Unknown load balancer strategy: '" ++ s
            ++ lit "'. Supported: priority-free, round-robin").

(** [Arc<dyn LoadBalancer>] of a single group. *)
Inductive DynBalancer :=
  | DynPF (b : PriorityFreeBalancer)
  | DynRR (b : RoundRobinBalancer).

Definition dyn_select (b : DynBalancer) (now : Instant) (m : option str) (h : heap)
    : option (result NoMatchingBackend BackendGuard * DynBalancer * heap) :=
  match b with
  | DynPF pf => '(r, pf', h') ← select pf now m h; Some (r, DynPF pf', h')
  | DynRR rr => '(r, rr', h') ← select rr now m h; Some (r, DynRR rr', h')
  end.

#[export] Instance dyn_balancer : LoadBalancer DynBalancer := {
  select := dyn_select;
  strategy_name b := match b with DynPF pf => strategy_name pf | DynRR rr => strategy_name rr end;
  all_nodes b := match b with DynPF pf => all_nodes pf | DynRR rr => all_nodes rr end;
}.

Definition build_balancer_for_group (nodes : list NodeRef) (strategy : str) : result str DynBalancer :=
  s ← strategy_from_str strategy;
  match s with
  | PriorityFree => b ← pf_new nodes; Ok (DynPF b)
  | RoundRobin => b ← rr_new nodes; Ok (DynRR b)
  end.

(** ** Construction from configuration *)
Section Build.
(** The HTTP client factory, and the clock reading when the node with a given
    reference is built. *)
Context (build_node_client : Z → option TlsConfig → result str unit).
Context (clock : NodeRef → Instant).

Definition node_from_config (c : BackendNodeConfig) (h : heap) : result str (NodeRef * heap) :=
  n ← from_config (build_node_client (nc_timeout_seconds c) (nc_tls c)) (clock (length h))
        (nc_url c) (nc_timeout_seconds c) (nc_model c) (nc_api_key c) (nc_strip_path_prefix c)
        (nc_temperature c);
  Ok (length h, h ++ [n]).

Fixpoint nodes_from_config (cs : list BackendNodeConfig) (h : heap) : result str (list NodeRef * heap) :=
  match cs with
  | [] => Ok ([], h)
  | c :: cs' =>
      '(r, h1) ← node_from_config c h;
      '(rs, h2) ← nodes_from_config cs' h1;
      Ok (r :: rs, h2)
  end.

Fixpoint groups_from_entries (entries : BackendsConfig) (h : heap)
    : result str (list (BackendGroup DynBalancer) * heap) :=
  match entries with
  | [] => Ok ([], h)
  | (gname, config) :: rest =>
      '(nodes, h1) ← nodes_from_config (gc_nodes config) h;
      bal ← build_balancer_for_group nodes (gc_strategy config);
      '(gs, h2) ← groups_from_entries rest h1;
      Ok (mkGroup (gc_mappings config) bal gname (gc_exclusive config) :: gs, h2)
  end.

(** [GroupedLoadBalancer::new]: the map's entries in whatever order it yields
    them, sorted by group name. *)
Definition grouped_new (group_configs : BackendsConfig) (h : heap)
    : result str (GroupedLoadBalancer DynBalancer * heap) :=
  '(gs, h') ← groups_from_entries (sort_by_key group_configs) h;
  Ok (mkGrouped gs, h').

Definition build_balancer_from_single (c : BackendConfig) (h : heap)
    : result str (RoundRobinBalancer * heap) :=
  '(r, h') ← node_from_config
      (mkNodeConfig (bc_url c) (bc_timeout_seconds c) (bc_tls c) (bc_model c) (bc_api_key c)
         (bc_strip_path_prefix c) None) h;
  b ← rr_new [r];
  Ok (b, h').
End Build.

(** * Facts *)
Implicit Types (h : list BackendNode) (m : option str).

(** ** The routing rungs *)
Section RouterFacts.
Context {B : Type} `{LoadBalancer B}.
Implicit Types (b : GroupedLoadBalancer B) (gs : list (BackendGroup B)).

Lemma find_index_Some f gs i :
  find_index f gs = Some i ↔
  ∃ g, gs !! i = Some g ∧ f g = true ∧ ∀ j g', gs !! j = Some g' → j < i → f g' = false.
Proof.
  unfold find_index. rewrite fmap_Some. split.
  - intros ([j g] & Hf & ->). apply list_find_Some in Hf as (Hg & Hp & Hmin). simpl. exists g.
    split; [done|]. split; [done|]. intros j' g' Hj' Hlt.
    pose proof (Hmin j' g' Hj' Hlt). by destruct (f g').
  - intros (g & Hg & Hp & Hmin). exists (i, g). split; [|done]. apply list_find_Some.
    split; [done|]. split; [done|]. intros j g' Hj Hlt. by rewrite (Hmin j g' Hj Hlt).
Qed.

Lemma find_index_None f gs : find_index f gs = None ↔ ∀ j g, gs !! j = Some g → f g = false.
Proof.
  unfold find_index. rewrite fmap_None, list_find_None, Forall_lookup.
  split; intros Hf j g Hj; specialize (Hf j g Hj); destruct (f g); naive_solver.
Qed.

(** Group [i] serves [m] by the first rung that has any group: an explicit
    mapping, the catch-all, a non-exclusive group. *)
Definition maps_explicitly m (g : BackendGroup B) : bool :=
  match m with
  | Some s => negb (is_catch_all g) && maps_model g s
  | None => false
  end.

Definition rung m (g : BackendGroup B) : nat :=
  if maps_explicitly m g then 0
  else if is_catch_all g then 1
  else if negb (exclusive g) then 2
  else 3.

Lemma rung_0 (s : str) (g : BackendGroup B) : rung (Some s) g = 0 ↔ s ∈ mappings g.
Proof.
  assert (maps_explicitly (Some s) g = true ↔ s ∈ mappings g) as Hm.
  { unfold maps_explicitly, is_catch_all, maps_model. rewrite andb_true_iff, negb_true_iff, bool_decide_eq_false.
    rewrite existsb_exists. split.
    - intros [_ (m & Hm & ->%bool_decide_eq_true)]. by apply list_elem_of_In.
    - intros Hs. split; [intros E; rewrite E in Hs; set_solver|].
      exists s. split; [by apply list_elem_of_In|by apply bool_decide_eq_true]. }
  rewrite <- Hm. unfold rung. destruct (maps_explicitly (Some s) g); [done|]. repeat case_match; done.
Qed.

(** [find_group] picks the best rung and, within it, the first group in name
    order; it fails exactly when every group is on no rung. *)
Lemma find_group_Some b m i :
  find_group b m = Some i →
  ∃ g, groups b !! i = Some g ∧ rung m g ≤ 2 ∧
    ∀ j g', groups b !! j = Some g' → rung m g ≤ rung m g' ∧ (j < i → rung m g < rung m g').
Proof.
  unfold find_group.
  assert ((match m with
           | Some model_str => find_index (λ g, negb (is_catch_all g) && maps_model g model_str) (groups b)
           | None => None
           end) = find_index (maps_explicitly m) (groups b)) as ->.
  { destruct m; [done|]. symmetry. by apply find_index_None. }
  destruct (find_index (maps_explicitly m) _) as [k|] eqn:E1.
  { intros [= ->]. apply find_index_Some in E1 as (g & Hg & Hm & Hmin). exists g.
    split; [done|]. unfold rung at 1 2 4. rewrite Hm. split; [lia|]. intros j g' Hj.
    split; [lia|]. intros Hlt. unfold rung. rewrite (Hmin j g' Hj Hlt). repeat case_match; lia. }
  pose proof (proj1 (find_index_None _ _) E1) as N1.
  destruct (find_index is_catch_all _) as [k|] eqn:E2.
  { intros [= ->]. apply find_index_Some in E2 as (g & Hg & Hm & Hmin). exists g.
    split; [done|]. unfold rung at 1 2 4. rewrite (N1 i g Hg), Hm. split; [lia|]. intros j g' Hj.
    unfold rung. rewrite (N1 j g' Hj). split; [repeat case_match; lia|]. intros Hlt.
    rewrite (Hmin j g' Hj Hlt). repeat case_match; lia. }
  pose proof (proj1 (find_index_None _ _) E2) as N2. intros E3.
  apply find_index_Some in E3 as (g & Hg & Hm & Hmin). exists g.
  split; [done|]. unfold rung at 1 2 4. rewrite (N1 i g Hg), (N2 i g Hg), Hm. split; [lia|].
  intros j g' Hj. unfold rung. rewrite (N1 j g' Hj), (N2 j g' Hj).
  split; [repeat case_match; lia|]. intros Hlt. rewrite (Hmin j g' Hj Hlt). lia.
Qed.

Lemma find_group_None b m :
  find_group b m = None ↔ ∀ j g, groups b !! j = Some g → rung m g = 3.
Proof.
  split.
  - unfold find_group. intros Hn j g Hj.
    assert (maps_explicitly m g = false) as E1.
    { destruct m; [|done]. destruct (find_index _ _) eqn:E in Hn; [done|].
      by apply (proj1 (find_index_None _ _) E j). }
    destruct (match m with Some _ => _ | None => None end) in Hn; [done|].
    destruct (find_index is_catch_all _) eqn:E2 in Hn; [done|].
    pose proof (proj1 (find_index_None _ _) E2 j g Hj) as N2.
    pose proof (proj1 (find_index_None _ _) Hn j g Hj) as N3.
    unfold rung. by rewrite E1, N2, N3.
  - intros Hall. destruct (find_group b m) as [i|] eqn:E; [|done].
    apply find_group_Some in E as (g & Hg & Hle & _). rewrite (Hall i g Hg) in Hle. lia.
Qed.

Lemma find_group_lookup b m i : find_group b m = Some i → is_Some (groups b !! i).
Proof. intros (g & Hg & _)%find_group_Some. eauto. Qed.
End RouterFacts.

(** ** The router meets the contract it relies on *)
Section RouterLaws.
Context {B : Type} `{!LoadBalancer B} (wf : B → list BackendNode → Prop).
Context {Hlaws : LoadBalancerLaws B wf}.
Implicit Types (b : GroupedLoadBalancer B).

Definition grouped_wf b h : Prop := Forall (λ g, wf (balancer g) h) (groups b).

Lemma grouped_select_inv b now m h r b' h' :
  grouped_select b now m h = Some (r, b', h') →
  (find_group b m = None ∧ r = Err m ∧ b' = b ∧ h' = h) ∨
  (∃ i g r0 bal', find_group b m = Some i ∧ groups b !! i = Some g ∧
     select (balancer g) now m h = Some (r0, bal', h') ∧
     b' = mkGrouped (<[i := set_balancer bal' g]> (groups b)) ∧
     r = match r0 with Ok gd => Ok (set_group_name (name g) gd) | Err e => Err e end).
Proof.
  unfold grouped_select. intros Hs. destruct (find_group b m) as [i|] eqn:Ef.
  - right. destruct (find_group_lookup _ _ _ Ef) as [g Hg]. simpl in Hs. rewrite Hg in Hs. simpl in Hs.
    destruct (select (balancer g) now m h) as [[[r0 bal'] h1]|] eqn:Es; [|done]. simpl in Hs.
    exists i, g, r0, bal'. destruct r0; by simplify_eq.
  - left. by simplify_eq/=.
Qed.

#[export] Instance grouped_laws : LoadBalancerLaws (GroupedLoadBalancer B) grouped_wf.
Proof using Hlaws.
  split.
  - intros b now m h Hwf. simpl. unfold grouped_select.
    destruct (find_group b m) as [i|] eqn:Ef; [|by eexists].
    destruct (find_group_lookup _ _ _ Ef) as [g Hg]. simpl. rewrite Hg. simpl.
    destruct (select_no_panic (balancer g) now m h) as [[[r0 bal'] h'] ->];
      [by apply (Forall_lookup_1 _ _ _ _ Hwf Hg)|]. simpl. destruct r0; by eexists.
  - intros b now m h r b' h' Hwf Hs.
    apply grouped_select_inv in Hs as [(_ & -> & _ & ->)|(i & g & r0 & bal' & _ & Hg & Hs & _ & ->)];
      [done|].
    apply select_claims_one in Hs; [|by apply (Forall_lookup_1 _ _ _ _ Hwf Hg)].
    destruct r0 as [gd|e]; [|done]. destruct Hs as (Hin & Hb & ->). split; [|done]. simpl.
    unfold grouped_all_nodes. apply list_elem_of_bind. exists g. split; [done|].
    by eapply list_elem_of_lookup_2.
  - intros b now m h r b' h' Hwf Hs.
    apply grouped_select_inv in Hs as [(_ & _ & -> & _)|(i & g & r0 & bal' & _ & Hg & Hs & -> & _)];
      [done|].
    apply select_keeps_nodes in Hs; [|by apply (Forall_lookup_1 _ _ _ _ Hwf Hg)].
    simpl in *. unfold grouped_all_nodes. simpl.
    rewrite (insert_take_drop _ _ _ (lookup_lt_Some _ _ _ Hg)).
    rewrite <- (take_drop_middle _ _ _ Hg) at 3.
    by rewrite !bind_app, !bind_cons, <- Hs.
Qed.

(** What a routed request gets. *)
Definition routed b m h (r : result NoMatchingBackend BackendGuard) h' : Prop :=
  match r with
  | Ok gd =>
      ∃ i g, groups b !! i = Some g ∧ rung m g ≤ 2 ∧
        (∀ j g', groups b !! j = Some g' → rung m g ≤ rung m g' ∧ (j < i → rung m g < rung m g')) ∧
        group_name gd = Some (name g) ∧ node gd ∈ all_nodes (balancer g) ∧ h' = bump 1 (node gd) h
  | Err e => e = m ∧ (∀ j g, groups b !! j = Some g → rung m g = 3) ∧ h' = h
  end.

Lemma select_routed `{!NeverRefuses B wf} b now m h :
  grouped_wf b h →
  ∃ r b' h', select b now m h = Some (r, b', h') ∧ routed b m h r h'.
Proof using Hlaws.
  intros Hwf. destruct (select_no_panic b now m h Hwf) as [[[r b'] h'] Hs].
  exists r, b', h'. split; [done|]. simpl in Hs.
  apply grouped_select_inv in Hs
    as [(Hn & -> & _ & ->)|(i & g & r0 & bal' & Hf & Hg & Hs & _ & ->)].
  - split; [done|]. split; [|done]. by apply find_group_None.
  - pose proof (Forall_lookup_1 _ _ _ _ Hwf Hg) as Hg'.
    pose proof (select_claims_one _ _ _ _ _ _ _ Hg' Hs) as Hc.
    pose proof (select_never_refuses _ _ _ _ _ _ _ Hg' Hs) as Hok.
    destruct r0 as [gd|e]; [|done]. destruct Hc as (Hin & _ & ->).
    apply find_group_Some in Hf as (g' & Hg2 & Hle & Hmin).
    rewrite Hg in Hg2. injection Hg2 as <-. exists i, g. do 5 (split; [done|]). done.
Qed.
(** A well-formed router never panics. A request gets a slot of the best group
    for its model (an explicit mapping, then the catch-all, then a group that
    is not exclusive; first by name among equals), claimed once; it is refused
    exactly when no group qualifies, and then no node changes. *)
Theorem grouped_select_routed `{!NeverRefuses B wf} b now m h :
  grouped_wf b h →
  ∃ r b' h', select b now m h = Some (r, b', h') ∧ routed b m h r h'.
Proof using Hlaws. apply select_routed. Qed.
End RouterLaws.

(** ** The configurable strategies keep the contract *)
Definition dyn_wf (b : DynBalancer) h : Prop :=
  match b with DynPF pf => pf_wf pf h | DynRR rr => rr_wf rr h end.

#[export] Instance dyn_laws : LoadBalancerLaws DynBalancer dyn_wf.
Proof.
  split.
  - intros [pf|rr] now m h Hwf; simpl in *.
    + destruct (select_no_panic (wf:=pf_wf) pf now m h Hwf) as [[[r b'] h'] Hs]. simpl in Hs.
      rewrite Hs. by eexists.
    + destruct (select_no_panic (wf:=rr_wf) rr now m h Hwf) as [[[r b'] h'] Hs]. simpl in Hs.
      rewrite Hs. by eexists.
  - intros [pf|rr] now m h r b' h' Hwf Hs; simpl in *;
      apply bind_Some in Hs as ([[r0 b0] h0] & Hs & E); simplify_eq/=.
    + exact (select_claims_one (wf:=pf_wf) pf now m h r b0 h' Hwf Hs).
    + exact (select_claims_one (wf:=rr_wf) rr now m h r b0 h' Hwf Hs).
  - intros [pf|rr] now m h r b' h' Hwf Hs; simpl in *;
      apply bind_Some in Hs as ([[r0 b0] h0] & Hs & E); simplify_eq/=.
    + exact (select_keeps_nodes (wf:=pf_wf) pf now m h r b0 h' Hwf Hs).
    + exact (select_keeps_nodes (wf:=rr_wf) rr now m h r b0 h' Hwf Hs).
Qed.

#[export] Instance dyn_never_refuses : NeverRefuses DynBalancer dyn_wf.
Proof.
  split. intros [pf|rr] now m h r b' h' Hwf Hs; simpl in *;
    apply bind_Some in Hs as ([[r0 b0] h0] & Hs & E); simplify_eq/=.
  - exact (select_never_refuses (wf:=pf_wf) pf now m h r b0 h' Hwf Hs).
  - exact (select_never_refuses (wf:=rr_wf) rr now m h r b0 h' Hwf Hs).
Qed.

(** ** Construction *)
(** The client of a node can be built. *)
Definition client_builds (build_node_client : Z → option TlsConfig → result str unit) (c : BackendNodeConfig) : Prop :=
  build_node_client (nc_timeout_seconds c) (nc_tls c) = Ok ().

Section BuildFacts.
Context (build_node_client : Z → option TlsConfig → result str unit).
Context (clock : NodeRef → Instant).

(** Nodes are built at fresh references, with idle counters. *)
Lemma nodes_from_config_Ok cs h rs h' :
  nodes_from_config build_node_client clock cs h = Ok (rs, h') →
  rs = seq (length h) (length cs) ∧ length h' = length h + length cs ∧ h `prefix_of` h' ∧
  (counters_ok h → counters_ok h').
Proof.
  revert h rs h'. induction cs as [|c cs IH]; intros h rs h' E; simpl in E.
  { simplify_eq. split; [done|]. split; [simpl; lia|]. done. }
  apply result_bind_Ok in E as ([r h1] & E1 & E). apply result_bind_Ok in E as ([rs1 h2] & E2 & E).
  simplify_eq. unfold node_from_config in E1. apply result_bind_Ok in E1 as (n & En & E1). simplify_eq.
  apply IH in E2 as (-> & Hlen & Hpre & Hok). rewrite length_app in *. simpl in *.
  split; [by rewrite Nat.add_1_r|]. split; [lia|]. split; [etrans; [|done]; by apply prefix_app_r|].
  intros Hh. apply Hok. apply Forall_app. split; [done|]. repeat constructor;
    unfold from_config in En; apply result_bind_Ok in En as (? & _ & En); simplify_eq; simpl; [done|].
  unfold usize_max. lia.
Qed.

Lemma build_balancer_nodes rs s b :
  build_balancer_for_group rs s = Ok b → all_nodes b = rs ∧ rs ≠ [].
Proof.
  unfold build_balancer_for_group. intros E. apply result_bind_Ok in E as ([|] & _ & E).
  - unfold pf_new in E. case_bool_decide; [done|]. by simplify_eq/=.
  - unfold rr_new in E. case_bool_decide; [done|]. by simplify_eq/=.
Qed.

Lemma dyn_wf_nodes_ok b h : dyn_wf b h ↔ nodes_ok (all_nodes b) h.
Proof. by destruct b. Qed.

Lemma nodes_ok_grow nodes h h' :
  nodes_ok nodes h → h `prefix_of` h' → counters_ok h' → nodes_ok nodes h'.
Proof.
  intros (Hne & Hlt & _) [k ->] Hok. split; [done|]. split; [|done].
  eapply Forall_impl; [done|]. simpl. intros r. rewrite length_app. lia.
Qed.

(** Every group built is a well-formed balancer over its own fresh nodes. *)
Lemma groups_from_entries_wf entries h gs h' :
  groups_from_entries build_node_client clock entries h = Ok (gs, h') → counters_ok h →
  h `prefix_of` h' ∧ counters_ok h' ∧ Forall (λ g, dyn_wf (balancer g) h') gs ∧
  (gs ≫= λ g, all_nodes (balancer g)) = seq (length h) (length h' - length h) ∧
  (λ g, (name g, mappings g, exclusive g)) <$> gs
  = (λ p, (p.1, gc_mappings p.2, gc_exclusive p.2)) <$> entries.
Proof.
  revert h gs h'. induction entries as [|[gname c] entries IH]; intros h gs h' E Hok; simpl in E.
  { simplify_eq. split; [done|]. split; [done|]. split; [constructor|].
    split; [by rewrite Nat.sub_diag|done]. }
  apply result_bind_Ok in E as ([rs h1] & E1 & E). apply result_bind_Ok in E as (bal & Eb & E).
  apply result_bind_Ok in E as ([gs1 h2] & E2 & E). simplify_eq.
  apply nodes_from_config_Ok in E1 as (-> & Hlen & Hpre & Hok1).
  apply build_balancer_nodes in Eb as [Hbal Hne].
  apply IH in E2 as (Hpre2 & Hok2 & Hwf & Hall & Hnames); [|auto].
  pose proof (prefix_length _ _ Hpre2).
  split; [by etrans|]. split; [done|]. split; [|split].
  - constructor; [|done]. simpl. rewrite dyn_wf_nodes_ok, Hbal.
    apply (nodes_ok_grow _ h1); [|done..]. split; [done|]. split; [|auto].
    apply Forall_forall. intros r Hr%elem_of_seq. lia.
  - rewrite bind_cons, Hall. simpl in Hbal |- *. rewrite Hbal, Hlen.
    replace (length h' - length h) with (length (gc_nodes c) + (length h' - (length h + length (gc_nodes c)))) by lia.
    by rewrite seq_app.
  - rewrite !fmap_cons. simpl. by f_equal.
Qed.

Lemma grouped_new_spec group_configs h b h' :
  grouped_new build_node_client clock group_configs h = Ok (b, h') → counters_ok h →
  grouped_wf dyn_wf b h' ∧ NoDup (all_nodes b) ∧
  (λ g, (name g, mappings g, exclusive g)) <$> groups b
  = (λ p, (p.1, gc_mappings p.2, gc_exclusive p.2)) <$> sort_by_key group_configs.
Proof.
  unfold grouped_new. intros E Hok. apply result_bind_Ok in E as ([gs h2] & E & E'). simplify_eq.
  apply groups_from_entries_wf in E as (_ & _ & Hwf & Hall & Hnames); [|done].
  split; [done|]. split; [|done]. change (NoDup (gs ≫= λ g, all_nodes (balancer g))).
  rewrite Hall. apply NoDup_seq.
Qed.

(** The router built from a configuration is well formed, its groups share no
    node, and they are the configuration's, in name order. *)
Theorem grouped_new_wf group_configs h b h' :
  grouped_new build_node_client clock group_configs h = Ok (b, h') → counters_ok h →
  grouped_wf dyn_wf b h' ∧ NoDup (all_nodes b) ∧
  (λ g, (name g, mappings g, exclusive g)) <$> groups b
  = (λ p, (p.1, gc_mappings p.2, gc_exclusive p.2)) <$> sort_by_key group_configs.
Proof. apply grouped_new_spec. Qed.

(** Group construction, and with it every routing decision, is independent of
    the order the configuration map yields its entries in. *)
Theorem grouped_new_deterministic c c' h :
  NoDup c.*1 → c ≡ₚ c' →
  grouped_new build_node_client clock c h = grouped_new build_node_client clock c' h.
Proof. intros Hnd Hp. unfold grouped_new. by rewrite (sort_by_key_unique c c'). Qed.

(** ** Which nodes a group has *)

(** A node is the one its entry in the configuration describes. *)
Definition described_by (c : BackendNodeConfig) (n : BackendNode) : Prop :=
  url n = nc_url c ∧ model n = nc_model c ∧ api_key n = nc_api_key c ∧ timeout_seconds n = nc_timeout_seconds c ∧
  strip_path_prefix n = nc_strip_path_prefix c ∧ temperature n = nc_temperature c.
Definition nodes_of (entries : BackendsConfig) : nat := sum_list ((λ p, length (gc_nodes p.2)) <$> entries).

Lemma groups_from_entries_grows entries h gs h' :
  groups_from_entries build_node_client clock entries h = Ok (gs, h') → h `prefix_of` h'.
Proof.
  revert h gs h'. induction entries as [|[gname g] entries IH]; intros h gs h' E; simpl in E; [by simplify_eq|].
  apply result_bind_Ok in E as ([rs h1] & E1 & E). apply result_bind_Ok in E as (bal & _ & E).
  apply result_bind_Ok in E as ([gs1 h2] & E2 & E). simplify_eq.
  apply nodes_from_config_Ok in E1 as (_ & _ & Hpre & _). etrans; [exact Hpre|]. by eapply IH.
Qed.

Lemma nodes_from_config_described cs h rs h' i c :
  nodes_from_config build_node_client clock cs h = Ok (rs, h') → cs !! i = Some c →
  ∃ n, h' !! (length h + i) = Some n ∧ described_by c n.
Proof.
  revert h rs h' i. induction cs as [|c0 cs IH]; intros h rs h' i E Hi; simpl in E; [done|].
  apply result_bind_Ok in E as ([r h1] & E1 & E). apply result_bind_Ok in E as ([rs1 h2] & E2 & E). simplify_eq.
  unfold node_from_config in E1. apply result_bind_Ok in E1 as (n & En & E1). simplify_eq.
  destruct i as [|i]; simpl in Hi.
  - simplify_eq. exists n. split.
    + apply nodes_from_config_Ok in E2 as (_ & _ & Hpre & _). eapply prefix_lookup_Some; [|exact Hpre].
      by rewrite Nat.add_0_r, lookup_app_r, Nat.sub_diag by lia.
    + unfold from_config in En. apply result_bind_Ok in En as (? & _ & En). by simplify_eq.
  - destruct (IH _ _ _ _ E2 Hi) as (n' & Hn & Hd). exists n'. split; [|done]. rewrite <- Hn, length_app. simpl. f_equal. lia.
Qed.

Lemma groups_from_entries_nodes entries h gs h' j x :
  groups_from_entries build_node_client clock entries h = Ok (gs, h') → gs !! j = Some x →
  ∃ before gname g after, entries = before ++ (gname, g) :: after ∧
    (name x, mappings x, exclusive x) = (gname, gc_mappings g, gc_exclusive g) ∧
    all_nodes (balancer x) = seq (length h + nodes_of before) (length (gc_nodes g)) ∧
    ∀ i c, gc_nodes g !! i = Some c → ∃ n, h' !! (length h + nodes_of before + i) = Some n ∧ described_by c n.
Proof.
  revert h gs h' j. induction entries as [|[gname g] entries IH]; intros h gs h' j E Hj; simpl in E; [by simplify_eq|].
  apply result_bind_Ok in E as ([rs h1] & E1 & E). apply result_bind_Ok in E as (bal & Eb & E).
  apply result_bind_Ok in E as ([gs1 h2] & E2 & E). simplify_eq.
  pose proof (nodes_from_config_Ok _ _ _ _ E1) as (-> & Hlen & _ & _). apply build_balancer_nodes in Eb as [Hbal _].
  destruct j as [|j]; simpl in Hj.
  - simplify_eq. exists [], gname, g, entries. unfold nodes_of. simpl. rewrite Nat.add_0_r. split_and!; [done..|exact Hbal|].
    intros i c Hi. destruct (nodes_from_config_described _ _ _ _ _ _ E1 Hi) as (n & Hn & Hd). exists n. split; [|done].
    eapply prefix_lookup_Some; [exact Hn|]. eapply groups_from_entries_grows, E2.
  - destruct (IH _ _ _ _ E2 Hj) as (before & gn & gc & after & -> & Hx & Hnodes & Hall).
    exists ((gname, g) :: before), gn, gc, after. unfold nodes_of in *. simpl.
    rewrite Hlen in *. split_and!; [done..|by rewrite Nat.add_assoc|]. intros i c Hi. rewrite Nat.add_assoc. by apply Hall.
Qed.

(** ** A validated configuration routes *)
Lemma nodes_from_config_total cs h :
  Forall (client_builds build_node_client) cs →
  ∃ rs h', nodes_from_config build_node_client clock cs h = Ok (rs, h').
Proof.
  intros Hc. revert h. induction Hc as [|c cs Hc _ IH]; intros h; [by eexists _, _|]. simpl.
  unfold node_from_config, from_config. rewrite Hc. simpl.
  match goal with |- context [nodes_from_config _ _ cs ?h1] => destruct (IH h1) as (rs & h' & ->) end.
  by eexists _, _.
Qed.

Lemma build_balancer_total rs s :
  rs ≠ [] → s = lit "round_robin" ∨ s = lit "priority_free" → is_Some (match build_balancer_for_group rs s with Ok b => Some b | Err _ => None end).
Proof.
  intros Hr [-> | ->]; unfold build_balancer_for_group; simpl; unfold rr_new, pf_new;
    rewrite bool_decide_eq_false_2 by done; by eexists.
Qed.

Lemma groups_from_entries_total entries h :
  Forall (λ p, Forall (client_builds build_node_client) (gc_nodes p.2)) entries →
  Forall (λ p, p.1 ≠ [] ∧ group_ok p.2) entries →
  ∃ gs h', groups_from_entries build_node_client clock entries h = Ok (gs, h').
Proof.
  intros Hc Hok. revert h. induction Hok as [|[gname g] entries [_ Hg] _ IH]; intros h; [by eexists _, _|].
  apply Forall_cons in Hc as [Hc Hcs]. specialize (IH Hcs). simpl in *. destruct (nodes_from_config_total (gc_nodes g) h Hc) as (rs & h1 & E). rewrite E. simpl.
  apply nodes_from_config_Ok in E as (Hrs & _).
  destruct (build_balancer_total rs (gc_strategy g)) as [bal Hb].
  - rewrite Hrs. pose proof (group_nodes g Hg). by destruct (gc_nodes g).
  - apply (group_strategy g Hg).
  - destruct (build_balancer_for_group rs (gc_strategy g)) as [bal'|]; [|done]. simpl.
    destruct (IH h1) as (gs & h2 & ->). by eexists _, _.
Qed.

Lemma mapping_owner (groups : list (str * BackendGroupConfig)) p p' (m : str) :
  NoDup (all_mappings groups) → p ∈ groups → p' ∈ groups →
  m ∈ gc_mappings p.2 → m ∈ gc_mappings p'.2 → p = p'.
Proof.
  unfold all_mappings. induction groups as [|[n g] gs IH]; intros Hnd Hp Hp' Hm Hm'; [set_solver|].
  rewrite bind_cons in Hnd. apply NoDup_app in Hnd as (_ & Hdis & Hnd).
  assert (∀ q, q ∈ gs → m ∈ gc_mappings q.2 → m ∈ (gs ≫= λ '(_, g), gc_mappings g)) as Hin.
  { intros [qn qg] Hq Hmq. apply list_elem_of_bind. by exists (qn, qg). }
  apply elem_of_cons in Hp as [->|Hp], Hp' as [->|Hp']; [done| | |by apply IH].
  - exfalso. by apply (Hdis m Hm), (Hin p').
  - exfalso. by apply (Hdis m Hm'), (Hin p).
Qed.
End BuildFacts.

(** C6: Loading, building and routing together: a configuration that passes the
    loader builds (when the HTTP clients do), whatever order its map yields the
    groups in, and every model it maps is served, at once, by a node of the
    group that lists it: the claim is on one of the nodes built for the entries
    of that group, in its place in the store, and bears the group's name. *)
Theorem validated_config_routes parse_ip url_parse debug_str show_f64 path_exists read yaml path config
    configured client clock entries h :
  load_config parse_ip url_parse debug_str show_f64 path_exists read yaml path = Ok config →
  backends config = Some configured →
  Forall (λ p, Forall (client_builds client) (gc_nodes p.2)) configured → entries ≡ₚ configured → counters_ok h →
  ∃ b h', grouped_new client clock entries h = Ok (b, h') ∧
    ∀ gname g (m : str) now, (gname, g) ∈ configured → m ∈ gc_mappings g →
      ∃ gd b2 before after i c n,
        select b now (Some m) h' = Some (Ok gd, b2, bump 1 (node gd) h') ∧ group_name gd = Some gname ∧
        sort_by_key entries = before ++ (gname, g) :: after ∧ node gd = length h + nodes_of before + i ∧
        gc_nodes g !! i = Some c ∧ h' !! node gd = Some n ∧ described_by c n.
Proof.
  intros Hload Hb Hc Hp Hcnt.
  destruct (load_config_groups _ _ _ _ _ _ _ _ _ _ Hload Hb) as (_ & Hok & _ & Hnd).
  assert (sort_by_key entries ≡ₚ configured) as Hs by (rewrite sort_by_key_perm; exact Hp).
  destruct (groups_from_entries_total client clock (sort_by_key entries) h) as (gs & h' & E);
    [by rewrite Hs|by rewrite Hs|].
  exists (mkGrouped gs), h'. assert (grouped_new client clock entries h = Ok (mkGrouped gs, h')) as En
    by (unfold grouped_new; by rewrite E).
  split; [done|]. intros gname g m now Hg Hm.
  destruct (grouped_new_spec _ _ _ _ _ _ En Hcnt) as (Hwf & _ & Hnames). simpl in Hnames.
  destruct (select_routed dyn_wf (mkGrouped gs) now (Some m) h' Hwf) as (r & b2 & h2 & Hsel & Hr).
  assert ((gname, gc_mappings g, gc_exclusive g) ∈ (λ x, (name x, mappings x, exclusive x)) <$> gs) as Hin.
  { rewrite Hnames. apply list_elem_of_fmap. exists (gname, g). by rewrite Hs. }
  apply list_elem_of_fmap in Hin as (x & Ex & Hx). injection Ex as Hxn Hxm Hxe.
  apply list_elem_of_lookup in Hx as [j Hj].
  assert (rung (Some m) x = 0) as Hrung by (apply rung_0; by rewrite <- Hxm).
  destruct r as [gd|e]; [|destruct Hr as (_ & Hr & _); specialize (Hr j x Hj); lia].
  destruct Hr as (i & y & Hi & _ & Hmin & Hgn & Hnode & ->).
  assert (rung (Some m) y = 0) as Hy by (specialize (Hmin j x Hj); lia).
  destruct (groups_from_entries_nodes _ _ _ _ _ _ _ _ E Hi) as (before & n' & g' & after & Es & Ey & Hnodes & Hall).
  injection Ey as Hyn Hym _. apply rung_0 in Hy. rewrite Hym in Hy.
  assert ((n', g') ∈ configured) as Hg' by (rewrite <- Hs, Es; set_solver).
  pose proof (mapping_owner configured (gname, g) (n', g') m Hnd Hg Hg' Hm Hy) as [= <- <-].
  rewrite Hnodes in Hnode. apply elem_of_seq in Hnode as [Hlo Hhi].
  destruct (lookup_lt_is_Some_2 (gc_nodes g) (node gd - (length h + nodes_of before)) ltac:(lia)) as [c Hci].
  destruct (Hall _ _ Hci) as (n & Hn & Hd).
  exists gd, b2, before, after, (node gd - (length h + nodes_of before)), c, n.
  replace (length h + nodes_of before + (node gd - (length h + nodes_of before))) with (node gd) in * by lia.
  split_and!; [exact Hsel|by rewrite Hgn, Hyn|exact Es|done|exact Hci|exact Hn|exact Hd].
Qed.
