(* ===== verification/Json.v ===== *)
(** * JSON values and the serde_json interface

    [serde_json] is a third-party crate: its documented [Value] data is an
    inductive type, its map (the [preserve_order] feature is on) an association
    list in insertion order, and its parser and printer are parameters, the
    class [Serde]. *)
From S2P Require Import Prelude.

Inductive Number :=
  | NInt (z : Z)          (** a [u64] or an [i64] *)
  | NFloat (f : f64).

Inductive Value :=
  | VNull
  | VBool (b : bool)
  | VNumber (n : Number)
  | VString (s : str)
  | VArray (l : list Value)
  | VObject (m : list (str * Value)).

(** ** Maps *)
Fixpoint map_get (k : str) (m : list (str * Value)) : option Value :=
  match m with
  | [] => None
  | (k', v) :: m' => if decide (k' = k) then Some v else map_get k m'
  end.

(** [Map::insert]: replaces in place, or appends. *)
Fixpoint map_insert (k : str) (v : Value) (m : list (str * Value)) : list (str * Value) :=
  match m with
  | [] => [(k, v)]
  | (k', v') :: m' => if decide (k' = k) then (k', v) :: m' else (k', v') :: map_insert k v m'
  end.

(** [Map::remove] under [preserve_order] is a swap removal: the last entry
    takes the place of the removed one. *)
Fixpoint map_remove (k : str) (m : list (str * Value)) : list (str * Value) :=
  match m with
  | [] => []
  | (k', v) :: m' =>
      if decide (k' = k) then
        match last m' with Some e => e :: removelast m' | None => [] end
      else (k', v) :: map_remove k m'
  end.

(** [Value::get(key)]. *)
Definition get (v : Value) (k : str) : option Value :=
  match v with VObject m => map_get k m | _ => None end.

Definition as_array (v : Value) : option (list Value) :=
  match v with VArray l => Some l | _ => None end.
Definition as_str (v : Value) : option str :=
  match v with VString s => Some s | _ => None end.
Definition as_object (v : Value) : option (list (str * Value)) :=
  match v with VObject m => Some m | _ => None end.
Definition as_bool (v : Value) : option bool :=
  match v with VBool b => Some b | _ => None end.
Definition as_u64 (v : Value) : option Z :=
  match v with
  | VNumber (NInt z) => if ((0 <=? z) && (z <? 2 ^ 64))%Z then Some z else None
  | _ => None
  end.
Definition as_f64 (v : Value) : option f64 :=
  match v with
  | VNumber (NInt z) => Some (f64_of_Z z)
  | VNumber (NFloat f) => Some f
  | _ => None
  end.

(** Writing through [get_mut(key)]: the value of an existing key is replaced,
    anything else is left alone. *)
Definition set_key (v : Value) (k : str) (x : Value) : Value :=
  match v with
  | VObject m => match map_get k m with Some _ => VObject (map_insert k x m) | None => v end
  | _ => v
  end.

(** [v[key] = x]: a null becomes an object, another non-object panics. *)
Definition index_set (v : Value) (k : str) (x : Value) : option Value :=
  match v with
  | VObject m => Some (VObject (map_insert k x m))
  | VNull => Some (VObject [(k, x)])
  | _ => None
  end.

Definition is_null (v : Value) : bool := match v with VNull => true | _ => false end.
Definition is_string (v : Value) : bool := match v with VString _ => true | _ => false end.
Definition vstr (s : String.string) : Value := VString (lit s).
Definition kv (k : String.string) (v : Value) : str * Value := (lit k, v).
Arguments vstr s%_string.
Arguments kv k%_string v.
Definition vnat (n : nat) : Value := VNumber (NInt (Z.of_nat n)).

(** [Value::from(f64)]. *)
Definition value_of_f64 (x : f64) : Value :=
  if f64_is_finite x then VNumber (NFloat x) else VNull.

(** ** The serde_json entry points the program calls *)
Class Serde := {
  from_str : str → option Value;            (** [serde_json::from_str::<Value>], [None] an error *)
  from_str_string : str → option str;       (** [serde_json::from_str::<String>] *)
  to_string : Value → str;                  (** [Value::to_string] / [serde_json::to_string] *)
  stream_keys : str → option (list str);    (** the keys a [MapAccess] walk of the root object
                                                yields with every value ignored; [None] when the
                                                walk fails *)
}.

(** * Facts *)
Lemma map_get_insert k v m k' :
  map_get k' (map_insert k v m) = if decide (k = k') then Some v else map_get k' m.
Proof.
  induction m as [|[k0 v0] m IH]; simpl; [done|].
  destruct (decide (k0 = k)) as [->|]; simpl; repeat case_decide; subst; try done.
Qed.

Lemma get_set_key v k x k' :
  get (set_key v k x) k' =
    if decide (k = k') then (λ _, x) <$> get v k else get v k'.
Proof.
  destruct v; simpl; try by case_decide.
  destruct (map_get k m) eqn:E; simpl.
  - rewrite map_get_insert. by case_decide.
  - case_decide; by subst.
Qed.

Lemma map_insert_keys k v m : is_Some (map_get k m) → (map_insert k v m).*1 = m.*1.
Proof.
  induction m as [|[k0 v0] m IH]; simpl; [by intros [? ?]|].
  case_decide; simpl; [done|]. intros Hs. f_equal. by apply IH.
Qed.

Lemma map_insert_all_keys k v m :
  (map_insert k v m).*1 = if decide (k ∈ m.*1) then m.*1 else m.*1 ++ [k].
Proof.
  induction m as [|[k0 v0] m IH]; [done|]. simpl map_insert. rewrite fmap_cons. cbn [fst].
  assert (k ∈ k0 :: m.*1 ↔ k = k0 ∨ k ∈ m.*1) as Hin by apply elem_of_cons.
  destruct (decide (k0 = k)) as [E|E]; rewrite fmap_cons; cbn [fst];
    destruct (decide (k ∈ k0 :: m.*1)) as [Hk|Hk]; rewrite Hin in Hk; try done.
  - exfalso. apply Hk. by left.
  - rewrite IH. destruct (decide (k ∈ m.*1)) as [|Hm]; [done|]. destruct Hk; [by subst|done].
  - rewrite IH. destruct (decide (k ∈ m.*1)); [|done]. exfalso. apply Hk. by right.
Qed.

Lemma map_insert_NoDup k v m : NoDup m.*1 → NoDup (map_insert k v m).*1.
Proof.
  intros Hnd. rewrite map_insert_all_keys. case_decide; [done|]. apply NoDup_app. split; [done|].
  split; [|apply NoDup_singleton]. intros x Hx ->%list_elem_of_singleton. done.
Qed.

Lemma map_insert_twice k x y m : map_insert k x (map_insert k y m) = map_insert k x m.
Proof.
  induction m as [|[k0 v0] m IH]; simpl; [by rewrite decide_True|].
  case_decide; simpl; [by rewrite decide_True|]. rewrite decide_False by done. by rewrite IH.
Qed.

Lemma map_insert_id k v m : map_get k m = Some v → map_insert k v m = m.
Proof.
  induction m as [|[k0 v0] m IH]; simpl; [done|]. case_decide; [by intros [= ->]|].
  intros. by rewrite IH.
Qed.

Lemma set_key_id v k x : get v k = Some x → set_key v k x = v.
Proof. destruct v; simpl; try done. intros H. rewrite H. by rewrite map_insert_id. Qed.

(** A map with distinct keys is its set of entries. *)
Lemma map_get_elem k v m : NoDup m.*1 → map_get k m = Some v ↔ (k, v) ∈ m.
Proof.
  induction m as [|[k0 v0] m IH]; simpl; [set_solver|]. intros [Hn Hnd]%NoDup_cons.
  case_decide as Hk; rewrite elem_of_cons.
  - subst. split; [intros [= ->]; by left|]. intros [[= ->]|Hin]; [done|].
    exfalso. apply Hn. apply list_elem_of_fmap. by exists (k, v).
  - rewrite IH by done. split; [by right|]. intros [[= <- <-]|?]; done.
Qed.

Lemma map_get_perm m m' k : NoDup m.*1 → m ≡ₚ m' → map_get k m = map_get k m'.
Proof.
  intros Hnd Hp. apply option_eq. intros v.
  rewrite !map_get_elem by (by rewrite <- ?Hp). by rewrite Hp.
Qed.

Lemma map_get_remove k m k' :
  NoDup m.*1 → map_get k' (map_remove k m) = if decide (k = k') then None else map_get k' m.
Proof.
  induction m as [|[k0 v0] m IH]; simpl; [by case_decide|]. intros [Hn Hnd]%NoDup_cons.
  destruct (decide (k0 = k)) as [->|Hk].
  - assert (map_get k' m = map_get k' match last m with Some e => e :: removelast m | None => [] end) as <-.
    { destruct (last m) as [x|] eqn:Hl; [|apply last_None in Hl; by subst].
      apply last_Some in Hl as [l ->]. rewrite removelast_last. apply map_get_perm; [done|].
      by rewrite Permutation_app_comm. }
    case_decide; [subst|done]. destruct (map_get k' m) as [v|] eqn:E; [|done].
    apply map_get_elem in E; [|done]. exfalso. apply Hn. apply list_elem_of_fmap. by exists (k', v).
  - simpl. rewrite IH by done. repeat case_decide; congruence.
Qed.
