(* ===== verification/JsonText.v ===== *)
(** * A concrete JSON codec

    An executable stand-in for serde_json, for the witnesses and the examples:
    [jt_parse] reads a document as RFC 8259 says, within serde_json's limits (127
    levels, integers of 64 bits and doubles otherwise, the last of several equal
    keys), and [jt_print] prints one.  No theorem about the program rests on it:
    they hold for every [Serde]. *)
From S2P Require Import Prelude Numbers Json.

Definition DQ : ascii := ascii_of_nat 34.
Definition BS : ascii := ascii_of_nat 92.

Definition json_ws (c : ascii) : bool :=
  bool_decide (c = " "%char) || bool_decide (byte_val c = 9%Z) || bool_decide (byte_val c = 10%Z) || bool_decide (byte_val c = 13%Z).
Fixpoint skip_ws (s : str) : str :=
  match s with c :: s' => if json_ws c then skip_ws s' else s | [] => [] end.

(** ** Strings *)
Definition byte (n : Z) : ascii := ascii_of_N (Z.to_N n).
Definition utf8_encode (n : Z) : str :=
  if (n <? 128)%Z then [byte n]
  else if (n <? 2048)%Z then [byte (192 + n / 64); byte (128 + n mod 64)]%Z
  else if (n <? 65536)%Z then [byte (224 + n / 4096); byte (128 + n / 64 mod 64); byte (128 + n mod 64)]%Z
  else [byte (240 + n / 262144); byte (128 + n / 4096 mod 64); byte (128 + n / 64 mod 64); byte (128 + n mod 64)]%Z.

Definition hex4 (s : str) : option (Z * str) :=
  match s with
  | a :: b :: c :: d :: s' => n ← hex_fold 0 [a; b; c; d]; Some (n, s')
  | _ => None
  end.
Definition simple_escape (c : ascii) : option ascii :=
  if bool_decide (c = DQ) then Some DQ
  else if bool_decide (c = BS) then Some BS
  else if bool_decide (c = "/"%char) then Some c
  else if bool_decide (c = "b"%char) then Some (byte 8)
  else if bool_decide (c = "f"%char) then Some (byte 12)
  else if bool_decide (c = "n"%char) then Some (byte 10)
  else if bool_decide (c = "r"%char) then Some (byte 13)
  else if bool_decide (c = "t"%char) then Some (byte 9)
  else None.

(** Behind [\u]: a scalar value, by way of a pair of surrogates above the basic
    plane; a lone surrogate is an error. *)
Definition unicode_escape (s : str) : option (str * str) :=
  '(n, s) ← hex4 s;
  if ((55296 <=? n) && (n <? 56320))%Z then
    match s with
    | b :: u :: s =>
        if bool_decide (b = BS) && bool_decide (u = "u"%char) then
          '(m, s) ← hex4 s;
          if ((56320 <=? m) && (m <? 57344))%Z
          then Some (utf8_encode (65536 + (n - 55296) * 1024 + (m - 56320))%Z, s) else None
        else None
    | _ => None
    end
  else if ((56320 <=? n) && (n <? 57344))%Z then None
  else Some (utf8_encode n, s).

(** Behind the opening quote: the decoded text and the rest. *)
Fixpoint string_body (fuel : nat) (s : str) (acc : str) : option (str * str) :=
  match fuel, s with
  | S fuel, c :: s =>
      if bool_decide (c = DQ) then Some (acc, s)
      else if bool_decide (c = BS) then
        match s with
        | e :: s =>
            if bool_decide (e = "u"%char) then '(t, s) ← unicode_escape s; string_body fuel s (acc ++ t)
            else c ← simple_escape e; string_body fuel s (acc ++ [c])
        | [] => None
        end
      else if (byte_val c <? 32)%Z then None
      else string_body fuel s (acc ++ [c])
  | _, _ => None
  end.

(** ** Numbers *)
Fixpoint take_digits (s : str) : str * str :=
  match s with
  | c :: s' => if is_ascii_digit c then let '(ds, r) := take_digits s' in (c :: ds, r) else ([], s)
  | [] => ([], [])
  end.
Definition digits_value (ds : str) : Z := foldl (λ n c, (n * 10 + (byte_val c - 48))%Z) 0%Z ds.

(** The double nearest to [m * 10^e]. *)
Definition decimal (neg : bool) (m e : Z) : f64 :=
  match m with
  | Z.pos p =>
      if (0 <=? e)%Z then binary_normalize 53 1024 ((if neg then -1 else 1) * m * 10 ^ e) 0 neg
      else match (10 ^ (- e))%Z with
           | Z.pos q => SFdiv 53 1024 (S754_finite neg p 0) (S754_finite false q 0)
           | _ => S754_nan
           end
  | _ => S754_zero neg
  end.

Definition number (s : str) : option (Value * str) :=
  let '(neg, s) := match s with c :: s' => if bool_decide (c = "-"%char) then (true, s') else (false, s) | [] => (false, s) end in
  let '(int, s) := take_digits s in
  if bool_decide (int = []) || (bool_decide (head int = Some "0"%char) && (1 <? length int)) then None
  else
    '(frac, s) ← match s with
                 | c :: s' => if bool_decide (c = "."%char)
                              then let '(ds, r) := take_digits s' in if bool_decide (ds = []) then None else Some (Some ds, r)
                              else Some (None, s)
                 | [] => Some (None, s)
                 end;
    '(exp, s) ← match s with
                | c :: s' =>
                    if bool_decide (c = "e"%char) || bool_decide (c = "E"%char) then
                      let '(eneg, s'') := match s' with
                                          | x :: r => if bool_decide (x = "-"%char) then (true, r)
                                                      else if bool_decide (x = "+"%char) then (false, r) else (false, s')
                                          | [] => (false, s') end in
                      let '(ds, r) := take_digits s'' in
                      if bool_decide (ds = []) then None
                      else Some (Some (if eneg : bool then - digits_value ds else digits_value ds)%Z, r)
                    else Some (None, s)
                | [] => Some (None, s)
                end;
    let n := digits_value int in
    let as_float := decimal neg (digits_value (int ++ default [] frac)) (default 0 exp - Z.of_nat (length (default [] frac)))%Z in
    match frac, exp with
    | None, None =>
        if neg then
          if (n =? 0)%Z then Some (VNumber (NFloat (S754_zero true)), s)
          else if (n <=? 2 ^ 63)%Z then Some (VNumber (NInt (- n)), s) else Some (VNumber (NFloat as_float), s)
        else if (n <? 2 ^ 64)%Z then Some (VNumber (NInt n), s) else Some (VNumber (NFloat as_float), s)
    | _, _ => if f64_is_finite as_float then Some (VNumber (NFloat as_float), s) else None
    end.

(** ** Values *)
Definition literal (name : String.string) (v : Value) (s : str) : option (Value * str) :=
  s ← strip_prefix s (lit name); Some (v, s).
Arguments literal name%_string v s.

Inductive Mode := AValue | Items (acc : list Value) | Members (acc : list (str * Value)).

(** [add] enters a member: it replaces an equal key in a [Value], and repeats it
    in a walk of the keys.  [Items] and [Members] are behind the opening bracket and what was read so
    far. *)
Fixpoint value (add : str → Value → list (str * Value) → list (str * Value)) (fuel depth : nat) (m : Mode) (s : str) : option (Value * str) :=
  match fuel with
  | O => None
  | S fuel =>
      let s := skip_ws s in
      match m with
      | AValue =>
          match s with
          | [] => None
          | c :: s' =>
              if bool_decide (c = DQ) then '(t, r) ← string_body (length s) s' []; Some (VString t, r)
              else if bool_decide (c = "["%char) then
                match depth with
                | O => None
                | S depth =>
                    match skip_ws s' with
                    | d :: r => if bool_decide (d = "]"%char) then Some (VArray [], r) else value add fuel depth (Items []) s'
                    | [] => None
                    end
                end
              else if bool_decide (c = "{"%char) then
                match depth with
                | O => None
                | S depth =>
                    match skip_ws s' with
                    | d :: r => if bool_decide (d = "}"%char) then Some (VObject [], r) else value add fuel depth (Members []) s'
                    | [] => None
                    end
                end
              else if bool_decide (c = "n"%char) then literal "null" VNull s
              else if bool_decide (c = "t"%char) then literal "true" (VBool true) s
              else if bool_decide (c = "f"%char) then literal "false" (VBool false) s
              else number s
          end
      | Items acc =>
          '(v, r) ← value add fuel depth AValue s;
          match skip_ws r with
          | d :: r => if bool_decide (d = ","%char) then value add fuel depth (Items (acc ++ [v])) r
                      else if bool_decide (d = "]"%char) then Some (VArray (acc ++ [v]), r) else None
          | [] => None
          end
      | Members acc =>
          match s with
          | q :: s' =>
              if bool_decide (q = DQ) then
                '(k, r) ← string_body (length s) s' [];
                match skip_ws r with
                | c :: r =>
                    if bool_decide (c = ":"%char) then
                      '(v, r) ← value add fuel depth AValue r;
                      match skip_ws r with
                      | d :: r => if bool_decide (d = ","%char) then value add fuel depth (Members (add k v acc)) r
                                  else if bool_decide (d = "}"%char) then Some (VObject (add k v acc), r) else None
                      | [] => None
                      end
                    else None
                | [] => None
                end
              else None
          | [] => None
          end
      end
  end.

(** A value and the text behind it; [from_str] asks for its end. *)
Definition read_value (add : str → Value → list (str * Value) → list (str * Value)) (s : str) : option (Value * str) :=
  value add (2 + 2 * length s) 127 AValue s.
Definition jt_parse (s : str) : option Value :=
  '(v, r) ← read_value map_insert s; if bool_decide (skip_ws r = []) then Some v else None.

(** ** Printing *)
Definition escape_char (c : ascii) : str :=
  if bool_decide (c = DQ) then [BS; DQ]
  else if bool_decide (c = BS) then [BS; BS]
  else if (byte_val c =? 8)%Z then [BS; "b"%char]
  else if (byte_val c =? 12)%Z then [BS; "f"%char]
  else if (byte_val c =? 10)%Z then [BS; "n"%char]
  else if (byte_val c =? 13)%Z then [BS; "r"%char]
  else if (byte_val c =? 9)%Z then [BS; "t"%char]
  else if (byte_val c <? 32)%Z then BS :: lit "u" ++ pad_left "0"%char 4 (hex (byte_val c))
  else [c].
Definition print_string (s : str) : str := DQ :: (s ≫= escape_char) ++ [DQ].

(** The fewest digits that read back as the double: [|x| = m * 10^e] nearly. *)
Definition abs_f64 (x : f64) : f64 := SFabs x.
Fixpoint pow10_above (fuel : nat) (x : f64) (e : Z) : Z :=
  match fuel with
  | O => e
  | S fuel => if f64_lt x (decimal false 1 e) then e else pow10_above fuel x (e + 1)
  end.
(** Below the power looked for, by three at most. *)
Definition log10_below (x : f64) : Z :=
  match x with S754_finite _ m k => ((Z.log2 (Z.pos m) + k) * 30103 / 100000 - 1)%Z | _ => 0%Z end.
(** [x] times [10^-e], to the nearest integer. *)
Definition scaled (x : f64) (e : Z) : Z :=
  match x with
  | S754_finite _ m k =>
      let num := (Z.pos m * (if (0 <=? k)%Z then 2 ^ k else 1) * (if (e <? 0)%Z then 10 ^ (- e) else 1))%Z in
      let den := ((if (0 <=? k)%Z then 1 else 2 ^ (- k)) * (if (e <? 0)%Z then 1 else 10 ^ e))%Z in
      div_half_even num den
  | _ => 0%Z
  end.
Fixpoint shortest (fuel : nat) (x : f64) (top digits : Z) : Z * Z :=
  let e := (top - digits)%Z in
  let m := scaled x e in
  match fuel with
  | O => (m, e)
  | S fuel => if SFeqb (decimal false m e) x then (m, e) else shortest fuel x top (digits + 1)
  end.

(** The layout of the ryu crate. *)
Definition print_f64 (x : f64) : str :=
  match x with
  | S754_zero neg => if neg then lit "-0.0" else lit "0.0"
  | S754_finite neg _ _ =>
      let a := abs_f64 x in
      let '(m, k) := shortest 17 a (pow10_above 5 a (log10_below a)) 1 in
      let ds := show_Z m in
      let len := length ds in
      let point := (Z.of_nat len + k)%Z in
      (if neg : bool then lit "-" else [])
      ++ (if (0 <=? k)%Z && (point <=? 16)%Z then ds ++ replicate (Z.to_nat k) "0"%char ++ lit ".0"
          else if (0 <? point)%Z && (point <=? 16)%Z then take (Z.to_nat point) ds ++ lit "." ++ drop (Z.to_nat point) ds
          else if (-5 <? point)%Z && (point <=? 0)%Z then lit "0." ++ replicate (Z.to_nat (- point)) "0"%char ++ ds
          else take 1 ds ++ (if len =? 1 then [] else lit "." ++ drop 1 ds) ++ lit "e" ++ show_Z (point - 1))
  | _ => lit "null"
  end.

Definition print_number (n : Number) : str := match n with NInt z => show_Z z | NFloat f => print_f64 f end.

Fixpoint jt_print (v : Value) : str :=
  match v with
  | VNull => lit "null"
  | VBool b => if b then lit "true" else lit "false"
  | VNumber n => print_number n
  | VString s => print_string s
  | VArray l => lit "[" ++ join (lit ",") (jt_print <$> l) ++ lit "]"
  | VObject m => lit "{" ++ join (lit ",") ((λ e, print_string e.1 ++ lit ":" ++ jt_print e.2) <$> m) ++ lit "}"
  end.

(** [to_string_pretty]: two spaces a level. *)
Fixpoint jt_pretty (indent : nat) (v : Value) : str :=
  let line n := byte 10 :: replicate (2 * n) " "%char in
  match v with
  | VArray ((_ :: _) as l) =>
      lit "[" ++ join (lit ",") ((λ x, line (S indent) ++ jt_pretty (S indent) x) <$> l) ++ line indent ++ lit "]"
  | VObject ((_ :: _) as m) =>
      lit "{" ++ join (lit ",") ((λ e, line (S indent) ++ print_string e.1 ++ lit ": " ++ jt_pretty (S indent) e.2) <$> m)
      ++ line indent ++ lit "}"
  | v => jt_print v
  end.

Definition json_text : Serde := {|
  from_str := jt_parse;
  from_str_string s := v ← jt_parse s; as_str v;
  to_string := jt_print;
  stream_keys s := '(v, _) ← read_value (λ k v m, m ++ [(k, v)]) s; m ← as_object v; Some m.*1;
|}.

(** ** Values are decided equal *)
#[export] Instance f64_eq_dec : EqDecision f64.
Proof. solve_decision. Defined.
#[export] Instance number_eq_dec : EqDecision Number.
Proof. solve_decision. Defined.
Fixpoint value_eq_dec (v w : Value) {struct v} : {v = w} + {v ≠ w}.
Proof.
  refine (match v, w with
  | VNull, VNull => left eq_refl
  | VBool a, VBool b => cast_if (decide (a = b))
  | VNumber a, VNumber b => cast_if (decide (a = b))
  | VString a, VString b => cast_if (decide (a = b))
  | VArray a, VArray b => cast_if (@list_eq_dec _ value_eq_dec a b)
  | VObject a, VObject b => cast_if (@list_eq_dec _ (@prod_eq_dec str _ Value value_eq_dec) a b)
  | _, _ => right _ end); congruence.
Defined.
#[export] Instance value_eq_decision : EqDecision Value := value_eq_dec.

(** ** Samples *)
Definition json (s : String.string) : Value := default VNull (jt_parse (qlit s)).
Arguments json s%_string.

Example jt_reads : jt_parse (qlit " {'a' : [1, -2.5e1, true, null], 'b':{'c':'x'}, 'a':3} ") =
  Some (VObject [kv "a" (vnat 3); kv "b" (VObject [kv "c" (vstr "x")])]).
Proof. vm_compute. reflexivity. Qed.

Example jt_prints : jt_print <$> jt_parse (qlit "[1.5,0.1,100.0,1e21,1e-7,123456789.123,-0.0,5e-324,1.7976931348623157e308,{'x':'a'},3]") =
  Some (qlit "[1.5,0.1,100.0,1e21,1e-7,123456789.123,-0.0,5e-324,1.7976931348623157e308,{'x':'a'},3]").
Proof. vm_compute. reflexivity. Qed.
