(* ===== verification/Context.v ===== *)
(** * The context-window cache (llama-proxy/src/proxy/context.rs)

    Probing a backend for its context window, and the process-wide cache behind
    it, as programs over the shared accesses they make; the choice among the
    entries of a model list is backends/preflight.rs.  A lock that is taken with
    [try_write] may be found held: the environment says so. *)
From S2P Require Import Prelude Prog Node Json.

Definition CONTEXT_CACHE_TTL : Duration := 600 * ns_per_sec.

Record CacheEntry := mkEntry { value : Z; fetched_at : Instant }.

(** [Instant::elapsed] saturates at zero. *)
Definition entry_is_fresh (now fetched_at : Instant) (ttl : Duration) : bool :=
  (Z.max 0 (now - fetched_at) <? ttl)%Z.

(** What a backend answers: the body is the text read, or a read error. *)
Record Answer := mkAnswer { ans_status : Z; ans_headers : list (str * str); ans_body : result str str }.

Inductive Shared : Type → Type :=
  | HttpGet (url : str) (api_key : option str) : Shared (result str Answer)
  | Now : Shared Instant
  | ReadContext (url : str) : Shared (option CacheEntry)
  | TryWriteContext (url : str) (v : Z) : Shared bool            (** [false]: the lock was held *)
  | TryRemoveContext (url : str) : Shared bool                   (** [false]: held, or no entry *)
  | WarnedContext (url : str) : Shared bool
  | WarnContext (url : str) : Shared bool.                       (** [HashSet::insert] *)

(** The probe a node's preflight hands to the cache. *)
Record ContextProbe := mkProbe {
  probe_base_url : str;
  is_llama_cpp : bool;
  max_model_len : option Z;
  probe_api_key : option str;
}.

(** ** Choosing among the entries of a model list *)
Definition scored (entries : list Value) : list (str * Z) :=
  omap (λ e, id ← get e (lit "id") ≫= as_str; len ← get e (lit "max_model_len") ≫= as_u64; Some (id, len)) entries.

Definition name_matches (name id : str) : bool := starts_with id name || starts_with name id.

(** [(usize, u64)] compared as tuples. *)
Definition better (candidate best : nat * Z) : bool :=
  (best.1 <? candidate.1) || ((best.1 =? candidate.1) && (best.2 <? candidate.2)%Z).
Definition pick_longest (name : str) (best : option (nat * Z)) (e : str * Z) : option (nat * Z) :=
  if name_matches name e.1 then
    let candidate := (length e.1, e.2) in
    if match best with None => true | Some b => better candidate b end then Some candidate else best
  else best.
Fixpoint max_of (l : list Z) : option Z :=
  match l with
  | [] => None
  | x :: l' => Some match max_of l' with Some y => Z.max x y | None => x end
  end.

Definition select_max_model_len (entries : list Value) (model_name : option str) : option Z :=
  let scored := scored entries in
  match name ← model_name; foldl (pick_longest name) None scored with
  | Some (_, len) => Some len
  | None => max_of scored.*2
  end.

(** ** Probing *)
Section Probes.
Context `{Serde}.

(** [resp.json::<Value>()]. *)
Definition answer_json (a : result str Answer) : option Value :=
  match a with Ok (mkAnswer _ _ (Ok text)) => from_str text | _ => None end.

Definition props_window (a : result str Answer) : option Z :=
  props ← answer_json a;
  settings ← get props (lit "default_generation_settings");
  n_ctx ← get settings (lit "n_ctx");
  as_u64 n_ctx.

Definition models_window (model_name : option str) (a : result str Answer) : option Z :=
  models ← answer_json a;
  arr ← get models (lit "data") ≫= as_array;
  select_max_model_len arr model_name.

Definition fetch_from_props (backend_url : str) (api_key : option str) : prog Shared (option Z) :=
  a ← trigger (HttpGet (node_url backend_url (lit "/props") None) api_key);
  Ret (props_window a).

Definition fetch_from_models (backend_url : str) (api_key model_name : option str) : prog Shared (option Z) :=
  a ← trigger (HttpGet (node_url backend_url (lit "/v1/models") None) api_key);
  Ret (models_window model_name a).

(** The count of skipped refreshes is the world's. *)
Definition cache_result (backend_url : str) (v : Z) : prog Shared unit :=
  _ ← trigger (TryWriteContext backend_url v); Ret tt.

Definition cached (backend_url : str) : prog Shared (option Z) :=
  entry ← trigger (ReadContext backend_url);
  match entry with
  | None => Ret None
  | Some e =>
      now ← trigger Now;
      Ret (if entry_is_fresh now (fetched_at e) CONTEXT_CACHE_TTL then Some (value e) else None)
  end.

Definition fetch_context_total (backend_url : str) (api_key model_name : option str) : prog Shared (option Z) :=
  hit ← cached backend_url;
  match hit with
  | Some v => Ret (Some v)
  | None =>
      n_ctx ← fetch_from_props backend_url api_key;
      match n_ctx with
      | Some v => _ ← cache_result backend_url v; Ret (Some v)
      | None =>
          len ← fetch_from_models backend_url api_key model_name;
          match len with
          | Some v => _ ← cache_result backend_url v; Ret (Some v)
          | None => Ret None
          end
      end
  end.

Definition cache_context_from_preflight (p : ContextProbe) : prog Shared (option Z) :=
  entry ← trigger (ReadContext (probe_base_url p));
  match entry with
  | Some e => Ret (Some (value e))
  | None =>
      if is_llama_cpp p then
        n_ctx ← fetch_from_props (probe_base_url p) (probe_api_key p);
        match n_ctx with
        | Some v => _ ← cache_result (probe_base_url p) v; Ret (Some v)
        | None => Ret None
        end
      else
        match max_model_len p with
        | Some ctx => _ ← cache_result (probe_base_url p) ctx; Ret (Some ctx)
        | None => Ret None
        end
  end.

Definition invalidate_context_cache (backend_url : str) : prog Shared bool := trigger (TryRemoveContext backend_url).

(** Whether the warning is logged. *)
Definition warn_context_fetch_failed_once (backend_url : str) : prog Shared bool :=
  known ← trigger (WarnedContext backend_url);
  if known : bool then Ret false else trigger (WarnContext backend_url).

(** ** Books of an execution: its exchanges, clock readings, cache reads and writes *)
Inductive Seen :=
  | Got (url : str) (api_key : option str) (a : result str Answer)
  | Clock (t : Instant)
  | Read (url : str) (e : option CacheEntry)
  | Wrote (url : str) (v : Z) (done : bool).

Definition note (X : Type) (e : Shared X) : X → list Seen → list Seen :=
  match e in Shared X return X → list Seen → list Seen with
  | HttpGet u k => λ a s, s ++ [Got u k a]
  | Now => λ t s, s ++ [Clock t]
  | ReadContext u => λ e s, s ++ [Read u e]
  | TryWriteContext u v => λ d s, s ++ [Wrote u v d]
  | _ => λ _ s, s
  end.

Definition requests (s : list Seen) : list (str * option str) :=
  omap (λ x, match x with Got u k _ => Some (u, k) | _ => None end) s.
Definition writes (s : list Seen) : list (str * Z) :=
  omap (λ x, match x with Wrote u v _ => Some (u, v) | _ => None end) s.

(** The backend behind [base] said that its window is [v]. *)
Definition advertises (base : str) (v : Z) (x : Seen) : Prop :=
  match x with
  | Got u _ a =>
      u = node_url base (lit "/props") None ∧ props_window a = Some v ∨
      ∃ prefix name, u = node_url base (lit "/v1/models") prefix ∧ models_window name a = Some v
  | _ => False
  end.

(** ** The process: cache, counters and clock; [served] is every answer any
    backend has given, with the time it came *)
Record Process := mkProcess {
  context_cache : gmap str CacheEntry;
  clock : Instant;
  stale_skips : Z;
  evictions : Z;
  warned : gset str;
  warn_lines : list str;
  served : list (Seen * Instant);
}.
Definition booted (now : Instant) : Process := mkProcess ∅ now 0 0 ∅ [] [].

Definition effect (X : Type) (e : Shared X) : X → Process → Process → Prop :=
  match e in Shared X return X → Process → Process → Prop with
  | HttpGet u k => λ a '(mkProcess c t sk ev wn wl sv) w',
      ∃ t', (t ≤ t')%Z ∧ w' = mkProcess c t' sk ev wn wl ((Got u k a, t') :: sv)
  | Now => λ now '(mkProcess c t sk ev wn wl sv) w',
      (t ≤ now)%Z ∧ w' = mkProcess c now sk ev wn wl sv
  | ReadContext u => λ r w w', r = context_cache w !! u ∧ w' = w
  | TryWriteContext u v => λ got '(mkProcess c t sk ev wn wl sv) w',
      ∃ t', (t ≤ t')%Z ∧
        w' = if got : bool then mkProcess (<[u := mkEntry v t']> c) t' sk ev wn wl sv
             else mkProcess c t' (sk + 1) ev wn wl sv
  | TryRemoveContext u => λ removed '(mkProcess c t sk ev wn wl sv) w',
      (removed = true → is_Some (c !! u)) ∧
      w' = if removed : bool then mkProcess (delete u c) t sk (ev + 1) wn wl sv
           else mkProcess c t sk ev wn wl sv
  | WarnedContext u => λ r w w', r = bool_decide (u ∈ warned w) ∧ w' = w
  | WarnContext u => λ fresh '(mkProcess c t sk ev wn wl sv) w',
      fresh = bool_decide (u ∉ wn) ∧
      w' = mkProcess c t sk ev ({[u]} ∪ wn) (if fresh : bool then u :: wl else wl) sv
  end.
End Probes.

(** * Facts *)

(** ** Which entry wins *)
Lemma max_of_spec l :
  match max_of l with
  | None => l = []
  | Some m => m ∈ l ∧ ∀ x, x ∈ l → (x ≤ m)%Z
  end.
Proof.
  induction l as [|x l IH]; simpl; [done|]. destruct (max_of l) as [y|].
  - destruct IH as [Hy Hm]. split.
    + destruct (Z.max_spec x y) as [[_ ->]|[_ ->]]; set_solver.
    + intros z [->|Hz]%elem_of_cons; [lia|]. specialize (Hm z Hz). lia.
  - subst. split; [set_solver|]. intros z Hz. apply list_elem_of_singleton in Hz. lia.
Qed.

(** At least as good as a matching entry: longer id, or as long and no smaller. *)
Definition as_good (len : nat) (v : Z) (e : str * Z) : Prop :=
  length e.1 < len ∨ length e.1 = len ∧ (e.2 ≤ v)%Z.

Lemma pick_longest_spec name l :
  match foldl (pick_longest name) None l with
  | None => ∀ e, e ∈ l → name_matches name e.1 = false
  | Some (n, v) => (∃ id, (id, v) ∈ l ∧ name_matches name id = true ∧ length id = n) ∧
      ∀ e, e ∈ l → name_matches name e.1 = true → as_good n v e
  end.
Proof.
  induction l as [|[id v] l IH] using rev_ind; [set_solver|]. rewrite foldl_app. simpl.
  unfold pick_longest at 1. cbn [fst snd]. destruct (name_matches name id) eqn:Em.
  - destruct (foldl (pick_longest name) None l) as [[n v0]|].
    + destruct IH as [(id0 & H0 & Hm0 & <-) Hb].
      destruct (better (length id, v) (length id0, v0)) eqn:Hbet; unfold better in Hbet; simpl in Hbet.
      * assert (length id0 < length id ∨ length id0 = length id ∧ (v0 < v)%Z) as Hlt by
          (apply orb_true_iff in Hbet as [H|[H1 H2]%andb_true_iff]; [apply Nat.ltb_lt in H; lia|];
           apply Nat.eqb_eq in H1; apply Z.ltb_lt in H2; lia).
        split; [exists id; split; [set_solver|done]|].
        intros e [He|He%list_elem_of_singleton]%elem_of_app Hme; unfold as_good.
        -- specialize (Hb e He Hme). unfold as_good in Hb. lia.
        -- subst. simpl. lia.
      * split; [exists id0; split; [set_solver|done]|].
        intros e [He|He%list_elem_of_singleton]%elem_of_app Hme; [auto|]. subst. unfold as_good. simpl.
        apply orb_false_iff in Hbet as [H1 H2]. apply Nat.ltb_ge in H1.
        apply andb_false_iff in H2 as [H2|H2]; [apply Nat.eqb_neq in H2|apply Z.ltb_ge in H2]; lia.
    + split; [exists id; split; [set_solver|done]|].
      intros e [He|He%list_elem_of_singleton]%elem_of_app Hme; [by rewrite IH in Hme|].
      subst. unfold as_good. simpl. lia.
  - destruct (foldl (pick_longest name) None l) as [[n v0]|].
    + destruct IH as [(id0 & H0 & Hm0 & <-) Hb]. split; [exists id0; split; [set_solver|done]|].
      intros e [He|He%list_elem_of_singleton]%elem_of_app Hme; [auto|]. subst. simpl in *. congruence.
    + intros e [He|He%list_elem_of_singleton]%elem_of_app; [auto|by subst].
Qed.

(** The window taken from a model list is that of an entry carrying both an id
    and a length: among the entries whose id and the configured name are
    prefixes of one another the longest id, then the largest length; where none
    is, the largest length of all.  Never the mere first entry. *)
Theorem model_choice_right entries model_name :
  match select_max_model_len entries model_name with
  | None => scored entries = []
  | Some len => ∃ id, (id, len) ∈ scored entries ∧
      ((∃ name, model_name = Some name ∧ name_matches name id = true ∧
          ∀ e, e ∈ scored entries → name_matches name e.1 = true → as_good (length id) len e) ∨
       (∀ name e, model_name = Some name → e ∈ scored entries → name_matches name e.1 = false) ∧
       ∀ e, e ∈ scored entries → (e.2 ≤ len)%Z)
  end.
Proof.
  unfold select_max_model_len. set (l := scored entries).
  assert (match name ← model_name; foldl (pick_longest name) None l with
    | Some (n, v) => ∃ name id, model_name = Some name ∧ (id, v) ∈ l ∧ name_matches name id = true ∧
        ∀ e, e ∈ l → name_matches name e.1 = true → as_good (length id) v e
    | None => ∀ name e, model_name = Some name → e ∈ l → name_matches name e.1 = false end) as H.
  { destruct model_name as [name|]; simpl; [|done]. pose proof (pick_longest_spec name l) as Hp.
    destruct (foldl (pick_longest name) None l) as [[n v]|]; [|naive_solver].
    destruct Hp as [(id & ? & ? & <-) ?]. by exists name, id. }
  destruct (name ← model_name; foldl (pick_longest name) None l) as [[n v]|].
  - destruct H as (name & id & -> & Hin & Hm & Hbest). exists id. split; [done|]. left. by exists name.
  - pose proof (max_of_spec l.*2) as Hm. destruct (max_of l.*2) as [m|]; [|by apply fmap_nil_inv in Hm].
    destruct Hm as [Hin Hmax]. apply list_elem_of_fmap in Hin as ([id m'] & -> & Hin). exists id.
    split; [done|]. right. split; [done|]. intros e He. apply Hmax. apply list_elem_of_fmap. by exists e.
Qed.

(** ** One execution *)
Section Facts.
Context `{Serde}.

(** The two probes and the refresh, whatever came before. *)
Definition probe_outcome base (key : option str) (s0 : list Seen) (r : option Z) (s : list Seen) : Prop :=
  ∃ s', s = s0 ++ s' ∧
  match r with
  | None => requests s' = [(node_url base (lit "/props") None, key); (node_url base (lit "/v1/models") None, key)] ∧
            writes s' = []
  | Some v => (∃ x, x ∈ s' ∧ advertises base v x) ∧ writes s' = [(base, v)] ∧
      requests s' `prefix_of` [(node_url base (lit "/props") None, key); (node_url base (lit "/v1/models") None, key)]
  end ∧ requests s' ≠ [].

Lemma probes_outcome base key name s0 :
  wp note (n_ctx ← fetch_from_props base key;
           match n_ctx with
           | Some v => _ ← cache_result base v; Ret (Some v)
           | None =>
               len ← fetch_from_models base key name;
               match len with Some v => _ ← cache_result base v; Ret (Some v) | None => Ret None end
           end) (probe_outcome base key s0) s0.
Proof.
  intros a. cbn. destruct (props_window a) as [v|] eqn:Ep; [intros d|intros b; cbn; destruct (models_window name b) as [v|] eqn:Em; [intros d|]].
  all: cbn; unfold probe_outcome; eexists; rewrite <- ?app_assoc; split; [done|].
  - split; [|done]. split_and!; [|done|by eexists].
    eexists; split; [by left|]. left. done.
  - split; [|done]. split_and!; [|done|by exists []].
    eexists; split; [right; by left|]. right. by exists None, name.
  - done.
Qed.

(** Fetching the window: a cached one is served only while it is younger than
    the TTL and then without a request; otherwise the backend itself is asked,
    [/props] first, [/v1/models] only when that gave nothing, and what is
    returned is what it said and the one thing offered to the cache. *)
Theorem fetch_context_honest base key name :
  wp note (fetch_context_total base key name)
    (λ r s,
       match r with
       | None => requests s = [(node_url base (lit "/props") None, key); (node_url base (lit "/v1/models") None, key)] ∧
                 writes s = []
       | Some v =>
           (∃ e now, s = [Read base (Some e); Clock now] ∧ v = value e ∧
              (Z.max 0 (now - fetched_at e) < CONTEXT_CACHE_TTL)%Z) ∨
           (∃ x, x ∈ s ∧ advertises base v x) ∧ writes s = [(base, v)] ∧
           requests s `prefix_of` [(node_url base (lit "/props") None, key); (node_url base (lit "/v1/models") None, key)]
       end ∧
       ∀ e now s', s = Read base (Some e) :: Clock now :: s' →
         entry_is_fresh now (fetched_at e) CONTEXT_CACHE_TTL = true → s' = [] ∧ r = Some (value e)) [].
Proof.
  intros [e|].
  - intros now. cbn. destruct (entry_is_fresh now (fetched_at e) CONTEXT_CACHE_TTL) eqn:Ef.
    + split; [|by intros ? ? ? [= <- <- <-] _]. left. exists e, now.
      split_and!; [done..|]. by apply Z.ltb_lt.
    + eapply wp_mono; [apply (probes_outcome base key name)|]. intros r s (s' & -> & Hr & Hne).
      split; [|intros ? ? ? [= <- <- <-]; congruence].
      destruct r as [v|]; [right|done]. destruct Hr as [(x & Hx & ?) ?].
      split; [|done]. exists x. split; [by do 2 right|done].
  - eapply wp_mono; [apply (probes_outcome base key name)|]. intros r s (s' & -> & Hr & Hne).
    split; [|done]. destruct r as [v|]; [right|done]. destruct Hr as [(x & Hx & ?) ?].
    split; [|done]. exists x. split; [by right|done].
Qed.
End Facts.
