(* ===== verification/Metrics.v ===== *)
(** * Metrics of a request (llama-proxy/src/stats/collector.rs)

    What is measured of a response body: token counts, rates, timings and
    lengths.  The fields of [RequestMetrics] are grouped by the function that
    writes them.  [f64] arithmetic is IEEE 754 binary64. *)
From S2P Require Import Prelude Numbers Json.

(** ** [f64] and [u64] *)
Definition f64_thousand : f64 := f64_of_Z 1000.
(** [f64::MIN_POSITIVE], the smallest normal number. *)
Definition f64_min_positive : f64 := S754_finite false (2 ^ 52) (-1074).

Definition u64_max : Z := 2 ^ 64 - 1.
Definition saturating_add (a b : Z) : Z := Z.min u64_max (a + b).
Definition saturating_sub (a b : Z) : Z := Z.max 0 (a - b).

(** ** The sample *)
Record Usage := mkUsage {
  prompt_tokens : option Z;
  completion_tokens : option Z;
  total_tokens : Z;
  cached_tokens : option Z;
  cache_creation_tokens : option Z;
  context_used : option Z;
  reasoning_tokens : option Z;
  accepted_prediction_tokens : option Z;
  rejected_prediction_tokens : option Z;
}.

Record Timing := mkTiming {
  prompt_tps : option f64;
  generation_tps : option f64;
  prompt_ms : f64;
  generation_ms : f64;
  queue_ms : option f64;
  mean_itl_ms : option f64;
}.

Record Lengths := mkLengths {
  finish_reason : str;
  output_len : Z;
  input_messages : Z;
  input_len : Z;
}.

Record RequestMetrics := mkMetrics {
  request_id : str;
  timestamp : Z;                       (** nanoseconds since the epoch *)
  model : str;
  group_name : option str;
  client_id : option str;
  conversation_id : option str;
  usage : Usage;
  timing : Timing;
  total_tps : f64;
  decode_tps_min : f64;
  has_timing_split : bool;
  context_total : option Z;
  context_percent : option f64;
  lengths : Lengths;
  streaming : bool;
  stream_incomplete : bool;
  stream_end : option str;
  duration_ms : f64;
  concurrent_requests : option Z;
}.

Definition usage_new : Usage := mkUsage None None 0 None None None None None None.
Definition timing_new : Timing := mkTiming None None f64_zero f64_zero None None.
Definition lengths_new : Lengths := mkLengths (lit "unknown") 0 0 0.
Definition metrics_new (id : str) (now : Z) : RequestMetrics :=
  mkMetrics id now (lit "unknown") None None None usage_new timing_new f64_zero f64_zero false None None
    lengths_new false false None f64_zero None.

(** ** Gates on backend numbers *)
Definition finite_rate (v : f64) : f64 := if f64_is_finite v then v else f64_zero.
Definition finite_rate_opt (v : f64) : option f64 :=
  if f64_is_finite v && f64_lt f64_zero v then Some v else None.

(** ** Extraction *)
Definition get_u64 (v : Value) (k : str) : option Z := get v k ≫= as_u64.
Definition get_f64 (v : Value) (k : str) : option f64 := get v k ≫= as_f64.
Definition get_str (v : Value) (k : str) : option str := get v k ≫= as_str.

Definition extract_details (details : Value) (u : Usage) : Usage :=
  mkUsage (prompt_tokens u) (completion_tokens u) (total_tokens u) (cached_tokens u)
    (cache_creation_tokens u) (context_used u)
    (get_u64 details (lit "reasoning_tokens"))
    (get_u64 details (lit "accepted_prediction_tokens"))
    (get_u64 details (lit "rejected_prediction_tokens")).

Definition extract_counts (usage : Value) (u : Usage) : Usage :=
  match get_u64 usage (lit "prompt_tokens") with
  | Some prompt =>
      let completion := get_u64 usage (lit "completion_tokens") in
      mkUsage (Some prompt) completion
        (default (saturating_add prompt (default 0%Z completion)) (get_u64 usage (lit "total_tokens")))
        (d ← get usage (lit "prompt_tokens_details"); get_u64 d (lit "cached_tokens"))
        (cache_creation_tokens u) (context_used u)
        (reasoning_tokens u) (accepted_prediction_tokens u) (rejected_prediction_tokens u)
  | None =>
      match get_u64 usage (lit "input_tokens") with
      | Some input =>
          let completion := get_u64 usage (lit "output_tokens") in
          let cached := get_u64 usage (lit "cache_read_input_tokens") in
          let created := get_u64 usage (lit "cache_creation_input_tokens") in
          mkUsage (Some input) completion (saturating_add input (default 0%Z completion)) cached created
            (Some (saturating_add (saturating_add input (default 0%Z cached)) (default 0%Z created)))
            (reasoning_tokens u) (accepted_prediction_tokens u) (rejected_prediction_tokens u)
      | None => u
      end
  end.

Definition extract_usage (response : Value) (u : Usage) : Usage :=
  match get response (lit "usage") with
  | None => u
  | Some usage =>
      let u := extract_counts usage u in
      match get usage (lit "completion_tokens_details") with
      | Some details => extract_details details u
      | None => u
      end
  end.

(** A rate over a duration: [n as f64 / ms * 1000.0]. *)
Definition per_second (n : Z) (ms : f64) : f64 := f64_mul (f64_div (f64_of_Z n) ms) f64_thousand.

(** llama.cpp's own accounting. *)
Definition timings_usage (timings : Value) (u : Usage) : Usage :=
  let prompt_n := get_u64 timings (lit "prompt_n") in
  let context := match prompt_n with Some n => Some n | None => context_used u end in
  let cache_n := get_u64 timings (lit "cache_n") in
  if ((default 0 (prompt_tokens u) =? 0) && (default 0 (completion_tokens u) =? 0))%Z then
    let predicted := get_u64 timings (lit "predicted_n") in
    mkUsage prompt_n predicted (saturating_add (default 0%Z prompt_n) (default 0%Z predicted))
      cache_n (cache_creation_tokens u) context
      (reasoning_tokens u) (accepted_prediction_tokens u) (rejected_prediction_tokens u)
  else
    mkUsage (prompt_tokens u) (completion_tokens u) (total_tokens u)
      cache_n (cache_creation_tokens u) context
      (reasoning_tokens u) (accepted_prediction_tokens u) (rejected_prediction_tokens u).

Definition corrected_prompt_tps (timings : Value) (ms : f64) : option f64 :=
  used ← get_u64 timings (lit "prompt_n");
  cached ← get_u64 timings (lit "cache_n");
  if (0 <? cached)%Z && f64_lt f64_zero ms then Some (per_second (saturating_sub used cached) ms) else None.

Definition timings_rates (timings : Value) (t : Timing) : Timing :=
  let ms := default f64_zero (finite_rate <$> get_f64 timings (lit "prompt_ms")) in
  let prefill := match corrected_prompt_tps timings ms with
                 | Some v => Some v
                 | None => get_f64 timings (lit "prompt_per_second")
                 end in
  mkTiming (prefill ≫= finite_rate_opt)
    (get_f64 timings (lit "predicted_per_second") ≫= finite_rate_opt)
    ms (default f64_zero (finite_rate <$> get_f64 timings (lit "predicted_ms")))
    (queue_ms t) (mean_itl_ms t).

(** A usable vLLM measurement: finite and not below the normal range. *)
Definition vllm_field (vm : Value) (k : str) : option f64 :=
  v ← get_f64 vm k;
  if f64_is_finite v && f64_le f64_min_positive v then Some v else None.

(** The prompt tokens the engine computed, [None] when the cache count is of no use. *)
Definition computed_tokens (response : Value) (u : Usage) (prompt : Z) : option Z :=
  let cache_is_a_subset := match get response (lit "usage") ≫= (λ u, get u (lit "prompt_tokens")) with
                           | Some _ => true | None => false end in
  match cached_tokens u with
  | Some c => if cache_is_a_subset && (0 <? c)%Z && (c <? prompt)%Z then Some (prompt - c)%Z else None
  | None => None
  end.

Definition positive (n : option Z) : option Z := v ← n; if (0 <? v)%Z then Some v else None.

Definition extract_vllm_usage (response : Value) (u : Usage) (t : Timing) : Timing :=
  match get response (lit "metrics") with
  | None | Some VNull => t
  | Some vm =>
      let ttft := vllm_field vm (lit "time_to_first_token_ms") in
      let gen := vllm_field vm (lit "generation_time_ms") in
      mkTiming
        match ttft, positive (prompt_tokens u) with
        | Some ttft, Some prompt => finite_rate_opt (per_second (default prompt (computed_tokens response u prompt)) ttft)
        | _, _ => prompt_tps t
        end
        match gen, positive (completion_tokens u) with
        | Some gen, Some completion => finite_rate_opt (per_second completion gen)
        | _, _ => generation_tps t
        end
        (default (prompt_ms t) ttft) (default (generation_ms t) gen)
        (vllm_field vm (lit "queue_time_ms")) (vllm_field vm (lit "mean_itl_ms"))
  end.

Definition set_context_used (c : option Z) (u : Usage) : Usage :=
  mkUsage (prompt_tokens u) (completion_tokens u) (total_tokens u) (cached_tokens u)
    (cache_creation_tokens u) c (reasoning_tokens u) (accepted_prediction_tokens u) (rejected_prediction_tokens u).

Definition extract_timings (response : Value) (u : Usage) (t : Timing) : Usage * Timing :=
  match get response (lit "timings") with
  | Some timings => (timings_usage timings u, timings_rates timings t)
  | None =>
      let u := match context_used u with
               | Some _ => u
               | None => match positive (prompt_tokens u) with
                         | Some p => set_context_used (Some p) u
                         | None => u
                         end
               end in
      (u, extract_vllm_usage response u t)
  end.

(** ** Lengths *)
Definition sum_Z (l : list Z) : Z := foldr Z.add 0%Z l.
Definition str_len (s : str) : Z := Z.of_nat (length s).
Definition texts_len (parts : list Value) : Z :=
  sum_Z (str_len <$> omap (λ p, get_str p (lit "text")) parts).

Definition content_len (message : Value) : Z :=
  match get message (lit "content") with
  | Some (VString s) => str_len s
  | Some (VArray parts) => texts_len parts
  | _ => 0
  end.

Definition response_lengths (response : Value) (l : Lengths) : Lengths :=
  match get response (lit "choices") ≫= as_array with
  | Some choices =>
      match choices with
      | [] => l
      | first_choice :: _ =>
          mkLengths (default (lit "unknown") (get_str first_choice (lit "finish_reason")))
            match m ← get first_choice (lit "message"); get_str m (lit "content") with
            | Some content => str_len content
            | None => output_len l
            end
            (input_messages l) (input_len l)
      end
  | None =>
      match get_str response (lit "stop_reason") with
      | Some stop_reason =>
          mkLengths stop_reason
            match get response (lit "content") ≫= as_array with
            | Some content => texts_len content
            | None => output_len l
            end
            (input_messages l) (input_len l)
      | None => l
      end
  end.

Definition extract_length_fallbacks (response request : Value) (l : Lengths) : Lengths :=
  let l := response_lengths response l in
  match get request (lit "messages") ≫= as_array with
  | Some messages =>
      mkLengths (finish_reason l) (output_len l) (Z.of_nat (length messages)) (sum_Z (content_len <$> messages))
  | None => l
  end.

(** ** The whole *)
Definition response_model (response : Value) : str :=
  match get_str response (lit "model") with
  | Some m => m
  | None =>
      match m ← get response (lit "message"); get_str m (lit "model") with
      | Some m => m
      | None => lit "unknown"
      end
  end.

Definition is_some {A} (o : option A) : bool := match o with Some _ => true | None => false end.

Definition from_response (id : str) (now : Z) (response request : Value) (streaming : bool) (duration_ms : f64)
    : RequestMetrics :=
  let '(u, t) := extract_timings response (extract_usage response usage_new) timing_new in
  let counted_output := f64_of_Z (default 0%Z (completion_tokens u)) in
  mkMetrics id now (response_model response) None None None u t
    (if f64_lt f64_zero duration_ms && (0 <? total_tokens u)%Z
     then finite_rate (per_second (total_tokens u) duration_ms) else f64_zero)
    (if f64_lt f64_zero duration_ms && f64_lt f64_zero counted_output
     then finite_rate (f64_mul (f64_div counted_output duration_ms) f64_thousand) else f64_zero)
    (is_some (prompt_tps t) || is_some (generation_tps t))
    None None (extract_length_fallbacks response request lengths_new)
    streaming false None duration_ms None.

Definition set_context (total : option Z) (percent : option f64) (m : RequestMetrics) : RequestMetrics :=
  mkMetrics (request_id m) (timestamp m) (model m) (group_name m) (client_id m) (conversation_id m)
    (usage m) (timing m) (total_tps m) (decode_tps_min m) (has_timing_split m) total percent (lengths m)
    (streaming m) (stream_incomplete m) (stream_end m) (duration_ms m) (concurrent_requests m).

Definition calculate_context_percent (m : RequestMetrics) : RequestMetrics :=
  match context_used (usage m), context_total m with
  | Some used, Some total =>
      if (0 <? total)%Z then
        set_context (context_total m)
          (Some (f64_mul (f64_div (f64_of_Z used) (f64_of_Z total)) (f64_of_Z 100))) m
      else m
  | _, _ => m
  end.

Definition rate_positive (r : option f64) : bool := match r with Some v => f64_lt f64_zero v | None => false end.

Definition has_throughput_signal (m : RequestMetrics) : bool :=
  (0 <? total_tokens (usage m))%Z || f64_lt f64_zero (total_tps m)
  || rate_positive (prompt_tps (timing m)) || rate_positive (generation_tps (timing m)).

Definition stream_end_label (m : RequestMetrics) : str :=
  match stream_end m with
  | Some e => e
  | None => if negb (streaming m) then lit "sync" else lit "unknown"
  end.

(** ** The slots of a llama.cpp server *)
Record SlotMetrics := mkSlot { slot_id : Z; n_tokens : Z; n_ctx : Z; is_processing : bool }.
Record ContextInfo := mkContextInfo { total_context : Z; used_context : Z; slots : list SlotMetrics }.

Definition read_slot (slot : Value) : SlotMetrics :=
  mkSlot (default 0%Z (get_u64 slot (lit "id"))) (default 0%Z (get_u64 slot (lit "n_tokens")))
    (default 0%Z (get_u64 slot (lit "n_ctx"))) (default false (get slot (lit "is_processing") ≫= as_bool)).

Definition add_slot (info : ContextInfo) (slot : Value) : ContextInfo :=
  let s := read_slot slot in
  mkContextInfo (saturating_add (total_context info) (n_ctx s)) (saturating_add (used_context info) (n_tokens s))
    (slots info ++ [s]).

Definition from_slots_response (response : Value) : option ContextInfo :=
  slots ← as_array response;
  Some (foldl add_slot (mkContextInfo 0 0 []) slots).

(** * Facts *)

(** ** What may reach the wire *)
Definition rate_ok (r : option f64) : Prop :=
  ∀ v, r = Some v → f64_is_finite v = true ∧ f64_lt f64_zero v = true.
Definition finite_opt (r : option f64) : Prop := ∀ v, r = Some v → f64_is_finite v = true.

Record wire_safe (m : RequestMetrics) : Prop := {
  ws_prompt_tps : rate_ok (prompt_tps (timing m));
  ws_generation_tps : rate_ok (generation_tps (timing m));
  ws_prompt_ms : f64_is_finite (prompt_ms (timing m)) = true;
  ws_generation_ms : f64_is_finite (generation_ms (timing m)) = true;
  ws_queue : finite_opt (queue_ms (timing m));
  ws_itl : finite_opt (mean_itl_ms (timing m));
  ws_total : f64_is_finite (total_tps m) = true;
  ws_floor : f64_is_finite (decode_tps_min m) = true;
  ws_duration : f64_is_finite (duration_ms m) = true;
}.

Lemma finite_rate_finite v : f64_is_finite (finite_rate v) = true.
Proof. unfold finite_rate. by destruct (f64_is_finite v) eqn:E. Qed.

Lemma finite_rate_opt_ok v : rate_ok (finite_rate_opt v).
Proof.
  unfold finite_rate_opt. destruct (f64_is_finite v && f64_lt f64_zero v) eqn:E; intros w; [|done].
  intros [= <-]. by apply andb_true_iff in E.
Qed.

Lemma rate_ok_bind o : rate_ok (o ≫= finite_rate_opt).
Proof. destruct o; [apply finite_rate_opt_ok|]. intros v. done. Qed.

Lemma finite_default o : f64_is_finite (default f64_zero (finite_rate <$> o)) = true.
Proof. destruct o; [apply finite_rate_finite|done]. Qed.

Lemma vllm_field_finite vm k : finite_opt (vllm_field vm k).
Proof.
  unfold vllm_field. intros v. destruct (get_f64 vm k) as [w|]; simpl; [|done].
  destruct (f64_is_finite w) eqn:E; simpl; [|done]. destruct (f64_le _ _); [|done]. by intros [= <-].
Qed.

Lemma finite_default_opt o d : finite_opt o → f64_is_finite d = true → f64_is_finite (default d o) = true.
Proof. destruct o; simpl; auto. Qed.

Definition timing_ok (t : Timing) : Prop :=
  rate_ok (prompt_tps t) ∧ rate_ok (generation_tps t) ∧ f64_is_finite (prompt_ms t) = true ∧
  f64_is_finite (generation_ms t) = true ∧ finite_opt (queue_ms t) ∧ finite_opt (mean_itl_ms t).

Lemma extract_timings_ok response u t : timing_ok t → timing_ok (extract_timings response u t).2.
Proof.
  intros (H1 & H2 & H3 & H4 & H5 & H6). unfold extract_timings.
  destruct (get response (lit "timings")) as [timings|]; simpl.
  - split_and!; simpl; auto using rate_ok_bind, finite_default.
  - unfold extract_vllm_usage. destruct (get response (lit "metrics")) as [[]|]; try by split_and!.
    all: split_and!; simpl; auto using vllm_field_finite, finite_default_opt; repeat case_match; auto using finite_rate_opt_ok.
Qed.

(** C39: Whatever a backend answers, no infinity or NaN is in the sample, and a rate
    that is there is above zero: an absent measurement never reads as a
    measured zero. *)
Theorem sample_wire_safe id now response request streaming duration :
  f64_is_finite duration = true → wire_safe (from_response id now response request streaming duration).
Proof.
  intros Hd. unfold from_response.
  pose proof (extract_timings_ok response (extract_usage response usage_new) timing_new) as Ht.
  destruct (extract_timings _ _ _) as [u t]. destruct Ht as (? & ? & ? & ? & ? & ?); [by repeat split|].
  split; simpl; auto; case_match; auto using finite_rate_finite.
Qed.

(** ** Counts *)
Definition u64 (n : Z) : Prop := (0 ≤ n ≤ u64_max)%Z.
Definition u64_opt (o : option Z) : Prop := ∀ n, o = Some n → u64 n.

Record usage_ok (u : Usage) : Prop := {
  uo_prompt : u64_opt (prompt_tokens u);
  uo_completion : u64_opt (completion_tokens u);
  uo_total : u64 (total_tokens u);
  uo_cached : u64_opt (cached_tokens u);
  uo_created : u64_opt (cache_creation_tokens u);
  uo_context : u64_opt (context_used u);
  uo_reasoning : u64_opt (reasoning_tokens u);
  uo_accepted : u64_opt (accepted_prediction_tokens u);
  uo_rejected : u64_opt (rejected_prediction_tokens u);
}.

Lemma as_u64_ok v : u64_opt (as_u64 v).
Proof.
  intros n. destruct v as [| |[z|]| | |]; simpl; try done.
  destruct ((0 <=? z) && (z <? 2 ^ 64))%Z eqn:E; [|done]. intros [= <-].
  apply andb_true_iff in E as [H1%Z.leb_le H2%Z.ltb_lt]. unfold u64, u64_max. lia.
Qed.

Lemma bind_u64_ok (o : option Value) : u64_opt (o ≫= as_u64).
Proof. destruct o; [apply as_u64_ok|done]. Qed.
Lemma get_u64_ok v k : u64_opt (get_u64 v k).
Proof. apply bind_u64_ok. Qed.
Lemma saturating_add_ok a b : u64 a → u64 b → u64 (saturating_add a b).
Proof. unfold u64, saturating_add, u64_max. lia. Qed.
Lemma default_u64_ok o : u64_opt o → u64 (default 0%Z o).
Proof. destruct o as [z|]; simpl; [by auto|]. intros _. unfold u64, u64_max. lia. Qed.
Lemma some_u64_ok n : u64 n → u64_opt (Some n).
Proof. by intros ? ? [= <-]. Qed.
Lemma none_u64_ok : u64_opt None.
Proof. done. Qed.

Lemma or_u64_ok o c : u64_opt o → u64_opt c → u64_opt match o with Some n => Some n | None => c end.
Proof. by destruct o. Qed.

#[local] Hint Resolve get_u64_ok saturating_add_ok default_u64_ok some_u64_ok none_u64_ok or_u64_ok : u64.

Lemma extract_usage_ok response u : usage_ok u → usage_ok (extract_usage response u).
Proof.
  intros Hu. unfold extract_usage. destruct (get response (lit "usage")) as [usage|]; [|done].
  assert (usage_ok (extract_counts usage u)) as Hc.
  { unfold extract_counts. pose proof (get_u64_ok usage (lit "prompt_tokens")) as Hp.
    destruct (get_u64 usage (lit "prompt_tokens")) as [prompt|].
    - split; simpl; try (by apply Hu); auto with u64.
      + pose proof (get_u64_ok usage (lit "total_tokens")) as Ht.
        destruct (get_u64 usage (lit "total_tokens")); simpl; auto with u64.
      + destruct (get usage _); simpl; auto with u64.
    - pose proof (get_u64_ok usage (lit "input_tokens")) as Hi.
      destruct (get_u64 usage (lit "input_tokens")) as [input|]; [|done].
      split; simpl; try (by apply Hu); auto 6 with u64. }
  destruct (get usage (lit "completion_tokens_details")) as [d|]; [|done].
  destruct Hc. split; simpl; auto with u64.
Qed.

(** Every count in a sample is a [u64]: sums saturate and what is out of range
    counts as not reported. *)
Theorem sample_counts_bounded id now response request streaming duration :
  usage_ok (usage (from_response id now response request streaming duration)).
Proof.
  unfold from_response.
  assert (usage_ok (extract_usage response usage_new)) as Hu.
  { apply extract_usage_ok. split; simpl; try done. }
  assert (usage_ok (extract_timings response (extract_usage response usage_new) timing_new).1) as Ht.
  { generalize dependent (extract_usage response usage_new). intros u Hu. unfold extract_timings.
    destruct (get response (lit "timings")) as [timings|]; simpl.
    - destruct Hu. unfold timings_usage. destruct (_ && _); split; simpl; auto 8 with u64.
    - destruct (context_used u) as [c|] eqn:Ec; [done|].
      destruct (positive (prompt_tokens u)) as [p|] eqn:Ep; [|done].
      destruct Hu. split; simpl; try done. apply some_u64_ok.
      unfold positive in Ep. destruct (prompt_tokens u) as [q|]; simpl in Ep; [|done].
      case_match; [|done]. injection Ep as <-. by apply uo_prompt0. }
  by destruct (extract_timings _ _ _) as [u t].
Qed.

(** ** Where a count comes from *)
Definition reported (response : Value) (places : list (str * str)) (n : Z) : Prop :=
  ∃ o k, (o, k) ∈ places ∧ (v ← get response o; get_u64 v k) = Some n.

Definition prompt_places : list (str * str) :=
  [(lit "usage", lit "prompt_tokens"); (lit "usage", lit "input_tokens"); (lit "timings", lit "prompt_n")].
Definition completion_places : list (str * str) :=
  [(lit "usage", lit "completion_tokens"); (lit "usage", lit "output_tokens"); (lit "timings", lit "predicted_n")].

Definition counts_reported (response : Value) (u : Usage) : Prop :=
  (∀ n, prompt_tokens u = Some n → reported response prompt_places n) ∧
  (∀ n, completion_tokens u = Some n → reported response completion_places n).

Lemma extract_usage_reported response : counts_reported response (extract_usage response usage_new).
Proof.
  unfold extract_usage. destruct (get response (lit "usage")) as [usage|] eqn:Eu; [|by split].
  assert (counts_reported response (extract_counts usage usage_new)) as Hc.
  { assert (∀ k, (v ← get response (lit "usage"); get_u64 v k) = get_u64 usage k) as Hk by (intros; by rewrite Eu).
    unfold extract_counts. destruct (get_u64 usage (lit "prompt_tokens")) as [p|] eqn:Ep.
    - split; simpl; intros n Hn.
      + exists (lit "usage"), (lit "prompt_tokens"). split; [by left|]. by rewrite Hk, Ep.
      + exists (lit "usage"), (lit "completion_tokens"). split; [by left|]. by rewrite Hk.
    - destruct (get_u64 usage (lit "input_tokens")) as [i|] eqn:Ei; [|by split].
      split; simpl; intros n Hn.
      + exists (lit "usage"), (lit "input_tokens"). split; [by right; left|]. by rewrite Hk, Ei.
      + exists (lit "usage"), (lit "output_tokens"). split; [by right; left|]. by rewrite Hk. }
  by destruct (get usage (lit "completion_tokens_details")).
Qed.

(** A sample never invents a token count: the prompt and completion counts are
    numbers the backend sent, under one of the three names each has. *)
Theorem counts_are_reported id now response request streaming duration :
  counts_reported response (usage (from_response id now response request streaming duration)).
Proof.
  unfold from_response. pose proof (extract_usage_reported response) as Hu.
  revert Hu. generalize (extract_usage response usage_new). intros u Hu.
  assert (counts_reported response (extract_timings response u timing_new).1) as Ht.
  { unfold extract_timings. destruct (get response (lit "timings")) as [timings|] eqn:Et; simpl.
    - assert (∀ k, (v ← get response (lit "timings"); get_u64 v k) = get_u64 timings k) as Hk by (intros; by rewrite Et).
      unfold timings_usage. destruct (_ && _); [|done]. split; simpl; intros n Hn.
      + exists (lit "timings"), (lit "prompt_n"). split; [by right; right; left|]. by rewrite Hk.
      + exists (lit "timings"), (lit "predicted_n"). split; [by right; right; left|]. by rewrite Hk.
    - destruct (context_used u); [done|]. by destruct (positive (prompt_tokens u)). }
  by destruct (extract_timings _ _ _) as [u' t].
Qed.

(** ** The export filter *)

(** A split makes a sample worth exporting; so does a floor on decode speed,
    unless the backend stated a total of zero of its own. *)
Theorem signal_of_split id now response request streaming duration :
  let m := from_response id now response request streaming duration in
  has_timing_split m = true → has_throughput_signal m = true.
Proof.
  unfold from_response. pose proof (extract_timings_ok response (extract_usage response usage_new) timing_new) as Ht.
  destruct (extract_timings _ _ _) as [u t]. destruct Ht as (Hp & Hg & _); [by repeat split|].
  cbn [snd] in Hp, Hg. cbn [has_timing_split]. intros Hs. unfold has_throughput_signal. cbn [timing].
  apply orb_true_iff. apply orb_true_iff in Hs as [Hs|Hs]; [left|right]; try (apply orb_true_iff; right).
  - destruct (prompt_tps t) as [v|]; [|done]. exact (proj2 (Hp v eq_refl)).
  - destruct (generation_tps t) as [v|]; [|done]. exact (proj2 (Hg v eq_refl)).
Qed.

(** The comment in [has_throughput_signal] that a nonzero floor always implies
    counted tokens does not hold for a backend that sends a total of zero. *)
Definition zero_total_body : Value :=
  VObject [kv "usage" (VObject [kv "prompt_tokens" (vnat 0); kv "completion_tokens" (vnat 5); kv "total_tokens" (vnat 0)])].
Lemma floor_without_signal :
  let m := from_response [] 0 zero_total_body (VObject []) false (f64_of_Z 1000) in
  f64_lt f64_zero (decode_tps_min m) = true ∧ has_throughput_signal m = false.
Proof. split; vm_compute; reflexivity. Qed.

(** ** Slots *)
Lemma saturating_sum l t :
  Forall (λ n, 0 ≤ n)%Z l → u64 t → foldl saturating_add t l = Z.min u64_max (t + sum_Z l).
Proof.
  intros Hl. revert t. induction Hl as [|n l Hn Hl IH]; intros t Ht; unfold u64 in *; simpl; [lia|].
  assert (0 ≤ sum_Z l)%Z as Hs by (clear -Hl; induction Hl; simpl; lia).
  rewrite IH by (unfold saturating_add; lia). unfold saturating_add. lia.
Qed.

Lemma get_u64_nonneg v k : (0 ≤ default 0 (get_u64 v k))%Z.
Proof. pose proof (default_u64_ok _ (get_u64_ok v k)) as H. unfold u64 in H. lia. Qed.

(** The contexts of all slots are summed without wrap-around, and no slot is lost. *)
Theorem slots_summed response info :
  from_slots_response response = Some info →
  ∃ l, response = VArray l ∧ slots info = read_slot <$> l ∧
    total_context info = Z.min u64_max (sum_Z (n_ctx <$> slots info)) ∧
    used_context info = Z.min u64_max (sum_Z (n_tokens <$> slots info)).
Proof.
  destruct response as [| | | |l|]; try done. intros [= <-]. exists l. split; [done|].
  assert (∀ i, foldl add_slot i l = mkContextInfo (foldl saturating_add (total_context i) (n_ctx <$> (read_slot <$> l)))
    (foldl saturating_add (used_context i) (n_tokens <$> (read_slot <$> l))) (slots i ++ (read_slot <$> l))) as Hf.
  { induction l as [|v l IH]; intros i; simpl; [rewrite app_nil_r; by destruct i|].
    rewrite IH. simpl. by rewrite <- app_assoc. }
  rewrite Hf. cbn [slots total_context used_context app]. split; [done|].
  assert (∀ f, (∀ v, (0 ≤ f (read_slot v))%Z) → foldl saturating_add 0%Z (f <$> (read_slot <$> l)) =
    Z.min u64_max (sum_Z (f <$> (read_slot <$> l)))) as Hs.
  { intros f Hpos. rewrite saturating_sum; [by rewrite Z.add_0_l| |unfold u64, u64_max; lia].
    by apply Forall_fmap, Forall_fmap, Forall_true. }
  split; apply Hs; intros v; apply get_u64_nonneg.
Qed.
