(* ===== verification/Utf8.v ===== *)
(** * Splitting UTF-8 text into chars: the facts the char-counting code needs *)
From S2P Require Import Prelude.

(** A char group is a byte followed by continuation bytes; [chars] cuts exactly
    before every non-continuation byte. *)
Definition char_group (g : str) : Prop :=
  match g with c :: t => Forall (λ d, is_cont d = true) t | [] => False end.
Definition starts_char (s : str) : Prop :=
  match s with c :: _ => is_cont c = false | [] => True end.
Definition grouped (gs : list str) : Prop :=
  Forall char_group gs ∧ Forall starts_char (tail gs).

Lemma chars_nil_inv s : chars s = [] → s = [].
Proof.
  destruct s as [|c s]; [done|]. simpl. unfold push_byte.
  destruct s, (chars _); try done. by destruct (is_cont _).
Qed.

Lemma chars_cons_cont c d s :
  is_cont d = true →
  ∃ g gs, chars (d :: s) = g :: gs ∧ chars (c :: d :: s) = (c :: g) :: gs.
Proof.
  intros Hd. destruct (chars (d :: s)) as [|g gs] eqn:E; [by apply chars_nil_inv in E|].
  exists g, gs. split; [done|]. change (chars (c :: d :: s)) with (push_byte c (d :: s) (chars (d :: s))).
  rewrite E. simpl. by rewrite Hd.
Qed.

Lemma chars_cons_start c s : starts_char s → chars (c :: s) = [c] :: chars s.
Proof.
  destruct s as [|d s]; [done|]. intros Hd.
  change (chars (c :: d :: s)) with (push_byte c (d :: s) (chars (d :: s))). unfold push_byte.
  destruct (chars (d :: s)); [done|]. by rewrite (Hd : is_cont d = false).
Qed.

(** Cutting before a char start splits the char list. *)
Lemma chars_app a b : starts_char b → chars (a ++ b) = chars a ++ chars b.
Proof.
  intros Hb. induction a as [|c a IH]; [done|].
  destruct a as [|d a].
  - simpl app. by rewrite (chars_cons_start c b Hb).
  - change ((c :: d :: a) ++ b) with (c :: d :: (a ++ b)).
    change ((d :: a) ++ b) with (d :: (a ++ b)) in IH. destruct (is_cont d) eqn:Hd.
    + destruct (chars_cons_cont c d (a ++ b) Hd) as (g & gs & E1 & E2).
      destruct (chars_cons_cont c d a Hd) as (g' & gs' & E1' & E2').
      rewrite E2, E2'. rewrite E1, E1' in IH. simpl in IH |- *. congruence.
    + rewrite (chars_cons_start c (d :: a ++ b) Hd), (chars_cons_start c (d :: a) Hd). by rewrite IH.
Qed.

Lemma chars_group_head c s : ∃ t gs, chars (c :: s) = (c :: t) :: gs.
Proof.
  simpl. unfold push_byte. destruct s, (chars _); eauto. destruct (is_cont _); eauto.
Qed.

Lemma chars_grouped s : grouped (chars s).
Proof.
  induction s as [|c s IH]; [by split|]. destruct s as [|d s].
  { split; simpl; repeat constructor. }
  destruct (is_cont d) eqn:Hd.
  - destruct (chars_cons_cont c d s Hd) as (g & gs & E1 & E2). rewrite E2. rewrite E1 in IH.
    destruct IH as [Hg Ht]. apply Forall_cons in Hg as [Hg Hgs]. split; [|done].
    constructor; [|done]. simpl. destruct (chars_group_head d s) as (t & gs' & E).
    rewrite E1 in E. simplify_eq. by constructor.
  - rewrite chars_cons_start by done. destruct IH as [Hg Ht].
    split; [constructor; [constructor|done]|].
    destruct (chars_group_head d s) as (t & gs & E). rewrite E in *. simpl tail in *. by constructor.
Qed.

Lemma starts_char_concat gs : Forall starts_char gs → starts_char (concat gs).
Proof. induction 1 as [|[|c g] gs Hg _ IH]; simpl in *; done. Qed.

Lemma chars_one g : char_group g → chars g = [g].
Proof.
  destruct g as [|c t]; [done|]. change (char_group (c :: t)) with (Forall (λ d, is_cont d = true) t).
  revert c. induction t as [|d t IH]; intros c Ht; [done|].
  apply Forall_cons in Ht as [Hd Ht]. change (chars (c :: d :: t)) with (push_byte c (d :: t) (chars (d :: t))).
  rewrite (IH d Ht). simpl. by rewrite Hd.
Qed.

(** [chars] inverts concatenation on anything it could have produced. *)
Lemma chars_concat gs : grouped gs → chars (concat gs) = gs.
Proof.
  induction gs as [|g gs IH]; [done|]. intros [Hg Ht]. apply Forall_cons in Hg as [Hg Hgs].
  simpl in *. rewrite chars_app by (by apply starts_char_concat). rewrite chars_one, IH; [done| |done].
  split; [done|]. destruct gs; [done|]. by apply Forall_cons in Ht as [_ ?].
Qed.

Lemma grouped_take n gs : grouped gs → grouped (take n gs).
Proof.
  intros [Hg Ht]. split; [by apply Forall_take|]. destruct gs as [|g gs], n; simpl in *; try done.
  by apply Forall_take.
Qed.

Lemma grouped_drop n gs : grouped gs → grouped (drop n gs).
Proof.
  intros [Hg Ht]. split; [by apply Forall_drop|]. destruct gs as [|g gs]; [by rewrite drop_nil|].
  destruct n; [done|]. simpl in *. apply (Forall_drop _ n) in Ht. destruct (drop n gs); simpl; [done|].
  by apply Forall_cons in Ht as [_ ?].
Qed.

Lemma starts_char_drop n s : n ≠ 0 → starts_char (concat (drop n (chars s))).
Proof.
  intros Hn. destruct (chars_grouped s) as [_ Ht]. apply starts_char_concat.
  destruct n; [done|]. destruct (chars s); [constructor|]. simpl in *. by apply Forall_drop.
Qed.

Lemma chars_take n s : chars (concat (take n (chars s))) = take n (chars s).
Proof. apply chars_concat, grouped_take, chars_grouped. Qed.

Lemma chars_drop n s : chars (concat (drop n (chars s))) = drop n (chars s).
Proof. apply chars_concat, grouped_drop, chars_grouped. Qed.

Lemma length_chars_le s : length (chars s) ≤ length s.
Proof.
  rewrite <- (concat_chars s) at 2. pose proof (chars_nonempty s) as H.
  induction H as [|g gs Hg _ IH]; simpl; [lia|]. rewrite length_app. destruct g; [done|]. simpl. lia.
Qed.

Lemma concat_take_prefix n s : concat (take n (chars s)) `prefix_of` s.
Proof.
  exists (concat (drop n (chars s))). rewrite <- (concat_chars s) at 1.
  by rewrite <- (take_drop n (chars s)) at 1; rewrite concat_app.
Qed.

(** [str::split_whitespace]. *)
Fixpoint split_ws (cur : str) (gs : list str) : list str :=
  match gs with
  | [] => if bool_decide (cur = []) then [] else [cur]
  | g :: gs' =>
      if is_whitespace g then
        if bool_decide (cur = []) then split_ws [] gs' else cur :: split_ws [] gs'
      else split_ws (cur ++ g) gs'
  end.
Definition split_whitespace (s : str) : list str := split_ws [] (chars s).

(** [str::rfind] of an ASCII char. *)
Fixpoint rfind (c : ascii) (s : str) : option nat :=
  match s with
  | [] => None
  | d :: s' => match rfind c s' with Some i => Some (S i) | None => if decide (d = c) then Some 0 else None end
  end.

(** [{:<w}] and [{:>w}] count chars. *)
Definition pad_end (width : nat) (s : str) : str := s ++ replicate (width - length (chars s)) " "%char.
Definition pad_start (width : nat) (s : str) : str := replicate (width - length (chars s)) " "%char ++ s.

(** [String::pop]. *)
Definition pop_char (s : str) : str := concat (removelast (chars s)).

(** ** Words *)
Lemma split_char_clean c p : c ∉ p → split_char c p = [p].
Proof.
  induction p as [|d p IH]; [done|]. intros [Hd Hp]%not_elem_of_cons. simpl.
  rewrite decide_False by congruence. by rewrite IH.
Qed.

Definition word (t : str) : Prop := t ≠ [] ∧ starts_char t ∧ Forall (λ g, is_whitespace g = false) (chars t).

Lemma split_ws_word cur gs rest : Forall (λ g, is_whitespace g = false) gs →
  split_ws cur (gs ++ rest) = split_ws (cur ++ concat gs) rest.
Proof.
  intros H. revert cur. induction H as [|g gs Hg _ IH]; intros cur; cbn; [by rewrite app_nil_r|]. by rewrite Hg, IH, <- app_assoc.
Qed.

Lemma split_whitespace_space s : starts_char s → split_whitespace (" "%char :: s) = split_whitespace s.
Proof. intros Hs. unfold split_whitespace. by rewrite chars_cons_start. Qed.
Lemma split_whitespace_word t : word t → split_whitespace t = [t].
Proof.
  intros (Hne & _ & Hw). unfold split_whitespace. rewrite <- (app_nil_r (chars t)), split_ws_word, concat_chars by done. cbn.
  by rewrite bool_decide_eq_false_2.
Qed.
Lemma split_whitespace_cons t s : word t → starts_char s → split_whitespace (t ++ " "%char :: s) = t :: split_whitespace s.
Proof.
  intros (Hne & _ & Hw) Hs. unfold split_whitespace. rewrite chars_app, split_ws_word, concat_chars, chars_cons_start by done. cbn.
  by rewrite bool_decide_eq_false_2.
Qed.
Lemma split_whitespace_spaces n s : starts_char s → split_whitespace (replicate n " "%char ++ s) = split_whitespace s.
Proof. intros Hs. induction n as [|n IH]; [done|]. cbn [replicate app]. rewrite split_whitespace_space; [done|]. by destruct n. Qed.

Lemma word_app_starts t s : word t → starts_char (t ++ s).
Proof. intros (Hne & Hs & _). by destruct t. Qed.
Lemma join_starts ts : Forall word ts → starts_char (join (lit " ") ts).
Proof. destruct ts as [|t [|t' ts]]; [done|by intros [(_ & Ht & _) _]%Forall_cons|]. intros [Ht _]%Forall_cons. by apply word_app_starts. Qed.

(** Words joined by blanks are read back. *)
Lemma split_whitespace_join ts : Forall word ts → split_whitespace (join (lit " ") ts) = ts.
Proof.
  induction ts as [|t [|t' ts] IH]; [done|intros [Ht _]%Forall_cons; by apply split_whitespace_word|]. intros [Ht Hts]%Forall_cons.
  change (join (lit " ") (t :: t' :: ts)) with (t ++ " "%char :: join (lit " ") (t' :: ts)).
  rewrite split_whitespace_cons, IH by (auto using join_starts). done.
Qed.

(** ** Trimming text of printing ASCII *)
Definition graphic (c : ascii) : bool := ((33 <=? byte_val c) && (byte_val c <? 127))%Z.

Lemma graphic_not_cont c : graphic c = true → is_cont c = false.
Proof. unfold graphic, is_cont. intros H. apply andb_true_iff in H as [_ H]. apply Z.ltb_lt in H.
  apply andb_false_iff. left. apply Z.leb_gt. lia. Qed.

Lemma graphic_head_not_whitespace c t : graphic c = true → is_whitespace (c :: t) = false.
Proof.
  destruct c as [[] [] [] [] [] [] [] []]; intros H; vm_compute in H; try discriminate H;
    destruct t; reflexivity.
Qed.

(** Text between two printing ASCII characters is trimmed already. *)
Lemma trim_graphic c s d :
  graphic c = true → graphic d = true → trim (c :: s ++ [d]) = c :: s ++ [d].
Proof.
  intros Hc Hd. unfold trim. rewrite app_comm_cons.
  rewrite (chars_app _ [d]) by (by apply graphic_not_cont).
  destruct (chars_group_head c s) as (t & gs & E). rewrite E. cbn [app drop_while].
  rewrite graphic_head_not_whitespace by done. rewrite (app_comm_cons gs), <- E.
  change (chars [d]) with [[d]]. rewrite reverse_app, reverse_singleton. cbn [app drop_while].
  rewrite graphic_head_not_whitespace by done.
  change ([d] :: reverse (chars (c :: s))) with ([[d]] ++ reverse (chars (c :: s))).
  rewrite <- (reverse_singleton [d]), <- reverse_app, reverse_involutive, concat_app, concat_chars.
  done.
Qed.

Lemma trim_graphic_all s : Forall (λ c, graphic c = true) s → trim s = s.
Proof.
  destruct s as [|c s]; [done|]. intros [Hc Hs]%Forall_cons.
  destruct s as [|d s' _] using rev_ind.
  - assert (is_whitespace [c] = false) as E by by apply graphic_head_not_whitespace.
    unfold trim. cbn [chars push_byte drop_while]. rewrite E.
    change (reverse [[c]]) with [[c]]. cbn [drop_while]. by rewrite E.
  - apply trim_graphic; [done|]. apply Forall_app in Hs as [_ Hs]. by inversion Hs.
Qed.
