(* ===== verification/UnixPath.v ===== *)
(** * Paths of the standard library

    [std::path::Path] on Unix: a path is its bytes, read as components.  Empty
    parts and dots are skipped, but for a dot that starts a relative path. *)
From S2P Require Import Prelude.
From stdpp Require Import lexico.

Inductive Component :=
  | RootDir
  | CurDir
  | ParentDir
  | Normal (name : str).

#[export] Instance component_eq_dec : EqDecision Component.
Proof. solve_decision. Defined.

Definition part_component (part : str) : option Component :=
  if decide (part = []) then None
  else if decide (part = lit ".") then None
  else if decide (part = lit "..") then Some ParentDir
  else Some (Normal part).

(** [Path::components]. *)
Definition components (p : str) : list Component :=
  match p with
  | "/"%char :: _ => RootDir :: omap part_component (split_char "/"%char p)
  | _ =>
      (if bool_decide (head (split_char "/"%char p) = Some (lit ".")) then [CurDir] else [])
      ++ omap part_component (split_char "/"%char p)
  end.

(** [Path::file_name], of components. *)
Definition file_name_of (cs : list Component) : option str :=
  match last cs with Some (Normal s) => Some s | _ => None end.
Definition file_name (p : str) : option str := file_name_of (components p).

(** The components of [Path::parent]. *)
Definition parent_of (cs : list Component) : option (list Component) :=
  match last cs with Some RootDir | None => None | Some _ => Some (removelast cs) end.
Definition parent (p : str) : option (list Component) := parent_of (components p).

Definition is_absolute (p : str) : bool := match p with "/"%char :: _ => true | _ => false end.

(** [Path::join]. *)
Definition join_paths (dir p : str) : str :=
  if is_absolute p then p
  else if bool_decide (dir = []) || ends_with dir (lit "/") then dir ++ p
  else dir ++ lit "/" ++ p.

(** [Ord for Path]: component by component, a root before a dot before two dots
    before a name, names by their bytes. *)
Definition component_key (c : Component) : list N :=
  match c with RootDir => [0] | CurDir => [1] | ParentDir => [2] | Normal s => 3 :: (N_of_ascii <$> s) end%N.
Definition path_key (p : str) : list (list N) := component_key <$> components p.
Definition path_le (p q : str) : Prop := ¬ lexico (path_key q) (path_key p).
#[export] Instance path_le_dec : RelDecision path_le.
Proof.
  intros p q. unfold path_le.
  destruct (trichotomyT lexico (path_key q) (path_key p)) as [[H|H]|H]; [by right; intros []|left..].
  - rewrite H. apply irreflexivity, _.
  - intros H'. by apply (irreflexivity lexico (path_key q)); etrans.
Defined.

(** ** Lemmas *)
Lemma components_absolute p : is_absolute p = true → head (components p) = Some RootDir.
Proof. destruct p as [|c p]; [done|]. simpl. by destruct c as [[] [] [] [] [] [] [] []]. Qed.

Lemma split_char_cons c a : ∃ w ws, split_char c a = w :: ws.
Proof. destruct a as [|d a]; simpl; [by eexists _, _|]. destruct (decide _); [by eexists _, _|]. destruct (split_char c a); eauto. Qed.

Lemma split_char_app c a b : split_char c (a ++ c :: b) = split_char c a ++ split_char c b.
Proof.
  induction a as [|d a IH]; simpl; [by rewrite decide_True|].
  destruct (decide (d = c)); [by rewrite IH|]. rewrite IH. by destruct (split_char_cons c a) as (w & ws & ->).
Qed.

(** Joining adds the components of the relative path, a leading dot apart. *)
Lemma join_no_parent dir p :
  is_absolute dir = true → ParentDir ∉ components dir → ParentDir ∉ components p →
  ParentDir ∉ components (join_paths dir p) ∧ is_absolute (join_paths dir p) = true.
Proof.
  intros Hd Hnd Hnp. unfold join_paths. destruct (is_absolute p) eqn:Hp; [done|].
  assert (∀ q, is_absolute q = true → ParentDir ∈ components q ↔ ParentDir ∈ omap part_component (split_char "/"%char q)) as Habs.
  { intros [|c q]; [done|]. intros Hq. destruct (decide (c = "/"%char)) as [->|]; [|by destruct c as [[] [] [] [] [] [] [] []]].
    cbn [components]. rewrite elem_of_cons. naive_solver. }
  assert (ParentDir ∉ omap part_component (split_char "/"%char p)) as Hnp'.
  { intros Hin. apply Hnp. destruct p as [|c p]; [by apply elem_of_nil in Hin|].
    unfold components. destruct c as [[] [] [] [] [] [] [] []]; try (by apply elem_of_app; right). done. }
  assert (∀ d, is_absolute (d ++ lit "/" ++ p) = true → ParentDir ∉ omap part_component (split_char "/"%char d) →
    ParentDir ∉ components (d ++ lit "/" ++ p)) as Hjoin.
  { intros d Ha Hn. rewrite Habs by done. change (lit "/" ++ p) with ("/"%char :: p).
    rewrite split_char_app, omap_app, elem_of_app. naive_solver. }
  assert (∀ t, is_absolute (dir ++ t) = true) as Happ by (by destruct dir).
  rewrite Habs in Hnd by done.
  destruct (ends_with dir (lit "/")) eqn:He.
  - rewrite orb_true_r. split; [|apply Happ]. apply ends_with_spec in He as [d ->].
    rewrite <- app_assoc. apply Hjoin; [rewrite app_assoc; apply Happ|].
    change (d ++ lit "/") with (d ++ "/"%char :: []) in Hnd. rewrite split_char_app, omap_app in Hnd.
    by intros Hin; apply Hnd, elem_of_app; left.
  - destruct dir as [|c d]; [done|]. rewrite bool_decide_eq_false_2 by done. simpl orb. cbv iota.
    split; [|done]. by apply Hjoin.
Qed.

(** ** The order *)
#[export] Instance path_le_total : Total path_le.
Proof.
  intros p q. unfold path_le.
  destruct (trichotomyT lexico (path_key p) (path_key q)) as [[H|H]|H].
  - left. intros H'. by apply (irreflexivity lexico (path_key p)); etrans.
  - left. rewrite H. apply irreflexivity, _.
  - right. intros H'. by apply (irreflexivity lexico (path_key p)); etrans.
Qed.

#[export] Instance path_le_trans : Transitive path_le.
Proof.
  intros p q r Hpq Hqr Hrp. unfold path_le in *.
  destruct (trichotomyT lexico (path_key p) (path_key q)) as [[H|H]|H]; [|congruence|done].
  apply Hqr. by etrans.
Qed.

Lemma component_key_inj : Inj (=) (=) component_key.
Proof.
  intros [] []; try done. intros [= E]. f_equal. revert E. apply list_fmap_eq_inj.
  intros a b Hab. rewrite <- (ascii_N_embedding a), <- (ascii_N_embedding b). by rewrite Hab.
Qed.

(** Paths that compare as equal have the same components. *)
Lemma path_le_antisym p q : path_le p q → path_le q p → components p = components q.
Proof.
  unfold path_le. intros Hpq Hqp.
  destruct (trichotomyT lexico (path_key p) (path_key q)) as [[H|H]|H]; [done| |done].
  revert H. unfold path_key. apply list_fmap_eq_inj, component_key_inj.
Qed.
