(* ===== verification/Net.v ===== *)
(** * Addresses and their text (the standard library's [std::net])

    [Ipv4Addr::from_str], [Ipv6Addr::from_str] and [IpAddr::from_str] as the
    proxy uses them: each reads the whole text or refuses it. *)
From S2P Require Import Prelude Numbers.

Inductive IpAddr := V4 (n : Z) | V6 (n : Z).
Record SocketAddr := mkAddr { ip : IpAddr; addr_port : Z }.
#[export] Instance ip_eq_dec : EqDecision IpAddr.
Proof. solve_decision. Defined.
#[export] Instance addr_eq_dec : EqDecision SocketAddr.
Proof. solve_decision. Defined.

Definition is_loopback (a : IpAddr) : bool :=
  match a with V4 n => (n / 2 ^ 24 =? 127)%Z | V6 n => (n =? 1)%Z end.

(** A reader takes a prefix of the text or nothing of it. *)
Abbreviation reader A := (str → option (A * str)).

Definition digit (radix : Z) (c : ascii) : option Z :=
  v ← hex_value c; if (v <? radix)%Z then Some v else None.
Fixpoint digits (radix : Z) (s : str) : list Z * str :=
  match s with
  | [] => ([], [])
  | c :: s' => match digit radix c with Some d => let '(ds, r) := digits radix s' in (d :: ds, r) | None => ([], s) end
  end.

(** All the digits there are: at most [max_digits], below [bound]. *)
Definition read_number (radix : Z) (max_digits : nat) (bound : Z) (zero_prefix : bool) : reader Z := λ s,
  let '(ds, rest) := digits radix s in
  let n := foldl (λ n d, n * radix + d)%Z 0%Z ds in
  if bool_decide (ds = []) || (max_digits <? length ds) || (bound <=? n)%Z then None
  else if negb zero_prefix && bool_decide (head ds = Some 0%Z) && (1 <? length ds) then None
  else Some (n, rest).

Definition after_separator {A} (first : bool) (sep : ascii) (r : reader A) : reader A := λ s,
  if first then r s
  else match s with c :: s' => if decide (c = sep) then r s' else None | [] => None end.

Definition read_octet (first : bool) : reader Z := after_separator first "."%char (read_number 10 3 256 false).
Definition read_ipv4 : reader Z := λ s,
  '(a, s) ← read_octet true s;
  '(b, s) ← read_octet false s;
  '(c, s) ← read_octet false s;
  '(d, s) ← read_octet false s;
  Some (((a * 256 + b) * 256 + c) * 256 + d, s)%Z.

(** Up to [left] groups; an IPv4 address may stand for the last two, and ends
    them. *)
Fixpoint read_groups (left : nat) (first : bool) (s : str) : list Z * bool * str :=
  match left with
  | 0 => ([], false, s)
  | S left' =>
      match (if 1 <=? left' then after_separator first ":"%char read_ipv4 s else None) with
      | Some (v4, rest) => ([v4 / 65536; v4 mod 65536]%Z, true, rest)
      | None =>
          match after_separator first ":"%char (read_number 16 4 65536 true) s with
          | Some (g, rest) => let '(gs, v4, r) := read_groups left' false rest in (g :: gs, v4, r)
          | None => ([], false, s)
          end
      end
  end.

Definition ipv6_of (groups : list Z) : Z := foldl (λ n g, n * 65536 + g)%Z 0%Z groups.
Definition read_ipv6 : reader Z := λ s,
  let '(head, v4, rest) := read_groups 8 true s in
  if length head =? 8 then Some (ipv6_of head, rest)
  else if v4 : bool then None
  else
    match rest with
    | c1 :: c2 :: rest =>
        if decide (c1 = ":"%char ∧ c2 = ":"%char) then
          let '(tail, _, rest) := read_groups (7 - length head) true rest in
          Some (ipv6_of (head ++ replicate (8 - length head - length tail) 0%Z ++ tail), rest)
        else None
    | _ => None
    end.

Definition whole {A} (r : reader A) (s : str) : option A :=
  match r s with Some (a, []) => Some a | _ => None end.
Definition parse_ipv4 : str → option Z := whole read_ipv4.
Definition parse_ipv6 : str → option Z := whole read_ipv6.
(** [IpAddr::from_str]: IPv4 if the text starts with one, else IPv6. *)
Definition parse_ip : str → option IpAddr :=
  whole (λ s, match read_ipv4 s with
              | Some (n, r) => Some (V4 n, r)
              | None => '(n, r) ← read_ipv6 s; Some (V6 n, r)
              end).

Example net_v4 : parse_ip (lit "127.0.0.1") = Some (V4 2130706433). Proof. reflexivity. Qed.
Example net_v6 : parse_ipv6 (lit "::1") = Some 1%Z. Proof. reflexivity. Qed.
Example net_v6_mixed : parse_ipv6 (lit "1::ffff:1.2.3.4") = Some (2 ^ 112 + 65535 * 2 ^ 32 + 16909060)%Z. Proof. reflexivity. Qed.
Example net_refused : parse_ip <$> [lit "01.2.3.4"; lit "1.2.3"; lit "1:2:3:4:5:6:7"; lit "1.2.3.4::"; lit "fe80::1%eth0"] = replicate 5 None.
Proof. reflexivity. Qed.

(** * Facts *)

(** What one of the two parsers reads, [IpAddr::from_str] reads. *)
Lemma parse_ip_literal s :
  is_Some (parse_ip s) ↔ is_Some (parse_ipv4 s) ∨ read_ipv4 s = None ∧ is_Some (parse_ipv6 s).
Proof.
  unfold parse_ip, parse_ipv4, parse_ipv6, whole. destruct (read_ipv4 s) as [[n [|c r]]|] eqn:E4; cbn.
  - split; intros _; [by left; exists n|by exists (V4 n)].
  - split; [intros [? [=]]|]. intros [[? [=]]|[[=] _]].
  - destruct (read_ipv6 s) as [[n [|c r]]|]; cbn; (split; [intros [? [=]]|intros [[? [=]]|[_ [? [=]]]]]); eauto.
Qed.

Lemma read_ipv6_not_v4 s n r : read_ipv4 s = Some (n, r) → read_ipv6 s = None.
Proof. intros E. unfold read_ipv6. cbn [read_groups Nat.leb after_separator]. by rewrite E. Qed.

Lemma parse_ip_either s : is_Some (parse_ip s) ↔ is_Some (parse_ipv4 s) ∨ is_Some (parse_ipv6 s).
Proof.
  rewrite parse_ip_literal. split; [tauto|]. intros [H|H]; [by left|]. destruct (read_ipv4 s) as [[n r]|] eqn:E; [|by right].
  unfold parse_ipv6, whole in H. rewrite (read_ipv6_not_v4 s n r E) in H. by destruct H.
Qed.
