(* ===== verification/HolderState.v ===== *)
(** * The screen's state of the model holder (model-holder/src/ui/state.rs)

    The files a holder works on with the stage each has reached, and what of
    them the screen shows: filter, sorting, scrolling.  A [Duration] is its
    nanoseconds. *)
From S2P Require Import Prelude Numbers Utf8 UnixPath.

Definition BYTES_PER_MB : f64 := f64_of_Z 1048576.

(** [Duration::as_secs_f64]. *)
Definition as_secs_f64 (ns : Z) : f64 :=
  f64_add (f64_of_Z (ns / 1000000000)) (f64_div (f64_of_Z (ns mod 1000000000)) (f64_of_Z 1000000000)).

Inductive FileStage :=
  | Found
  | Mapped
  | Warming (progress speed : f64) (elapsed : Z)
  | Complete (size_mb speed : f64) (elapsed : Z)
  | Locking (speed : f64) (elapsed : Z)
  | Locked (size_mb mmap_speed lock_speed total_speed : f64) (elapsed : Z).

Definition elapsed_of (s : FileStage) : Z :=
  match s with
  | Found | Mapped => 0
  | Warming _ _ e | Complete _ _ e | Locking _ e | Locked _ _ _ _ e => e
  end.

Inductive SortBy := Default | Size | Speed.

Record FileStatus := mkFile {
  f_path : str;
  filename : str;
  size_bytes : Z;
  size_mb : f64;
  stage : FileStage;
  f_warmup_complete : bool;
  process_index : nat;
  mmap_duration : option Z;
  lock_duration : option Z;
  mmap_speed : option f64;
  lock_speed : option f64;
}.

Definition file_new (path : str) (process_index : nat) : FileStatus :=
  mkFile path (default (lit "unknown") (file_name path)) 0 f64_zero Found false process_index None None None None.

Definition set_size (size : Z) (f : FileStatus) : FileStatus :=
  mkFile (f_path f) (filename f) size (f64_div (f64_of_Z size) BYTES_PER_MB) (stage f) (f_warmup_complete f)
    (process_index f) (mmap_duration f) (lock_duration f) (mmap_speed f) (lock_speed f).

(** [f.stage = s]. *)
Definition set_stage (s : FileStage) (f : FileStatus) : FileStatus :=
  mkFile (f_path f) (filename f) (size_bytes f) (size_mb f) s (f_warmup_complete f)
    (process_index f) (mmap_duration f) (lock_duration f) (mmap_speed f) (lock_speed f).

Definition mark_mapped (f : FileStatus) : FileStatus := set_stage Mapped f.
Definition mark_warming (progress speed : f64) (elapsed : Z) (f : FileStatus) : FileStatus :=
  set_stage (Warming progress speed elapsed) f.
Definition mark_complete (speed : f64) (elapsed : Z) (f : FileStatus) : FileStatus :=
  mkFile (f_path f) (filename f) (size_bytes f) (size_mb f) (Complete (size_mb f) speed elapsed) true
    (process_index f) (mmap_duration f) (lock_duration f) (mmap_speed f) (lock_speed f).

Definition current_speed (f : FileStatus) : f64 :=
  match stage f with
  | Warming _ speed _ | Complete _ speed _ | Locking speed _ => speed
  | Locked _ _ _ total_speed _ => total_speed
  | _ => f64_zero
  end.

Definition mark_locking (elapsed : Z) (f : FileStatus) : FileStatus :=
  set_stage (Locking (current_speed f) elapsed) f.

(** MB/s, as far as any time has passed. *)
Definition mb_per_second (bytes : f64) (elapsed : Z) : f64 :=
  if f64_lt f64_zero (as_secs_f64 elapsed) then f64_div (f64_div bytes (as_secs_f64 elapsed)) BYTES_PER_MB else f64_zero.

Definition mark_locked (mmap_sp lock_sp : f64) (elapsed : Z) (f : FileStatus) : FileStatus :=
  mkFile (f_path f) (filename f) (size_bytes f) (size_mb f)
    (Locked (size_mb f) mmap_sp lock_sp (mb_per_second (f64_of_Z (size_bytes f)) elapsed) elapsed)
    (f_warmup_complete f) (process_index f) (mmap_duration f) (lock_duration f) (Some mmap_sp) (Some lock_sp).

Definition is_complete (f : FileStatus) : bool :=
  match stage f with Complete _ _ _ | Locking _ _ | Locked _ _ _ _ _ => true | _ => false end.
Definition is_locked (f : FileStatus) : bool := match stage f with Locked _ _ _ _ _ => true | _ => false end.

(** ** The application *)
Record AppState := mkApp {
  files : list FileStatus;
  total_size_bytes : Z;
  warmup_complete : bool;
  all_locked : bool;
  sort_by : SortBy;
  scroll_offset : nat;
  filter_input : str;
  filter_mode : bool;
  failed_lock_files : list str;
  show_help : bool;
  input_patterns : list str;
}.

Definition app_new : AppState := mkApp [] 0 false false Default 0 [] false [] false [].

Definition with_files (fs : list FileStatus) (a : AppState) : AppState :=
  mkApp fs (total_size_bytes a) (warmup_complete a) (all_locked a) (sort_by a) (scroll_offset a) (filter_input a)
    (filter_mode a) (failed_lock_files a) (show_help a) (input_patterns a).
Definition with_scroll (n : nat) (a : AppState) : AppState :=
  mkApp (files a) (total_size_bytes a) (warmup_complete a) (all_locked a) (sort_by a) n (filter_input a)
    (filter_mode a) (failed_lock_files a) (show_help a) (input_patterns a).
Definition with_sort (s : SortBy) (a : AppState) : AppState :=
  mkApp (files a) (total_size_bytes a) (warmup_complete a) (all_locked a) s (scroll_offset a) (filter_input a)
    (filter_mode a) (failed_lock_files a) (show_help a) (input_patterns a).
Definition with_filter (input : str) (mode : bool) (a : AppState) : AppState :=
  mkApp (files a) (total_size_bytes a) (warmup_complete a) (all_locked a) (sort_by a) (scroll_offset a) input
    mode (failed_lock_files a) (show_help a) (input_patterns a).
Definition with_help (h : bool) (a : AppState) : AppState :=
  mkApp (files a) (total_size_bytes a) (warmup_complete a) (all_locked a) (sort_by a) (scroll_offset a) (filter_input a)
    (filter_mode a) (failed_lock_files a) h (input_patterns a).

Definition add_file (path : str) (a : AppState) : AppState :=
  with_files (files a ++ [set_size 100 (file_new path (length (files a)))]) a.

(** [find_file_mut(path).map(g)]: the first file of that path is changed. *)
Fixpoint update_first {A} (P : A → Prop) `{!∀ x, Decision (P x)} (g : A → A) (l : list A) : list A :=
  match l with
  | [] => []
  | x :: l' => if decide (P x) then g x :: l' else x :: update_first P g l'
  end.
Definition find_file_mut (path : str) (g : FileStatus → FileStatus) (a : AppState) : AppState :=
  with_files (update_first (λ f, f_path f = path) g (files a)) a.

(** A [u64] sum, as a release build adds. *)
Definition sum_u64 (l : list Z) : Z := foldl (λ t n, (t + n) mod u64_modulus)%Z 0%Z l.

Definition update_total_size (a : AppState) : AppState :=
  mkApp (files a) (sum_u64 (size_bytes <$> files a)) (warmup_complete a) (all_locked a) (sort_by a) (scroll_offset a)
    (filter_input a) (filter_mode a) (failed_lock_files a) (show_help a) (input_patterns a).
Definition mark_warmup_complete (a : AppState) : AppState :=
  mkApp (files a) (total_size_bytes a) true (all_locked a) (sort_by a) (scroll_offset a) (filter_input a)
    (filter_mode a) (failed_lock_files a) (show_help a) (input_patterns a).
Definition mark_all_locked (a : AppState) : AppState :=
  mkApp (files a) (total_size_bytes a) (warmup_complete a) true (sort_by a) (scroll_offset a) (filter_input a)
    (filter_mode a) (failed_lock_files a) (show_help a) (input_patterns a).
Definition set_failed (failed : list str) (a : AppState) : AppState :=
  mkApp (files a) (total_size_bytes a) (warmup_complete a) (all_locked a) (sort_by a) (scroll_offset a) (filter_input a)
    (filter_mode a) failed (show_help a) (input_patterns a).
Definition set_input_patterns (patterns : list str) (a : AppState) : AppState :=
  mkApp (files a) (total_size_bytes a) (warmup_complete a) (all_locked a) (sort_by a) (scroll_offset a) (filter_input a)
    (filter_mode a) (failed_lock_files a) (show_help a) patterns.

(** ** The common parent *)
Fixpoint common_prefix {A} `{EqDecision A} (a b : list A) : list A :=
  match a, b with
  | x :: a', y :: b' => if decide (x = y) then x :: common_prefix a' b' else []
  | _, _ => []
  end.
Definition compute_common_parent (a : AppState) : option str :=
  match omap (λ f, parent (f_path f)) (files a) with
  | [] => None
  | first :: rest => file_name_of (foldl common_prefix first rest)
  end.

(** ** What the list shows *)
Definition index_le (a b : FileStatus) : Prop := process_index a ≤ process_index b.
Definition size_le (a b : FileStatus) : Prop := (size_bytes b ≤ size_bytes a)%Z.
(** [partial_cmp(b, a)] is not [Greater]; incomparable counts as equal. *)
Definition speed_le (a b : FileStatus) : Prop := f64_lt (current_speed a) (current_speed b) = false.
#[export] Instance index_le_dec : RelDecision index_le.
Proof. intros a b. unfold index_le. apply _. Defined.
#[export] Instance size_le_dec : RelDecision size_le.
Proof. intros a b. unfold size_le. apply _. Defined.
#[export] Instance speed_le_dec : RelDecision speed_le.
Proof. intros a b. unfold speed_le. apply _. Defined.

Section View.
Context (to_lowercase : str → str).

Definition matches (query : str) (f : FileStatus) : Prop :=
  query = [] ∨ contains_sub (to_lowercase (filename f)) query = true ∨ contains_sub (to_lowercase (f_path f)) query = true.

Definition filtered_files (a : AppState) : list FileStatus :=
  let fs := filter (matches (to_lowercase (filter_input a))) (files a) in
  match sort_by a with
  | Default => merge_sort index_le fs
  | Size => merge_sort size_le fs
  | Speed => merge_sort speed_le fs
  end.
Definition visible_file_count (a : AppState) : nat := length (filtered_files a).

Definition scroll_down (a : AppState) : AppState :=
  if scroll_offset a <? visible_file_count a - 1 then with_scroll (scroll_offset a + 1) a else a.
Definition scroll_up (a : AppState) : AppState :=
  if 0 <? scroll_offset a then with_scroll (scroll_offset a - 1) a else a.
Definition scroll_page_down (page : nat) (a : AppState) : AppState :=
  with_scroll (Nat.min (scroll_offset a + page) (visible_file_count a - 1)) a.
Definition scroll_page_up (page : nat) (a : AppState) : AppState := with_scroll (scroll_offset a - page) a.
End View.
