(* ===== verification/HolderScreen.v ===== *)
(** * The model holder's screen (model-holder/src/ui/terminal.rs)

    The keys, and the frame as text and geometry: every string that is drawn and
    every row and column it goes to.  Colours are not modelled; [usize] and [u16]
    coordinates are [nat], since nothing here leaves their range. *)
From S2P Require Import Prelude Numbers Utf8 UnixPath HolderState.

(** ** Keys *)
Inductive KeyCode :=
  | KEnter | KEsc | KBackspace | KUp | KDown | KPageUp | KPageDown
  | KChar (c : str)                (** a [char], as its encoding *)
  | KOther.
Record KeyEvent := mkKey { code : KeyCode; control : bool }.

#[export] Instance keycode_eq_dec : EqDecision KeyCode.
Proof. solve_decision. Defined.

Definition char_key (c : String.string) : KeyCode := KChar (lit c).
Definition is_ctrl_c (key : KeyEvent) : bool := bool_decide (code key = char_key "c") && control key.

Section Keys.
Context (to_lowercase : str → str).

Definition filter_key (key : KeyEvent) (app : AppState) : AppState :=
  if is_ctrl_c key then with_scroll 0 (with_filter [] false app)
  else match code key with
  | KEnter => with_scroll 0 (with_filter (filter_input app) false app)
  | KEsc => with_filter (filter_input app) false app
  | KBackspace => with_scroll 0 (with_filter (pop_char (filter_input app)) true app)
  | KChar c => with_scroll 0 (with_filter (filter_input app ++ c) true app)
  | _ => app
  end.

Definition help_key (key : KeyEvent) (app : AppState) : AppState :=
  if bool_decide (code key ∈ [char_key "h"; KEsc; char_key "q"]) || is_ctrl_c key then with_help false app else app.

(** The new state, and whether [should_exit] is set. *)
Definition normal_key (key : KeyEvent) (app : AppState) : AppState * bool :=
  if bool_decide (code key ∈ [char_key "q"; KEsc]) || is_ctrl_c key then (app, true)
  else
    (match code key with
     | KDown => scroll_down to_lowercase app
     | KUp => scroll_up app
     | KPageDown => scroll_page_down to_lowercase 10 app
     | KPageUp => scroll_page_up 10 app
     | KChar c =>
         if decide (c = lit "j") then scroll_down to_lowercase app
         else if decide (c = lit "k") then scroll_up app
         else if decide (c = lit " ") then scroll_page_down to_lowercase 10 app
         else if decide (c = lit "s") then with_sort Size app
         else if decide (c = lit "p") then with_sort Speed app
         else if decide (c = lit "d") then with_sort Default app
         else if decide (c = lit "/") then with_filter (filter_input app) true app
         else if decide (c = lit "x") then with_scroll 0 (with_filter [] (filter_mode app) app)
         else if decide (c = lit "h") then with_help true app
         else app
     | _ => app
     end, false).

Definition handle_key (app : AppState) (key : KeyEvent) : AppState * bool :=
  if filter_mode app then (filter_key key app, false)
  else if show_help app then (help_key key app, false)
  else normal_key key app.
End Keys.

(** ** Text that fits *)
Definition truncate_str (s : str) (max_chars : nat) : str :=
  if max_chars <? 2 then []
  else if length (chars s) <=? max_chars - 1 then s
  else concat (take (max_chars - 1) (chars s)) ++ lit "…".

(** The chars from the back that stay within a budget of bytes. *)
Fixpoint tail_within (budget used : nat) (rev_chars : list str) : str :=
  match rev_chars with
  | [] => []
  | g :: gs => if budget <? used + length g then [] else tail_within budget (used + length g) gs ++ g
  end.
Definition tail_to_bytes (s : str) (max_bytes : nat) : str :=
  if length s <=? max_bytes then s
  else if max_bytes <=? length (lit "…") then []
  else lit "…" ++ tail_within (max_bytes - length (lit "…")) 0 (reverse (chars s)).

(** ** Sizes and speeds *)
Definition KB : f64 := f64_of_Z 1024.
Definition MB : f64 := f64_of_Z (1024 * 1024).
Definition GB : f64 := f64_of_Z (1024 * 1024 * 1024).

Definition format_size (bytes : Z) : str :=
  let b := f64_of_Z bytes in
  if f64_le GB b then fmt_f64 2 (f64_div b GB) ++ lit " GB"
  else if f64_le MB b then fmt_f64 2 (f64_div b MB) ++ lit " MB"
  else if f64_le KB b then fmt_f64 2 (f64_div b KB) ++ lit " KB"
  else show_Z bytes ++ lit " B".
Definition format_size_bytes (bytes : Z) : str :=
  let b := f64_of_Z bytes in
  if f64_le GB b then fmt_f64 1 (f64_div b GB) ++ lit "G"
  else if f64_le MB b then fmt_f64 1 (f64_div b MB) ++ lit "M"
  else if f64_le KB b then fmt_f64 1 (f64_div b KB) ++ lit "K"
  else show_Z bytes ++ lit "B".
Definition format_speed (speed : f64) : str :=
  if f64_le (f64_of_Z 1000) speed then fmt_right 6 2 (f64_div speed (f64_of_Z 1000)) ++ lit " GB/s"
  else fmt_right 6 1 speed ++ lit " MB/s".

(** (filled, empty). *)
Definition progress_bar (progress : f64) (width : nat) : nat * nat :=
  let filled := Z.to_nat (Z.min (Z.of_nat width)
    (f64_round_usize (f64_div (f64_mul (f64_of_Z (Z.of_nat width)) progress) (f64_of_Z 100)))) in
  (filled, width - filled).

(** ** The title *)
Definition overall (app : AppState) : str :=
  if all_locked app then lit "● locked"
  else if warmup_complete app && negb (bool_decide (failed_lock_files app = [])) then lit "● partial"
  else if warmup_complete app then lit "● complete"
  else lit "◌ warming…".

Definition pattern_dir (pattern : str) : str :=
  if bool_decide ("*"%char ∈ pattern) then
    let before_star := default pattern (head (split_char "*"%char pattern)) in
    default before_star (file_name (trim_end_matches "/"%char before_star))
  else
    let clean := trim_end_matches "/"%char pattern in
    if ends_with pattern (lit "/") then default clean (file_name clean)
    else default clean (parent clean ≫= file_name_of).

Definition pattern_display (app : AppState) : str :=
  match files app with
  | [] => []
  | [f] => lit " " ++ filename f
  | fs =>
      let dir := match input_patterns app with
                 | [pattern] => pattern_dir pattern
                 | _ => default (show_nat (length fs) ++ lit " files") (compute_common_parent app)
                 end in
      lit " " ++ dir ++ lit "/* (" ++ show_nat (length fs) ++ lit ")"
  end.

Definition TITLE : str := lit " model-holder".
Definition title_text (width : nat) (app : AppState) : str :=
  let right := lit "  " ++ overall app in
  let max_pattern_len := width - (length TITLE + length right + 4) in
  let shown := pattern_display app in
  TITLE ++ (if (max_pattern_len <? length shown) && (10 <? max_pattern_len) then tail_to_bytes shown max_pattern_len else shown) ++ right.

(** ** The summary and the status bar *)
Section Summary.
Context (sum_start : f64).         (** what [Iterator::sum] of an [f64] starts from *)

Definition average (speeds : list f64) (n : nat) : f64 := f64_div (foldl f64_add sum_start speeds) (f64_of_Z (Z.of_nat n)).
Definition summary_text (app : AppState) : str :=
  let fs := files app in
  let n := length fs in
  lit "  " ++ show_nat n ++ lit " files  " ++ format_size (total_size_bytes app) ++ lit "  "
  ++ show_nat (length (filter (λ f, is_complete f = true) fs)) ++ lit "/" ++ show_nat n ++ lit " complete  "
  ++ show_nat (length (filter (λ f, is_locked f = true) fs)) ++ lit " locked"
  ++ (if warmup_complete app && all_locked app && negb (bool_decide (fs = [])) then
        lit "  avg mmap:" ++ fmt_f64 1 (average (omap mmap_speed fs) n)
        ++ lit " lock:" ++ fmt_f64 1 (average (omap lock_speed fs) n) ++ lit " MB/s"
      else [])
  ++ match sort_by app with Default => [] | Size => lit "  sort:size" | Speed => lit "  sort:speed" end
  ++ (if bool_decide (filter_input app = []) then [] else qlit "  filter:'" ++ filter_input app ++ qlit "'").
End Summary.

Definition statusbar (app : AppState) : list str :=
  if filter_mode app then [lit " Filter: "; filter_input app ++ lit "_"; lit "  Enter/Esc close · ^C clear "]
  else
    let failed := length (failed_lock_files app) in
    if 0 <? failed then [lit "  ⚠ " ++ show_nat failed ++ lit " file(s) NOT locked — press h for details"]
    else [lit "  ↑↓/jk scroll   / filter   x clear   s/p sort   h help   q quit & unlock"].

(** ** The list *)
Definition RIGHT_COLS : nat := 69.

Definition make_row (name : str) (name_width : nat) (size progress mmap lock total status : str) : list str :=
  [lit "  " ++ pad_end name_width name; pad_start 7 size; lit "  "; pad_end 12 progress; lit "  "; pad_start 11 mmap;
   lit " "; pad_start 11 lock; lit " "; pad_start 11 total; lit "  "; pad_start 9 status].
Definition header_row (name_width : nat) : list str :=
  make_row (lit "NAME") name_width (lit "SIZE") (lit "PROGRESS") (lit "MMAP") (lit "LOCK") (lit "TOTAL") (lit "STATUS").

Definition times (n : nat) (s : str) : str := concat (replicate n s).
Definition FULL_BAR : str := times 12 (lit "█").

Definition file_row (w : nat) (f : FileStatus) : list str :=
  let name_width := Nat.max 8 (w - (RIGHT_COLS + 2)) in
  let row := make_row (truncate_str (filename f) name_width) name_width (pad_start 7 (format_size_bytes (size_bytes f))) in
  match stage f with
  | Found => row [] [] [] [] (lit " pending ")
  | Mapped => row [] [] [] [] (lit " mapped  ")
  | Warming progress speed _ =>
      let '(filled, empty) := progress_bar progress 12 in
      row (times filled (lit "█") ++ times empty (lit "░")) (format_speed speed) [] [] (fmt_right 5 1 progress ++ lit "%")
  | Complete _ speed _ => row FULL_BAR [] [] (format_speed speed) (lit "done    ")
  | Locking speed _ => row FULL_BAR (format_speed speed) (lit "locking…") [] []
  | Locked _ mmap_speed lock_speed total_speed _ =>
      row FULL_BAR (format_speed mmap_speed) (format_speed lock_speed) (format_speed total_speed) (lit " locked  ")
  end.

(** Per row of the track, whether the thumb covers it. *)
Definition scrollbar (track total visible offset : nat) : list bool :=
  if (total =? 0) || (total <=? visible) || (track =? 0) then []
  else
    let fz n := f64_of_Z (Z.of_nat n) in
    let scaled a b c := Z.to_nat (f64_round_usize (f64_mul (f64_div (fz a) (fz b)) (fz c))) in
    let thumb := Nat.min (Nat.max (scaled visible total track) 1) track in
    let scroll_range := total - visible in
    let track_range := track - thumb in
    let thumb_start := if (scroll_range =? 0) || (track_range =? 0) then 0 else scaled offset scroll_range track_range in
    let thumb_start := Nat.min thumb_start track_range in
    (λ row, (thumb_start <=? row) && (row <? thumb_start + thumb)) <$> seq 0 track.

(** The list area of a frame: the rows from its top, and the scrollbar. *)
Inductive ListArea :=
  | NoFiles (msg : str)
  | FileRows (header : list str) (rows : list (nat * list str)) (bar : list bool).

Definition file_list (to_lowercase : str → str) (width height : nat) (app : AppState) : ListArea :=
  let fs := filtered_files to_lowercase app in
  let start := Nat.min (scroll_offset app) (length fs - 1) in
  let end_ := Nat.min (start + height) (length fs) in
  if bool_decide (fs = []) then
    NoFiles (if bool_decide (filter_input app = []) then lit " No files" else lit " No files match filter")
  else
    let content_width := width - 1 in
    let name_width := Nat.max 8 (content_width - (RIGHT_COLS + 2)) in
    FileRows (header_row name_width)
      (imap (λ row f, (row + 1, file_row content_width f)) (take (height - 1) (slice fs start end_)))
      (if height <? length fs then scrollbar (height - 2) (length fs) height start else []).

(** ** The help *)
Definition NAV_KEYS : str := lit "Keys: ↑↓/jk  / filter  x clear  s/p/d  q quit & unlock".

Definition failed_line (inner_w : nat) (path : str) : str :=
  lit "  " ++ (if inner_w - 2 <? length path then tail_to_bytes path (inner_w - 2) else path).

Definition help_lines (inner_w : nat) (app : AppState) : list str :=
  match failed_lock_files app with
  | [] => [if all_locked app then lit "Every file locked successfully." else lit "Nothing failed to lock."]
  | failed =>
      [show_nat (length failed) ++ lit " file(s) could not be locked in RAM:"; []]
      ++ (failed_line inner_w <$> failed)
      ++ [[]; lit "Fix: " ++ lit "ulimit -l unlimited"; lit "      (add to ~/.bashrc or /etc/security/limits.conf)"]
  end
  ++ [[]; lit "Speed columns (locked files):"; lit "  mmap  = memory-mapped load (cyan)";
      lit "  lock  = page-locking speed (yellow)"; lit "  total = combined speed (green)"; []; NAV_KEYS; [];
      lit "Press h, Esc or ^C to close"].

Record Rect := mkRect { rect_x : nat; rect_y : nat; rect_width : nat; rect_height : nat }.

(** The popup, its title and its lines. *)
Definition help_overlay (area : Rect) (app : AppState) : Rect * str * list str :=
  let box_w := Nat.min 64 (rect_width area - 4) in
  let ls := help_lines (box_w - 2) app in
  let box_h := Nat.min (length ls + 2) (rect_height area - 4) in
  (mkRect (rect_x area + (rect_width area - box_w) / 2) (rect_y area + (rect_height area - box_h) / 2) box_w box_h,
   if bool_decide (failed_lock_files app = []) then lit " Help (h/Esc/^C close) " else lit " Lock Failures (h/Esc/^C close) ", ls).
