(* ===== verification/HolderViews.v ===== *)
(** * What the screen of the model holder shows

    The list is what was asked for, scrolling stays inside it whatever is typed,
    no prompt or help page is a trap, and text is cut to its room on character
    boundaries. *)
From S2P Require Import Prelude Numbers Utf8 UnixPath HolderState HolderScreen.

Section Views.
Context (to_lowercase : str → str).

(** ** The list *)
Definition shown_of (a : AppState) : list FileStatus := filter (matches to_lowercase (to_lowercase (filter_input a))) (files a).

Lemma filtered_files_perm a : filtered_files to_lowercase a ≡ₚ shown_of a.
Proof using Type. unfold filtered_files. destruct (sort_by a); apply merge_sort_Permutation. Qed.
Lemma visible_count a : visible_file_count to_lowercase a = length (shown_of a).
Proof using Type. unfold visible_file_count. by rewrite filtered_files_perm. Qed.

#[local] Instance index_le_total : Total index_le.
Proof using Type. intros x y. unfold index_le. lia. Qed.
#[local] Instance index_le_trans : Transitive index_le.
Proof using Type. intros x y z. unfold index_le. lia. Qed.
#[local] Instance size_le_total : Total size_le.
Proof using Type. intros x y. unfold size_le. lia. Qed.

#[local] Instance speed_le_total : Total speed_le.
Proof using Type.
  intros x y. unfold speed_le. destruct (f64_lt (current_speed x) (current_speed y)) eqn:E; [right|by left].
  by apply f64_lt_asym.
Qed.

(** Files in the order they were added, each once. *)
Definition indexed (a : AppState) : Prop := process_index <$> files a = seq 0 (length (files a)).

Lemma indexed_sorted a : indexed a → StronglySorted index_le (files a).
Proof using Type.
  unfold indexed. generalize 0. induction (files a) as [|f fs IH]; intros n; [constructor|].
  intros [= Hf Hfs]. constructor; [by eapply IH|]. apply Forall_forall. intros g Hg.
  apply (list_elem_of_fmap_2 process_index) in Hg. change (process_index <$> fs = seq (S n) (length fs)) in Hfs. rewrite Hfs in Hg. apply elem_of_seq in Hg. unfold index_le. lia.
Qed.

Lemma StronglySorted_filter {A} (R : A → A → Prop) (P : A → Prop) `{!∀ x, Decision (P x)} l :
  StronglySorted R l → StronglySorted R (filter P l).
Proof using Type.
  induction 1 as [|x l Hl IH Hx]; [constructor|]. rewrite filter_cons. case_decide; [|done].
  constructor; [done|]. apply Forall_forall. intros y [_ Hy]%list_elem_of_filter. rewrite Forall_forall in Hx. auto.
Qed.

(** The list shows each file that matches the filter, and no other, once: in the
    order they are worked on, or sorted by size or by speed, largest first. *)
Theorem filtered_files_right a :
  indexed a →
  filtered_files to_lowercase a ≡ₚ shown_of a ∧
  match sort_by a with
  | Default => filtered_files to_lowercase a = shown_of a
  | Size => Sorted size_le (filtered_files to_lowercase a)
  | Speed => Sorted speed_le (filtered_files to_lowercase a)
  end.
Proof using Type.
  intros Hi. split; [apply filtered_files_perm|]. unfold filtered_files. destruct (sort_by a); [|apply Sorted_merge_sort, _..].
  pose proof (StronglySorted_filter _ (matches to_lowercase (to_lowercase (filter_input a))) _ (indexed_sorted a Hi)) as Hs.
  apply (Sorted_unique_strong index_le); [|apply Sorted_merge_sort, _|by apply StronglySorted_Sorted|apply merge_sort_Permutation].
  intros f g Hf Hg Hfg Hgf. rewrite merge_sort_Permutation in Hf. apply list_elem_of_filter in Hf as [_ Hf].
  apply list_elem_of_filter in Hg as [_ Hg]. apply list_elem_of_lookup in Hf as [i Ei], Hg as [j Ej].
  assert (∀ k h, files a !! k = Some h → process_index h = k) as Hk.
  { intros k h E. pose proof (list_lookup_fmap process_index (files a) k) as Hl. rewrite Hi, E in Hl. simpl in Hl.
    apply lookup_seq in Hl. lia. }
  unfold index_le in *. apply Hk in Ei as Hi', Ej as Hj'. assert (i = j) as -> by lia. congruence.
Qed.

(** ** Scrolling and modes *)
Definition view_ok (a : AppState) : Prop :=
  scroll_offset a ≤ length (shown_of a) - 1 ∧ filter_mode a && show_help a = false.

Lemma view_new : view_ok app_new.
Proof using Type. done. Qed.

Lemma handle_key_view a key : view_ok a → view_ok (handle_key to_lowercase a key).1.
Proof using Type.
  intros [Hs Hm]. destruct a as [fs tot wc al so sc fi fm fl sh ip]. cbn in Hs, Hm.
  unfold handle_key. cbn [filter_mode show_help]. destruct fm.
  { cbn in Hm. subst sh. cbn [fst]. unfold filter_key. destruct (is_ctrl_c key); [by split; cbn; [lia|]|].
    destruct (code key); (split; [cbn; lia|done]) || by split. }
  destruct sh.
  { cbn [fst]. unfold help_key. destruct (_ || _); by split; cbn. }
  unfold normal_key. destruct (_ || _); [by split|]. cbn [fst].
  assert (∀ n, n ≤ length (shown_of (mkApp fs tot wc al so sc fi false fl false ip)) - 1 →
    view_ok (with_scroll n (mkApp fs tot wc al so sc fi false fl false ip))) as Hscroll by by split.
  assert (view_ok (scroll_down to_lowercase (mkApp fs tot wc al so sc fi false fl false ip))) as Hd.
  { unfold scroll_down. rewrite visible_count. case_match eqn:E; [|by split]. apply Nat.ltb_lt in E.
    apply Hscroll. cbn in *. lia. }
  assert (view_ok (scroll_up (mkApp fs tot wc al so sc fi false fl false ip))) as Hu.
  { unfold scroll_up. case_match; [|by split]. apply Hscroll. cbn in *. lia. }
  assert (view_ok (scroll_page_down to_lowercase 10 (mkApp fs tot wc al so sc fi false fl false ip))) as Hpd.
  { unfold scroll_page_down. rewrite visible_count. apply Hscroll. lia. }
  assert (view_ok (scroll_page_up 10 (mkApp fs tot wc al so sc fi false fl false ip))) as Hpu.
  { unfold scroll_page_up. apply Hscroll. cbn in *. lia. }
  destruct (code key); try done; repeat (case_decide; [try done; by split; cbn; auto; lia|]); done.
Qed.

(** No key touches the files or what is said of them. *)
Lemma handle_key_files a key :
  files (handle_key to_lowercase a key).1 = files a ∧ all_locked (handle_key to_lowercase a key).1 = all_locked a.
Proof using Type.
  unfold handle_key, filter_key, help_key, normal_key, scroll_down, scroll_up, scroll_page_down, scroll_page_up.
  repeat case_match; by split.
Qed.

(** Changes of a file's progress move nothing on the screen out of place. *)
Lemma update_first_view (g : FileStatus → FileStatus) (P : FileStatus → Prop) `{!∀ x, Decision (P x)} q fs :
  (∀ f, f_path (g f) = f_path f ∧ filename (g f) = filename f) →
  length (filter (matches to_lowercase q) (update_first P g fs)) = length (filter (matches to_lowercase q) fs).
Proof using Type.
  intros Hg. induction fs as [|f fs IH]; [done|]. cbn [update_first]. case_decide.
  - assert (matches to_lowercase q (g f) ↔ matches to_lowercase q f) as Hm.
    { destruct (Hg f) as [E1 E2]. unfold matches. by rewrite E1, E2. }
    rewrite !filter_cons. do 2 case_decide; naive_solver.
  - rewrite !filter_cons. case_decide; simpl; congruence.
Qed.

Lemma find_file_view p g a : (∀ f, f_path (g f) = f_path f ∧ filename (g f) = filename f) →
  view_ok a → view_ok (find_file_mut p g a).
Proof using Type.
  intros Hg [Hs Hm]. split; [|done]. unfold shown_of, find_file_mut in *. cbn. by rewrite update_first_view.
Qed.

Definition Esc : KeyEvent := mkKey KEsc false.
Definition CtrlC : KeyEvent := mkKey (char_key "c") true.

(** Neither the filter prompt nor the help page holds the user: of two presses
    of Esc, or of Ctrl-C, in a row one quits. *)
Theorem two_presses_quit a key :
  view_ok a → key = Esc ∨ key = CtrlC →
  (handle_key to_lowercase a key).2 || (handle_key to_lowercase (handle_key to_lowercase a key).1 key).2 = true.
Proof using Type.
  intros [_ Hm] Hk. destruct a as [fs tot wc al so sc fi fm fl sh ip]. cbn in Hm.
  destruct fm, sh; try discriminate Hm; destruct Hk as [-> | ->]; reflexivity.
Qed.

(** ** The rows of a frame *)

(** Every row drawn lies below the header and inside the area, in the order of
    the list from the scroll offset on, which is always one of its files. *)
Theorem file_list_right width height a header rows bar :
  view_ok a → file_list to_lowercase width height a = FileRows header rows bar →
  scroll_offset a < length (shown_of a) ∧
  rows.*2 = file_row (width - 1) <$> take (height - 1) (drop (scroll_offset a) (filtered_files to_lowercase a)) ∧
  ∀ y cells, (y, cells) ∈ rows → 1 ≤ y < height.
Proof using Type.
  intros [Hs _] E. unfold file_list in E. case_bool_decide as Hne; [done|]. simplify_eq.
  pose proof (filtered_files_perm a) as Hp. apply Permutation_length in Hp.
  assert (length (filtered_files to_lowercase a) ≠ 0) by by rewrite length_zero_iff_nil.
  split_and!; [lia| |].
  - rewrite (Nat.min_l (scroll_offset a)) by lia. unfold slice.
    rewrite take_take, fmap_imap.
    replace (Nat.min (height - 1) (Nat.min (scroll_offset a + height) (length (filtered_files to_lowercase a)) - scroll_offset a))
      with (Nat.min (height - 1) (length (drop (scroll_offset a) (filtered_files to_lowercase a)))) by (rewrite length_drop; lia).
    rewrite <- take_take, (take_ge (drop _ _)) by done. generalize (take (height - 1) (drop (scroll_offset a) (filtered_files to_lowercase a))) as l.
    intros l. rewrite <- (imap_const (file_row (width - 1))). apply imap_ext. done.
  - intros y cells Hin. apply list_elem_of_lookup in Hin as [i Hi]. rewrite list_lookup_imap in Hi.
    apply fmap_Some in Hi as (f & Hf & [= -> ->]). apply lookup_take_Some in Hf as [_ Hf]. lia.
Qed.
End Views.

(** ** Text *)
Lemma tail_within_spec budget used rev_chars : used ≤ budget →
  ∃ k, tail_within budget used rev_chars = concat (reverse (take k rev_chars)) ∧
    used + length (concat (take k rev_chars)) ≤ budget ∧
    ∀ g, rev_chars !! k = Some g → budget < used + length (concat (take k rev_chars)) + length g.
Proof.
  revert used. induction rev_chars as [|g gs IH]; intros used Hu; [by exists 0; split_and!; [|cbn; lia|]|].
  cbn [tail_within]. destruct (budget <? used + length g) eqn:E.
  - apply Nat.ltb_lt in E. exists 0. split_and!; [done|cbn; lia|]. intros g' [= <-]. cbn. lia.
  - apply Nat.ltb_ge in E. destruct (IH (used + length g) E) as (k & Hk & Hb & Hm). exists (S k). cbn [take concat].
    rewrite reverse_cons, concat_app, Hk. cbn [concat]. rewrite app_nil_r, length_app. split_and!; [done|lia|].
    intros g' Hg'. specialize (Hm g' Hg'). lia.
Qed.

Lemma length_concat_perm {A} (ls ls' : list (list A)) : ls ≡ₚ ls' → length (concat ls) = length (concat ls').
Proof. induction 1; cbn; rewrite ?length_app; lia. Qed.

(** A path cut from the left stays within its bytes, keeps as many whole
    characters as fit, and is left alone when it fits. *)
Theorem tail_to_bytes_right s n :
  length (tail_to_bytes s n) ≤ n ∧
  (length s ≤ n → tail_to_bytes s n = s) ∧
  (3 < n < length s → ∃ a b, chars s = a ++ b ∧ tail_to_bytes s n = lit "…" ++ concat b ∧
     ∀ g, last a = Some g → n < length (lit "…" ++ g ++ concat b)).
Proof.
  unfold tail_to_bytes. destruct (length s <=? n) eqn:E.
  { apply Nat.leb_le in E. split_and!; [done|done|lia]. }
  apply Nat.leb_gt in E. change (length (lit "…")) with 3. destruct (n <=? 3) eqn:E3.
  { apply Nat.leb_le in E3. split_and!; [cbn; lia|lia..]. }
  apply Nat.leb_gt in E3. destruct (tail_within_spec (n - 3) 0 (reverse (chars s))) as (k & -> & Hb & Hm); [lia|].
  assert (length (concat (reverse (take k (reverse (chars s))))) = length (concat (take k (reverse (chars s))))) as Hl.
  { apply length_concat_perm. by rewrite reverse_Permutation. }
  split_and!; [rewrite length_app, Hl; change (length (lit "…")) with 3; lia|lia|]. intros _.
  exists (reverse (drop k (reverse (chars s)))), (reverse (take k (reverse (chars s)))).
  rewrite <- reverse_app, take_drop, reverse_involutive. split_and!; [done|done|]. intros g Hg.
  rewrite last_reverse, head_lookup, lookup_drop, Nat.add_0_r in Hg.
  rewrite !length_app, Hl. change (length (lit "…")) with 3. apply Hm in Hg as Hg'. lia.
Qed.

(** A name cut from the right stays within its characters, and keeps them all
    when they are fewer than its room. *)
Lemma truncate_str_right s n :
  length (chars (truncate_str s n)) ≤ n ∧ (2 ≤ n → length (chars s) < n → truncate_str s n = s).
Proof.
  unfold truncate_str. destruct (n <? 2) eqn:E2; [apply Nat.ltb_lt in E2; split; [cbn; lia|lia]|]. apply Nat.ltb_ge in E2.
  destruct (length (chars s) <=? n - 1) eqn:E; [apply Nat.leb_le in E; split; [lia|done]|].
  apply Nat.leb_gt in E. split; [|lia]. rewrite chars_app by done. rewrite length_app, chars_take, length_take.
  change (length (chars (lit "…"))) with 1. lia.
Qed.

(** The thumb of the scrollbar is a block of at least one row inside its track,
    whatever rounding does. *)
Theorem scrollbar_right track total visible offset bar :
  scrollbar track total visible offset = bar → bar ≠ [] →
  length bar = track ∧ visible < total ∧
  ∃ first rows, 1 ≤ rows ∧ first + rows ≤ track ∧ ∀ i b, bar !! i = Some b → b = bool_decide (first ≤ i < first + rows).
Proof.
  intros <-. unfold scrollbar. destruct (_ || (track =? 0)) eqn:E; [done|]. intros _.
  apply orb_false_iff in E as [[_ Ev]%orb_false_iff Et]. apply Nat.leb_gt in Ev. apply Nat.eqb_neq in Et.
  cbv zeta. set (thumb := Nat.min (Nat.max _ 1) track). set (first := Nat.min _ (track - thumb)).
  split_and!; [by rewrite length_fmap, length_seq|done|]. exists first, thumb.
  assert (1 ≤ thumb ≤ track) by lia. split_and!; [lia|lia|]. intros i b Hi.
  apply list_lookup_fmap_Some in Hi as (j & -> & Hj). apply lookup_seq in Hj as [-> Hj]. rewrite Nat.add_0_l.
  destruct (first <=? i) eqn:E1, (i <? first + thumb) eqn:E2; cbn;
    rewrite ?Nat.leb_le, ?Nat.leb_gt, ?Nat.ltb_lt, ?Nat.ltb_ge in *; symmetry;
    (apply bool_decide_eq_true_2; lia) || (apply bool_decide_eq_false_2; lia).
Qed.
