(* ===== verification/Formatter.v ===== *)
(** * The stats line (llama-proxy/src/stats/formatter.rs)

    The pretty box, the compact line and the JSON record of a sample.  Numbers
    are printed exactly, as the standard library does (round half to even on the
    exact value); the display width of text is the unicode-width crate's, a
    parameter, and so is the rendering of a timestamp. *)
From S2P Require Import Prelude Numbers Config Json Metrics Utf8.

Class Display := {
  char_width : str → option nat;         (** [UnicodeWidthChar::width] *)
  str_width : str → nat;                 (** [UnicodeWidthStr::width] *)
  show_time : Z → str;                   (** [%Y-%m-%d %H:%M:%S UTC] *)
  metrics_json : RequestMetrics → option str;   (** [serde_json::to_string] *)
}.

Section Formatter.
Context `{Display}.

Definition spaces (n : nat) : str := replicate n " "%char.

(** ** Text the proxy did not author *)
Definition MAX_FREE_FORM_CHARS : nat := 64.
Definition MAX_FINISH_CELLS : nat := 24.

(** [char::is_control]: category Cc. *)
Definition is_control (g : str) : bool :=
  match byte_val <$> g with
  | [b] => ((b <? 32) || (b =? 127))%Z
  | [194; b] => ((128 <=? b) && (b <? 160))%Z
  | _ => false
  end%Z.
Definition is_line_separator (g : str) : bool :=
  match byte_val <$> g with
  | [226; 128; b] => ((b =? 168) || (b =? 169))%Z
  | _ => false
  end%Z.

Definition free_char (g : str) : str :=
  if is_control g || is_line_separator g || bool_decide (g = lit "=") then lit " " else g.
Definition free_form (v : str) : str := concat (free_char <$> take MAX_FREE_FORM_CHARS (chars v)).

Definition pad_cells (s : str) (cells : nat) : str :=
  if str_width s <=? cells then s ++ spaces (cells - str_width s) else s.

Fixpoint fit_chars (budget used : nat) (gs : list str) : str :=
  match gs with
  | [] => []
  | g :: gs' =>
      let w := default 0 (char_width g) in
      if budget <? used + w then [] else g ++ fit_chars budget (used + w) gs'
  end.
Definition truncate_to_width (s : str) (max_cells : nat) : str :=
  if str_width s <=? max_cells then s else fit_chars (max_cells - 3) 0 (chars s) ++ lit "...".

(** ** Cells *)
Definition count_cell (count : option Z) : str := match count with Some n => show_Z n | None => lit "n/a" end.
Definition above_zero (v : option f64) : option f64 := r ← v; if f64_lt f64_zero r then Some r else None.

Definition tps_tier (m : RequestMetrics) : nat :=
  match above_zero (generation_tps (timing m)) with
  | Some _ => 1
  | None => if f64_lt f64_zero (decode_tps_min m) then 2 else 3
  end.

Definition rate_group (m : RequestMetrics) : str :=
  match tps_tier m with
  | 1 => lit "pp=" ++ fmt_right 8 3 (f64_div (default f64_zero (prompt_tps (timing m))) f64_thousand)
           ++ lit "k tg=" ++ fmt_right 7 1 (default f64_zero (generation_tps (timing m)))
  | 2 => lit "pp=     n/a tg>=" ++ fmt_right 7 1 (decode_tps_min m)
  | _ => lit "pp=     n/a tg=     n/a"
  end.

Definition count_pair (a b : option Z) : str :=
  pad_left " "%char 6 (count_cell a) ++ lit "/" ++ pad_left " "%char 6 (count_cell b).

Definition stream_badge (m : RequestMetrics) : str :=
  if streaming m then
    match stream_end m with
    | Some e =>
        if bool_decide (e = lit "truncated") then lit "trunc"
        else if bool_decide (e = lit "stalled") then lit "stalled"
        else if bool_decide (e = lit "client_gone") then lit "gone"
        else if bool_decide (e = lit "ok") then lit "ok"
        else if stream_incomplete m then lit "trunc" else lit "ok"
    | None => if stream_incomplete m then lit "trunc" else lit "ok"
    end
  else lit "sync".

Definition finish_cell (m : RequestMetrics) : str :=
  let finish_value := free_form (finish_reason (lengths m)) in
  let t := trim finish_value in
  if bool_decide (t = []) || bool_decide (t = lit "unknown") then lit "n/a"
  else truncate_to_width finish_value MAX_FINISH_CELLS.

Definition dur_value (m : RequestMetrics) : f64 :=
  if f64_is_finite (duration_ms m) then f64_min (duration_ms m) (f64_of_Z 9999999) else S754_nan.

(** ** The compact line *)
Definition compact_head (m : RequestMetrics) : list str :=
  [lit "model=" ++ pad_cells (truncate_to_width (free_form (model m)) 16) 16;
   rate_group m;
   lit "dur=" ++ fmt_right 7 0 (dur_value m) ++ lit "ms";
   lit "ctx=" ++ count_pair (context_used (usage m)) (context_total m);
   lit "tok=" ++ count_pair (prompt_tokens (usage m)) (completion_tokens (usage m));
   lit "stream=" ++ pad_cells (stream_badge m) 7;
   lit "finish=" ++ pad_cells (finish_cell m) 10].

Definition compact_tail (m : RequestMetrics) : list str :=
  match group_name m with Some g => [lit "group=" ++ free_form g] | None => [] end
  ++ (if negb (tps_tier m =? 1) && f64_lt f64_zero (total_tps m)
      then [lit "work=" ++ fmt_f64 2 (total_tps m)] else [])
  ++ match queue_ms (timing m) with
     | Some q => if f64_le (f64_of_Z 1) q then [lit "queue=" ++ fmt_f64 0 q ++ lit "ms"] else []
     | None => []
     end
  ++ match concurrent_requests m with Some c => [lit "concurrent=" ++ show_Z c] | None => [] end
  ++ match positive (cached_tokens (usage m)) with Some c => [lit "cache=" ++ show_Z c] | None => [] end.

Definition format_compact (m : RequestMetrics) : str :=
  trim_end (join (lit " ") (compact_head m) ++ lit " " ++ join (lit " ") (compact_tail m)).

(** ** The pretty box *)
Definition BOX_INNER : nat := 66.
Definition rule (l r : str) : str := l ++ concat (replicate BOX_INNER (lit "─")) ++ r ++ [ascii_of_nat 10].

Definition box_row (content : str) : str :=
  lit "│" ++ content ++ spaces (BOX_INNER - str_width content) ++ lit "│" ++ [ascii_of_nat 10].

(** [" {:<6} "] of an ASCII label; [None]: the subtraction underflows, which panics. *)
Definition labeled_row (label v : str) : str :=
  let head := lit " " ++ label ++ spaces (6 - length label) ++ lit " " in
  box_row (head ++ truncate_to_width v (BOX_INNER - length head)).

Definition opt_row (label : str) (v : option str) : str := match v with Some v => labeled_row label v | None => [] end.

Definition pretty_identity_lines (m : RequestMetrics) : str :=
  labeled_row (lit "Model:") (model m) ++ labeled_row (lit "Time:") (show_time (timestamp m))
  ++ opt_row (lit "Client:") (client_id m) ++ opt_row (lit "Conv:") (conversation_id m).

Definition tps_side (v : option f64) : str :=
  match above_zero v with Some v => fmt_right 6 2 v | None => lit "   n/a" end.
Definition ms_side (v : f64) : str := if f64_lt f64_zero v then fmt_right 7 1 v else lit "    n/a".
Definition floor_side (v : f64) : str := if f64_lt f64_zero v then fmt_right 8 2 v else lit "     n/a".

Definition prefill_row (m : RequestMetrics) : str :=
  box_row (lit "   Prompt Processing: " ++ pad_left " "%char 8 (tps_side (prompt_tps (timing m)))
    ++ lit " tokens/sec (" ++ ms_side (prompt_ms (timing m)) ++ lit "ms)").

Definition pretty_performance_lines (m : RequestMetrics) : str :=
  if tps_tier m =? 1 then
    prefill_row m ++
    box_row (lit "   Generation:        " ++ pad_left " "%char 8 (tps_side (generation_tps (timing m)))
      ++ lit " tokens/sec (" ++ ms_side (generation_ms (timing m)) ++ lit "ms)")
  else
    let prefill_measured := match above_zero (prompt_tps (timing m)) with Some _ => true | None => false end in
    (if prefill_measured then prefill_row m else [])
    ++ box_row (lit "   Decode (floor):    " ++ floor_side (decode_tps_min m) ++ lit " tokens/sec (wall-bounded)")
    ++ box_row (lit "   Work rate:         " ++ fmt_right 8 2 (total_tps m) ++ lit " tokens/sec (all tokens/wall)")
    ++ box_row (if prefill_measured then lit "   (no backend decode rate: prefill measured, floor is a bound)"
                else lit "   (no backend split: decode is a floor, work is cost)").

Definition pretty_tokens_lines (m : RequestMetrics) : str :=
  box_row (lit "   Input: " ++ pad_left " "%char 6 (count_cell (prompt_tokens (usage m)))
    ++ lit " │ Output: " ++ pad_left " "%char 6 (count_cell (completion_tokens (usage m)))
    ++ lit " │ Total: " ++ pad_left " "%char 6 (show_Z (total_tokens (usage m))))
  ++ match reasoning_tokens (usage m) with
     | Some r => box_row (lit "   Reasoning Tokens: " ++ show_Z r)
     | None => []
     end.

Definition context_str (m : RequestMetrics) : str :=
  match context_used (usage m), context_total m, context_percent m with
  | Some used, Some total, Some pct => show_Z used ++ lit "/" ++ show_Z total ++ lit " (" ++ fmt_f64 1 pct ++ lit "%)"
  | Some used, Some total, None => show_Z used ++ lit "/" ++ show_Z total
  | _, _, _ => lit "N/A"
  end.

Definition pretty_badge (m : RequestMetrics) : option str :=
  match stream_end m with
  | Some e =>
      if bool_decide (e = lit "truncated") then Some (lit "TRUNCATED (backend ended without a completion event)")
      else if bool_decide (e = lit "stalled") then Some (lit "STALLED (stream timed out before completion)")
      else if bool_decide (e = lit "client_gone") then None else Some (lit "ok")
  | None => Some (lit "ok")
  end.

Definition pretty_footer_lines (m : RequestMetrics) : str :=
  labeled_row (lit "Context:") (context_str m) ++ labeled_row (lit "Finish:") (finish_reason (lengths m))
  ++ (if streaming m then opt_row (lit "Stream:") (pretty_badge m) else [])
  ++ labeled_row (lit "Duration:") (fmt_f64 1 (duration_ms m) ++ lit "ms")
  ++ opt_row (lit "Concurrent:") (show_Z <$> concurrent_requests m).

Definition format_pretty (m : RequestMetrics) : str :=
  let separator := rule (lit "├") (lit "┤") in
  rule (lit "┌") (lit "┐") ++ box_row (lit " LLM Request Metrics") ++ separator
  ++ pretty_identity_lines m ++ separator ++ box_row (lit " Performance") ++ pretty_performance_lines m
  ++ separator ++ box_row (lit " Tokens") ++ pretty_tokens_lines m ++ separator ++ pretty_footer_lines m
  ++ rule (lit "└") (lit "┘").

Definition format_json (m : RequestMetrics) : str := default (lit "{}") (metrics_json m).

Definition format_metrics (m : RequestMetrics) (format : StatsFormat) : str :=
  match format with
  | Pretty => format_pretty m
  | Json => format_json m
  | Compact => format_compact m
  end.
End Formatter.

(** * Facts *)

(** ** Bytes that can shape a record *)
Definition is_eq_sign (c : ascii) : bool := bool_decide (c = "="%char).
Definition ascii_control (c : ascii) : bool := ((byte_val c <? 32) || (byte_val c =? 127))%Z.
Definition plain (c : ascii) : bool := negb (ascii_control c) && negb (is_eq_sign c).

(** A cell: no control byte, and so many [=]. *)
Definition eq_signs (s : str) : nat := length (filter (λ c, c = "="%char) s).
Definition one_line (s : str) : Prop := Forall (λ c, ascii_control c = false) s.
Definition cell (n : nat) (s : str) : Prop := one_line s ∧ eq_signs s = n.

(** What a Rust string guarantees and the argument needs: an ASCII byte is a
    char of its own. *)
Definition ascii_alone (g : str) : Prop := match g with c :: t => (byte_val c < 128)%Z → t = [] | [] => True end.
Definition text (s : str) : Prop := Forall ascii_alone (chars s).

Lemma plain_spec c : plain c = true → ascii_control c = false ∧ c ≠ "="%char.
Proof.
  unfold plain, is_eq_sign. intros [Hc%negb_true_iff He%negb_true_iff]%andb_true_iff.
  split; [done|]. by apply bool_decide_eq_false in He.
Qed.

Lemma cell_plain s : Forall (λ c, plain c = true) s → cell 0 s.
Proof.
  induction 1 as [|c s Hc _ [IH1 IH2]]; [by split; [constructor|]|]. apply plain_spec in Hc as [Hc He].
  split; [by constructor|]. unfold eq_signs in *. by rewrite filter_cons_False.
Qed.
Lemma cell_inv s : cell 0 s → Forall (λ c, plain c = true) s.
Proof.
  unfold cell, one_line, eq_signs. induction s as [|c s IH]; intros [Hl He]; [constructor|].
  apply Forall_cons in Hl as [Hc Hl]. destruct (decide (c = "="%char)) as [->|Hne]; [by rewrite filter_cons_True in He|].
  rewrite filter_cons_False in He by done. constructor; [|by apply IH].
  unfold plain, is_eq_sign. by rewrite Hc, bool_decide_eq_false_2.
Qed.
Lemma cell_app n k a b : cell n a → cell k b → cell (n + k) (a ++ b).
Proof.
  intros [Ha1 <-] [Hb1 <-]. split; [by apply Forall_app|]. unfold eq_signs. by rewrite filter_app, length_app.
Qed.
Lemma cell_app_r n a b : cell n a → cell 0 b → cell n (a ++ b).
Proof. intros Ha Hb. rewrite <- (Nat.add_0_r n). by apply cell_app. Qed.
Lemma cell_app_l n a b : cell 0 a → cell n b → cell n (a ++ b).
Proof. apply (cell_app 0). Qed.
Lemma cell_lit s : forallb plain s = true → cell 0 s.
Proof. intros H. apply cell_plain, Forall_forall. intros c Hc. by eapply forallb_forall; [|apply list_elem_of_In]. Qed.
Lemma cell_key s : forallb (λ c, negb (ascii_control c)) s = true → cell (eq_signs s) s.
Proof.
  intros H. split; [|done]. apply Forall_forall. intros c Hc. apply negb_true_iff.
  by eapply (proj1 (forallb_forall _ _) H), list_elem_of_In.
Qed.
Lemma cell_nil : cell 0 [].
Proof. by apply cell_lit. Qed.

(** ** Numbers *)
Lemma show_Z_plain z : cell 0 (show_Z z).
Proof.
  apply cell_plain. assert (∀ n, plain (pretty_N_char n) = true) as Hc by (intros n; unfold pretty_N_char; by repeat case_match).
  unfold show_Z, pretty, pretty_Z. destruct z as [|p|p]; [by repeat constructor|..].
  - by apply (show_N_Forall _ (Npos p)).
  - apply (Forall_cons _ "-"%char). split; [done|]. by apply (show_N_Forall _ (Npos p)).
Qed.

Lemma replicate_plain n c : plain c = true → cell 0 (replicate n c).
Proof. intros Hc. by apply cell_plain, Forall_replicate. Qed.

Create HintDb cells.
#[local] Hint Resolve cell_app_r cell_app_l show_Z_plain replicate_plain cell_nil : cells.
#[local] Hint Extern 1 (cell 0 (lit _)) => apply cell_lit; reflexivity : cells.

Lemma pad_left_plain c w s n : plain c = true → cell n s → cell n (pad_left c w s).
Proof. unfold pad_left. auto with cells. Qed.

Lemma show_fixed_plain prec q : cell 0 (show_fixed prec q).
Proof.
  unfold show_fixed. apply cell_app_l; [apply show_Z_plain|]. destruct prec; auto with cells.
  apply cell_app_l; [auto with cells|]. apply pad_left_plain; auto with cells.
Qed.

Lemma fmt_f64_plain prec v : cell 0 (fmt_f64 prec v).
Proof.
  destruct v as [s|s| |s m e]; unfold fmt_f64; [..|by apply cell_lit|];
    (apply cell_app_l; [destruct s; auto with cells|]); first [apply show_fixed_plain|by apply cell_lit].
Qed.

Lemma fmt_right_plain w prec v : cell 0 (fmt_right w prec v).
Proof. apply pad_left_plain; [done|]. apply fmt_f64_plain. Qed.

(** ** Text the proxy did not author *)
Lemma cont_plain d : is_cont d = true → plain d = true.
Proof.
  unfold is_cont, plain, ascii_control, is_eq_sign. intros [H1%Z.leb_le H2%Z.ltb_lt]%andb_true_iff.
  rewrite (proj2 (Z.ltb_ge _ _)), (proj2 (Z.eqb_neq _ _)) by lia. simpl.
  rewrite bool_decide_eq_false_2; [done|]. by intros ->.
Qed.

Lemma is_control_one c : is_control [c] = ascii_control c.
Proof. unfold is_control, ascii_control. simpl. by repeat case_match. Qed.

Lemma free_char_plain g : char_group g → ascii_alone g → cell 0 (free_char g).
Proof.
  intros Hg Ha. unfold free_char. destruct (_ || _) eqn:E; [by apply cell_lit|]. apply cell_plain.
  apply orb_false_iff in E as [[Ec _]%orb_false_iff Ee%bool_decide_eq_false].
  destruct g as [|c t]; [done|]. simpl in Hg, Ha. constructor; [|by eapply Forall_impl; [|apply cont_plain]].
  destruct (Z.ltb_spec (byte_val c) 128) as [Hlt|Hge].
  - rewrite (Ha Hlt) in *. unfold plain, is_eq_sign. rewrite <- is_control_one, Ec.
    by rewrite bool_decide_eq_false_2 by (intros ->; done).
  - unfold plain, ascii_control, is_eq_sign. rewrite (proj2 (Z.ltb_ge _ _)), (proj2 (Z.eqb_neq _ _)) by lia. simpl.
    rewrite bool_decide_eq_false_2; [done|]. by intros ->.
Qed.

Lemma concat_plain l : Forall (cell 0) l → cell 0 (concat l).
Proof. induction 1; simpl; auto with cells. Qed.

Lemma free_form_plain v : text v → cell 0 (free_form v).
Proof.
  intros Hv. apply concat_plain, Forall_fmap, Forall_take. destruct (chars_grouped v) as [Hg _].
  eapply Forall_impl; [apply Forall_and; split; [exact Hg|exact Hv]|]. simpl. intros g [??]. by apply free_char_plain.
Qed.

Lemma prefix_plain a s : a `prefix_of` s → cell 0 s → cell 0 a.
Proof. intros [k ->] H%cell_inv. apply cell_plain. by apply Forall_app in H as [? _]. Qed.

Lemma prefix_app_l {A} (k a b : list A) : a `prefix_of` b → k ++ a `prefix_of` k ++ b.
Proof. intros [c ->]. exists c. by rewrite app_assoc. Qed.

Lemma whitespace_no_eq g : is_whitespace g = true → ("="%char) ∉ g.
Proof.
  intros Hg Hin. pose proof (list_elem_of_fmap_2' byte_val g _ 61%Z Hin eq_refl) as Hb. clear Hin. revert Hb Hg.
  unfold is_whitespace. generalize (byte_val <$> g). intros l Hb Hg.
  repeat case_match; try done;
    repeat (apply elem_of_cons in Hb as [Hb|Hb]; [exfalso; first [discriminate Hb|rewrite <- Hb in *; discriminate|inversion Hb; subst; discriminate]|]);
    by apply elem_of_nil in Hb.
Qed.

Lemma drop_while_split {A} (f : A → bool) l : ∃ pre, l = pre ++ drop_while f l ∧ Forall (λ x, f x = true) pre.
Proof.
  induction l as [|x l (pre & E & Hp)]; [by exists []|]. simpl. destruct (f x) eqn:Ex; [|by exists []].
  exists (x :: pre). split; [by rewrite E at 1|by constructor].
Qed.

Lemma whitespace_marks gs : Forall (λ g, is_whitespace g = true) gs → eq_signs (concat gs) = 0.
Proof.
  induction 1 as [|g gs Hg _ IH]; [done|]. simpl. unfold eq_signs in *. rewrite filter_app, length_app, IH, Nat.add_0_r.
  destruct (filter _ g) as [|x l] eqn:E; [done|].
  assert (x ∈ filter (λ c, c = "="%char) g) as [-> ?]%list_elem_of_filter by (rewrite E; left).
  by apply whitespace_no_eq in Hg.
Qed.

(** Whitespace at the end of a line takes no mark with it. *)
Lemma trim_end_cell n s : cell n s → cell n (trim_end s).
Proof.
  destruct (drop_while_split is_whitespace (reverse (chars s))) as (pre & E & Hp). apply (f_equal reverse) in E.
  rewrite reverse_involutive, reverse_app in E. intros [Hl <-].
  assert (s = trim_end s ++ concat (reverse pre)) as Es by (unfold trim_end; rewrite <- concat_app, <- E; by rewrite concat_chars).
  rewrite Es in Hl. apply Forall_app in Hl as [Hl _]. split; [done|]. rewrite Es at 2.
  unfold eq_signs at 2. rewrite filter_app, length_app. fold (eq_signs (concat (reverse pre))).
  by rewrite whitespace_marks, Nat.add_0_r by by apply Forall_reverse.
Qed.

Section FormatterFacts.
Context `{Display}.

Lemma fit_chars_prefix budget used gs : fit_chars budget used gs `prefix_of` concat gs.
Proof.
  revert used. induction gs as [|g gs IH]; intros used; [apply prefix_nil|]. simpl.
  destruct (_ <? _); [apply prefix_nil|]. apply prefix_app_l, IH.
Qed.

Lemma truncate_plain s w : cell 0 s → cell 0 (truncate_to_width s w).
Proof.
  intros Hs. unfold truncate_to_width. destruct (_ <=? _); [done|]. apply cell_app_l; [|by apply cell_lit].
  eapply prefix_plain; [|exact Hs]. rewrite <- (concat_chars s) at 2. apply fit_chars_prefix.
Qed.

Lemma pad_cells_plain s w : cell 0 s → cell 0 (pad_cells s w).
Proof. intros Hs. unfold pad_cells, spaces. destruct (_ <=? _); auto with cells. Qed.

Lemma join_cells sep ns l : cell 0 sep → Forall2 cell ns l → cell (sum_list ns) (join sep l).
Proof.
  intros Hs. induction 1 as [|n p ns l Hp Hl IH]; [apply cell_nil|].
  destruct l as [|q l]; [by inversion Hl; subst; simpl; rewrite Nat.add_0_r|].
  change (join sep (p :: q :: l)) with (p ++ sep ++ join sep (q :: l)). simpl sum_list.
  apply cell_app; [done|]. by apply cell_app_l.
Qed.

Lemma keyed_cell k s : forallb (λ c, negb (ascii_control c)) k = true → eq_signs k = 1 → cell 0 s → cell 1 (k ++ s).
Proof. intros Hk <- Hs. apply cell_app_r; [by apply cell_key|done]. Qed.

Lemma count_cell_plain o : cell 0 (count_cell o).
Proof. destruct o; simpl; auto with cells. Qed.
Lemma count_pair_plain a b : cell 0 (count_pair a b).
Proof. unfold count_pair. repeat apply cell_app_l; auto using pad_left_plain, count_cell_plain with cells. Qed.
Lemma stream_badge_plain m : cell 0 (stream_badge m).
Proof. unfold stream_badge. by repeat case_match; apply cell_lit. Qed.

Lemma finish_cell_plain m : text (finish_reason (lengths m)) → cell 0 (finish_cell m).
Proof. intros Ht. unfold finish_cell. destruct (_ || _); [by apply cell_lit|]. by apply truncate_plain, free_form_plain. Qed.

Lemma rate_group_cells m : cell 2 (rate_group m).
Proof.
  unfold rate_group.
  assert (∀ a b : str, cell 0 a → cell 0 b → cell 2 (lit "pp=" ++ a ++ lit "k tg=" ++ b)) as H1.
  { intros a b Ha Hb. apply (cell_app 1 1); [by apply cell_key|]. apply cell_app_l; [done|]. by apply keyed_cell. }
  destruct (tps_tier m) as [|[|[|?]]]; try by (apply cell_key).
  - apply H1; apply fmt_right_plain.
  - apply cell_app_r; [by apply cell_key|]. apply fmt_right_plain.
Qed.

Lemma compact_head_cells m :
  text (model m) → text (finish_reason (lengths m)) → Forall2 cell [1; 2; 1; 1; 1; 1; 1] (compact_head m).
Proof.
  intros Hm Hf. unfold compact_head.
  apply Forall2_cons; split; [|apply Forall2_cons; split; [apply rate_group_cells|]].
  { by apply keyed_cell, pad_cells_plain, truncate_plain, free_form_plain. }
  repeat (apply Forall2_cons; split; [apply keyed_cell; [done..|]|]); [..|apply Forall2_nil_2].
  - apply cell_app_l; [apply fmt_right_plain|by apply cell_lit].
  - apply count_pair_plain.
  - apply count_pair_plain.
  - apply pad_cells_plain, stream_badge_plain.
  - by apply pad_cells_plain, finish_cell_plain.
Qed.

Lemma compact_tail_cells m :
  (∀ g, group_name m = Some g → text g) → Forall (cell 1) (compact_tail m) ∧ length (compact_tail m) ≤ 5.
Proof.
  intros Hg. unfold compact_tail.
  assert (∀ a b : list str, Forall (cell 1) a ∧ length a ≤ 1 → ∀ n, Forall (cell 1) b ∧ length b ≤ n →
    Forall (cell 1) (a ++ b) ∧ length (a ++ b) ≤ S n) as Happ.
  { intros a b [??] n [??]. rewrite length_app. split; [by apply Forall_app|lia]. }
  assert (∀ k s, forallb (λ c, negb (ascii_control c)) k = true → eq_signs k = 1 → cell 0 s →
    Forall (cell 1) [k ++ s] ∧ length [k ++ s] ≤ 1) as Hone.
  { intros k s ???. split; [|done]. constructor; [by apply keyed_cell|done]. }
  assert (Forall (cell 1) [] ∧ length (@nil str) ≤ 1) as Hnil by (split; [constructor|simpl; lia]).
  repeat apply Happ; repeat case_match; auto; apply Hone; auto using free_form_plain, fmt_f64_plain with cells.
Qed.

(** Whatever model name, finish reason or group name a sample carries, its
    compact line is one line of printable bytes with exactly one [=] per column
    the proxy itself wrote: eight in the head and one for each cell of the tail.
    So no text from outside can open a second record or pose as a column. *)
Theorem compact_unforgeable m :
  text (model m) → text (finish_reason (lengths m)) → (∀ g, group_name m = Some g → text g) →
  one_line (format_compact m) ∧ eq_signs (format_compact m) = 8 + length (compact_tail m) ∧
  length (compact_tail m) ≤ 5.
Proof.
  intros Hm Hf Hg. destruct (compact_tail_cells m Hg) as [Ht Hlen].
  assert (Forall2 cell (replicate (length (compact_tail m)) 1) (compact_tail m)) as Ht2 by (clear Hlen; induction Ht; simpl; by constructor).
  assert (cell (8 + length (compact_tail m)) (format_compact m)) as []; [|done].
  apply trim_end_cell, (cell_app 8); [by apply (join_cells (lit " ") [1; 2; 1; 1; 1; 1; 1]); [apply cell_lit|apply compact_head_cells]|].
  apply cell_app_l; [by apply cell_lit|].
  rewrite <- (Nat.mul_1_r (length _)), <- sum_list_replicate. apply join_cells; [by apply cell_lit|done].
Qed.
End FormatterFacts.
