(* ===== verification/Export.v ===== *)
(** * Exporting metrics (llama-proxy/src/exporters)

    The export gate and its canary (mod.rs), the point a sample becomes on the
    wire (influxdb.rs), and the bounded queue with its one writer thread
    (influxdb/worker.rs) as a machine: the thread's next access is a function
    of its state, the requests' calls come in between. *)
From S2P Require Import Prelude Numbers Json Metrics.

(** ** The gate *)
Definition WARN_SAMPLE_INTERVAL : Z := 100.
Definition warns_at (occurrence : Z) : bool := (occurrence =? 1)%Z || (occurrence mod WARN_SAMPLE_INTERVAL =? 0)%Z.

(** [EXPORTS_SKIPPED_TOTAL] and [PREFILL_IMPLAUSIBLE_TOTAL]; the lines logged
    are a stats line, a canary warning, a skip warning. *)
Record GateState := mkGate { exports_skipped : Z; prefill_implausible : Z }.
Inductive GateLog := StatsLine | CanaryWarning (hits : Z) | SkipWarning (skipped : Z).

Definition implausible (m : RequestMetrics) (threshold : f64) : bool :=
  f64_lt f64_zero threshold && match prompt_tps (timing m) with Some v => f64_lt threshold v | None => false end.

Definition log_sample_and_should_export (m : RequestMetrics) (max_plausible_prefill_tps : f64) (g : GateState)
    : bool * list GateLog * GateState :=
  if has_throughput_signal m then
    if implausible m max_plausible_prefill_tps then
      let hits := (prefill_implausible g + 1)%Z in
      (true, StatsLine :: (if warns_at hits then [CanaryWarning hits] else []), mkGate (exports_skipped g) hits)
    else (true, [StatsLine], g)
  else
    let skipped := (exports_skipped g + 1)%Z in
    (false, if warns_at skipped then [SkipWarning skipped] else [], mkGate skipped (prefill_implausible g)).

(** ** The point *)
Definition tag_unsafe (c : ascii) : bool :=
  ((byte_val c <? 32) || (byte_val c =? 127))%Z ||
  bool_decide (c = ","%char) || bool_decide (c = "="%char) || bool_decide (c = " "%char).

(** Characters that are replaced are ASCII, so the bytes are mapped. *)
Definition tag_value (raw : str) : str := (λ c, if tag_unsafe c then "_"%char else c) <$> raw.

(** The same with what it counts: the process-wide total of rewritten values
    and whether this call warns.  Each total is one [fetch_add]'s, so the order
    of concurrent calls is the order of their totals. *)
Definition TAG_SANITIZE_WARN_INTERVAL : Z := 100.
Definition tag_value_counted (total : Z) (raw : str) : str * Z * bool :=
  if negb (existsb tag_unsafe raw) then (raw, total, false)
  else
    let sanitized := tag_value raw in
    let total := (total + 1)%Z in
    (sanitized, total, (total =? 1)%Z || (total mod TAG_SANITIZE_WARN_INTERVAL =? 0)%Z).
Fixpoint tag_values_counted (total : Z) (raws : list str) : list str * Z * nat :=
  match raws with
  | [] => ([], total, 0)
  | raw :: raws =>
      let '(v, total, warns) := tag_value_counted total raw in
      let '(vs, total, warned) := tag_values_counted total raws in
      (v :: vs, total, (if warns then 1 else 0) + warned)
  end.

Inductive FieldValue := FFloat (v : f64) | FBool (b : bool).
Record DataPoint := mkPoint {
  measurement : str;
  tags : list (str * str);
  fields : list (str * FieldValue);
  point_timestamp : Z;
}.

Definition field_u64 (k : String.string) (o : option Z) : list (str * FieldValue) :=
  match o with Some n => [(lit k, FFloat (f64_of_Z n))] | None => [] end.
Definition field_f64 (k : String.string) (o : option f64) : list (str * FieldValue) :=
  match o with Some v => [(lit k, FFloat v)] | None => [] end.
Definition tag_opt (k : String.string) (o : option str) : list (str * str) :=
  match o with Some v => [(lit k, tag_value v)] | None => [] end.
Arguments field_u64 k%_string o.
Arguments field_f64 k%_string o.
Arguments tag_opt k%_string o.

(** [timestamp_nanos_opt]: the nanoseconds must fit an [i64]. *)
Definition timestamp_nanos (t : Z) : option Z :=
  if ((- 2 ^ 63 <=? t) && (t <? 2 ^ 63))%Z then Some t else None.

Definition build_data_point (m : RequestMetrics) : option DataPoint :=
  ts_nanos ← timestamp_nanos (timestamp m);
  let u := usage m in
  Some (mkPoint (lit "llama_request")
    ([(lit "model", tag_value (model m));
      (lit "streaming", if streaming m then lit "true" else lit "false");
      (lit "finish_reason", tag_value (finish_reason (lengths m)));
      (lit "stream_end", stream_end_label m)]
     ++ tag_opt "client_id" (client_id m) ++ tag_opt "conversation_id" (conversation_id m)
     ++ tag_opt "group_name" (group_name m))
    ([(lit "total_tokens", FFloat (f64_of_Z (total_tokens u)));
      (lit "total_tps", FFloat (total_tps m));
      (lit "decode_tps_min", FFloat (decode_tps_min m));
      (lit "has_timing_split", FBool (has_timing_split m));
      (lit "prompt_ms", FFloat (prompt_ms (timing m)));
      (lit "generation_ms", FFloat (generation_ms (timing m)));
      (lit "duration_ms", FFloat (duration_ms m));
      (lit "stream_incomplete", FBool (stream_incomplete m));
      (lit "input_len", FFloat (f64_of_Z (input_len (lengths m))));
      (lit "output_len", FFloat (f64_of_Z (output_len (lengths m))))]
     ++ field_u64 "prompt_tokens" (prompt_tokens u) ++ field_u64 "completion_tokens" (completion_tokens u)
     ++ field_f64 "prompt_tps" (prompt_tps (timing m)) ++ field_f64 "generation_tps" (generation_tps (timing m))
     ++ field_u64 "cached_tokens" (cached_tokens u) ++ field_u64 "cache_creation_tokens" (cache_creation_tokens u)
     ++ field_u64 "reasoning_tokens" (reasoning_tokens u)
     ++ field_u64 "accepted_prediction_tokens" (accepted_prediction_tokens u)
     ++ field_u64 "rejected_prediction_tokens" (rejected_prediction_tokens u)
     ++ field_u64 "context_used" (context_used u) ++ field_u64 "context_total" (context_total m)
     ++ field_f64 "context_percent" (context_percent m))
    ts_nanos).

(** ** The queue and its writer thread *)
Definition CAPACITY : nat := 1024.
(** [RETRY_DELAYS_MS] has three entries: four attempts. *)
Definition RETRY_DELAYS_MS : list Z := [100; 500; 2000]%Z.

Section Worker.
(** The builder of the client library may still refuse a point. *)
Context (point_refused : DataPoint → bool).

(** Where a drain was called from, and where a write returns to. *)
Inductive DrainFrom := Ping | Exit.
Inductive Caller := MainLoop | Draining (from : DrainFrom).

Inductive Pc :=
  | Top                                                    (** [drains.try_recv()] *)
  | PollMain                                               (** [poll_samples] of the main loop *)
  | DrainQueue (from : DrainFrom)                          (** [poll_samples] of [drain_queue] *)
  | Writing (s : RequestMetrics) (attempt : nat) (back : Caller)
  | Acking (back : Caller)                                 (** [ack_waiters] after an empty poll *)
  | LastAck
  | Done.

Record Writer := mkWriter {
  queue : list RequestMetrics;
  closed : bool;                   (** [samples_tx] taken *)
  drains_closed : bool;            (** the whole [WriterQueue] dropped *)
  pings : nat;
  waiters : list nat;              (** tickets in the shared list *)
  living : list nat;               (** tickets whose flush still waits *)
  answered : list nat;
  pc : Pc;
  retries : Z;
  dropped : Z;
  accepted : list RequestMetrics;                   (** history: what [enqueue] said [Queued] to *)
  finished : list (RequestMetrics * bool);          (** history: samples done with, delivered or not *)
}.

Definition spawned : Writer := mkWriter [] false false 0 [] [] [] Top 0 0 [] [].

Inductive SendOutcome := Queued | Dropped | ShutDown.

Definition enqueue (s : RequestMetrics) (w : Writer) : SendOutcome * Writer :=
  let '(mkWriter q cl dc p ws lv an pc re dr acc fin) := w in
  if cl || match pc with Done => true | _ => false end then (ShutDown, w)
  else if CAPACITY <=? length q then (Dropped, mkWriter q cl dc p ws lv an pc re (dr + 1) acc fin)
  else (Queued, mkWriter (q ++ [s]) cl dc p ws lv an pc re dr (acc ++ [s]) fin).

(** [flush]: register a ticket, then ping; the two are separate accesses. *)
Definition register (id : nat) (w : Writer) : Writer :=
  let '(mkWriter q cl dc p ws lv an pc re dr acc fin) := w in
  mkWriter q cl dc p (ws ++ [id]) (lv ++ [id]) an pc re dr acc fin.
Definition ping (w : Writer) : Writer :=
  let '(mkWriter q cl dc p ws lv an pc re dr acc fin) := w in
  match pc with
  | Done => w
  | _ => mkWriter q cl dc (S p) ws lv an pc re dr acc fin
  end.
(** The flush returns, answered or after its timeout: its receiver is gone. *)
Definition leave (id : nat) (w : Writer) : Writer :=
  let '(mkWriter q cl dc p ws lv an pc re dr acc fin) := w in
  mkWriter q cl dc p ws (filter (λ t, t ≠ id) lv) an pc re dr acc fin.

(** [shutdown_after] and [Drop] take the sample sender; dropping the queue also
    drops the drain sender. *)
Definition close (w : Writer) : Writer :=
  let '(mkWriter q cl dc p ws lv an pc re dr acc fin) := w in
  mkWriter q true dc p ws lv an pc re dr acc fin.
Definition drop_queue (w : Writer) : Writer :=
  let '(mkWriter q cl dc p ws lv an pc re dr acc fin) := w in
  mkWriter q true true p ws lv an pc re dr acc fin.

Definition return_to (back : Caller) : Pc :=
  match back with MainLoop => Top | Draining from => DrainQueue from end.

(** What the library makes of a sample. *)
Definition writable (s : RequestMetrics) : bool :=
  match build_data_point s with Some p => negb (point_refused p) | None => false end.

(** The next access of the thread; [ok] is how a write attempt ends. *)
Definition worker_step (ok : bool) (w : Writer) : option Writer :=
  let '(mkWriter q cl dc p ws lv an pc re dr acc fin) := w in
  match pc with
  | Top =>
      Some match p with
           | S p' => mkWriter q cl dc p' ws lv an (DrainQueue Ping) re dr acc fin
           | 0 => mkWriter q cl dc 0 ws lv an (if dc then DrainQueue Exit else PollMain) re dr acc fin
           end
  | PollMain =>
      Some match q with
           | s :: q' => mkWriter q' cl dc p ws lv an (Writing s 0 MainLoop) re dr acc fin
           | [] => mkWriter [] cl dc p ws lv an (if cl then DrainQueue Exit else Acking MainLoop) re dr acc fin
           end
  | DrainQueue from =>
      Some match q with
           | s :: q' => mkWriter q' cl dc p ws lv an (Writing s 0 (Draining from)) re dr acc fin
           | [] => mkWriter [] cl dc p ws lv an
                     (if cl then match from with Ping => Top | Exit => LastAck end else Acking (Draining from))
                     re dr acc fin
           end
  | Writing s attempt back =>
      Some (if negb (writable s) then
              mkWriter q cl dc p ws lv an (return_to back) re (dr + 1) acc (fin ++ [(s, false)])
            else if ok then mkWriter q cl dc p ws lv an (return_to back) re dr acc (fin ++ [(s, true)])
            else if attempt <? length RETRY_DELAYS_MS then
              mkWriter q cl dc p ws lv an (Writing s (S attempt) back) (re + 1) dr acc fin
            else mkWriter q cl dc p ws lv an (return_to back) re (dr + 1) acc (fin ++ [(s, false)]))
  | Acking back =>
      let alive := filter (λ t, t ∈ lv) ws in
      Some (mkWriter q cl dc p alive lv (an ++ alive)
              match back with MainLoop | Draining Ping => Top | Draining Exit => LastAck end re dr acc fin)
  | LastAck =>
      let alive := filter (λ t, t ∈ lv) ws in
      Some (mkWriter q cl dc p alive lv (an ++ alive) Done re dr acc fin)
  | Done => None
  end.

(** Any client call and any access of the thread. *)
Inductive writer_step : Writer → Writer → Prop :=
  | ws_worker ok w w' : worker_step ok w = Some w' → writer_step w w'
  | ws_enqueue s w : writer_step w (enqueue s w).2
  | ws_register id w : writer_step w (register id w)
  | ws_ping w : writer_step w (ping w)
  | ws_leave id w : writer_step w (leave id w)
  | ws_close w : writer_step w (close w)
  | ws_drop w : writer_step w (drop_queue w).
End Worker.

(** ** The exporter (influxdb.rs) *)
Definition influx_export (m : RequestMetrics) (w : Writer) : result str unit * Writer :=
  match enqueue m w with
  | (ShutDown, w) => (Err (lit "exporter shut down"), w)
  | (Queued, w) | (Dropped, w) => (Ok (), w)
  end.

(** ** The manager *)
Record Exporter := mkExporter { exporter_name : str; exporter_accepts : RequestMetrics → result str unit }.

(** [export_all]: every exporter gets the sample, whatever the others answer. *)
Definition export_all (exporters : list Exporter) (m : RequestMetrics) : list (str * result str unit) :=
  (λ e, (exporter_name e, exporter_accepts e m)) <$> exporters.

(** * Facts *)

(** ** Tags *)
(** A byte that the line protocol reads as itself. *)
Definition inert (c : ascii) : Prop := (32 < byte_val c)%Z ∧ byte_val c ≠ 127%Z ∧ c ≠ ","%char ∧ c ≠ "="%char.
Definition tag_safe (v : str) : Prop := Forall inert v.

Lemma tag_unsafe_spec c : tag_unsafe c = false ↔ inert c.
Proof.
  unfold tag_unsafe, inert. rewrite !orb_false_iff, !bool_decide_eq_false, Z.ltb_ge, Z.eqb_neq.
  assert (byte_val c = 32%Z ↔ c = " "%char) as Hs.
  { split; [|by intros ->]. intros Hc. destruct c as [[] [] [] [] [] [] [] []]; done. }
  split; [intros [[[[??]?]?]?]|intros (?&?&?&?)]; split_and?; try done; try lia.
  - destruct (decide (byte_val c = 32%Z)); [naive_solver|lia].
  - intros Hc%Hs. lia.
Qed.

Lemma tag_value_safe raw : tag_safe (tag_value raw).
Proof.
  apply Forall_fmap, Forall_true. intros c. simpl. apply tag_unsafe_spec.
  destruct (tag_unsafe c) eqn:E; [reflexivity|done].
Qed.

Lemma tag_value_keeps raw : tag_safe raw → tag_value raw = raw.
Proof. induction 1 as [|c raw Hc%tag_unsafe_spec _ IH]; [done|].
  change (tag_value (c :: raw)) with ((if tag_unsafe c then "_"%char else c) :: tag_value raw). by rewrite Hc, IH. Qed.

(** Every value goes out as [tag_value] has it; of [n] rewritten ones the first
    and each hundredth are told. *)
Lemma tag_value_counted_value total raw : (tag_value_counted total raw).1.1 = tag_value raw.
Proof.
  unfold tag_value_counted. destruct (existsb tag_unsafe raw) eqn:E; [done|]. cbn [negb fst]. symmetry. apply tag_value_keeps.
  apply Forall_forall. intros c Hc. apply tag_unsafe_spec. destruct (tag_unsafe c) eqn:Ec; [|done].
  enough (existsb tag_unsafe raw = true) by congruence. apply existsb_exists. exists c. by rewrite <- list_elem_of_In.
Qed.

Definition told (total : Z) : Z := ((if 0 <? total then 1 else 0) + total / TAG_SANITIZE_WARN_INTERVAL)%Z.
Lemma told_next total : (0 ≤ total)%Z →
  told (total + 1) = (told total + if (total + 1 =? 1) || ((total + 1) mod TAG_SANITIZE_WARN_INTERVAL =? 0) then 1 else 0)%Z.
Proof.
  intros Ht. destruct (decide (total = 0%Z)) as [->|]; [done|]. unfold told, TAG_SANITIZE_WARN_INTERVAL.
  assert (((total + 1) mod 100 = 0 ∧ (total + 1) / 100 = total / 100 + 1) ∨ ((total + 1) mod 100 ≠ 0 ∧ (total + 1) / 100 = total / 100))%Z as Hq.
  { pose proof (Z.div_mod total 100). pose proof (Z.mod_pos_bound total 100).
    pose proof (Z.div_mod (total + 1) 100). pose proof (Z.mod_pos_bound (total + 1) 100). lia. }
  destruct (Z.ltb_spec 0 total), (Z.ltb_spec 0 (total + 1)), (Z.eqb_spec (total + 1) 1), (Z.eqb_spec ((total + 1) mod 100) 0);
    cbn [orb]; lia.
Qed.

Lemma tag_values_counted_right total raws :
  (0 ≤ total)%Z →
  let '(vs, total', warned) := tag_values_counted total raws in
  vs = tag_value <$> raws ∧
  total' = (total + Z.of_nat (length (filter (λ raw, existsb tag_unsafe raw = true) raws)))%Z ∧
  (told total + Z.of_nat warned)%Z = told total'.
Proof.
  revert total. induction raws as [|raw raws IH]; intros total Ht; cbn [tag_values_counted]; [split_and!; [done|cbn; lia|lia]|].
  pose proof (tag_value_counted_value total raw) as Hv. unfold tag_value_counted in *. rewrite filter_cons.
  destruct (existsb tag_unsafe raw) eqn:E; cbn [negb fst] in *.
  - specialize (IH (total + 1)%Z ltac:(lia)). pose proof (told_next total Ht). destruct (tag_values_counted _ raws) as [[vs total'] warned].
    destruct IH as (-> & -> & IH). rewrite decide_True by done. cbn [length fmap list_fmap]. split_and!; [done|lia|].
    rewrite <- IH. destruct (_ || _); lia.
  - specialize (IH total Ht). destruct (tag_values_counted _ raws) as [[vs total'] warned].
    destruct IH as (-> & -> & IH). rewrite decide_False by done. cbn [fmap list_fmap]. split_and!; [by rewrite <- Hv|done|lia].
Qed.

Lemma tag_safe_lit v : forallb (λ c, negb (tag_unsafe c)) v = true → tag_safe v.
Proof.
  intros Hv. apply Forall_forall. intros c Hc. apply tag_unsafe_spec, negb_true_iff.
  by eapply (proj1 (forallb_forall _ _) Hv), list_elem_of_In.
Qed.

(** The ends the stream observer reports. *)
Definition stream_ends : list str := [lit "ok"; lit "truncated"; lit "stalled"; lit "client_gone"].

(** A number as a field: a count, or finite. *)
Definition field_ok (f : str * FieldValue) : Prop :=
  match f.2 with FFloat v => f64_is_finite v = true ∨ ∃ n, v = f64_of_Z n | FBool _ => True end.

(** C38: Whatever text a backend, a client or the configuration put into a sample,
    no tag of its point holds a control character or a delimiter of the line
    protocol, so none can start a field, a tag or a line of its own; and of a
    sample fit for the wire every field is a count or finite. *)
Theorem point_unforgeable m p :
  build_data_point m = Some p → (∀ e, stream_end m = Some e → e ∈ stream_ends) →
  Forall (λ t, tag_safe t.2) (tags p) ∧ (lit "model", tag_value (model m)) ∈ tags p ∧
  (wire_safe m → finite_opt (context_percent m) → Forall field_ok (fields p)).
Proof.
  unfold build_data_point. intros Hp Hend. apply bind_Some in Hp as (ts & _ & [= <-]). cbn [tags fields].
  split; [|split].
  - assert (∀ k o, Forall (λ t : str * str, tag_safe t.2) (tag_opt k o)) as Ho.
    { intros k [v|]; [apply Forall_singleton; apply tag_value_safe|constructor]. }
    rewrite !Forall_cons. cbn [snd].
    split_and!; [apply tag_value_safe| |apply tag_value_safe| |repeat apply Forall_app_2; apply Ho].
    + by destruct (streaming m); apply tag_safe_lit.
    + unfold stream_end_label. destruct (stream_end m) as [e|]; [|by destruct (streaming m); apply tag_safe_lit].
      specialize (Hend e eq_refl). unfold stream_ends in Hend.
      repeat (apply elem_of_cons in Hend as [->|Hend]; [by apply tag_safe_lit|]). by apply elem_of_nil in Hend.
  - set_solver.
  - intros [] Hpct.
    assert (∀ k o, Forall field_ok (field_u64 k o)) as Hu.
    { intros k [n|]; [apply Forall_singleton; right; by exists n|constructor]. }
    assert (∀ k o, finite_opt o → Forall field_ok (field_f64 k o)) as Hf.
    { intros k [v|] Hv; [apply Forall_singleton; left; by apply Hv|constructor]. }
    rewrite !Forall_cons. unfold field_ok at 1 2 3 4 5 6 7 8 9 10. cbn [snd]. split_and!; eauto.
    repeat apply Forall_app_2; try apply Hu; apply Hf; try done; intros v Hv;
      first [by destruct (ws_prompt_tps v Hv)|by destruct (ws_generation_tps v Hv)].
Qed.

Section Facts.
Context (point_refused : DataPoint → bool).

(** ** Nothing accepted is lost *)
#[local] Opaque CAPACITY.
Definition in_hand (pc : Pc) : list RequestMetrics := match pc with Writing s _ _ => [s] | _ => [] end.
Definition undelivered (l : list (RequestMetrics * bool)) : Z := Z.of_nat (length (filter (λ f, f.2 = false) l)).

(** The exit drain runs behind a closed queue, and what follows it behind an
    empty one. *)
Definition exiting (w : Writer) : Prop :=
  match pc w with
  | DrainQueue Exit | Writing _ _ (Draining Exit) => closed w = true
  | Acking (Draining Exit) => False
  | LastAck | Done => closed w = true ∧ queue w = []
  | _ => True
  end.

Record writer_ok (w : Writer) : Prop := {
  wo_kept : (finished w).*1 ++ in_hand (pc w) ++ queue w = accepted w;
  wo_room : length (queue w) ≤ CAPACITY;
  wo_counted : (undelivered (finished w) ≤ dropped w)%Z;
  wo_attempt : match pc w with Writing _ a _ => a < 4 | _ => True end;
  wo_drop : drains_closed w = true → closed w = true;
  wo_exit : exiting w;
}.

Lemma undelivered_app l l' : undelivered (l ++ l') = (undelivered l + undelivered l')%Z.
Proof. unfold undelivered. rewrite filter_app, length_app. lia. Qed.

Lemma worker_step_ok ok w w' : worker_step point_refused ok w = Some w' → writer_ok w → writer_ok w'.
Proof.
  destruct w as [q cl dc p ws lv an pc re dr acc fin]. intros Hs [Hk Hr Hc Ha Hd He].
  unfold exiting in He. simpl in *. destruct pc as [| |from|s a back|back| |]; simpl in *.
  - injection Hs as <-. destruct p, dc; split; simpl; auto. by apply Hd.
  - injection Hs as <-. destruct q as [|s q]; [destruct cl|]; split; simpl in *; auto; try lia; done.
  - injection Hs as <-. destruct q as [|s q]; [destruct cl, from|destruct from]; split; simpl in *; auto; try lia; done.
  - injection Hs as <-.
    assert (∀ b dr', (undelivered [(s, b)] + dr ≤ dr')%Z →
      writer_ok (mkWriter q cl dc p ws lv an (return_to back) re dr' acc (fin ++ [(s, b)]))) as Hdone.
    { intros b dr' Hb. split; simpl; auto.
      - rewrite fmap_app, <- Hk, <- app_assoc. by destruct back as [|[]].
      - rewrite undelivered_app. lia.
      - by destruct back as [|[]].
      - by destruct back as [|[]]. }
    destruct (writable point_refused s); simpl; [|apply Hdone; unfold undelivered; simpl; lia].
    destruct ok; [apply Hdone; unfold undelivered; simpl; lia|].
    destruct (Nat.ltb_spec a 3); [|apply Hdone; unfold undelivered; simpl; lia].
    split; simpl in *; auto; lia.
  - injection Hs as <-. destruct back as [|[]]; split; simpl; auto; done.
  - injection Hs as <-. split; simpl; auto.
  - done.
Qed.

Lemma writer_step_ok w w' : writer_step point_refused w w' → writer_ok w → writer_ok w'.
Proof.
  destruct 1 as [ok w w' Hs|s w|id w|w|id w|w|w]; [by eapply worker_step_ok|..];
    destruct w as [q cl dc p ws lv an pc re dr acc fin]; intros [Hk Hr Hc Ha Hd He]; unfold exiting in He; simpl in *.
  - destruct (cl || match pc with Done => true | _ => false end) eqn:Eg; [by split|].
    apply orb_false_iff in Eg as [-> Hnd]. destruct (Nat.leb_spec CAPACITY (length q)); split; simpl; auto; try lia.
    + by rewrite <- Hk, !app_assoc.
    + rewrite length_app. simpl. lia.
    + unfold exiting in *. simpl in *. destruct pc as [| |[]|? ? [|[]]|[|[]]| |]; naive_solver.
  - by split.
  - by destruct pc; split.
  - by split.
  - split; simpl; auto. unfold exiting in *. simpl in *. destruct pc as [| |[]|? ? [|[]]|[|[]]| |]; naive_solver.
  - split; simpl; auto. unfold exiting in *. simpl in *. destruct pc as [| |[]|? ? [|[]]|[|[]]| |]; naive_solver.
Qed.

Lemma spawned_ok : writer_ok spawned.
Proof. split; simpl; auto; try lia; done. Qed.

Lemma reachable_ok w : rtc (writer_step point_refused) spawned w → writer_ok w.
Proof.
  remember spawned as w0 eqn:E. intros Hr. assert (writer_ok w0) as H0 by (subst; apply spawned_ok).
  clear E. induction Hr; eauto using writer_step_ok.
Qed.

(** C36: However requests, flushes, shutdowns and the thread interleave: every sample
    [export] reported as queued is, in the order it came, delivered, dropped and
    counted, in hand, or still queued; the queue never passes its capacity; a
    point is tried four times at most; and when the thread ends none is left. *)
Theorem writer_loses_nothing w :
  rtc (writer_step point_refused) spawned w →
  (finished w).*1 ++ in_hand (pc w) ++ queue w = accepted w ∧ length (queue w) ≤ CAPACITY ∧
  (undelivered (finished w) ≤ dropped w)%Z ∧
  match pc w with Writing _ attempt _ => attempt < 4 | _ => True end ∧
  (pc w = Done → (finished w).*1 = accepted w).
Proof.
  intros Hr. apply reachable_ok in Hr as [Hk Hroom Hc Ha _ He]. split_and!; [done..|].
  intros Hd. unfold exiting in He. rewrite Hd in *. destruct He as [_ Hq].
  rewrite <- Hk, Hq. simpl. by rewrite app_nil_r.
Qed.

(** ** The thread ends once the queue is closed *)
Definition caller_rank (back : Caller) : nat :=
  match back with MainLoop => 4 | Draining Ping => 5 | Draining Exit => 2 end.
Definition pc_rank (pc : Pc) : nat :=
  match pc with
  | Top => 4
  | PollMain => 3
  | DrainQueue Ping => 5
  | DrainQueue Exit => 2
  | Writing _ attempt back => caller_rank back + (5 - attempt)
  | Acking (MainLoop | Draining Ping) => 5
  | Acking (Draining Exit) => 2
  | LastAck => 1
  | Done => 0
  end.
(** The accesses the thread still makes at most. *)
Definition remaining (w : Writer) : nat := 10 * length (queue w) + 2 * pings w + pc_rank (pc w).

Lemma worker_step_closed ok w :
  writer_ok w → closed w = true → pc w ≠ Done →
  ∃ w', worker_step point_refused ok w = Some w' ∧ remaining w' < remaining w ∧ closed w' = true ∧
    accepted w' = accepted w.
Proof.
  destruct w as [q cl dc p ws lv an pc re dr acc fin]. intros [_ _ _ Ha _ _] Hcl Hpc. unfold remaining. simpl in *. subst cl.
  destruct pc as [| |from|s a back|back| |]; [..|done]; (eexists; split; [reflexivity|]); simpl.
  - destruct p, dc; simpl; lia || (split; [lia|done]).
  - destruct q; simpl; split; try lia; done.
  - destruct q as [|s q], from; simpl; split; try lia; done.
  - destruct (writable point_refused s); simpl; [destruct ok; simpl; [|destruct (Nat.ltb_spec a 3); simpl]|];
      (split; [destruct back as [|[]]; simpl; lia|done]).
  - destruct back as [|[]]; simpl; split; try lia; done.
  - split; [lia|done].
Qed.

Lemma writer_done_all w : writer_ok w → pc w = Done → (finished w).*1 = accepted w.
Proof.
  intros [Hk _ _ _ _ He] Hd. unfold exiting in He. rewrite Hd in He, Hk. destruct He as [_ Hq].
  rewrite <- Hk, Hq. simpl. by rewrite app_nil_r.
Qed.

(** The thread alone, write attempts ending as [oks] says. *)
Fixpoint run_worker (n : nat) (oks : nat → bool) (w : Writer) : Writer :=
  match n with
  | 0 => w
  | S n' => match worker_step point_refused (oks n) w with Some w' => run_worker n' oks w' | None => w end
  end.

Lemma run_worker_done n oks w :
  writer_ok w → closed w = true → remaining w ≤ n →
  pc (run_worker n oks w) = Done ∧ accepted (run_worker n oks w) = accepted w ∧ writer_ok (run_worker n oks w).
Proof.
  revert w. induction n as [|n IH]; intros w Hw Hc Hn; simpl.
  - unfold remaining in Hn. destruct (pc w) as [| |[]|? ? [|[]]|[|[]]| |] eqn:E; simpl in Hn; try lia; done.
  - assert (pc w = Done ∨ pc w ≠ Done) as [E|E] by (destruct (pc w); first [by left|by right]).
    { destruct w as [q cl dc p ws lv an pc re dr acc fin]. simpl in *. by subst. }
    destruct (worker_step_closed (oks (S n)) w Hw Hc E) as (w' & Hs & Hr & Hc' & Ha). rewrite Hs, <- Ha.
    apply IH; [by eapply worker_step_ok|done|lia].
Qed.

(** After a shutdown or a drop of the queue the thread ends by itself, within a
    number of accesses known beforehand, however its writes fare; by then every
    sample ever accepted has been delivered, or dropped and counted. *)
Theorem writer_drains w oks :
  rtc (writer_step point_refused) spawned w → closed w = true →
  let w' := run_worker (remaining w) oks w in
  pc w' = Done ∧ (finished w').*1 = accepted w ∧ (undelivered (finished w') ≤ dropped w')%Z.
Proof.
  intros Hr Hc. pose proof (reachable_ok w Hr) as Hw.
  destruct (run_worker_done (remaining w) oks w Hw Hc (le_n _)) as (Hd & Ha & Hok).
  split_and!; [done| |apply Hok]. rewrite <- Ha. by apply writer_done_all.
Qed.

(** ** A flush can be answered too early *)

(** The comments say that at an empty poll every sample queued before a current
    ticket's ping has been written.  The poll and the acknowledgement are two
    accesses: a sample queued between them, and a flush called after it, are
    acknowledged while the sample waits. *)
Theorem flush_answered_early s id :
  ∃ w w', rtc (writer_step point_refused) spawned w ∧ enqueue s w = (Queued, w') ∧
    ∃ w'', rtc (writer_step point_refused) (ping (register id w')) w'' ∧
      id ∈ answered w'' ∧ queue w'' = [s] ∧ finished w'' = [].
Proof.
  exists (mkWriter [] false false 0 [] [] [] (Acking MainLoop) 0 0 [] []). eexists.
  split; [|split; [reflexivity|]].
  - eapply rtc_l; [by apply (ws_worker _ true)|]. by apply rtc_once, (ws_worker _ true).
  - eexists. split; [apply rtc_once, (ws_worker _ true); reflexivity|]. simpl.
    rewrite filter_cons_True by set_solver. split; [set_solver|done].
Qed.
End Facts.
