(* ===== verification/JsonScan.v ===== *)
(** * The structural JSON scanner (llama-proxy/src/fixes/json_scan.rs)

    Byte offsets into the raw text.  A [while] loop over the bytes from an
    index on recurses over those bytes ([drop i b]); the two loops that jump
    over whole tokens take fuel, [length b], and each turn consumes input. *)
From S2P Require Import Prelude Json.

Record KeySpan := mkSpan {
  key_start : nat;
  key_end : nat;
  value_start : nat;
  value_end : nat;
}.

Definition quote : ascii := ascii_of_nat 34.
Definition backslash : ascii := ascii_of_nat 92.

Definition is_json_ws (c : ascii) : bool :=
  ((byte_val c =? 32) || (byte_val c =? 9) || (byte_val c =? 10) || (byte_val c =? 13))%Z.
Definition is_open (c : ascii) : bool := bool_decide (c = "{"%char) || bool_decide (c = "["%char).
Definition is_close (c : ascii) : bool := bool_decide (c = "}"%char) || bool_decide (c = "]"%char).
(** What ends a literal: [, } \]] and whitespace. *)
Definition is_delim (c : ascii) : bool :=
  bool_decide (c = ","%char) || is_close c || is_json_ws c.

Fixpoint skip_ws_go (rest : str) (i : nat) : nat :=
  match rest with
  | c :: rest' => if is_json_ws c then skip_ws_go rest' (S i) else i
  | [] => i
  end.
Definition skip_ws (b : str) (i : nat) : nat := skip_ws_go (drop i b) i.

Fixpoint scan_string_go (rest : str) (j : nat) : option nat :=
  match rest with
  | [] => None
  | c :: rest' =>
      if bool_decide (c = backslash) then
        match rest' with
        | [] => None
        | _ :: rest'' => scan_string_go rest'' (j + 2)
        end
      else if bool_decide (c = quote) then Some (j + 1)
      else if (byte_val c <? 32)%Z then None
      else scan_string_go rest' (j + 1)
  end.
Definition scan_string (b : str) (i : nat) : option nat := scan_string_go (drop (i + 1) b) (i + 1).

Fixpoint literal_end_go (rest : str) (j : nat) : nat :=
  match rest with
  | c :: rest' => if is_delim c then j else literal_end_go rest' (j + 1)
  | [] => j
  end.

(** The depth-tracking loop of [scan_value]; [depth] is an [i32], bounded by
    the input length. *)
Fixpoint scan_container (fuel : nat) (b : str) (j : nat) (depth : Z) : option nat :=
  match fuel with
  | 0 => None
  | S fuel' =>
      match b !! j with
      | None => None
      | Some c =>
          if bool_decide (c = quote) then
            j' ← scan_string b j; scan_container fuel' b j' depth
          else
            let depth' :=
              if is_open c then (depth + 1)%Z else if is_close c then (depth - 1)%Z else depth in
            if (depth' =? 0)%Z then Some (j + 1)
            else if (depth' <? 0)%Z then None
            else scan_container fuel' b (j + 1) depth'
      end
  end.

Definition scan_value (b : str) (i : nat) : option nat :=
  c ← b !! i;
  if bool_decide (c = quote) then scan_string b i
  else if is_open c then scan_container (S (length b)) b i 0
  else Some (literal_end_go (drop i b) i).

Section Scan.
Context `{Serde}.

(** The decoded key of a quoted token: escaped tokens go through serde. *)
Definition token_inner (token : str) : str := slice token 1 (length token - 1).
Definition has_backslash (s : str) : bool := existsb (λ c, bool_decide (c = backslash)) s.

Definition scan_entry (b : str) (i : nat) : option (str * nat) :=
  c ← b !! i;
  if negb (bool_decide (c = quote)) then None
  else
    after_key ← scan_string b i;
    let j := skip_ws b after_key in
    if negb (bool_decide (b !! j = Some ":"%char)) then None
    else
      let j := skip_ws b (j + 1) in
      val_end ← scan_value b j;
      let token := slice b i after_key in
      key ← (if has_backslash (token_inner token) then from_str_string token
             else Some (token_inner token));
      Some (key, val_end).

(** The entry loop of [depth1_keys]. *)
Fixpoint depth1_loop (fuel : nat) (b : str) (i : nat) (out : list str) : option (list str) :=
  match fuel with
  | 0 => None
  | S fuel' =>
      '(key, after_entry) ← scan_entry b i;
      let out' := out ++ [key] in
      let i' := skip_ws b after_entry in
      c ← b !! i';
      if bool_decide (c = ","%char) then depth1_loop fuel' b (skip_ws b (i' + 1)) out'
      else if bool_decide (c = "}"%char) then Some out'
      else None
  end.

Definition depth1_keys (b : str) : option (list str) :=
  let i := skip_ws b 0 in
  if negb (bool_decide (b !! i = Some "{"%char)) then None
  else
    let i := skip_ws b (i + 1) in
    c ← b !! i;
    if bool_decide (c = "}"%char) then Some []
    else depth1_loop (S (length b)) b i [].

Fixpoint keys_after_loop (fuel : nat) (b : str) (i : nat) (out : list str) : list str :=
  match fuel with
  | 0 => out
  | S fuel' =>
      let i := skip_ws b i in
      if negb (bool_decide (b !! i = Some ","%char)) then out
      else
        let i := skip_ws b (i + 1) in
        match scan_entry b i with
        | None => out
        | Some (key, after_entry) => keys_after_loop fuel' b after_entry (out ++ [key])
        end
  end.

Definition keys_after (b : str) (from : nat) : list str := keys_after_loop (S (length b)) b from [].

(** The entry loop of [scan_spans]. *)
Fixpoint spans_loop (fuel : nat) (b : str) (key : str) (i : nat) (out : list KeySpan)
    : option (list KeySpan) :=
  match fuel with
  | 0 => None
  | S fuel' =>
      c ← b !! i;
      if negb (bool_decide (c = quote)) then None
      else
        after_key ← scan_string b i;
        let j := skip_ws b after_key in
        if negb (bool_decide (b !! j = Some ":"%char)) then None
        else
          let j := skip_ws b (j + 1) in
          val_end ← scan_value b j;
          let token := slice b i after_key in
          let inner := token_inner token in
          let hit :=
            if has_backslash inner then
              match from_str_string token with Some d => bool_decide (d = key) | None => false end
            else bool_decide (inner = key) in
          let out' := if hit then out ++ [mkSpan i after_key j val_end] else out in
          let i' := skip_ws b val_end in
          c' ← b !! i';
          if bool_decide (c' = ","%char) then spans_loop fuel' b key (skip_ws b (i' + 1)) out'
          else if bool_decide (c' = "}"%char) then Some out'
          else None
  end.

Definition scan_spans (b : str) (key : str) : option (list KeySpan) :=
  let i := skip_ws b 0 in
  if negb (bool_decide (b !! i = Some "{"%char)) then None
  else
    let i := skip_ws b (i + 1) in
    c ← b !! i;
    if bool_decide (c = "}"%char) then Some []
    else spans_loop (S (length b)) b key i [].

Definition top_level_key_spans (b key : str) : list KeySpan := default [] (scan_spans b key).

(** [KeyCounter] over the key stream. *)
Definition top_level_key_count (b key : str) : nat :=
  match stream_keys b with
  | Some keys => length (filter (.= key) keys)
  | None => 0
  end.
End Scan.

(** ** The texts the scanner is meant for

    JSON tokens with their concrete layout: strings, literals, containers with
    balanced brackets (kinds not matched up, exactly what the scanner tracks),
    and objects with arbitrary whitespace and an arbitrary tail. *)
Inductive str_body : str → Prop :=
  | sb_nil : str_body []
  | sb_plain c s :
      c ≠ backslash → c ≠ quote → (32 ≤ byte_val c)%Z → str_body s → str_body (c :: s)
  | sb_escape c s : str_body s → str_body (backslash :: c :: s).

Definition jstring (t : str) : Prop := ∃ body, str_body body ∧ t = quote :: body ++ [quote].

Inductive jinner : str → Prop :=
  | ji_nil : jinner []
  | ji_char c s : c ≠ quote → is_open c = false → is_close c = false → jinner s → jinner (c :: s)
  | ji_string t s : jstring t → jinner s → jinner (t ++ s)
  | ji_nest o c inner s :
      is_open o = true → is_close c = true → jinner inner → jinner s →
      jinner (o :: inner ++ c :: s).

Inductive jvalue : str → Prop :=
  | jv_string t : jstring t → jvalue t
  | jv_literal c s :
      c ≠ quote → is_open c = false → Forall (λ c, is_delim c = false) (c :: s) → jvalue (c :: s)
  | jv_container o c inner :
      is_open o = true → is_close c = true → jinner inner → jvalue (o :: inner ++ [c]).

Definition all_ws (w : str) : Prop := Forall (λ c, is_json_ws c = true) w.

Record Entry := mkEntry {
  ws_before : str;
  e_key : str;
  ws_key : str;
  ws_colon : str;
  e_val : str;
  ws_after : str;
}.

Record entry_ok (e : Entry) : Prop := {
  ok_before : all_ws (ws_before e);
  ok_key : jstring (e_key e);
  ok_ws_key : all_ws (ws_key e);
  ok_colon : all_ws (ws_colon e);
  ok_val : jvalue (e_val e);
  ok_after : all_ws (ws_after e);
}.

(** From the key's quote to the end of the whitespace after the value. *)
Definition render_tail (e : Entry) : str :=
  e_key e ++ ws_key e ++ ":"%char :: ws_colon e ++ e_val e ++ ws_after e.

Fixpoint render_entries (es : list Entry) : str :=
  match es with
  | [] => []
  | [e] => ws_before e ++ render_tail e
  | e :: es' => ws_before e ++ render_tail e ++ ","%char :: render_entries es'
  end.

Definition render_object (w : str) (es : list Entry) (w_empty tail : str) : str :=
  w ++ "{"%char :: (match es with [] => w_empty | _ => render_entries es end) ++ "}"%char :: tail.

(** * Facts *)
Implicit Types (b : list ascii).

Lemma drop_app_at b i t rest : drop i b = t ++ rest → drop (i + length t) b = rest.
Proof. intros E. rewrite <- drop_drop, E. by rewrite drop_app_length. Qed.

Lemma drop_cons_at b i c rest : drop i b = c :: rest → drop (i + 1) b = rest.
Proof. apply (drop_app_at b i [c]). Qed.

Lemma lookup_at b i c rest : drop i b = c :: rest → b !! i = Some c.
Proof. intros E. rewrite <- (Nat.add_0_r i), <- lookup_drop, E. done. Qed.

Lemma slice_at b i t rest : drop i b = t ++ rest → slice b i (i + length t) = t.
Proof.
  intros E. unfold slice. rewrite E. replace (i + length t - i) with (length t) by lia.
  by rewrite take_app_length.
Qed.

Lemma drop_length_le b i t rest : drop i b = t ++ rest → t ≠ [] → i + length t ≤ length b.
Proof.
  intros E Hne. apply (f_equal length) in E. rewrite length_drop, length_app in E.
  destruct t; simpl in *; [done|lia].
Qed.

(** ** Tokens *)
Lemma skip_ws_at b i w rest :
  drop i b = w ++ rest → all_ws w →
  match rest with c :: _ => is_json_ws c = false | [] => True end →
  skip_ws b i = i + length w.
Proof.
  unfold skip_ws. intros -> Hw Hr. clear b. revert i. induction Hw as [|c w Hc _ IH]; intros i; simpl.
  - rewrite Nat.add_0_r. destruct rest; simpl; [done|by rewrite Hr].
  - rewrite Hc, IH. lia.
Qed.

Lemma scan_string_go_body body rest j :
  str_body body → scan_string_go (body ++ quote :: rest) j = Some (j + length body + 1).
Proof.
  intros Hb. revert j. induction Hb as [|c s Hb Hq Hc _ IH|c s _ IH]; intros j; simpl.
  - f_equal. lia.
  - rewrite !bool_decide_eq_false_2 by done. rewrite (proj2 (Z.ltb_ge _ _)) by lia.
    rewrite IH. f_equal. lia.
  - rewrite IH. f_equal. lia.
Qed.

Lemma scan_string_at b i t rest :
  jstring t → drop i b = t ++ rest → scan_string b i = Some (i + length t).
Proof.
  intros (body & Hb & ->) E. unfold scan_string.
  assert (drop (i + 1) b = body ++ quote :: rest) as ->.
  { rewrite <- drop_drop, E. simpl. by rewrite drop_0, <- app_assoc. }
  rewrite scan_string_go_body by done. f_equal. simpl. rewrite length_app. simpl. lia.
Qed.

Lemma jstring_length t : jstring t → 2 ≤ length t.
Proof. intros (body & _ & ->). simpl. rewrite length_app. simpl. lia. Qed.

Lemma jstring_head t rest : jstring t → ∃ t', t ++ rest = quote :: t'.
Proof. intros (body & _ & ->). by eexists. Qed.

Lemma is_open_not_quote c : is_open c = true → c ≠ quote.
Proof. intros H ->. done. Qed.
Lemma is_close_not_quote c : is_close c = true → c ≠ quote ∧ is_open c = false.
Proof.
  unfold is_close, is_open. rewrite orb_true_iff, !bool_decide_eq_true. by intros [-> | ->].
Qed.

(** Crossing balanced text inside a container keeps the depth. *)
Lemma scan_container_inner inner :
  jinner inner → ∀ b j depth fuel rest,
  drop j b = inner ++ rest → (0 < depth)%Z → length inner < fuel →
  ∃ fuel', fuel ≤ fuel' + length inner ∧
    scan_container fuel b j depth = scan_container fuel' b (j + length inner) depth.
Proof.
  induction 1 as [|c s Hq Ho Hc _ IH|t s Ht _ IH|o c inner s Ho Hc _ IHi _ IHs];
    intros b j depth fuel rest E Hd Hf; simpl in *.
  - exists fuel. split; [lia|]. by rewrite Nat.add_0_r.
  - destruct fuel as [|fuel]; [lia|]. simpl. rewrite (lookup_at _ _ _ _ E).
    rewrite bool_decide_eq_false_2, Ho, Hc by done.
    rewrite (proj2 (Z.eqb_neq _ _)), (proj2 (Z.ltb_ge _ _)) by lia.
    destruct (IH b (j + 1) depth fuel rest) as (f' & Hf' & ->); [|done|lia|].
    { by eapply drop_cons_at. }
    exists f'. split; [lia|]. f_equal. lia.
  - rewrite <- app_assoc in E. destruct fuel as [|fuel]; [lia|]. simpl.
    destruct (jstring_head t (s ++ rest) Ht) as [t' Et]. rewrite Et in E.
    rewrite (lookup_at _ _ _ _ E). rewrite <- Et in E.
    rewrite bool_decide_eq_true_2, (scan_string_at b j t (s ++ rest)) by done. simpl.
    rewrite length_app in *. pose proof (jstring_length t Ht).
    destruct (IH b (j + length t) depth fuel rest) as (f' & Hf' & ->); [by apply drop_app_at|done|lia|].
    exists f'. split; [lia|]. f_equal. lia.
  - rewrite length_app in *. simpl in *. rewrite <- app_assoc in E. simpl in E.
    destruct fuel as [|fuel]; [lia|]. simpl. rewrite (lookup_at _ _ _ _ E).
    rewrite bool_decide_eq_false_2, Ho by (by apply is_open_not_quote).
    rewrite (proj2 (Z.eqb_neq _ _)), (proj2 (Z.ltb_ge _ _)) by lia.
    apply drop_cons_at in E.
    destruct (IHi b (j + 1) (depth + 1)%Z fuel (c :: s ++ rest)) as (f1 & Hf1 & ->); [done|lia|lia|].
    apply drop_app_at in E. destruct f1 as [|f1]; [lia|]. simpl.
    rewrite (lookup_at _ _ _ _ E). destruct (is_close_not_quote c Hc) as [Hcq Hco].
    rewrite bool_decide_eq_false_2, Hco, Hc by done.
    replace (depth + 1 - 1)%Z with depth by lia.
    rewrite (proj2 (Z.eqb_neq _ _)), (proj2 (Z.ltb_ge _ _)) by lia.
    apply drop_cons_at in E.
    destruct (IHs b (j + 1 + length inner + 1) depth f1 rest) as (f2 & Hf2 & ->); [done|done|lia|].
    exists f2. split; [lia|]. f_equal. lia.
Qed.

(** ** Values *)
Definition ends_token (rest : str) : Prop :=
  match rest with c :: _ => is_delim c = true | [] => True end.

Lemma literal_end_go_at t rest j :
  Forall (λ c, is_delim c = false) t → ends_token rest →
  literal_end_go (t ++ rest) j = j + length t.
Proof.
  intros Ht Hr. revert j. induction Ht as [|c t Hc _ IH]; intros j; simpl.
  - rewrite Nat.add_0_r. destruct rest; simpl; [done|by rewrite Hr].
  - rewrite Hc, IH. lia.
Qed.

Lemma scan_value_at b i t rest :
  jvalue t → ends_token rest → drop i b = t ++ rest → scan_value b i = Some (i + length t).
Proof.
  intros Hv Hr E. unfold scan_value. destruct Hv as [t Ht|c s Hq Ho Hf|o c inner Ho Hc Hi].
  - destruct (jstring_head t rest Ht) as [t' Et]. rewrite Et in E. rewrite (lookup_at _ _ _ _ E).
    rewrite <- Et in E. simpl. by apply scan_string_at with rest.
  - rewrite (lookup_at _ _ _ _ E). simpl. rewrite bool_decide_eq_false_2, Ho by done.
    by rewrite E, literal_end_go_at.
  - rewrite (lookup_at _ _ _ _ E). simpl.
    rewrite bool_decide_eq_false_2, Ho by (by apply is_open_not_quote). simpl.
    rewrite (lookup_at _ _ _ _ E), bool_decide_eq_false_2, Ho by (by apply is_open_not_quote).
    assert (length inner < length b).
    { pose proof (drop_length_le b i _ _ E ltac:(done)) as Hl. simpl in Hl.
      rewrite length_app in Hl. simpl in Hl. lia. }
    simpl in E. rewrite <- app_assoc in E. simpl in E. apply drop_cons_at in E.
    change (0 + 1 =? 0)%Z with false. change (0 + 1 <? 0)%Z with false.
    destruct (scan_container_inner inner Hi b (i + 1) (0 + 1) (length b) (c :: rest))
      as (f & Hf & ->); [done|lia|lia|].
    apply drop_app_at in E. destruct f as [|f]; [lia|]. simpl. rewrite (lookup_at _ _ _ _ E).
    destruct (is_close_not_quote c Hc) as [Hcq Hco].
    rewrite bool_decide_eq_false_2, Hco, Hc by done. simpl. f_equal.
    rewrite length_app. simpl. lia.
Qed.

(** ** Entries *)
Definition not_ws_head (rest : str) : Prop :=
  match rest with c :: _ => is_json_ws c = false | [] => True end.

Lemma jvalue_not_ws t rest : jvalue t → not_ws_head (t ++ rest).
Proof.
  intros [t' (body & _ & ->)|c s _ _ Hf|o c inner Ho _ _]; simpl; [done| |].
  - apply Forall_cons in Hf as [Hc _]. unfold is_delim in Hc. by apply orb_false_iff in Hc as [_ ->].
  - unfold is_open in Ho. rewrite orb_true_iff, !bool_decide_eq_true in Ho. by destruct Ho as [-> | ->].
Qed.

Lemma ends_token_ws w c rest : all_ws w → is_delim c = true → ends_token (w ++ c :: rest).
Proof.
  intros Hw Hc. destruct Hw as [|d w Hd _]; simpl; [done|].
  unfold is_delim. rewrite Hd. apply orb_true_r.
Qed.

(** Where the tokens of an entry sit when its key starts at [i]. *)
Definition at_colon (e : Entry) (i : nat) : nat := i + length (e_key e) + length (ws_key e).
Definition at_val (e : Entry) (i : nat) : nat := at_colon e i + 1 + length (ws_colon e).
Definition at_val_end (e : Entry) (i : nat) : nat := at_val e i + length (e_val e).
Definition at_end (e : Entry) (i : nat) : nat := at_val_end e i + length (ws_after e).

Section Decode.
Context `{Serde}.

Definition decode_key (token : str) : option str :=
  if has_backslash (token_inner token) then from_str_string token else Some (token_inner token).

Record entry_scan b (i : nat) (e : Entry) (c : ascii) (rest : str) : Prop := {
  es_quote : b !! i = Some quote;
  es_key : scan_string b i = Some (i + length (e_key e));
  es_colon_ws : skip_ws b (i + length (e_key e)) = at_colon e i;
  es_colon : b !! at_colon e i = Some ":"%char;
  es_val_ws : skip_ws b (at_colon e i + 1) = at_val e i;
  es_val : scan_value b (at_val e i) = Some (at_val_end e i);
  es_after : skip_ws b (at_val_end e i) = at_end e i;
  es_next : b !! at_end e i = Some c;
  es_drop : drop (at_end e i) b = c :: rest;
  es_token : slice b i (i + length (e_key e)) = e_key e;
  es_value : slice b (at_val e i) (at_val_end e i) = e_val e;
}.

Lemma scan_entry_at b i e c rest :
  entry_ok e → is_delim c = true → is_json_ws c = false →
  drop i b = render_tail e ++ c :: rest → entry_scan b i e c rest.
Proof using.
  intros [_ Hk Hwk Hwc Hv Hwa] Hc Hcw E. unfold render_tail in E. rewrite <- !app_assoc in E. simpl in E.
  rewrite <- !app_assoc in E.
  destruct (jstring_head (e_key e) (ws_key e ++ ":"%char :: ws_colon e ++ e_val e ++ ws_after e ++ c :: rest) Hk)
    as [t' Et].
  pose proof (drop_app_at _ _ _ _ E) as E1. pose proof (drop_app_at _ _ _ _ E1) as E2.
  pose proof (drop_cons_at _ _ _ _ E2) as E3. pose proof (drop_app_at _ _ _ _ E3) as E4.
  pose proof (drop_app_at _ _ _ _ E4) as E5. pose proof (drop_app_at _ _ _ _ E5) as E6.
  split.
  - rewrite Et in E. by eapply lookup_at.
  - by eapply scan_string_at.
  - by eapply skip_ws_at.
  - by eapply lookup_at.
  - eapply skip_ws_at; [exact E3|done|by apply jvalue_not_ws].
  - eapply scan_value_at; [done|by apply ends_token_ws|exact E4].
  - eapply skip_ws_at; [exact E5|done|done].
  - by eapply lookup_at.
  - exact E6.
  - by eapply slice_at.
  - by eapply slice_at.
Qed.

(** ** Whole objects *)
Lemma render_entries_cons e es :
  render_entries (e :: es) =
    ws_before e ++ render_tail e ++ match es with [] => [] | _ => ","%char :: render_entries es end.
Proof using. destruct es; simpl; by rewrite ?app_nil_r. Qed.

Lemma render_tail_not_ws e rest : entry_ok e → not_ws_head (render_tail e ++ rest).
Proof using.
  intros Ok. destruct (ok_key _ Ok) as (body & _ & Ek). unfold render_tail. by rewrite Ek.
Qed.

(** Both entry loops walk a rendered object entry by entry: [f] is what one
    entry contributes. *)
Lemma depth1_loop_render es e b i fuel out tail :
  Forall entry_ok (e :: es) → length es < fuel →
  drop i b = render_tail e ++ (match es with [] => [] | _ => ","%char :: render_entries es end)
             ++ "}"%char :: tail →
  depth1_loop fuel b i out = (out ++.) <$> mapM (λ e, decode_key (e_key e)) (e :: es).
Proof using.
  revert e i fuel out. induction es as [|e' es IH]; intros e i fuel out Hok Hf E;
    (destruct fuel as [|fuel]; [simpl in *; lia|]); apply Forall_cons in Hok as [Ok Hok];
    simpl depth1_loop; unfold scan_entry.
  - destruct (scan_entry_at b i e "}"%char tail Ok) as [Hq Hk Hcw Hcc Hvw Hv Ha Hn _ Ht _]; try done.
    rewrite Hq. simpl. rewrite Hk. simpl. rewrite Hcw, Hcc. simpl. rewrite Hvw, Hv. simpl. rewrite Ht.
    fold (decode_key (e_key e)). destruct (decode_key (e_key e)); simpl; [|done].
    by rewrite Ha, Hn.
  - destruct (scan_entry_at b i e ","%char (render_entries (e' :: es) ++ "}"%char :: tail) Ok)
      as [Hq Hk Hcw Hcc Hvw Hv Ha Hn Hd Ht _]; try done.
    rewrite Hq. simpl. rewrite Hk. simpl. rewrite Hcw, Hcc. simpl. rewrite Hvw, Hv. simpl. rewrite Ht.
    fold (decode_key (e_key e)). destruct (decode_key (e_key e)) as [k|] eqn:Ek; simpl; [|done].
    rewrite Ha, Hn. simpl. apply drop_cons_at in Hd.
    rewrite render_entries_cons, <- !app_assoc in Hd.
    assert (entry_ok e') as Ok' by by inversion Hok.
    rewrite (skip_ws_at b _ (ws_before e') _ Hd); [|apply Ok'|by apply render_tail_not_ws].
    apply drop_app_at in Hd.
    rewrite (IH e' _ fuel (out ++ [k])); [|done|simpl in Hf; lia|exact Hd].
    simpl. destruct (decode_key (e_key e')); simpl; [|done].
    destruct (mapM _ es); simpl; [|done]. by rewrite <- app_assoc.
Qed.

Definition span_texts b (sp : KeySpan) : str * str :=
  (slice b (key_start sp) (key_end sp), slice b (value_start sp) (value_end sp)).

Definition key_hit (key : str) (e : Entry) : bool := bool_decide (decode_key (e_key e) = Some key).

Lemma hit_key_hit (key token : str) :
  (if has_backslash (token_inner token)
   then match from_str_string token with Some d => bool_decide (d = key) | None => false end
   else bool_decide (token_inner token = key))
  = bool_decide (decode_key token = Some key).
Proof using.
  unfold decode_key. destruct (has_backslash _).
  - destruct (from_str_string token); [|by rewrite bool_decide_eq_false_2].
    apply bool_decide_ext. naive_solver.
  - apply bool_decide_ext. naive_solver.
Qed.

Lemma spans_loop_render key es e b i fuel out tail :
  Forall entry_ok (e :: es) → length es < fuel →
  drop i b = render_tail e ++ (match es with [] => [] | _ => ","%char :: render_entries es end)
             ++ "}"%char :: tail →
  ∃ sps, spans_loop fuel b key i out = Some (out ++ sps) ∧
    span_texts b <$> sps = (λ e, (e_key e, e_val e)) <$> filter (λ e, key_hit key e = true) (e :: es).
Proof using.
  revert e i fuel out. induction es as [|e' es IH]; intros e i fuel out Hok Hf E;
    (destruct fuel as [|fuel]; [simpl in *; lia|]); apply Forall_cons in Hok as [Ok Hok];
    simpl spans_loop.
  - destruct (scan_entry_at b i e "}"%char tail Ok) as [Hq Hk Hcw Hcc Hvw Hv Ha Hn _ Ht Hval]; try done.
    rewrite Hq. simpl. rewrite Hk. simpl. rewrite Hcw, Hcc. simpl. rewrite Hvw, Hv. simpl.
    rewrite Ht, hit_key_hit, Ha, Hn. simpl. fold (key_hit key e).
    rewrite filter_cons. destruct (key_hit key e); simpl.
    + eexists. split; [done|]. simpl. unfold span_texts. simpl. by rewrite Ht, Hval.
    + exists []. by rewrite app_nil_r.
  - destruct (scan_entry_at b i e ","%char (render_entries (e' :: es) ++ "}"%char :: tail) Ok)
      as [Hq Hk Hcw Hcc Hvw Hv Ha Hn Hd Ht Hval]; try done.
    rewrite Hq. simpl. rewrite Hk. simpl. rewrite Hcw, Hcc. simpl. rewrite Hvw, Hv. simpl.
    rewrite Ht, hit_key_hit, Ha, Hn. simpl. fold (key_hit key e).
    apply drop_cons_at in Hd. rewrite render_entries_cons, <- !app_assoc in Hd.
    assert (entry_ok e') as Ok' by by inversion Hok.
    rewrite (skip_ws_at b _ (ws_before e') _ Hd); [|apply Ok'|by apply render_tail_not_ws].
    apply drop_app_at in Hd.
    destruct (IH e' _ fuel
      (if key_hit key e then out ++ [mkSpan i (i + length (e_key e)) (at_val e i) (at_val_end e i)] else out)
      Hok ltac:(simpl in Hf; lia) Hd) as (sps & -> & Hsps).
    rewrite filter_cons. destruct (key_hit key e); simpl.
    + eexists (_ :: sps). split; [by rewrite <- app_assoc|]. rewrite fmap_cons, Hsps. simpl.
      unfold span_texts at 1. simpl. by rewrite Ht, Hval.
    + by exists sps.
Qed.
End Decode.

Section Rendered.
Context `{Serde}.

Lemma length_render_entries es : length es ≤ length (render_entries es).
Proof using.
  induction es as [|e es IH]; [done|]. rewrite render_entries_cons, !length_app.
  unfold render_tail. rewrite !length_app. simpl. rewrite !length_app.
  destruct es; simpl in *; lia.
Qed.

(** The walk up to the first entry of a non-empty rendered object. *)
Lemma render_object_start w e es w_empty tail :
  all_ws w → entry_ok e →
  let b := render_object w (e :: es) w_empty tail in
  let i := skip_ws b (skip_ws b 0 + 1) in
  b !! skip_ws b 0 = Some "{"%char ∧ b !! i = Some quote ∧
  drop i b = render_tail e ++ (match es with [] => [] | _ => ","%char :: render_entries es end)
             ++ "}"%char :: tail ∧ length es < S (length b).
Proof using.
  intros Hw Ok. cbv zeta. set (b := render_object w (e :: es) w_empty tail).
  assert (drop 0 b = w ++ "{"%char :: (ws_before e ++ render_tail e
    ++ match es with [] => [] | _ => ","%char :: render_entries es end) ++ "}"%char :: tail) as E0.
  { rewrite drop_0. unfold b, render_object. by rewrite <- render_entries_cons. }
  rewrite (skip_ws_at b 0 w _ E0) by done. pose proof (drop_app_at _ _ _ _ E0) as E1.
  pose proof (drop_cons_at _ _ _ _ E1) as E2. rewrite <- !app_assoc in E2.
  rewrite (skip_ws_at b _ (ws_before e) _ E2); [|apply Ok|by apply render_tail_not_ws].
  pose proof (drop_app_at _ _ _ _ E2) as E3.
  split; [by eapply lookup_at|]. split.
  - destruct (ok_key _ Ok) as (body & _ & Ek).
    apply (lookup_at _ _ quote (body ++ [quote] ++ ws_key e ++ ":"%char :: ws_colon e ++ e_val e
      ++ ws_after e ++ (match es with [] => [] | _ => ","%char :: render_entries es end) ++ "}"%char :: tail)).
    rewrite E3. unfold render_tail. rewrite Ek. simpl. rewrite <- !app_assoc. simpl.
    by rewrite <- !app_assoc.
  - split; [exact E3|]. unfold b, render_object. rewrite !length_app. simpl. rewrite length_app.
    pose proof (length_render_entries (e :: es)). simpl in *. lia.
Qed.

Lemma render_object_empty_start w w_empty tail :
  all_ws w → all_ws w_empty →
  let b := render_object w [] w_empty tail in
  b !! skip_ws b 0 = Some "{"%char ∧ b !! skip_ws b (skip_ws b 0 + 1) = Some "}"%char.
Proof using.
  intros Hw He. cbv zeta. set (b := render_object w [] w_empty tail).
  assert (drop 0 b = w ++ "{"%char :: w_empty ++ "}"%char :: tail) as E0 by by rewrite drop_0.
  rewrite (skip_ws_at b 0 w _ E0) by done. pose proof (drop_app_at _ _ _ _ E0) as E1.
  pose proof (drop_cons_at _ _ _ _ E1) as E2.
  rewrite (skip_ws_at b _ w_empty _ E2) by done. pose proof (drop_app_at _ _ _ _ E2) as E3.
  split; by eapply lookup_at.
Qed.

Lemma scan_spans_start b key c :
  b !! skip_ws b 0 = Some "{"%char → b !! skip_ws b (skip_ws b 0 + 1) = Some c →
  scan_spans b key = if bool_decide (c = "}"%char) then Some []
    else spans_loop (S (length b)) b key (skip_ws b (skip_ws b 0 + 1)) [].
Proof using. intros H1 H2. unfold scan_spans. by rewrite H1, H2. Qed.

Lemma depth1_keys_start b c :
  b !! skip_ws b 0 = Some "{"%char → b !! skip_ws b (skip_ws b 0 + 1) = Some c →
  depth1_keys b = if bool_decide (c = "}"%char) then Some []
    else depth1_loop (S (length b)) b (skip_ws b (skip_ws b 0 + 1)) [].
Proof using. intros H1 H2. unfold depth1_keys. by rewrite H1, H2. Qed.

(** On every laid-out JSON object the span scanner returns, in document order,
    exactly the key and value texts of the entries whose decoded key matches. *)
Theorem spans_of_rendered w es w_empty tail key :
  all_ws w → all_ws w_empty → Forall entry_ok es →
  let b := render_object w es w_empty tail in
  span_texts b <$> top_level_key_spans b key
  = (λ e, (e_key e, e_val e)) <$> filter (λ e, key_hit key e = true) es.
Proof using.
  intros Hw He Hok. cbv zeta. unfold top_level_key_spans. destruct es as [|e es].
  - destruct (render_object_empty_start w w_empty tail Hw He) as [H1 H2].
    by rewrite (scan_spans_start _ _ _ H1 H2).
  - destruct (render_object_start w e es w_empty tail Hw) as (H1 & H2 & H3 & H4);
      [by inversion Hok|]. rewrite (scan_spans_start _ _ _ H1 H2), bool_decide_eq_false_2 by done.
    destruct (spans_loop_render key es e _ _ _ [] tail Hok H4 H3) as (sps & Hs & Ht).
    rewrite Hs. exact Ht.
Qed.

(** ... and [depth1_keys] returns exactly the decoded keys, in order. *)
Theorem depth1_keys_of_rendered w es w_empty tail :
  all_ws w → all_ws w_empty → Forall entry_ok es →
  depth1_keys (render_object w es w_empty tail) = mapM (λ e, decode_key (e_key e)) es.
Proof using.
  intros Hw He Hok. destruct es as [|e es].
  - destruct (render_object_empty_start w w_empty tail Hw He) as [H1 H2].
    by rewrite (depth1_keys_start _ _ H1 H2).
  - destruct (render_object_start w e es w_empty tail Hw) as (H1 & H2 & H3 & H4);
      [by inversion Hok|]. rewrite (depth1_keys_start _ _ H1 H2), bool_decide_eq_false_2 by done.
    rewrite (depth1_loop_render es e _ _ _ [] tail Hok H4 H3).
    by destruct (mapM _ (e :: es)).
Qed.

(** The entries that follow a value, each behind its comma. *)
Definition after_entries (es : list Entry) : str :=
  concat ((λ e, ","%char :: ws_before e ++ render_tail e) <$> es).

Lemma scan_entry_result b i e c rest k :
  entry_ok e → is_delim c = true → is_json_ws c = false →
  drop i b = render_tail e ++ c :: rest → decode_key (e_key e) = Some k →
  scan_entry b i = Some (k, at_val_end e i) ∧ drop (at_val_end e i) b = ws_after e ++ c :: rest.
Proof using.
  intros Ok Hc Hcw E Hk.
  destruct (scan_entry_at b i e c rest Ok Hc Hcw E) as [Hq Hkk Hcw' Hcc Hvw Hv Ha Hn _ Ht _].
  split.
  - unfold scan_entry. rewrite Hq. simpl. rewrite Hkk. simpl. rewrite Hcw', Hcc. simpl.
    rewrite Hvw, Hv. simpl. rewrite Ht. fold (decode_key (e_key e)). by rewrite Hk.
  - pose proof (drop_app_at b i (e_key e ++ ws_key e ++ ":"%char :: ws_colon e ++ e_val e)
      (ws_after e ++ c :: rest)) as H1.
    rewrite !length_app in H1. simpl in H1. rewrite length_app in H1.
    replace (at_val_end e i) with (i + (length (e_key e) +
      (length (ws_key e) + S (length (ws_colon e) + length (e_val e)))))
      by (unfold at_val_end, at_val, at_colon; lia).
    apply H1. rewrite E. unfold render_tail. by rewrite <- !app_assoc; simpl; rewrite <- !app_assoc.
Qed.

Lemma after_entries_head es c rest :
  is_delim c = true → is_json_ws c = false →
  ∃ c' rest', after_entries es ++ c :: rest = c' :: rest' ∧ is_delim c' = true ∧ is_json_ws c' = false.
Proof using. destruct es as [|e es]; simpl; eauto 6. Qed.

Lemma keys_after_loop_render es b i w c rest ks fuel out :
  all_ws w → Forall entry_ok es → is_delim c = true → is_json_ws c = false →
  drop i b = w ++ after_entries es ++ c :: rest →
  mapM (λ e, decode_key (e_key e)) es = Some ks → length es ≤ fuel →
  ∃ more, keys_after_loop fuel b i out = out ++ ks ++ more.
Proof using.
  intros Hw Hok Hc Hcw. revert i w fuel out ks Hw.
  induction es as [|e es IH]; intros i w fuel out ks Hw E Hk Hf.
  - injection Hk as <-. clear -H. revert i out. induction fuel as [|fuel IHf]; intros i out.
    { exists []. by rewrite !app_nil_r. }
    simpl. destruct (negb _); [exists []; by rewrite !app_nil_r|].
    destruct (scan_entry _ _) as [[k e]|]; [|exists []; by rewrite !app_nil_r].
    destruct (IHf e (out ++ [k])) as [more ->]. exists (k :: more). by rewrite <- app_assoc.
  - destruct fuel as [|fuel]; [simpl in Hf; lia|]. apply Forall_cons in Hok as [Ok Hok].
    change (after_entries (e :: es)) with ((","%char :: ws_before e ++ render_tail e) ++ after_entries es) in E.
    rewrite <- !app_assoc in E. simpl in E. rewrite <- !app_assoc in E.
    simpl in Hk. destruct (decode_key (e_key e)) as [k|] eqn:Ek; [|done].
    destruct (mapM _ es) as [ks'|] eqn:Eks; [|done]. injection Hk as <-.
    simpl. rewrite (skip_ws_at b i w _ E) by done. pose proof (drop_app_at _ _ _ _ E) as E1.
    rewrite (lookup_at _ _ _ _ E1). simpl. apply drop_cons_at in E1.
    rewrite (skip_ws_at b _ (ws_before e) _ E1); [|apply Ok|by apply render_tail_not_ws].
    apply drop_app_at in E1.
    destruct (after_entries_head es c rest Hc Hcw) as (c' & rest' & Et & Hd & Hdw). rewrite Et in E1.
    destruct (scan_entry_result b _ e c' rest' k Ok Hd Hdw E1 Ek) as [-> E2]. rewrite <- Et in E2.
    destruct (IH Hok _ (ws_after e) fuel (out ++ [k]) ks' (ok_after _ Ok) E2 eq_refl) as [more ->];
      [simpl in Hf; lia|].
    exists more. by rewrite <- !app_assoc.
Qed.

(** Every entry that follows is seen. *)
Lemma keys_after_rendered es b i w c rest ks :
  all_ws w → Forall entry_ok es → is_delim c = true → is_json_ws c = false →
  drop i b = w ++ after_entries es ++ c :: rest →
  mapM (λ e, decode_key (e_key e)) es = Some ks →
  ∃ more, keys_after b i = ks ++ more.
Proof using.
  intros Hw Hok Hc Hcw E Hk. unfold keys_after.
  destruct (keys_after_loop_render es b i w c rest ks (S (length b)) [] Hw Hok Hc Hcw E Hk) as [m Hm];
    [|by exists m].
  apply (f_equal length) in E. rewrite length_drop, !length_app in E. clear -E.
  assert (length es ≤ length (after_entries es)); [|lia]. clear E.
  induction es as [|e es IH]; [simpl; lia|].
  change (after_entries (e :: es)) with ((","%char :: ws_before e ++ render_tail e) ++ after_entries es).
  rewrite length_app. simpl. lia.
Qed.
End Rendered.

(** ** Progress, and enough fuel *)
Lemma skip_ws_go_bounds rest i : i ≤ skip_ws_go rest i ≤ i + length rest.
Proof.
  revert i. induction rest as [|c rest IH]; intros i; simpl; [lia|].
  destruct (is_json_ws c); [pose proof (IH (S i)); lia|lia].
Qed.

Lemma skip_ws_bounds b i : i ≤ length b → i ≤ skip_ws b i ≤ length b.
Proof.
  intros Hi. unfold skip_ws. pose proof (skip_ws_go_bounds (drop i b) i) as H.
  rewrite length_drop in H. lia.
Qed.

Lemma scan_string_go_bounds rest j k :
  scan_string_go rest j = Some k → j < k ≤ j + length rest.
Proof.
  remember (length rest) as n eqn:En. revert rest j En.
  induction n as [n IH] using lt_wf_ind. intros rest j En E.
  destruct rest as [|c rest]; [done|]. simpl in *.
  destruct (bool_decide (c = backslash)).
  - destruct rest as [|c' rest]; [done|]. simpl in *.
    apply (IH (length rest)) in E; [lia|lia|done].
  - destruct (bool_decide (c = quote)); [simplify_eq; lia|].
    destruct (_ <? _)%Z; [done|]. apply (IH (length rest)) in E; [lia|lia|done].
Qed.

Lemma scan_string_bounds b i k : scan_string b i = Some k → i + 1 < k ≤ length b.
Proof.
  unfold scan_string. intros E. apply scan_string_go_bounds in E as HH. rewrite length_drop in HH.
  destruct (decide (i + 1 ≤ length b)); [lia|]. rewrite drop_ge in E by lia. done.
Qed.

Lemma scan_container_bounds fuel b j d k : scan_container fuel b j d = Some k → j < k ≤ length b.
Proof.
  revert j d. induction fuel as [|fuel IH]; intros j d E; [done|]. simpl in E.
  destruct (b !! j) as [c|] eqn:Ec; [|done]. pose proof (lookup_lt_Some _ _ _ Ec).
  destruct (bool_decide (c = quote)).
  - apply bind_Some in E as (j' & Es & E). apply scan_string_bounds in Es. apply IH in E. lia.
  - destruct (_ =? 0)%Z; [simplify_eq; lia|]. destruct (_ <? 0)%Z; [done|]. apply IH in E. lia.
Qed.

Lemma scan_container_unfold fuel b j d :
  scan_container (S fuel) b j d =
    c ← b !! j;
    if bool_decide (c = quote) then j' ← scan_string b j; scan_container fuel b j' d
    else
      let d' := if is_open c then (d + 1)%Z else if is_close c then (d - 1)%Z else d in
      if (d' =? 0)%Z then Some (j + 1)
      else if (d' <? 0)%Z then None
      else scan_container fuel b (j + 1) d'.
Proof. simpl. by destruct (b !! j). Qed.

Lemma scan_container_fuel fuel b j d :
  length b < j + fuel → scan_container (S fuel) b j d = scan_container fuel b j d.
Proof.
  revert j d. induction fuel as [|fuel IH]; intros j d Hf.
  { simpl. rewrite lookup_ge_None_2 by lia. done. }
  rewrite (scan_container_unfold (S fuel)), (scan_container_unfold fuel).
  destruct (b !! j) as [c|]; [|done]. simpl mbind. cbv beta zeta.
  destruct (bool_decide (c = quote)).
  - destruct (scan_string b j) as [j'|] eqn:Es; [|done]. apply scan_string_bounds in Es.
    apply IH. lia.
  - destruct (_ =? 0)%Z; [done|]. destruct (_ <? 0)%Z; [done|]. apply IH. lia.
Qed.

Lemma literal_end_go_bounds rest j : j ≤ literal_end_go rest j ≤ j + length rest.
Proof.
  revert j. induction rest as [|c rest IH]; intros j; simpl; [lia|].
  destruct (is_delim c); [lia|]. pose proof (IH (j + 1)). lia.
Qed.

Lemma scan_value_bounds b i k : scan_value b i = Some k → i ≤ k ≤ length b.
Proof.
  unfold scan_value. intros E. apply bind_Some in E as (c & Ec & E).
  pose proof (lookup_lt_Some _ _ _ Ec). destruct (bool_decide _).
  - apply scan_string_bounds in E. lia.
  - destruct (is_open c).
    + apply scan_container_bounds in E. lia.
    + simplify_eq. pose proof (literal_end_go_bounds (drop i b) i) as Hl.
      rewrite length_drop in Hl. lia.
Qed.

Section Loops.
Context `{Serde}.

Lemma scan_entry_bounds b i k e : scan_entry b i = Some (k, e) → i < e ≤ length b.
Proof using.
  unfold scan_entry. intros E. apply bind_Some in E as (c & _ & E). destruct (negb _); [done|].
  apply bind_Some in E as (ak & Ek & E). apply scan_string_bounds in Ek.
  destruct (negb _) eqn:Hc; [done|]. apply negb_false_iff, bool_decide_eq_true in Hc.
  apply bind_Some in E as (ve & Ev & E). apply bind_Some in E as (key & _ & E). simplify_eq.
  apply lookup_lt_Some in Hc. pose proof (skip_ws_bounds b ak ltac:(lia)).
  pose proof (skip_ws_bounds b (skip_ws b ak + 1) ltac:(lia)).
  apply scan_value_bounds in Ev. lia.
Qed.

(** What [spans_loop] does with one entry, in terms of [scan_entry]'s parts. *)
Lemma depth1_loop_unfold fuel b i out :
  depth1_loop (S fuel) b i out =
    '(key, e) ← scan_entry b i;
    c ← b !! skip_ws b e;
    if bool_decide (c = ","%char) then depth1_loop fuel b (skip_ws b (skip_ws b e + 1)) (out ++ [key])
    else if bool_decide (c = "}"%char) then Some (out ++ [key]) else None.
Proof using. done. Qed.

Lemma next_entry_bounds b i k e :
  scan_entry b i = Some (k, e) → is_Some (b !! skip_ws b e) →
  i < skip_ws b (skip_ws b e + 1) ≤ length b.
Proof using.
  intros He [c Hc]. apply scan_entry_bounds in He. apply lookup_lt_Some in Hc.
  pose proof (skip_ws_bounds b e ltac:(lia)).
  pose proof (skip_ws_bounds b (skip_ws b e + 1) ltac:(lia)). lia.
Qed.

(** More fuel than input never changes an answer: the loops stop on their own. *)
Lemma depth1_loop_fuel fuel b i out :
  length b < i + fuel → depth1_loop (S fuel) b i out = depth1_loop fuel b i out.
Proof using.
  revert i out. induction fuel as [|fuel IH]; intros i out Hf.
  { rewrite depth1_loop_unfold. unfold scan_entry. by rewrite lookup_ge_None_2 by lia. }
  rewrite (depth1_loop_unfold (S fuel)), (depth1_loop_unfold fuel).
  destruct (scan_entry b i) as [[k e]|] eqn:He; [|done]. simpl mbind. cbv beta.
  destruct (b !! skip_ws b e) as [c|] eqn:Hc; [|done]. simpl mbind. cbv beta.
  destruct (bool_decide _); [|done]. apply IH.
  pose proof (next_entry_bounds b i k e He ltac:(by eexists)). lia.
Qed.

Lemma keys_after_loop_unfold fuel b i out :
  keys_after_loop (S fuel) b i out =
    if negb (bool_decide (b !! skip_ws b i = Some ","%char)) then out
    else match scan_entry b (skip_ws b (skip_ws b i + 1)) with
         | None => out
         | Some (key, e) => keys_after_loop fuel b e (out ++ [key])
         end.
Proof using. done. Qed.

Lemma keys_after_loop_fuel fuel b i out :
  length b < i + fuel → i ≤ length b → keys_after_loop (S fuel) b i out = keys_after_loop fuel b i out.
Proof using.
  revert i out. induction fuel as [|fuel IH]; intros i out Hf Hi; [lia|].
  rewrite (keys_after_loop_unfold (S fuel)), (keys_after_loop_unfold fuel).
  destruct (negb _) eqn:Hc; [done|]. apply negb_false_iff, bool_decide_eq_true, lookup_lt_Some in Hc.
  destruct (scan_entry _ _) as [[k e]|] eqn:He; [|done]. apply scan_entry_bounds in He.
  pose proof (skip_ws_bounds b i Hi). pose proof (skip_ws_bounds b (skip_ws b i + 1) ltac:(lia)).
  apply IH; lia.
Qed.

Lemma spans_loop_unfold fuel b key i out :
  spans_loop (S fuel) b key i out =
    c ← b !! i;
    if negb (bool_decide (c = quote)) then None
    else
      ak ← scan_string b i;
      let j := skip_ws b ak in
      if negb (bool_decide (b !! j = Some ":"%char)) then None
      else
        let j := skip_ws b (j + 1) in
        ve ← scan_value b j;
        let hit := bool_decide (decode_key (slice b i ak) = Some key) in
        let out' := if hit then out ++ [mkSpan i ak j ve] else out in
        c' ← b !! skip_ws b ve;
        if bool_decide (c' = ","%char) then spans_loop fuel b key (skip_ws b (skip_ws b ve + 1)) out'
        else if bool_decide (c' = "}"%char) then Some out'
        else None.
Proof using.
  simpl. destruct (b !! i) as [c|]; [|done]. simpl. destruct (negb _); [done|].
  destruct (scan_string b i) as [ak|]; [|done]. simpl. destruct (negb _); [done|].
  destruct (scan_value _ _) as [ve|]; [|done]. simpl. by rewrite hit_key_hit.
Qed.

(** Spans recorded from [lo] on: tokens in order, non-overlapping, in range,
    the key token a decodable spelling of the key asked for. *)
Fixpoint spans_ok b (key : str) (lo : nat) (sps : list KeySpan) : Prop :=
  match sps with
  | [] => True
  | sp :: rest =>
      lo ≤ key_start sp ∧ key_start sp < key_end sp ∧ key_end sp < value_start sp ∧
      value_start sp ≤ value_end sp ∧ value_end sp < length b ∧
      decode_key (slice b (key_start sp) (key_end sp)) = Some key ∧
      spans_ok b key (value_end sp) rest
  end.

Lemma spans_ok_mono b key lo lo' sps : lo' ≤ lo → spans_ok b key lo sps → spans_ok b key lo' sps.
Proof using. destruct sps; simpl; [done|]. intuition lia. Qed.

Lemma spans_loop_ok fuel b key i out res :
  spans_loop fuel b key i out = Some res →
  ∃ sps, res = out ++ sps ∧ spans_ok b key i sps.
Proof using.
  revert i out. induction fuel as [|fuel IH]; intros i out E; [done|].
  rewrite spans_loop_unfold in E. apply bind_Some in E as (c & _ & E). destruct (negb _); [done|].
  apply bind_Some in E as (ak & Ek & E). apply scan_string_bounds in Ek. cbv zeta in E.
  destruct (negb _) eqn:Hc; [done|]. apply negb_false_iff, bool_decide_eq_true, lookup_lt_Some in Hc.
  apply bind_Some in E as (ve & Ev & E). apply scan_value_bounds in Ev.
  pose proof (skip_ws_bounds b ak ltac:(lia)).
  pose proof (skip_ws_bounds b (skip_ws b ak + 1) ltac:(lia)).
  pose proof (skip_ws_bounds b ve ltac:(lia)).
  apply bind_Some in E as (c' & Hc' & E). apply lookup_lt_Some in Hc'.
  assert (∃ sps0, (if bool_decide (decode_key (slice b i ak) = Some key)
      then out ++ [mkSpan i ak (skip_ws b (skip_ws b ak + 1)) ve] else out) = out ++ sps0 ∧
    ∀ rest, spans_ok b key ve rest → spans_ok b key i (sps0 ++ rest)) as (sps0 & E0 & Hok0).
  { clear E. case_bool_decide.
    - eexists [_]. split; [reflexivity|]. intros rest Hr. simpl. repeat split; try done; lia.
    - exists []. split; [by rewrite app_nil_r|]. intros rest. apply spans_ok_mono. lia. }
  rewrite E0 in E. destruct (bool_decide (c' = _)).
  - apply IH in E as (sps & -> & Hs). exists (sps0 ++ sps). split; [by rewrite app_assoc|].
    apply Hok0. eapply spans_ok_mono; [|exact Hs].
    pose proof (skip_ws_bounds b (skip_ws b ve + 1) ltac:(lia)). lia.
  - destruct (bool_decide _); [|done]. simplify_eq. exists sps0. split; [done|].
    rewrite <- (app_nil_r sps0). by apply Hok0.
Qed.

(** Whatever the text, the spans returned are safe to slice with: in range, in
    order, disjoint, and each on a key equal to the one asked for. *)
Theorem top_level_key_spans_ok b key : spans_ok b key 0 (top_level_key_spans b key).
Proof using.
  unfold top_level_key_spans. destruct (scan_spans b key) as [sps|] eqn:E; [|done]. simpl.
  unfold scan_spans in E. destruct (negb _); [done|]. apply bind_Some in E as (c & _ & E).
  destruct (bool_decide _); [by simplify_eq|]. apply spans_loop_ok in E as (sps' & -> & Hs).
  simpl. eapply spans_ok_mono; [|exact Hs]. lia.
Qed.

Lemma loops_agree fuel b key i out ks out2 :
  depth1_loop fuel b i out = Some ks →
  ∃ ks' sps, ks = out ++ ks' ∧ spans_loop fuel b key i out2 = Some (out2 ++ sps) ∧
    length sps = length (filter (.= key) ks').
Proof using.
  revert i out out2. induction fuel as [|fuel IH]; intros i out out2 E; [done|].
  rewrite depth1_loop_unfold in E. apply bind_Some in E as ([k e] & He & E).
  apply bind_Some in E as (c & Hc & E). rewrite spans_loop_unfold.
  unfold scan_entry in He. apply bind_Some in He as (c0 & Hc0 & He). rewrite Hc0. simpl mbind. cbv beta.
  destruct (negb _); [done|]. apply bind_Some in He as (ak & Hak & He). rewrite Hak.
  simpl mbind. cbv beta zeta in He |- *. destruct (negb _); [done|].
  apply bind_Some in He as (ve & Hve & He). rewrite Hve. simpl mbind. cbv beta zeta.
  change (mbind (λ key, Some (key, ve)) (decode_key (slice b i ak)) = Some (k, e)) in He.
  destruct (decode_key (slice b i ak)) as [k'|]; [|done]. simplify_eq/=. rewrite Hc. simpl.
  assert (bool_decide (Some k = Some key) = bool_decide (k = key)) as ->
    by (apply bool_decide_ext; naive_solver).
  destruct (bool_decide (c = _)).
  - apply (IH _ _ (if bool_decide (k = key)
      then out2 ++ [mkSpan i ak (skip_ws b (skip_ws b ak + 1)) e] else out2))
      in E as (ks' & sps & -> & -> & Hlen).
    exists (k :: ks'). rewrite filter_cons. destruct (decide (k = key)) as [->|Hne];
      [rewrite bool_decide_eq_true_2 by done|rewrite bool_decide_eq_false_2 by done]; simpl.
    + eexists (_ :: sps). split; [by rewrite <- app_assoc|]. split; [by rewrite <- app_assoc|].
      simpl. by rewrite Hlen.
    + exists sps. by rewrite <- app_assoc.
  - destruct (bool_decide _); [|done]. simplify_eq. exists [k]. rewrite filter_cons.
    destruct (decide (k = key)) as [->|Hne];
      [rewrite bool_decide_eq_true_2 by done|rewrite bool_decide_eq_false_2 by done]; simpl.
    + by eexists [_].
    + exists []. by rewrite app_nil_r.
Qed.

(** The two scanners agree: whenever the key list exists, there is one span
    per occurrence of the key in it. *)
Theorem keys_spans_agree b key ks :
  depth1_keys b = Some ks →
  length (top_level_key_spans b key) = length (filter (.= key) ks).
Proof using.
  unfold depth1_keys, top_level_key_spans, scan_spans. destruct (negb _); [done|].
  intros E. apply bind_Some in E as (c & -> & E). simpl. destruct (bool_decide _); [by simplify_eq|].
  apply (loops_agree _ _ key _ _ _ []) in E as (ks' & sps & -> & Hs & Hlen). simpl in Hs.
  rewrite Hs. exact Hlen.
Qed.
End Loops.
