(* ===== verification/RequestLog.v ===== *)
(** * The request line (llama-proxy/src/stats/request_log.rs)

    One line per request with its first user message in it, shortened around
    its middle on character boundaries. *)
From S2P Require Import Prelude Json Utf8.

Definition normalize_whitespace (s : str) : str :=
  join (lit " ") (split_whitespace ((λ c,
    if bool_decide (c = ascii_of_nat 10) || bool_decide (c = ascii_of_nat 13) || bool_decide (c = ascii_of_nat 9)
    then " "%char else c) <$> s)).

Definition TRIGGER_THRESHOLD_BYTES : nat := 100.
Definition HEAD_CHARS : nat := 25.
Definition TAIL_CHARS : nat := 75.
Definition ELLIPSIS : str := lit " ... ".

(** The offsets of [char_indices]. *)
Fixpoint char_starts (i : nat) (gs : list str) : list nat :=
  match gs with
  | [] => []
  | g :: gs' => i :: char_starts (i + length g) gs'
  end.

Fixpoint head_cut (starts : list nat) (head_end : nat) : nat :=
  match starts with
  | [] => head_end
  | i :: starts' => if HEAD_CHARS <? i then head_end else head_cut starts' i
  end.
Fixpoint tail_cut (threshold : nat) (starts_rev : list nat) (tail_start : nat) : nat :=
  match starts_rev with
  | [] => tail_start
  | i :: starts' => if threshold <=? i then tail_cut threshold starts' i else tail_start
  end.

(** [None]: a slice off a character boundary, which panics. *)
Definition truncate_message (s : str) : option str :=
  if length s <=? TRIGGER_THRESHOLD_BYTES then Some s
  else
    let starts := char_starts 0 (chars s) in
    let head_end := head_cut starts 0 in
    let tail_start := tail_cut (length s - TAIL_CHARS) (reverse starts) (length s) in
    if is_char_boundary s head_end && is_char_boundary s tail_start
    then Some (take head_end s ++ ELLIPSIS ++ drop tail_start s) else None.

Definition text_part (part : Value) : option str :=
  if bool_decide (get part (lit "type") ≫= as_str = Some (lit "text")) then get part (lit "text") ≫= as_str else None.

Definition extract_message_content (msg : Value) : option str :=
  content ← get msg (lit "content");
  match content with
  | VString text => Some text
  | VArray parts =>
      let texts := omap text_part parts in
      if bool_decide (texts = []) then None else Some (join (lit " ") texts)
  | _ => None
  end.

(** The outer [option] is a panic. *)
Fixpoint first_user_message (messages : list Value) (pending_unparseable : bool) : option (option str) :=
  match messages with
  | [] => Some (if pending_unparseable then Some (lit "<unparseable>") else None)
  | msg :: messages' =>
      if bool_decide (default [] (get msg (lit "role") ≫= as_str) = lit "user") then
        match extract_message_content msg with
        | Some content => Some <$> truncate_message (normalize_whitespace content)
        | None => first_user_message messages' true
        end
      else first_user_message messages' pending_unparseable
  end.

Definition extract_first_user_message (request_json : Value) : option (option str) :=
  match get request_json (lit "messages") ≫= as_array with
  | Some messages => first_user_message messages false
  | None => Some None
  end.

Definition request_parts (request_json : Value) (first_user_msg : option str) : list str :=
  [lit "model=" ++ default (lit "unknown") (get request_json (lit "model") ≫= as_str);
   lit "msgs=" ++ show_nat (default 0 (length <$> (get request_json (lit "messages") ≫= as_array)))]
  ++ (if default false (get request_json (lit "stream") ≫= as_bool) then [lit "stream"] else [])
  ++ match get request_json (lit "tools") ≫= as_array with
     | Some (t :: ts) => [lit "tools=" ++ show_nat (length (t :: ts))]
     | _ => []
     end
  ++ match first_user_msg with
     | Some msg => [ascii_of_nat 34 :: msg ++ [ascii_of_nat 34]]
     | None => []
     end.

(** U+2192 and a space open the line. *)
Definition format_request_log (request_json : Value) : option str :=
  first_user_msg ← extract_first_user_message request_json;
  Some ((ascii_of_nat <$> [226; 134; 146; 32]) ++ join (lit " ") (request_parts request_json first_user_msg)).

(** * Facts *)
Lemma char_starts_elem i gs j :
  j ∈ char_starts i gs → ∃ k, k < length gs ∧ j = i + length (concat (take k gs)).
Proof.
  revert i. induction gs as [|g gs IH]; intros i; simpl; [by intros ?%elem_of_nil|].
  intros [->|Hj]%elem_of_cons; [exists 0; simpl; split; lia|].
  destruct (IH _ Hj) as (k & Hk & ->). exists (S k). simpl. rewrite length_app. split; lia.
Qed.

Lemma boundary_app a b : starts_char b → is_char_boundary (a ++ b) (length a) = true.
Proof.
  intros Hb. unfold is_char_boundary. destruct (length a) as [|n] eqn:El; [done|]. rewrite <- El.
  rewrite lookup_app_r, Nat.sub_diag by done. destruct b as [|c b]; simpl.
  - rewrite app_nil_r. apply Nat.eqb_refl.
  - by rewrite (Hb : is_cont c = false).
Qed.

(** Every offset of a character is a boundary. *)
Lemma boundary_take s k : is_char_boundary s (length (concat (take k (chars s)))) = true.
Proof.
  destruct (decide (k = 0)) as [->|Hk]; [done|].
  pose proof (boundary_app (concat (take k (chars s))) _ (starts_char_drop k s Hk)) as Hb.
  by rewrite <- concat_app, take_drop, concat_chars in Hb.
Qed.

Lemma boundary_start s j : j ∈ char_starts 0 (chars s) → is_char_boundary s j = true.
Proof. intros (k & _ & ->)%char_starts_elem. apply boundary_take. Qed.

Lemma head_cut_spec starts h :
  h ≤ HEAD_CHARS → head_cut starts h ≤ HEAD_CHARS ∧ (head_cut starts h = h ∨ head_cut starts h ∈ starts).
Proof.
  revert h. induction starts as [|i starts IH]; intros h Hh; simpl; [by split; [|left]|].
  destruct (Nat.ltb_spec HEAD_CHARS i); [by split; [|left]|].
  destruct (IH i ltac:(lia)) as [? [->|?]]; (split; [lia|]); right; set_solver.
Qed.

Lemma tail_cut_spec t starts x :
  t ≤ x → t ≤ tail_cut t starts x ∧ (tail_cut t starts x = x ∨ tail_cut t starts x ∈ starts).
Proof.
  revert x. induction starts as [|i starts IH]; intros x Hx; simpl; [by split; [|left]|].
  destruct (Nat.leb_spec t i); [|by split; [|left]].
  destruct (IH i ltac:(lia)) as [? [->|?]]; (split; [lia|]); right; set_solver.
Qed.

Lemma boundary_end s : is_char_boundary s (length s) = true.
Proof.
  unfold is_char_boundary. destruct (length s) as [|n] eqn:E; [done|].
  rewrite lookup_ge_None_2 by lia. by rewrite Nat.eqb_refl.
Qed.

(** Shortening a message never panics: both cuts fall on character boundaries.
    What it returns is the message itself up to 100 bytes, and otherwise its
    beginning and its end around an ellipsis, 105 bytes at most. *)
Theorem truncate_bounded s :
  ∃ r, truncate_message s = Some r ∧ length r ≤ 105 ∧
    (r = s ∨ ∃ a b, a `prefix_of` s ∧ b `suffix_of` s ∧ r = a ++ ELLIPSIS ++ b ∧ length a ≤ 25 ∧ length b ≤ 75).
Proof.
  unfold truncate_message. destruct (Nat.leb_spec (length s) TRIGGER_THRESHOLD_BYTES) as [Hl|Hl].
  { exists s. unfold TRIGGER_THRESHOLD_BYTES in Hl. split_and!; [done|lia|by left]. }
  set (starts := char_starts 0 (chars s)).
  destruct (head_cut_spec starts 0 ltac:(lia)) as [Hh Hhs].
  destruct (tail_cut_spec (length s - TAIL_CHARS) (reverse starts) (length s) ltac:(lia)) as [Ht Hts].
  assert (is_char_boundary s (head_cut starts 0) = true) as ->.
  { destruct Hhs as [->|Hin]; [done|by apply boundary_start]. }
  assert (is_char_boundary s (tail_cut (length s - TAIL_CHARS) (reverse starts) (length s)) = true) as ->.
  { destruct Hts as [->|Hin]; [apply boundary_end|]. apply boundary_start. by rewrite elem_of_reverse in Hin. }
  cbn [andb]. eexists. split; [done|].
  assert (length (take (head_cut starts 0) s) ≤ 25) as H1 by (rewrite length_take; unfold HEAD_CHARS in Hh; lia).
  assert (length (drop (tail_cut (length s - TAIL_CHARS) (reverse starts) (length s)) s) ≤ 75) as H2
    by (rewrite length_drop; unfold TAIL_CHARS in *; lia).
  split; [rewrite !length_app; change (length ELLIPSIS) with 5; lia|]. right. eexists _, _.
  split; [apply prefix_take|]. split; [apply suffix_drop|]. done.
Qed.
