(* ===== verification/FixTypes.v ===== *)
(** * Response fixes: actions, errors, the trait, the registry
    (llama-proxy/src/fixes: mod.rs, registry.rs)

    Logging is a value: the functions that log return the records they log. *)
From S2P Require Import Prelude Utf8 Json Config.

(** ** Actions and errors *)
Inductive FixLogLevel := Trace | Debug | Info | Warn.

Inductive FixAction :=
  | NotApplicable
  | Fixed (original_snippet fixed_snippet : str)
  | Failed (original_snippet attempted_fix : str).

Definition fixed (original fixed_ : str) : FixAction := Fixed original fixed_.
Definition failed (original attempted : str) : FixAction := Failed original attempted.

Definition detected (a : FixAction) : bool :=
  match a with Fixed _ _ | Failed _ _ => true | NotApplicable => false end.

Definition sep : str := lit " ;; ".

(** The fold of [aggregate_repairs] over two or more actions. *)
Definition join_repair (acc : str * str) (a : FixAction) : str * str :=
  let '(originals, fixeds) := acc in
  match a with
  | Fixed o f =>
      if bool_decide (originals = []) then (originals ++ o, fixeds ++ f)
      else (originals ++ sep ++ o, fixeds ++ sep ++ f)
  | NotApplicable | Failed _ _ => acc
  end.

Definition aggregate_repairs (actions : list FixAction) : FixAction :=
  match actions with
  | [] => NotApplicable
  | [single] => single
  | many =>
      let '(originals, fixeds) := foldl join_repair ([], []) many in
      let count := show_nat (length many) ++ lit " repairs: " in
      Fixed (count ++ originals) (count ++ fixeds)
  end.

(** [FixError::Parse] and [FixError::Rebuild]. *)
Inductive FixError :=
  | ParseError (message : str)
  | RebuildError (message : str).

Definition show_fix_error (e : FixError) : str :=
  match e with
  | ParseError m => lit "parse error: " ++ m
  | RebuildError m => lit "rebuild error: " ++ m
  end.

(** ** Snippets *)
Inductive SnippetLimit := Chars | Bytes.

(** The scan down to a char boundary; [0] is one. *)
Fixpoint floor_boundary (s : str) (e : nat) : nat :=
  match e with
  | 0 => 0
  | S e' => if is_char_boundary s e then e else floor_boundary s e'
  end.

Definition truncate_snippet (s : str) (max : nat) (limit : SnippetLimit) : str :=
  match limit with
  | Chars =>
      if length (chars s) <=? max then s
      else if max <? 3 then concat (take max (chars s))
      else concat (take (max - 3) (chars s)) ++ lit "..."
  | Bytes =>
      if length s <=? max then s
      else
        let e := floor_boundary s max in
        if max <? 3 then take e s else take e s ++ lit "..."
  end.

(** ** The [ResponseFix] trait

    [None] is a panic of the fixer. *)
Record ResponseFix := mkFix {
  fix_name : str;
  log_level : FixLogLevel;
  applies : Value → bool;
  apply : Value → option (Value * FixAction);
  applies_with_context : Value → Value → bool;
  apply_with_context : Value → Value → option (result FixError (Value * FixAction));
}.

(** The trait's provided context-aware methods. *)
Definition default_applies_with_context (applies : Value → bool) (response _request : Value) : bool :=
  applies response.
Definition default_apply_with_context (apply : Value → option (Value * FixAction))
    (response _request : Value) : option (result FixError (Value * FixAction)) :=
  Ok <$> apply response.

(** ** The registry *)
Record FixRegistry := mkRegistry {
  reg_fixes : list ResponseFix;
  reg_enabled : gmap str bool;
}.

Definition LogRecord : Type := str * FixAction * FixLogLevel.

(** *** What a record becomes in the log ([log_fix_action]) *)
Inductive Severity := AtTrace | AtDebug | AtInfo | AtWarn | AtError.
Record LogLine := mkLine { line_severity : Severity; line_message : str; line_fields : list (str * str) }.

Definition log_fix_action (r : LogRecord) : list LogLine :=
  let '(name, action, level) := r in
  let line sev msg fs := mkLine sev (lit msg) ((lit "fix_name", name) :: fs) in
  match action with
  | NotApplicable => [line AtTrace "Fix did not apply" []]
  | Fixed original fixed =>
      let original := (lit "original", original) in let fixed := (lit "fixed", fixed) in
      match level with
      | Trace => [line AtTrace "Detected and fixed malformed content" [original; fixed]]
      | Debug => [line AtDebug "Detected malformed content (fixed)" [original];
                  line AtTrace "Successfully fixed malformed content" [original; fixed]]
      | Info => [line AtWarn "Detected malformed content" [original];
                 line AtInfo "Successfully fixed malformed content" [original; fixed]]
      | Warn => [line AtWarn "Detected malformed content" [original];
                 line AtWarn "Successfully fixed malformed content" [original; fixed]]
      end
  | Failed original attempted =>
      let original := (lit "original", original) in
      [line AtWarn "Detected malformed content" [original];
       line AtError "Failed to fix malformed content" [original; (lit "attempted", attempted)]]
  end%string.

Definition registry_new : FixRegistry := mkRegistry [] ∅.

Definition register (r : FixRegistry) (f : ResponseFix) : FixRegistry :=
  mkRegistry (reg_fixes r ++ [f]) (<[fix_name f := true]> (reg_enabled r)).

Definition set_enabled (r : FixRegistry) (name : str) (enabled : bool) : FixRegistry :=
  match reg_enabled r !! name with
  | Some _ => mkRegistry (reg_fixes r) (<[name := enabled]> (reg_enabled r))
  | None => r
  end.

Definition is_enabled (r : FixRegistry) (name : str) : bool :=
  default false (reg_enabled r !! name).

Definition get_fix (r : FixRegistry) (name : str) : option ResponseFix :=
  List.find (λ f, bool_decide (fix_name f = name)) (reg_fixes r).

(** The name of a fix without its optional [_fix] suffix. *)
Definition base_name (name : str) : str := default name (strip_suffix name (lit "_fix")).

Section Registry.
Context `{Serde}.

Definition fixer_error_action (response : Value) (error : FixError) : FixAction :=
  Failed (truncate_snippet (to_string response) 200 Chars) (lit "fixer error: " ++ show_fix_error error).

Fixpoint apply_fixes_go (r : FixRegistry) (fs : list ResponseFix) (result : Value)
    (log : list LogRecord) : option (Value * list LogRecord) :=
  match fs with
  | [] => Some (result, log)
  | f :: fs' =>
      if is_enabled r (fix_name f) && applies f result then
        '(new_result, action) ← apply f result;
        apply_fixes_go r fs' new_result (log ++ [(fix_name f, action, log_level f)])
      else apply_fixes_go r fs' result log
  end.

Definition apply_fixes (r : FixRegistry) (response : Value) : option (Value * list LogRecord) :=
  apply_fixes_go r (reg_fixes r) response [].

Fixpoint apply_fixes_ctx_go (r : FixRegistry) (fs : list ResponseFix) (request result : Value)
    (log : list LogRecord) : option (Value * list LogRecord) :=
  match fs with
  | [] => Some (result, log)
  | f :: fs' =>
      if is_enabled r (fix_name f) && applies_with_context f result request then
        outcome ← apply_with_context f result request;
        match outcome with
        | Ok (new_result, action) =>
            apply_fixes_ctx_go r fs' request new_result (log ++ [(fix_name f, action, log_level f)])
        | Err error =>
            apply_fixes_ctx_go r fs' request result
              (log ++ [(fix_name f, fixer_error_action result error, log_level f)])
        end
      else apply_fixes_ctx_go r fs' request result log
  end.

Definition apply_fixes_with_context (r : FixRegistry) (response request : Value)
    : option (Value * list LogRecord) :=
  apply_fixes_ctx_go r (reg_fixes r) request response [].

(** What one fix would do to the response, for detection only. *)
Definition detect_action (f : ResponseFix) (response : Value) (request : option Value)
    : option FixAction :=
  match request with
  | Some req =>
      outcome ← apply_with_context f response req;
      match outcome with
      | Ok (_, action) => Some action
      | Err error => Some (fixer_error_action response error)
      end
  | None => snd <$> apply f response
  end.

Fixpoint detect_fixes_go (r : FixRegistry) (fs : list ResponseFix) (response : Value)
    (request : option Value) : option (list str) :=
  match fs with
  | [] => Some []
  | f :: fs' =>
      let applicable :=
        match request with
        | Some req => applies_with_context f response req
        | None => applies f response
        end in
      if negb (is_enabled r (fix_name f)) || negb applicable
      then detect_fixes_go r fs' response request
      else
        action ← detect_action f response request;
        rest ← detect_fixes_go r fs' response request;
        Some (if detected action then fix_name f :: rest else rest)
  end.

Definition detect_fixes (r : FixRegistry) (response : Value) (request : option Value)
    : option (list str) :=
  detect_fixes_go r (reg_fixes r) response request.
End Registry.

(** [HashMap::get]. *)
Fixpoint module_get (k : str) (ms : list (str * FixModuleConfig)) : option FixModuleConfig :=
  match ms with
  | [] => None
  | (k', c) :: ms' => if decide (k' = k) then Some c else module_get k ms'
  end.

(** The module entry addressed by a fix: canonical spelling first. *)
Definition module_entry (cfg : list (str * FixModuleConfig)) (name : str) : option FixModuleConfig :=
  let base := base_name name in
  match module_get base cfg with
  | Some c => Some c
  | None => module_get (base ++ lit "_fix") cfg
  end.

(** [FixRegistry::configure]; the warnings for unknown keys are logging. *)
Definition configure (r : FixRegistry) (cfg : list (str * FixModuleConfig)) : FixRegistry :=
  mkRegistry (reg_fixes r)
    (foldl (λ en f,
       match module_entry cfg (fix_name f) with
       | Some c => <[fix_name f := fm_enabled c]> en
       | None => en
       end) (reg_enabled r) (reg_fixes r)).

(** Building a registry out of the modules a configuration leaves on. *)
Definition register_all (fs : list ResponseFix) : FixRegistry := foldl register registry_new fs.

Definition registry_from_config (specs : list ResponseFix) (fixes : FixesConfig) : FixRegistry :=
  if negb (fixes_enabled fixes) then registry_new
  else
    foldl (λ r f,
      match module_entry (modules fixes) (fix_name f) with
      | Some m => if fm_enabled m then register r f else r
      | None => register r f
      end) registry_new specs.

(** * Facts *)

(** ** Snippets *)
Lemma floor_boundary_le s e : floor_boundary s e ≤ e.
Proof. induction e as [|e IH]; [done|]. simpl. case_match; lia. Qed.

Lemma floor_boundary_ok s e : is_char_boundary s (floor_boundary s e) = true.
Proof. induction e as [|e IH]; [done|]. simpl floor_boundary. case_match; done. Qed.

Lemma truncate_chars_bounded s max :
  length (chars (truncate_snippet s max Chars)) ≤ max ∧
  (length (chars s) ≤ max → truncate_snippet s max Chars = s).
Proof.
  unfold truncate_snippet. destruct (Nat.leb_spec (length (chars s)) max); [done|].
  split; [|lia]. destruct (Nat.ltb_spec max 3).
  - rewrite chars_take, length_take. lia.
  - rewrite chars_app by done. rewrite chars_take, length_app, length_take.
    change (length (chars (lit "..."))) with 3. lia.
Qed.

Lemma truncate_bytes_bounded s max :
  length (truncate_snippet s max Bytes) ≤ max + 3.
Proof.
  unfold truncate_snippet. destruct (Nat.leb_spec (length s) max); [lia|].
  pose proof (floor_boundary_le s max).
  destruct (Nat.ltb_spec max 3); [rewrite length_take; lia|].
  rewrite length_app, length_take. change (length (lit "...")) with 3. lia.
Qed.

(** ** What the registry runs is the list of its enabled fixes *)
Section RegistryFacts.
Context `{Serde}.
Implicit Types (r : FixRegistry) (f : ResponseFix) (fs : list ResponseFix).

Fixpoint run_ctx fs (request result : Value) (log : list LogRecord)
    : option (Value * list LogRecord) :=
  match fs with
  | [] => Some (result, log)
  | f :: fs' =>
      if applies_with_context f result request then
        outcome ← apply_with_context f result request;
        match outcome with
        | Ok (new_result, action) =>
            run_ctx fs' request new_result (log ++ [(fix_name f, action, log_level f)])
        | Err error =>
            run_ctx fs' request result
              (log ++ [(fix_name f, fixer_error_action result error, log_level f)])
        end
      else run_ctx fs' request result log
  end.

Definition live r : list ResponseFix := filter (λ f, is_enabled r (fix_name f) = true) (reg_fixes r).

Lemma apply_fixes_ctx_live r fs request result log :
  apply_fixes_ctx_go r fs request result log
  = run_ctx (filter (λ f, is_enabled r (fix_name f) = true) fs) request result log.
Proof using.
  revert result log. induction fs as [|f fs IH]; intros result log; [done|].
  rewrite filter_cons. simpl. destruct (is_enabled r (fix_name f)); simpl; [|apply IH].
  destruct (applies_with_context f result request); [|apply IH].
  destruct (apply_with_context f result request) as [[[v a]|e]|]; simpl; [apply IH..|done].
Qed.

Lemma apply_fixes_with_context_live r response request :
  apply_fixes_with_context r response request = run_ctx (live r) request response [].
Proof using. apply apply_fixes_ctx_live. Qed.

Lemma is_enabled_set r name b name' :
  is_enabled (set_enabled r name b) name' =
    if decide (name = name') then (if reg_enabled r !! name then b else false) else is_enabled r name'.
Proof using.
  unfold is_enabled, set_enabled. destruct (reg_enabled r !! name) eqn:E; simpl.
  - rewrite lookup_insert. by case_decide.
  - case_decide; subst; [by rewrite E|done].
Qed.

Lemma reg_fixes_set_enabled r name b : reg_fixes (set_enabled r name b) = reg_fixes r.
Proof using. unfold set_enabled. by destruct (reg_enabled r !! name). Qed.

(** Disabling a fix is the same as never having registered it. *)
Theorem disabled_is_absent r name response request :
  apply_fixes_with_context (set_enabled r name false) response request =
  apply_fixes_with_context
    (mkRegistry (filter (λ f, fix_name f ≠ name) (reg_fixes r)) (reg_enabled r)) response request.
Proof using.
  rewrite !apply_fixes_with_context_live. f_equal. unfold live. rewrite reg_fixes_set_enabled.
  simpl. induction (reg_fixes r) as [|f fs IH]; [done|]. rewrite !filter_cons.
  rewrite is_enabled_set. destruct (decide (name = fix_name f)) as [->|Hne].
  - rewrite decide_False by (by destruct (reg_enabled r !! _)).
    rewrite (decide_False (P := fix_name f ≠ fix_name f)) by auto. exact IH.
  - rewrite (decide_True (P := fix_name f ≠ name)) by done. rewrite filter_cons.
    change (is_enabled (mkRegistry _ (reg_enabled r)) (fix_name f)) with (is_enabled r (fix_name f)).
    case_decide; by rewrite IH.
Qed.

Lemma run_ctx_app pre post request v log :
  run_ctx (pre ++ post) request v log = '(v', log') ← run_ctx pre request v log; run_ctx post request v' log'.
Proof using.
  revert v log. induction pre as [|f pre IH]; intros v log; [done|]. simpl.
  destruct (applies_with_context f v request); [|apply IH].
  destruct (apply_with_context f v request) as [[[v' a]|e]|]; simpl; [apply IH..|done].
Qed.

Lemma run_ctx_log fs request v log log' :
  fst <$> run_ctx fs request v log = fst <$> run_ctx fs request v log'.
Proof using.
  revert v log log'. induction fs as [|f fs IH]; intros v log log'; [done|]. simpl.
  destruct (applies_with_context f v request); [|apply IH].
  destruct (apply_with_context f v request) as [[[v' a]|e]|]; simpl; [apply IH..|done].
Qed.

(** A fixer that reports an error leaves the response as it found it: the
    final response is the one of the registry without that fixer. *)
Theorem erring_fix_is_noop pre f post request v v1 log1 e :
  run_ctx pre request v [] = Some (v1, log1) →
  apply_with_context f v1 request = Some (Err e) →
  fst <$> run_ctx (pre ++ f :: post) request v [] = fst <$> run_ctx (pre ++ post) request v [].
Proof using.
  intros Hpre He. rewrite !run_ctx_app, Hpre. simpl. rewrite He. simpl.
  destruct (applies_with_context f v1 request); [apply run_ctx_log|done].
Qed.

(** ** Configuration *)
Lemma is_enabled_configure r cfg f :
  f ∈ reg_fixes r →
  is_enabled (configure r cfg) (fix_name f) =
    match module_entry cfg (fix_name f) with
    | Some c => fm_enabled c
    | None => is_enabled r (fix_name f)
    end.
Proof using.
  unfold is_enabled, configure. simpl. generalize (reg_enabled r) as en.
  induction (reg_fixes r) as [|g fs IH] using rev_ind; intros en Hin; [set_solver|].
  rewrite foldl_app. simpl. set (en' := foldl _ en fs) in *.
  destruct (decide (fix_name g = fix_name f)) as [Hn|Hn].
  - rewrite Hn. destruct (module_entry cfg (fix_name f)) as [c|] eqn:E.
    + by rewrite lookup_insert_eq.
    + unfold en'. clear -E Hn. induction fs as [|x fs IH] using rev_ind; [done|].
      rewrite foldl_app. simpl. destruct (decide (fix_name x = fix_name f)) as [Hx|Hx].
      * by rewrite Hx, E.
      * destruct (module_entry cfg (fix_name x)); [by rewrite lookup_insert_ne|done].
  - assert (f ∈ fs) as Hf by (apply elem_of_app in Hin as [?|?]; [done|set_solver]).
    specialize (IH en Hf). fold en' in IH. rewrite <- IH.
    destruct (module_entry cfg (fix_name g)); [by rewrite lookup_insert_ne|done].
Qed.

Lemma register_all_app fs f : register_all (fs ++ [f]) = register (register_all fs) f.
Proof using. unfold register_all. by rewrite foldl_app. Qed.

Lemma register_all_spec fs :
  reg_fixes (register_all fs) = fs ∧
  ∀ f, f ∈ fs → is_enabled (register_all fs) (fix_name f) = true.
Proof using.
  induction fs as [|f fs [IH1 IH2]] using rev_ind; [split; [done|set_solver]|].
  rewrite register_all_app. unfold register. simpl. split; [by rewrite IH1|].
  intros g Hg. unfold is_enabled in *. simpl. rewrite lookup_insert. case_decide; [done|].
  apply IH2. apply elem_of_app in Hg as [?|Hg]; [done|]. set_solver.
Qed.

Definition module_on (c : FixesConfig) (f : ResponseFix) : bool :=
  match module_entry (modules c) (fix_name f) with Some m => fm_enabled m | None => true end.

Lemma registry_from_config_register_all specs c :
  fixes_enabled c = true →
  registry_from_config specs c = register_all (filter (λ f, module_on c f = true) specs).
Proof using.
  intros He. unfold registry_from_config. rewrite He. simpl. unfold register_all.
  induction specs as [|f specs IH] using rev_ind; [done|].
  rewrite foldl_app, filter_app, foldl_app, <- IH. simpl. rewrite filter_cons. unfold module_on.
  destruct (module_entry (modules c) (fix_name f)) as [m|]; [destruct (fm_enabled m)|]; done.
Qed.

Lemma live_register_all fs : live (register_all fs) = fs.
Proof using.
  destruct (register_all_spec fs) as [E Hen]. unfold live. rewrite E.
  apply filter_all, Forall_forall. auto.
Qed.

Lemma live_configure_register_all fs c :
  live (configure (register_all fs) (modules c)) = filter (λ f, module_on c f = true) fs.
Proof using.
  destruct (register_all_spec fs) as [E Hen]. unfold live. simpl. rewrite E.
  assert (Forall (λ f, is_enabled (configure (register_all fs) (modules c)) (fix_name f) = module_on c f) fs)
    as HF.
  { apply Forall_forall. intros f Hf. rewrite is_enabled_configure by (by rewrite E).
    unfold module_on. destruct (module_entry _ _); [done|by apply Hen]. }
  clear E Hen. generalize dependent (configure (register_all fs) (modules c)). intros r HF.
  induction HF as [|f fs Hf _ IH]; [done|]. rewrite !filter_cons, Hf. by rewrite IH.
Qed.

(** Building a registry from the configuration and configuring the default
    registry run the same fixes. *)
Lemma registry_from_config_equiv specs c response request :
  fixes_enabled c = true →
  apply_fixes_with_context (registry_from_config specs c) response request =
  apply_fixes_with_context (configure (register_all specs) (modules c)) response request.
Proof using.
  intros He. rewrite !apply_fixes_with_context_live, live_configure_register_all.
  by rewrite registry_from_config_register_all, live_register_all.
Qed.
End RegistryFacts.
