(* ===== verification/Traverse.v ===== *)
(** * Fallible in-place traversals of a response

    The fixers walk [choices[*].message.tool_calls[*]] through mutable
    borrows, stop at the first error ([?]) and may panic on a slice.  A walk
    threads the repairs collected so far; what it has mutated is the returned
    value. *)
From S2P Require Import Prelude Json FixTypes.

(** [None] is a panic. *)
Definition outcome (A : Type) : Type := option (result FixError A).
#[export] Instance outcome_ret : MRet outcome := λ A a, Some (Ok a).
#[export] Instance outcome_bind : MBind outcome := λ A B f m,
  match m with
  | Some (Ok a) => f a
  | Some (Err e) => Some (Err e)
  | None => None
  end.

Definition Visit : Type := Value → list FixAction → outcome (Value * list FixAction).

(** [if let Some(x) = v.get_mut(k) { .. }] *)
Definition visit_key (k : str) (f : Visit) : Visit := λ v s,
  match get v k with
  | Some x => '(x', s') ← f x s; mret (set_key v k x', s')
  | None => mret (v, s)
  end.

Fixpoint visit_list (f : Visit) (l : list Value) (s : list FixAction)
    : outcome (list Value * list FixAction) :=
  match l with
  | [] => mret ([], s)
  | x :: l =>
      '(x', s1) ← f x s;
      '(l', s2) ← visit_list f l s1;
      mret (x' :: l', s2)
  end.

(** [if let Some(l) = v.as_array_mut() { for x in l { .. } }] *)
Definition visit_each (f : Visit) : Visit := λ v s,
  match v with
  | VArray l => '(l', s') ← visit_list f l s; mret (VArray l', s')
  | _ => mret (v, s)
  end.

(** A visit of [choice.side.tool_calls[*]], and of one side of every choice. *)
Definition visit_calls (side : str) (f : Visit) : Visit :=
  visit_key side (visit_key (lit "tool_calls") (visit_each f)).

Definition visit_choices (f : Visit) : Visit := visit_key (lit "choices") (visit_each f).

(** ** Reading a response by path *)
Definition calls_of (choice : Value) (side : str) : option (list Value) :=
  m ← get choice side; get m (lit "tool_calls") ≫= as_array.

(** [response.choices[i].side.tool_calls] as an array. *)
Definition tool_calls_at (response : Value) (i : nat) (side : str) : option (list Value) :=
  choices ← get response (lit "choices") ≫= as_array;
  choice ← choices !! i;
  calls_of choice side.

Definition arguments_of (call : Value) : option str :=
  f ← get call (lit "function"); get f (lit "arguments") ≫= as_str.

Definition finish_repairs (m : outcome (Value * list FixAction)) : outcome (Value * FixAction) :=
  '(response, repairs) ← m;
  mret (response, aggregate_repairs repairs).

(** * Facts *)
Lemma outcome_bind_Ok {A B} (m : outcome A) (f : A → outcome B) b :
  m ≫= f = Some (Ok b) ↔ ∃ a, m = Some (Ok a) ∧ f a = Some (Ok b).
Proof. destruct m as [[a|e]|]; simpl; naive_solver. Qed.

(** Splits every [x ← m; k = Some (Ok _)] hypothesis into its steps. *)
Ltac inv_outcome :=
  repeat match goal with
  | H : @mbind outcome _ _ _ _ _ = Some (Ok _) |- _ =>
      let a := fresh "a" in let Ha := fresh H in
      apply outcome_bind_Ok in H as (a & Ha & H)
  | H : mret _ = Some (Ok _) |- _ => unfold mret, outcome_ret in H; simplify_eq
  | H : (let '(_, _) := ?a in _) = Some (Ok _) |- _ => destruct a
  end.

(** A relation between what a visit reads and what it leaves. *)
Definition visits (f : Visit) (R : Value → Value → Prop) : Prop :=
  ∀ v s v' s', f v s = Some (Ok (v', s')) → R v v'.

Lemma visit_list_Forall2 f R l s l' s' :
  visits f R → visit_list f l s = Some (Ok (l', s')) → Forall2 R l l'.
Proof.
  intros Hf. revert s l' s'. induction l as [|x l IH]; intros s l' s' H; simpl in H.
  - inv_outcome. constructor.
  - inv_outcome. constructor; [by eapply Hf|by eapply IH].
Qed.

(** Where a visited key leads, and that nothing else changes. *)
Lemma visit_key_visits k f R :
  visits f R →
  visits (visit_key k f) (λ v v',
    (∀ k', k' ≠ k → get v' k' = get v k') ∧
    match get v k with
    | Some x => ∃ x', get v' k = Some x' ∧ R x x'
    | None => v' = v
    end).
Proof.
  intros Hf v s v' s' H. unfold visit_key in H. destruct (get v k) as [x|] eqn:E.
  - inv_outcome. split; [intros k' Hk'|].
    + by rewrite get_set_key, decide_False by done.
    + rewrite get_set_key, decide_True, E by done. simpl. eexists. split; [done|]. by eapply Hf.
  - by inv_outcome.
Qed.

Lemma visit_each_visits f R :
  visits f R →
  visits (visit_each f) (λ v v',
    match as_array v with
    | Some l => ∃ l', as_array v' = Some l' ∧ Forall2 R l l'
    | None => v' = v
    end).
Proof.
  intros Hf v s v' s' H. unfold visit_each in H. destruct v; try by inv_outcome.
  simpl. inv_outcome. eexists. split; [done|]. by eapply visit_list_Forall2.
Qed.

Lemma visit_calls_visits side f R :
  visits f R →
  visits (visit_calls side f) (λ v v',
    (∀ k, k ≠ side → get v' k = get v k) ∧
    option_Forall2 (Forall2 R) (calls_of v side) (calls_of v' side)).
Proof.
  intros Hf v s v' s' Hv.
  pose proof (visit_key_visits side _ _
    (visit_key_visits (lit "tool_calls") _ _ (visit_each_visits _ _ Hf)) v s v' s' Hv) as [Hk H].
  split; [done|]. unfold calls_of. destruct (get v side) as [m|] eqn:E.
  - destruct H as (m' & -> & _ & H). simpl. destruct (get m _) as [tc|] eqn:Et.
    + destruct H as (tc' & -> & H). simpl. destruct (as_array tc) eqn:Ea.
      * destruct H as (l' & -> & H). by constructor.
      * subst. rewrite Ea. constructor.
    + subst. rewrite Et. constructor.
  - subst. rewrite E. constructor.
Qed.

Lemma visit_choices_visits f R :
  visits f R →
  visits (visit_choices f) (λ v v',
    (∀ k, k ≠ lit "choices" → get v' k = get v k) ∧
    option_Forall2 (Forall2 R) (get v (lit "choices") ≫= as_array) (get v' (lit "choices") ≫= as_array)).
Proof.
  intros Hf v s v' s' Hv.
  pose proof (visit_key_visits (lit "choices") _ _ (visit_each_visits _ _ Hf) v s v' s' Hv) as [Hk H].
  split; [done|]. destruct (get v _) as [tc|] eqn:Et.
  - destruct H as (tc' & -> & H). simpl. destruct (as_array tc) eqn:Ea.
    + destruct H as (l' & -> & H). by constructor.
    + subst. rewrite Ea. constructor.
  - subst. rewrite Et. constructor.
Qed.

Lemma tool_calls_at_Forall2 v v' i side R :
  option_Forall2 (Forall2 (λ c c', option_Forall2 (Forall2 R) (calls_of c side) (calls_of c' side)))
    (get v (lit "choices") ≫= as_array) (get v' (lit "choices") ≫= as_array) →
  option_Forall2 (Forall2 R) (tool_calls_at v i side) (tool_calls_at v' i side).
Proof.
  unfold tool_calls_at. intros H. destruct H as [l l' H|]; simpl; [|constructor].
  rewrite Forall2_lookup in H. specialize (H i). destruct H; [done|constructor].
Qed.
