(* ===== verification/NullIndex.v ===== *)
(** * Null tool-call indices (llama-proxy/src/fixes/toolcall_null_index_fix.rs) *)
From S2P Require Import Prelude Json FixTypes Traverse.

Section NullIndex.
Implicit Types (v c : Value) (l : list Value).

Definition needs_index_fix (tool_call : Value) : bool :=
  match get tool_call (lit "index") with
  | None => true
  | Some VNull => true
  | Some (VNumber _) => false
  | Some _ => true
  end.

(** [obj.insert("index", (idx as u32).into())] on an object that needs it. *)
Definition repair_entry (idx : nat) (tool_call : Value) : Value * bool :=
  if needs_index_fix tool_call then
    match tool_call with
    | VObject obj =>
        (VObject (map_insert (lit "index") (VNumber (NInt (Z.of_nat idx mod 2 ^ 32)%Z)) obj), true)
    | _ => (tool_call, false)
    end
  else (tool_call, false).

Fixpoint assign_from (idx : nat) (tool_calls : list Value) : list Value * bool :=
  match tool_calls with
  | [] => ([], false)
  | c :: l =>
      let '(c', fixed_c) := repair_entry idx c in
      let '(l', fixed_l) := assign_from (S idx) l in
      (c' :: l', fixed_c || fixed_l)
  end.
Definition assign_sequential_indices (tool_calls : list Value) : list Value * bool :=
  assign_from 0 tool_calls.

(** One side of a choice: [choice.get_mut(side).get_mut("tool_calls")]. *)
Definition fix_side (side : str) (choice : Value) : Value * bool :=
  match get choice side with
  | Some message =>
      match get message (lit "tool_calls") with
      | Some (VArray tool_calls) =>
          let '(tool_calls', fixed_any) := assign_sequential_indices tool_calls in
          (set_key choice side (set_key message (lit "tool_calls") (VArray tool_calls')), fixed_any)
      | _ => (choice, false)
      end
  | None => (choice, false)
  end.

Definition fix_choice (choice : Value) : Value * bool :=
  let '(choice1, fixed_message) := fix_side (lit "message") choice in
  let '(choice2, fixed_delta) := fix_side (lit "delta") choice1 in
  (choice2, fixed_message || fixed_delta).

Fixpoint fix_tool_calls_in_choices (choices : list Value) : list Value * bool :=
  match choices with
  | [] => ([], false)
  | choice :: choices' =>
      let '(c, fixed_c) := fix_choice choice in
      let '(cs, fixed_cs) := fix_tool_calls_in_choices choices' in
      (c :: cs, fixed_c || fixed_cs)
  end.

Definition side_needs_fix (choice : Value) (side : str) : bool :=
  match (m ← get choice side; tc ← get m (lit "tool_calls"); as_array tc) with
  | Some tool_calls => existsb needs_index_fix tool_calls
  | None => false
  end.

Definition null_index_applies (response : Value) : bool :=
  match get response (lit "choices") ≫= as_array with
  | Some choices =>
      existsb (λ choice, side_needs_fix choice (lit "message") || side_needs_fix choice (lit "delta")) choices
  | None => false
  end.

Definition null_index_action : FixAction :=
  Fixed (lit "tool_calls with null/missing indices")
        (lit "tool_calls with sequential indices (0, 1, 2, ...)").

Definition null_index_apply (response : Value) : Value * FixAction :=
  match get response (lit "choices") with
  | Some (VArray choices) =>
      let '(choices', fixed_any) := fix_tool_calls_in_choices choices in
      let response' := set_key response (lit "choices") (VArray choices') in
      if fixed_any then (response', null_index_action) else (response', NotApplicable)
  | _ => (response, NotApplicable)
  end.

Definition ToolCallNullIndexFix : ResponseFix := {|
  fix_name := lit "toolcall_null_index_fix";
  log_level := Debug;
  applies := null_index_applies;
  apply := λ response, Some (null_index_apply response);
  applies_with_context := default_applies_with_context null_index_applies;
  apply_with_context := default_apply_with_context (λ response, Some (null_index_apply response));
|}.

(** ** What the repair promises for one entry *)

Definition has_numeric_index (c : Value) : Prop := ∃ n, get c (lit "index") = Some (VNumber n).
Definition is_object (c : Value) : Prop := is_Some (as_object c).

Definition repaired (j : nat) (c c' : Value) : Prop :=
  (¬ is_object c ∨ has_numeric_index c → c' = c) ∧
  (is_object c → ¬ has_numeric_index c →
     get c' (lit "index") = Some (VNumber (NInt (Z.of_nat j mod 2 ^ 32)%Z)) ∧
     ∀ k, k ≠ lit "index" → get c' k = get c k).

(** * Facts *)
Lemma needs_index_fix_spec c : needs_index_fix c = false ↔ has_numeric_index c.
Proof.
  unfold needs_index_fix, has_numeric_index.
  destruct (get c (lit "index")) as [[]|]; naive_solver.
Qed.

Lemma repair_entry_repaired j c : repaired j c (repair_entry j c).1.
Proof.
  unfold repaired, repair_entry. destruct (needs_index_fix c) eqn:Hn.
  - assert (¬ has_numeric_index c) by (rewrite <- needs_index_fix_spec; congruence).
    destruct c; simpl; (split; [|intros Ho _; try by destruct Ho]); try done.
    + intros [[]|?]; [by eexists|done].
    + split; [|intros k Hk]; rewrite map_get_insert; [by rewrite decide_True|by rewrite decide_False].
  - apply needs_index_fix_spec in Hn. done.
Qed.

Lemma repair_entry_unchanged j c : (repair_entry j c).2 = false → (repair_entry j c).1 = c.
Proof. unfold repair_entry. destruct (needs_index_fix c); [|done]. by destruct c. Qed.

Lemma repair_entry_idem j c :
  repair_entry j (repair_entry j c).1 = ((repair_entry j c).1, false).
Proof.
  unfold repair_entry at 2 3. destruct (needs_index_fix c) eqn:E; simpl.
  - destruct c; simpl; unfold repair_entry; try by rewrite E.
    unfold needs_index_fix. simpl. by rewrite map_get_insert, decide_True.
  - unfold repair_entry. by rewrite E.
Qed.

Lemma assign_from_imap idx l :
  (assign_from idx l).1 = imap (λ j c, (repair_entry (idx + j) c).1) l.
Proof.
  revert idx. induction l as [|c l IH]; intros idx; [done|]. simpl.
  destruct (repair_entry idx c) as [c' b] eqn:E. specialize (IH (S idx)).
  destruct (assign_from (S idx) l) as [l' b']. simpl in *. rewrite Nat.add_0_r, E, IH. f_equal.
  apply imap_ext. intros j x _. simpl. by rewrite <- plus_n_Sm.
Qed.

Lemma assign_from_unchanged idx l : (assign_from idx l).2 = false → (assign_from idx l).1 = l.
Proof.
  revert idx. induction l as [|c l IH]; intros idx; [done|]. simpl.
  pose proof (repair_entry_unchanged idx c) as Hc. specialize (IH (S idx)).
  destruct (repair_entry idx c) as [c' b], (assign_from (S idx) l) as [l' b']. simpl in *.
  rewrite orb_false_iff. intros [-> ->]. by rewrite Hc, IH.
Qed.

Lemma assign_from_idem idx l :
  assign_from idx (assign_from idx l).1 = ((assign_from idx l).1, false).
Proof.
  revert idx. induction l as [|c l IH]; intros idx; [done|]. simpl.
  pose proof (repair_entry_idem idx c) as Hc. specialize (IH (S idx)).
  destruct (repair_entry idx c) as [c' b], (assign_from (S idx) l) as [l' b']. simpl in *.
  by rewrite Hc, IH.
Qed.

(** ** One side of a choice *)
Definition assigned (l : list Value) : list Value := (assign_sequential_indices l).1.

Lemma set_key_set_key v k x y : set_key (set_key v k x) k y = set_key v k y.
Proof.
  destruct v; simpl; try done. destruct (map_get k m) eqn:E; simpl; [|by rewrite E].
  rewrite map_get_insert, decide_True by done. by rewrite map_insert_twice.
Qed.

Lemma calls_of_fix_side choice side k :
  calls_of (fix_side side choice).1 k =
    if decide (side = k) then assigned <$> calls_of choice k else calls_of choice k.
Proof.
  unfold calls_of, fix_side, assigned. destruct (get choice side) as [m|] eqn:Em; simpl.
  2:{ case_decide; subst; [by rewrite Em|done]. }
  destruct (get m (lit "tool_calls")) as [tc|] eqn:Et; simpl.
  2:{ case_decide; subst; [by rewrite Em; simpl; rewrite Et|done]. }
  destruct tc as [| | | |l|];
    try (simpl; case_decide; subst; [by rewrite Em; simpl; rewrite Et|done]).
  destruct (assign_sequential_indices l) as [l' b] eqn:El. simpl. rewrite get_set_key, Em. simpl.
  case_decide; [|done]. subst. simpl. rewrite get_set_key, decide_True, Et by done. rewrite Em.
  simpl. rewrite Et. simpl. by rewrite El.
Qed.

Lemma fix_side_unchanged choice side : (fix_side side choice).2 = false → (fix_side side choice).1 = choice.
Proof.
  unfold fix_side. destruct (get choice side) as [m|] eqn:Em; [|done].
  destruct (get m (lit "tool_calls")) as [[| | | |l|]|] eqn:Et; try done.
  pose proof (assign_from_unchanged 0 l) as Hl. unfold assign_sequential_indices.
  destruct (assign_from 0 l) as [l' b]. simpl in *. intros ->. rewrite Hl by done.
  by rewrite (set_key_id m), set_key_id.
Qed.

Lemma fix_side_clean choice side :
  match calls_of choice side with Some l => assign_sequential_indices l = (l, false) | None => True end →
  fix_side side choice = (choice, false).
Proof.
  unfold calls_of, fix_side. destruct (get choice side) as [m|] eqn:Em; simpl; [|done].
  destruct (get m (lit "tool_calls")) as [[| | | |l|]|] eqn:Et; simpl; try done.
  intros ->. by rewrite (set_key_id m), set_key_id.
Qed.

Definition a_side (side : str) : Prop := side = lit "message" ∨ side = lit "delta".

Lemma calls_of_fix_choice choice side :
  a_side side → calls_of (fix_choice choice).1 side = assigned <$> calls_of choice side.
Proof.
  unfold fix_choice. pose proof (calls_of_fix_side choice (lit "message") side) as H1.
  destruct (fix_side (lit "message") choice) as [c1 b1].
  pose proof (calls_of_fix_side c1 (lit "delta") side) as H2.
  destruct (fix_side (lit "delta") c1) as [c2 b2]. simpl in *.
  intros [-> | ->]; rewrite H2, H1; done.
Qed.

Lemma fix_choice_unchanged choice : (fix_choice choice).2 = false → (fix_choice choice).1 = choice.
Proof.
  unfold fix_choice. pose proof (fix_side_unchanged choice (lit "message")) as H1.
  destruct (fix_side (lit "message") choice) as [c1 b1].
  pose proof (fix_side_unchanged c1 (lit "delta")) as H2.
  destruct (fix_side (lit "delta") c1) as [c2 b2]. simpl in *.
  rewrite orb_false_iff. intros [-> ->]. by rewrite H2, H1.
Qed.

Lemma fix_choice_idem choice : fix_choice (fix_choice choice).1 = ((fix_choice choice).1, false).
Proof.
  assert (∀ side, a_side side → fix_side side (fix_choice choice).1 = ((fix_choice choice).1, false)) as H.
  { intros side Hs. apply fix_side_clean. rewrite calls_of_fix_choice by done.
    destruct (calls_of choice side) as [l|]; [|done]. apply assign_from_idem. }
  unfold fix_choice at 1. rewrite (H (lit "message")) by by left. by rewrite (H (lit "delta")) by by right.
Qed.

(** ** The choices *)
Lemma fix_choices_map choices :
  (fix_tool_calls_in_choices choices).1 = (λ c, (fix_choice c).1) <$> choices.
Proof.
  induction choices as [|c cs IH]; [done|]. simpl. destruct (fix_choice c) as [c' b].
  destruct (fix_tool_calls_in_choices cs) as [cs' b']. simpl in *. by rewrite IH.
Qed.

Lemma fix_choices_unchanged choices :
  (fix_tool_calls_in_choices choices).2 = false → (fix_tool_calls_in_choices choices).1 = choices.
Proof.
  induction choices as [|c cs IH]; [done|]. simpl. pose proof (fix_choice_unchanged c) as H.
  destruct (fix_choice c) as [c' b], (fix_tool_calls_in_choices cs) as [cs' b']. simpl in *.
  rewrite orb_false_iff. intros [-> ->]. by rewrite H, IH.
Qed.

Lemma fix_choices_idem choices :
  fix_tool_calls_in_choices (fix_tool_calls_in_choices choices).1
  = ((fix_tool_calls_in_choices choices).1, false).
Proof.
  induction choices as [|c cs IH]; [done|]. simpl. pose proof (fix_choice_idem c) as H.
  destruct (fix_choice c) as [c' b], (fix_tool_calls_in_choices cs) as [cs' b']. simpl in *.
  by rewrite H, IH.
Qed.

Lemma null_index_apply_value response :
  (null_index_apply response).1 =
    match get response (lit "choices") with
    | Some (VArray choices) =>
        set_key response (lit "choices") (VArray (fix_tool_calls_in_choices choices).1)
    | _ => response
    end.
Proof.
  unfold null_index_apply. destruct (get response (lit "choices")) as [[]|]; try done.
  destruct (fix_tool_calls_in_choices l) as [cs []]; done.
Qed.

(** Every tool call of both response shapes is repaired by position. *)
Theorem null_index_repairs response i side tool_calls :
  a_side side →
  tool_calls_at response i side = Some tool_calls →
  ∃ tool_calls',
    tool_calls_at (null_index_apply response).1 i side = Some tool_calls' ∧
    length tool_calls' = length tool_calls ∧
    ∀ j c c', tool_calls !! j = Some c → tool_calls' !! j = Some c' → repaired j c c'.
Proof.
  intros Hs Ht. exists (assigned tool_calls). rewrite null_index_apply_value.
  unfold assigned, assign_sequential_indices. rewrite assign_from_imap.
  split; [|split; [by rewrite length_imap|]].
  - unfold tool_calls_at in *. destruct (get response (lit "choices")) as [v|] eqn:Ec; [|done].
    simpl in Ht. destruct v as [| | | |choices|]; try done. simpl in Ht.
    rewrite get_set_key, decide_True, Ec by done. simpl. rewrite fix_choices_map, list_lookup_fmap.
    destruct (choices !! i) as [choice|]; [|done]. simpl in *. rewrite calls_of_fix_choice, Ht by done.
    simpl. unfold assigned, assign_sequential_indices. by rewrite assign_from_imap.
  - intros j c c' Hc. rewrite list_lookup_imap, Hc. intros [= <-]. apply repair_entry_repaired.
Qed.

(** The repair converges in one pass, and reports a fix exactly when it
    changes something that it would then leave alone. *)
Theorem null_index_converges response :
  null_index_apply (null_index_apply response).1 = ((null_index_apply response).1, NotApplicable) ∧
  ((null_index_apply response).2 = NotApplicable → (null_index_apply response).1 = response).
Proof.
  split.
  - rewrite null_index_apply_value. destruct (get response (lit "choices")) as [v|] eqn:Ec.
    2:{ unfold null_index_apply. by rewrite Ec. }
    destruct v as [| | | |choices|]; try by unfold null_index_apply; rewrite Ec.
    unfold null_index_apply. rewrite get_set_key, decide_True, Ec by done. simpl.
    by rewrite fix_choices_idem, set_key_set_key.
  - unfold null_index_apply. destruct (get response (lit "choices")) as [v|] eqn:Ec; [|done].
    destruct v as [| | | |choices|]; try done.
    pose proof (fix_choices_unchanged choices) as H.
    destruct (fix_tool_calls_in_choices choices) as [cs []]; [done|]. simpl in *. intros _.
    by rewrite H, set_key_id.
Qed.
End NullIndex.
