(* ===== verification/BadFilepath.v ===== *)
(** * Duplicate or malformed [filePath] (llama-proxy/src/fixes/toolcall_bad_filepath_fix.rs) *)
From S2P Require Import Prelude Json JsonScan FixTypes Traverse.

Definition SCHEMA_BODY_KEY : str := lit "content".
Definition filepath_key : str := qlit "'filePath':".

(** The walk of [swallowed_quote_in_value] over the chars of the value. *)
Fixpoint swallowed_go (inner : list str) : bool :=
  match inner with
  | [] => false
  | c :: inner' =>
      if bool_decide (c = [backslash]) then
        match inner' with
        | [] => true
        | d :: inner'' => if bool_decide (d = [quote]) then true else swallowed_go inner''
        end
      else swallowed_go inner'
  end.

(** [value_raw[1..value_raw.len() - 1]]; [None] is the panic of a slice that
    is out of order or off a char boundary. *)
Definition swallowed_quote_in_value (value_raw : str) : option bool :=
  if (2 <=? length value_raw) && is_char_boundary value_raw 1
     && is_char_boundary value_raw (length value_raw - 1)
  then Some (swallowed_go (chars (slice value_raw 1 (length value_raw - 1))))
  else None.

(** Some element of the list occurs earlier in it, or in [seen]. *)
Fixpoint any_seen (seen keys : list str) : bool :=
  match keys with
  | [] => false
  | k :: keys' => if bool_decide (k ∈ seen) then true else any_seen (seen ++ [k]) keys'
  end.

(** ** [find_string_end]: a byte offset *)
Fixpoint find_close (cs : list str) (pos : nat) : option nat :=
  match cs with
  | [] => None
  | c :: cs' =>
      if bool_decide (c = [backslash]) then
        match cs' with
        | [] => None
        | d :: cs'' => find_close cs'' (pos + length c + length d)
        end
      else if bool_decide (c = [quote]) then Some (pos + 1)
      else find_close cs' (pos + length c)
  end.

Fixpoint find_open (cs : list str) (pos : nat) : option nat :=
  match cs with
  | [] => None
  | c :: cs' =>
      if is_whitespace c || bool_decide (c = lit ":") then find_open cs' (pos + length c)
      else if bool_decide (c = [quote]) then find_close cs' (pos + 1)
      else None
  end.

Definition find_string_end (s : str) : option nat := find_open (chars s) 0.

Section BadFilepath.
Context `{Serde}.

Definition has_foreign_duplicate (args : str) : bool :=
  match depth1_keys args with
  | None => false
  | Some keys => any_seen [] (filter (λ k, k ≠ lit "filePath") keys)
  end.

Definition is_valid_json (s : str) : bool :=
  match from_str s with Some _ => true | None => false end.

Definition is_malformed (args : str) : bool :=
  negb (is_valid_json args) || (1 <? top_level_key_count args (lit "filePath")).

Definition first_wins_filepath (args : str) : option Value :=
  match top_level_key_spans args (lit "filePath") with
  | [] => None
  | [_] => None
  | first :: _ =>
      if is_char_boundary args (value_start first) && is_char_boundary args (value_end first)
      then from_str (slice args (value_start first) (value_end first))
      else None
  end.

Definition err_no_pattern (args : str) : FixError :=
  ParseError (qlit "unparseable arguments carry no repairable 'filePath':'<value>' pattern: "
              ++ truncate_snippet args 200 Chars).
Definition err_no_close (args : str) : FixError :=
  ParseError (lit "first filePath value has no closing quote: " ++ truncate_snippet args 200 Chars).
Definition err_swallowed (args : str) : FixError :=
  ParseError (lit "first filePath value carries a swallowed quote (dangling backslash before a closing quote) - the value boundary is unknowable: "
              ++ truncate_snippet args 200 Chars).
Definition err_content (args : str) : FixError :=
  RebuildError (qlit "a schema-valid 'content' entry follows the first filePath value - truncating there would delete the file body: "
                ++ truncate_snippet args 200 Chars).
Definition err_candidate (result : str) : FixError :=
  RebuildError (lit "schema-truncation candidate is still invalid JSON: " ++ truncate_snippet result 200 Chars).

Definition fix_arguments (args : str) : outcome str :=
  match from_str args with
  | Some json =>
      let json :=
        match first_wins_filepath args, json with
        | Some first, VObject map => VObject (map_insert (lit "filePath") first map)
        | _, _ => json
        end in
      mret (to_string json)
  | None =>
      match find_sub args filepath_key with
      | None => Some (Err (err_no_pattern args))
      | Some start =>
          let after_colon := drop (start + length filepath_key) args in
          match find_string_end after_colon with
          | None => Some (Err (err_no_close args))
          | Some value_end =>
              match swallowed_quote_in_value (take value_end after_colon) with
              | None => None
              | Some true => Some (Err (err_swallowed args))
              | Some false =>
                  let end_pos := start + length filepath_key + value_end in
                  if existsb (λ key, bool_decide (key = SCHEMA_BODY_KEY)) (keys_after args end_pos)
                  then Some (Err (err_content args))
                  else
                    let result := take end_pos args ++ lit "}" in
                    if is_valid_json result then mret result
                    else Some (Err (err_candidate result))
              end
          end
      end
  end.

(** The body of the innermost loop: one tool call. *)
Definition fix_function : Visit := λ function repairs,
  match get function (lit "arguments") ≫= as_str with
  | Some args =>
      if is_malformed args then
        if has_foreign_duplicate args then mret (function, repairs)
        else
          fixed_args ← fix_arguments args;
          mret (set_key function (lit "arguments") (VString fixed_args),
                repairs ++ [fixed args fixed_args])
      else mret (function, repairs)
  | None => mret (function, repairs)
  end.

Definition apply_checked (response : Value) : outcome (Value * FixAction) :=
  finish_repairs
    (visit_choices (visit_calls (lit "message") (visit_key (lit "function") fix_function)) response []).

Definition bad_filepath_applies (response : Value) : bool :=
  match get response (lit "choices") ≫= as_array with
  | Some choices =>
      existsb (λ choice,
        match (m ← get choice (lit "message"); get m (lit "tool_calls") ≫= as_array) with
        | Some calls =>
            existsb (λ call,
              match (f ← get call (lit "function"); get f (lit "arguments") ≫= as_str) with
              | Some args => is_malformed args
              | None => false
              end) calls
        | None => false
        end) choices
  | None => false
  end.

Definition bad_filepath_apply (response : Value) : option (Value * FixAction) :=
  match apply_checked response with
  | Some (Ok outcome) => Some outcome
  | Some (Err error) =>
      Some (response, failed (truncate_snippet (to_string response) 200 Chars) (show_fix_error error))
  | None => None
  end.

Definition ToolcallBadFilepathFix : ResponseFix := {|
  fix_name := lit "toolcall_bad_filepath";
  log_level := Info;
  applies := bad_filepath_applies;
  apply := bad_filepath_apply;
  applies_with_context := default_applies_with_context bad_filepath_applies;
  apply_with_context := λ response _request, apply_checked response;
|}.

(** * Facts *)

(** ** Where the value ends *)
Lemma find_close_end cs pos e :
  find_close cs pos = Some e →
  ∃ cs1 cs2, cs = cs1 ++ [quote] :: cs2 ∧ e = pos + length (concat cs1) + 1.
Proof using.
  revert pos. induction cs as [cs IH] using (induction_ltof1 _ (@length str)); unfold ltof in IH.
  intros pos E. destruct cs as [|c cs]; [done|]. simpl in E. case_bool_decide as Hb.
  - destruct cs as [|d cs]; [done|]. apply IH in E as (cs1 & cs2 & -> & ->); [|simpl; lia].
    exists (c :: d :: cs1), cs2. split; [done|]. simpl. rewrite !length_app. lia.
  - case_bool_decide as Hq.
    + simplify_eq. exists [], cs. simpl. split; [done|lia].
    + apply IH in E as (cs1 & cs2 & -> & ->); [|simpl; lia].
      exists (c :: cs1), cs2. split; [done|]. simpl. rewrite length_app. lia.
Qed.

Lemma find_open_end cs pos e :
  find_open cs pos = Some e →
  ∃ cs1 cs2 cs3, cs = cs1 ++ [quote] :: cs2 ++ [quote] :: cs3 ∧
    Forall (λ c, is_whitespace c || bool_decide (c = lit ":") = true) cs1 ∧
    e = pos + length (concat cs1) + 1 + length (concat cs2) + 1.
Proof using.
  revert pos. induction cs as [|c cs IH]; intros pos E; [done|]. simpl in E.
  destruct (is_whitespace c || _) eqn:Hs.
  - apply IH in E as (cs1 & cs2 & cs3 & -> & Hw & ->). exists (c :: cs1), cs2, cs3.
    split; [done|]. split; [by constructor|]. simpl. rewrite length_app. lia.
  - case_bool_decide; [|done]. subst. apply find_close_end in E as (cs2 & cs3 & -> & ->).
    exists [], cs2, cs3. split; [done|]. split; [done|]. simpl. lia.
Qed.

(** The value found: skipped separators, a quote, a body, a quote. *)
Lemma find_string_end_split s e :
  find_string_end s = Some e →
  ∃ seps body rest, s = concat seps ++ quote :: body ++ quote :: rest ∧
    Forall (λ c, is_whitespace c || bool_decide (c = lit ":") = true) seps ∧
    take e s = concat seps ++ quote :: body ++ [quote] ∧ e ≤ length s.
Proof using.
  intros E. apply find_open_end in E as (cs1 & cs2 & cs3 & Ec & Hw & ->).
  assert (s = concat cs1 ++ quote :: concat cs2 ++ quote :: concat cs3) as Es.
  { rewrite <- (concat_chars s), Ec, concat_app. simpl. by rewrite concat_app. }
  exists cs1, (concat cs2), (concat cs3). split_and!; try done.
  - rewrite Es at 1. replace (0 + length (concat cs1) + 1 + length (concat cs2) + 1)
      with (length (concat cs1 ++ quote :: concat cs2 ++ [quote]))
      by (rewrite length_app; simpl; rewrite length_app; simpl; lia).
    replace (concat cs1 ++ quote :: concat cs2 ++ quote :: concat cs3)
      with ((concat cs1 ++ quote :: concat cs2 ++ [quote]) ++ concat cs3)
      by (rewrite <- app_assoc; simpl; by rewrite <- app_assoc).
    by rewrite take_app_length.
  - rewrite Es, length_app. simpl. rewrite length_app. simpl. lia.
Qed.

(** The slice of [swallowed_quote_in_value] is out of a char boundary exactly
    when the value region starts with a multibyte char. *)
Definition starts_multibyte (s : str) : Prop := ∃ c, s !! 1 = Some c ∧ is_cont c = true.

Lemma swallowed_quote_panics s e :
  find_string_end s = Some e →
  swallowed_quote_in_value (take e s) = None ↔ starts_multibyte s.
Proof using.
  intros E. apply find_string_end_split in E as (seps & body & rest & Es & _ & Et & He).
  set (raw := take e s) in *.
  assert (2 ≤ length raw) as Hl by (rewrite Et, length_app; simpl; rewrite length_app; simpl; lia).
  assert (is_char_boundary raw (length raw - 1) = true) as Hend.
  { assert (raw !! (length raw - 1) = Some quote) as Hq.
    { rewrite Et. replace (concat seps ++ quote :: body ++ [quote])
        with ((concat seps ++ quote :: body) ++ [quote]) by (by rewrite <- app_assoc).
      rewrite length_app. simpl. rewrite lookup_app_r by lia.
      by replace (_ - _ - _) with 0 by lia. }
    unfold is_char_boundary. rewrite Hq. by destruct (length raw - 1). }
  assert (s !! 1 = raw !! 1) as E1.
  { unfold raw. symmetry. apply lookup_take_lt. unfold raw in Hl. rewrite length_take in Hl. lia. }
  unfold swallowed_quote_in_value, starts_multibyte. rewrite Hend, E1, (proj2 (Nat.leb_le _ _) Hl).
  unfold is_char_boundary. destruct (raw !! 1) as [c|] eqn:Ec.
  - rewrite andb_true_r. simpl. destruct (is_cont c) eqn:Hc; simpl.
    + split; [by exists c|done].
    + split; [done|]. intros (c' & Hc' & Hcont). congruence.
  - apply lookup_ge_None in Ec. lia.
Qed.

Lemma swallowed_quote_total s e :
  find_string_end s = Some e → ¬ starts_multibyte s →
  swallowed_quote_in_value (take e s) = Some (swallowed_go (chars (slice (take e s) 1 (length (take e s) - 1)))).
Proof using.
  intros E Hm. rewrite <- (swallowed_quote_panics s e E) in Hm.
  unfold swallowed_quote_in_value in *. by destruct (_ && _).
Qed.

(** ** The repair of one arguments string *)

Lemma is_valid_json_spec s : is_valid_json s = true ↔ is_Some (from_str s).
Proof using. unfold is_valid_json. by destruct (from_str s); split; [eexists| |done|intros []]. Qed.

(** The steps of an unparseable input, up to the end of the value. *)
Lemma fix_arguments_invalid args start value_end :
  from_str args = None →
  find_sub args filepath_key = Some start →
  let after_colon := drop (start + length filepath_key) args in
  let end_pos := start + length filepath_key + value_end in
  find_string_end after_colon = Some value_end →
  fix_arguments args =
    match swallowed_quote_in_value (take value_end after_colon) with
    | None => None
    | Some true => Some (Err (err_swallowed args))
    | Some false =>
        if existsb (λ key, bool_decide (key = SCHEMA_BODY_KEY)) (keys_after args end_pos)
        then Some (Err (err_content args))
        else if is_valid_json (take end_pos args ++ lit "}") then Some (Ok (take end_pos args ++ lit "}"))
             else Some (Err (err_candidate (take end_pos args ++ lit "}")))
    end.
Proof using. intros Hn Hs ac ep He. unfold fix_arguments. rewrite Hn, Hs. cbv zeta. fold ac. by rewrite He. Qed.

(** The repair panics on exactly one shape of input: an unparseable one whose
    first [filePath] value is separated from its colon by a multibyte
    whitespace char. *)
Theorem fix_arguments_panics args :
  fix_arguments args = None ↔
  from_str args = None ∧
  ∃ start value_end,
    find_sub args filepath_key = Some start ∧
    find_string_end (drop (start + length filepath_key) args) = Some value_end ∧
    starts_multibyte (drop (start + length filepath_key) args).
Proof using.
  split.
  - intros E. destruct (from_str args) as [v|] eqn:Hn; [unfold fix_arguments in E; by rewrite Hn in E|].
    split; [done|]. destruct (find_sub args filepath_key) as [start|] eqn:Hs;
      [|unfold fix_arguments in E; by rewrite Hn, Hs in E].
    destruct (find_string_end (drop (start + length filepath_key) args)) as [e|] eqn:He;
      [|unfold fix_arguments in E; rewrite Hn, Hs in E; cbv zeta in E; by rewrite He in E].
    exists start, e. split_and!; try done.
    rewrite (fix_arguments_invalid args start e Hn Hs He) in E.
    apply (swallowed_quote_panics _ e He).
    destruct (swallowed_quote_in_value _) as [[]|]; [done| |done].
    destruct (existsb _ _); [done|]. by destruct (is_valid_json _).
  - intros (Hn & start & e & Hs & He & Hm). rewrite (fix_arguments_invalid args start e Hn Hs He).
    by apply (swallowed_quote_panics _ e He) in Hm as ->.
Qed.

Lemma filepath_split args start e :
  find_sub args filepath_key = Some start →
  find_string_end (drop (start + length filepath_key) args) = Some e →
  ∃ pre value rest, args = pre ++ filepath_key ++ value ++ rest ∧
    length pre = start ∧ length value = e ∧
    take (start + length filepath_key + e) args = pre ++ filepath_key ++ value.
Proof using.
  intros Hs He. apply find_sub_Some in Hs as [[tail Ht] _].
  apply find_string_end_split in He as (_ & _ & _ & _ & _ & _ & He).
  assert (start ≤ length args) as Hle.
  { destruct (decide (start ≤ length args)); [done|]. rewrite drop_ge in Ht by lia. done. }
  assert (args = take start args ++ filepath_key ++ tail) as Ea by (rewrite <- Ht; by rewrite take_drop).
  assert (drop (start + length filepath_key) args = tail) as Ed.
  { rewrite <- drop_drop, Ht. by rewrite drop_app_length. }
  rewrite Ed in He. exists (take start args), (take e tail), (drop e tail).
  rewrite take_drop, !length_take. split_and!; [done|lia|lia|].
  rewrite Ea at 1. replace (start + length filepath_key + e)
    with (length (take start args ++ filepath_key ++ take e tail)).
  - rewrite <- (take_drop e tail) at 2. rewrite !app_assoc, <- app_assoc. by rewrite take_app_length.
  - rewrite !length_app, !length_take. lia.
Qed.

(** A repaired unparseable input is the original up to the end of the first
    [filePath] value, closed by one brace; it parses, and no entry the walk
    proves after the cut is a file body. *)
Theorem fix_arguments_truncates args r :
  from_str args = None → fix_arguments args = Some (Ok r) →
  ∃ pre value rest,
    args = pre ++ filepath_key ++ value ++ rest ∧
    r = pre ++ filepath_key ++ value ++ lit "}" ∧
    is_Some (from_str r) ∧
    SCHEMA_BODY_KEY ∉ keys_after args (length (pre ++ filepath_key ++ value)).
Proof using.
  intros Hn E. destruct (find_sub args filepath_key) as [start|] eqn:Hs;
    [|unfold fix_arguments in E; by rewrite Hn, Hs in E].
  destruct (find_string_end (drop (start + length filepath_key) args)) as [e|] eqn:He;
    [|unfold fix_arguments in E; rewrite Hn, Hs in E; cbv zeta in E; by rewrite He in E].
  rewrite (fix_arguments_invalid args start e Hn Hs He) in E.
  destruct (swallowed_quote_in_value _) as [[]|]; [done| |done].
  destruct (existsb _ _) eqn:Hc; [done|]. destruct (is_valid_json _) eqn:Hv; [|done].
  assert (r = take (start + length filepath_key + e) args ++ lit "}") as -> by congruence. clear E.
  destruct (filepath_split args start e Hs He) as (pre & value & rest & Ea & Hp & Hl & Et).
  exists pre, value, rest. rewrite Et in Hv |- *. split_and!; [done|by rewrite <- !app_assoc| |].
  - by apply is_valid_json_spec.
  - rewrite !length_app, Hp, Hl, Nat.add_assoc. intros Hin.
    assert (existsb (λ key, bool_decide (key = SCHEMA_BODY_KEY))
      (keys_after args (start + length filepath_key + e)) = true); [|congruence].
    apply existsb_exists. exists SCHEMA_BODY_KEY. split; [by apply list_elem_of_In|by apply bool_decide_eq_true].
Qed.

(** C17: A file body that follows the first [filePath] value is never deleted: with
    well-formed entries after the value, a [content] among them, the repair
    does not succeed. *)
Theorem content_never_deleted args start e w es c rest ks r :
  from_str args = None →
  find_sub args filepath_key = Some start →
  find_string_end (drop (start + length filepath_key) args) = Some e →
  drop (start + length filepath_key + e) args = w ++ after_entries es ++ c :: rest →
  all_ws w → Forall entry_ok es → is_delim c = true → is_json_ws c = false →
  mapM (λ e, decode_key (e_key e)) es = Some ks →
  SCHEMA_BODY_KEY ∈ ks →
  fix_arguments args ≠ Some (Ok r).
Proof using.
  intros Hn Hs He Hd Hw Hok Hc Hcw Hk Hin E.
  rewrite (fix_arguments_invalid args start e Hn Hs He) in E.
  destruct (keys_after_rendered es args _ w c rest ks Hw Hok Hc Hcw Hd Hk) as [more Hm].
  rewrite Hm in E. destruct (swallowed_quote_in_value _) as [[]|]; [done| |done].
  assert (existsb (λ key, bool_decide (key = SCHEMA_BODY_KEY)) (ks ++ more) = true) as Ht; [|by rewrite Ht in E].
  apply existsb_exists. exists SCHEMA_BODY_KEY. split; [|by apply bool_decide_eq_true].
  apply list_elem_of_In. set_solver.
Qed.

(** ** The repair of a response *)

(** What a repaired call may differ in: its arguments, and only malformed ones. *)
Definition call_repaired (c c' : Value) : Prop :=
  (∀ k, k ≠ lit "function" → get c' k = get c k) ∧
  match arguments_of c with
  | Some args =>
      if is_malformed args && negb (has_foreign_duplicate args)
      then ∃ args', fix_arguments args = Some (Ok args') ∧ arguments_of c' = Some args'
      else c' = c
  | None => c' = c
  end.

Lemma fix_function_call : visits (visit_key (lit "function") fix_function) call_repaired.
Proof using.
  intros v s v' s' Hv. unfold visit_key in Hv. unfold call_repaired, arguments_of.
  destruct (get v (lit "function")) as [f|] eqn:Ef; [|by inv_outcome].
  apply outcome_bind_Ok in Hv as ([f' s1] & Hf & Hv). inv_outcome. simpl.
  split; [intros k Hk; by rewrite get_set_key, decide_False|].
  unfold fix_function in Hf. destruct (get f (lit "arguments")) as [a|] eqn:Ea; simpl in *.
  2:{ inv_outcome. by rewrite set_key_id. }
  destruct (as_str a) as [args|] eqn:Es; [|inv_outcome; by rewrite set_key_id].
  destruct (is_malformed args); simpl; [|inv_outcome; by rewrite set_key_id].
  destruct (has_foreign_duplicate args); simpl; [inv_outcome; by rewrite set_key_id|].
  apply outcome_bind_Ok in Hf as (args' & Hfix & Hf). inv_outcome.
  exists args'. split; [done|]. rewrite get_set_key, decide_True, Ef by done. simpl.
  by rewrite get_set_key, decide_True, Ea.
Qed.

(** Whatever the outcome, nothing but malformed [arguments] strings of
    [message] tool calls changes, and an error leaves the whole response. *)
Theorem bad_filepath_apply_minimal response response' action i :
  bad_filepath_apply response = Some (response', action) →
  (∀ k, k ≠ lit "choices" → get response' k = get response k) ∧
  (response' = response ∨
   option_Forall2 (Forall2 call_repaired)
     (tool_calls_at response i (lit "message")) (tool_calls_at response' i (lit "message"))).
Proof using.
  unfold bad_filepath_apply. intros E. destruct (apply_checked response) as [[[v a]|e]|] eqn:Hc; [| |done].
  - injection E as <- <-. unfold apply_checked, finish_repairs in Hc. inv_outcome.
    pose proof (visit_choices_visits _ _ (visit_calls_visits (lit "message") _ _ fix_function_call)
      _ _ _ _ Hc0) as [Hk Hl].
    split; [done|]. right. apply tool_calls_at_Forall2. destruct Hl as [cs cs' Hl|]; constructor.
    eapply Forall2_impl; [done|]. by intros c c' [_ ?].
  - injection E as <- <-. split; [done|by left].
Qed.
End BadFilepath.
