(* ===== verification/MalformedArgs.v ===== *)
(** * Empty-key argument slots (llama-proxy/src/fixes/toolcall_malformed_arguments_fix.rs)

    The [regex] crate is a third-party library: the matches of the fix's
    pattern are the parameter [captures] of class [SlotRegex].  Its law is the
    documented reading of that pattern (a comma or an opening brace, the key
    token of two braces, a quote, a colon, any whitespace) and of iterating
    over matches left to right without overlap. *)
From S2P Require Import Prelude Utf8 Json JsonScan FixTypes Traverse.

(** One match: the whole match and its [key] group, as byte offsets. *)
Record Slot := mkSlot {
  slot_start : nat;
  key_tok_start : nat;
  key_tok_end : nat;
  slot_end : nat;
}.

Class SlotRegex := captures : str → list Slot.

(** A match with the text between it and the previous one. *)
Record Piece := mkPiece {
  gap : str;
  delim : ascii;
  spaces : str;
}.

Definition slot_tail (p : Piece) : str := qlit "':" ++ spaces p.
Definition slot_text (p : Piece) : str := delim p :: lit "{}" ++ slot_tail p.
Definition render_pieces (ps : list Piece) : str := concat ((λ p, gap p ++ slot_text p) <$> ps).

Definition piece_ok (p : Piece) : Prop :=
  (delim p = ","%char ∨ delim p = "{"%char) ∧ Forall (λ g, is_whitespace g = true) (chars (spaces p)).

(** The offsets of consecutive pieces. *)
Fixpoint piece_slots (i : nat) (ps : list Piece) : list Slot :=
  match ps with
  | [] => []
  | p :: ps' =>
      let start := i + length (gap p) in
      let e := start + length (slot_text p) in
      mkSlot start (start + 1) (start + 3) e :: piece_slots e ps'
  end.

Class SlotRegexLaws `{SlotRegex} : Prop :=
  captures_pieces s : ∃ ps tail,
    s = render_pieces ps ++ tail ∧ Forall piece_ok ps ∧ captures s = piece_slots 0 ps.

Definition ToolSchemas : Type := gmap str (list str).

Definition tool_schema (tool : Value) : option (str * list str) :=
  function ← get tool (lit "function");
  let name := default [] (get function (lit "name") ≫= as_str) in
  let parameters :=
    default [] (p ← get function (lit "parameters"); props ← get p (lit "properties");
                obj ← as_object props; Some obj.*1) in
  if bool_decide (name = []) then None else Some (name, parameters).

Definition extract_tool_schemas (request : Value) : ToolSchemas :=
  match get request (lit "tools") ≫= as_array with
  | Some tools =>
      foldl (λ schemas tool,
        match tool_schema tool with
        | Some (name, parameters) => <[name := parameters]> schemas
        | None => schemas
        end) ∅ tools
  | None => ∅
  end.

Section Malformed.
Context `{Serde, SlotRegex}.

Definition is_match (args : str) : bool :=
  match captures args with [] => false | _ => true end.

(** The loop of [splice_empty_key_slots]: [cursor] and the keys left. *)
Fixpoint splice_go (args : str) (slots : list Slot) (missing : list str) (cursor : nat) (out : str)
    : str :=
  match slots with
  | [] => out ++ drop cursor args
  | sl :: slots' =>
      let out := out ++ slice args cursor (slot_start sl) in
      match missing with
      | key :: missing' =>
          let out := out ++ slice args (slot_start sl) (key_tok_start sl) ++ [quote] ++ key
                         ++ slice args (key_tok_end sl) (slot_end sl) in
          splice_go args slots' missing' (slot_end sl) out
      | [] => splice_go args slots' [] (slot_end sl) (out ++ slice args (slot_start sl) (slot_end sl))
      end
  end.

Definition splice_empty_key_slots (args_str : str) (missing : list str) : str :=
  splice_go args_str (captures args_str) missing 0 [].

Definition SENTINEL : str := lit "\u0000llama-proxy-slot".

Definition candidate_keys (args_str : str) (schema_params : list str) : list str :=
  let slots := length (captures args_str) in
  let masked := splice_empty_key_slots args_str (replicate slots SENTINEL) in
  filter (λ k, top_level_key_count masked k = 0) schema_params.

Definition plural (n : nat) : str := if n =? 1 then [] else lit "s".
Definition err_fill (slots n : nat) : FixError :=
  RebuildError (lit "fill invalid: " ++ show_nat slots ++ lit " slots, " ++ show_nat n
                ++ lit " candidate" ++ plural n).
Definition err_ambiguous (slots n : nat) : FixError :=
  RebuildError (lit "ambiguous: " ++ show_nat n ++ lit " candidates for " ++ show_nat slots ++ lit " slots").

Definition fix_arguments (args_str tool_name : str) (schemas : ToolSchemas)
    : result FixError (option str) :=
  if negb (is_match args_str) then Ok None
  else
    match schemas !! tool_name with
    | None => Ok None
    | Some schema_params =>
        let candidates := candidate_keys args_str schema_params in
        let slots := length (captures args_str) in
        let n := length candidates in
        if n =? 0 then Err (RebuildError (lit "no candidate keys"))
        else if n =? slots then
          let fixed_args := splice_empty_key_slots args_str candidates in
          match from_str fixed_args with
          | Some _ => Ok (Some fixed_args)
          | None => Err (err_fill slots n)
          end
        else if n <? slots then Err (err_fill slots n)
        else Err (err_ambiguous slots n)
    end.

(** The body of the loop of [fix_tool_calls], on [tool_call.function]. *)
Definition fix_call_function (schemas : ToolSchemas) : Visit := λ function repairs,
  let tool_name := default [] (get function (lit "name") ≫= as_str) in
  match get function (lit "arguments") ≫= as_str with
  | None => mret (function, repairs)
  | Some args =>
      match fix_arguments args tool_name schemas with
      | Err error => Some (Err error)
      | Ok (Some fixed_args) =>
          mret (set_key function (lit "arguments") (VString fixed_args),
                repairs ++ [fixed args fixed_args])
      | Ok None => mret (function, repairs)
      end
  end.

Definition fix_tool_calls (side : str) (schemas : ToolSchemas) : Visit :=
  visit_calls side (visit_key (lit "function") (fix_call_function schemas)).

Definition fix_choice_sides (schemas : ToolSchemas) : Visit := λ choice repairs,
  '(choice1, repairs1) ← fix_tool_calls (lit "message") schemas choice repairs;
  fix_tool_calls (lit "delta") schemas choice1 repairs1.

Definition fix_response_with_context (response request : Value) : outcome (Value * FixAction) :=
  let schemas := extract_tool_schemas request in
  if bool_decide (schemas = ∅) then mret (response, NotApplicable)
  else finish_repairs (visit_choices (fix_choice_sides schemas) response []).

Definition side_has_trigger (side : option Value) : bool :=
  match (o ← side; get o (lit "tool_calls") ≫= as_array) with
  | Some tool_calls =>
      existsb (λ call, match arguments_of call with Some args => is_match args | None => false end) tool_calls
  | None => false
  end.

Definition any_choice_triggers (response : Value) : bool :=
  match get response (lit "choices") ≫= as_array with
  | Some choices =>
      existsb (λ choice, side_has_trigger (get choice (lit "message"))
                         || side_has_trigger (get choice (lit "delta"))) choices
  | None => false
  end.

Definition ToolcallMalformedArgumentsFix : ResponseFix := {|
  fix_name := lit "toolcall_malformed_arguments";
  log_level := Info;
  applies := any_choice_triggers;
  apply := λ response, Some (response, NotApplicable);
  applies_with_context := λ response request,
    any_choice_triggers response && match get request (lit "tools") with Some _ => true | None => false end;
  apply_with_context := fix_response_with_context;
|}.

(** Every piece with its key filled in, while keys last. *)
Fixpoint render_filled (ps : list Piece) (keys : list str) : str :=
  match ps, keys with
  | p :: ps', k :: keys' =>
      gap p ++ delim p :: quote :: k ++ slot_tail p ++ render_filled ps' keys'
  | ps, [] => render_pieces ps
  | [], _ => []
  end.
End Malformed.

(** ** An executable matcher *)

(** The length of a match at the head of the text. *)
Definition match_spaces (s : str) : option str :=
  match s with
  | c :: s' =>
      if bool_decide (c = ","%char) || bool_decide (c = "{"%char) then
        r ← strip_prefix s' (qlit "{}':");
        Some (concat (take (length (chars r) - length (drop_while is_whitespace (chars r))) (chars r)))
      else None
  | [] => None
  end.

Fixpoint scan_slots (skip i : nat) (s : str) : list Slot :=
  match s with
  | [] => []
  | _ :: s' =>
      match skip with
      | S skip' => scan_slots skip' (S i) s'
      | 0 =>
          match match_spaces s with
          | Some w =>
              let e := i + (5 + length w) in
              mkSlot i (i + 1) (i + 3) e :: scan_slots (4 + length w) (S i) s'
          | None => scan_slots 0 (S i) s'
          end
      end
  end.

Definition scanning_regex : SlotRegex := scan_slots 0 0.

(** * Facts *)

Lemma render_pieces_cons p ps : render_pieces (p :: ps) = gap p ++ slot_text p ++ render_pieces ps.
Proof. unfold render_pieces. simpl. by rewrite <- app_assoc. Qed.

(** ** The matcher obeys the law *)
Lemma drop_while_take {A} (f : A → bool) l :
  Forall (λ x, f x = true) (take (length l - length (drop_while f l)) l).
Proof.
  induction l as [|x l IH]; [constructor|]. simpl. destruct (f x) eqn:E.
  - pose proof (suffix_length _ _ (drop_while_suffix f l)).
    replace (S (length l) - length (drop_while f l)) with (S (length l - length (drop_while f l))) by lia.
    by constructor.
  - replace (S (length l) - length (x :: l)) with 0 by (simpl; lia). constructor.
Qed.

Lemma match_spaces_Some s w :
  match_spaces s = Some w →
  ∃ p r, gap p = [] ∧ spaces p = w ∧ piece_ok p ∧ s = slot_text p ++ r ∧ length (slot_text p) = 5 + length w.
Proof.
  destruct s as [|c s]; [done|]. simpl. destruct (_ || _) eqn:Hc; [|done]. intros E.
  apply bind_Some in E as (r & Hr & E). apply strip_prefix_Some in Hr as ->. injection E as <-.
  set (cs := chars r). set (n := length cs - _).
  exists (mkPiece [] c (concat (take n cs))), (concat (drop n cs)). split_and!; try done.
  - split; simpl.
    + apply orb_true_iff in Hc as [Hc|Hc]; apply bool_decide_eq_true in Hc; auto.
    + unfold cs. rewrite chars_take. apply drop_while_take.
  - unfold slot_text, slot_tail. simpl. f_equal.
    rewrite <- (concat_chars r) at 1. fold cs. rewrite <- (take_drop n cs) at 1. by rewrite concat_app.
Qed.

Lemma scan_slots_head i c s :
  scan_slots 0 i (c :: s) =
    match match_spaces (c :: s) with
    | Some w => mkSlot i (i + 1) (i + 3) (i + (5 + length w)) :: scan_slots (4 + length w) (S i) s
    | None => scan_slots 0 (S i) s
    end.
Proof. done. Qed.

Lemma scan_slots_pieces s skip i :
  skip ≤ length s →
  ∃ ps tail, drop skip s = render_pieces ps ++ tail ∧ Forall piece_ok ps ∧
    scan_slots skip i s = piece_slots (i + skip) ps.
Proof.
  revert skip i. induction s as [|c s IH]; intros skip i Hs; simpl in Hs.
  { exists [], []. by destruct skip. }
  destruct skip as [|skip].
  2:{ destruct (IH skip (S i)) as (ps & tail & E & Hok & El); [lia|]. exists ps, tail.
      split; [done|]. split; [done|]. simpl. rewrite El. f_equal. lia. }
  rewrite drop_0, Nat.add_0_r, scan_slots_head. destruct (match_spaces (c :: s)) as [w|] eqn:Ew.
  - apply match_spaces_Some in Ew as (p & r & Hg & Hw & Hp & Es & Hl).
    destruct (IH (4 + length w) (S i)) as (ps & tail & E & Hok & El).
    { apply (f_equal length) in Es. rewrite length_app, Hl in Es. simpl in Es. lia. }
    exists (p :: ps), tail. split_and!; [|by constructor|].
    + rewrite render_pieces_cons, Hg, <- !app_assoc, <- E. simpl app.
      assert (drop (5 + length w) (c :: s) = r) as Ed by (rewrite Es, <- Hl; apply drop_app_length).
      by rewrite <- Ed in Es.
    + cbn [piece_slots]. rewrite Hg, Hl. simpl length. rewrite El, (Nat.add_0_r i).
      do 2 f_equal. lia.
  - destruct (IH 0 (S i)) as (ps & tail & E & Hok & El); [lia|]. rewrite drop_0 in E.
    destruct ps as [|p ps].
    + exists [], (c :: tail). split; [by rewrite E|]. split; [done|]. by rewrite El.
    + apply Forall_cons in Hok as [Hp Hok].
      exists (mkPiece (c :: gap p) (delim p) (spaces p) :: ps), tail.
      split; [by rewrite E, !render_pieces_cons|]. split; [by constructor|]. rewrite El. simpl.
      by rewrite !Nat.add_0_r, <- !plus_n_Sm.
Qed.

#[export] Instance scanning_regex_laws : @SlotRegexLaws scanning_regex.
Proof.
  intros s. destruct (scan_slots_pieces s 0 0) as (ps & tail & E & Hok & El); [lia|].
  rewrite drop_0 in E. by exists ps, tail.
Qed.

(** ** Splicing *)
Section Splice.
Context `{Serde, SlotRegex}.

Lemma render_filled_nil ps : render_filled ps [] = render_pieces ps.
Proof using. by destruct ps. Qed.

(** The five slices of [args] around one piece that starts at [cursor]. *)
Lemma piece_slices args cursor p rest :
  drop cursor args = gap p ++ slot_text p ++ rest →
  let start := cursor + length (gap p) in
  let e := start + length (slot_text p) in
  slice args cursor start = gap p ∧ slice args start (start + 1) = [delim p] ∧
  slice args (start + 3) e = slot_tail p ∧ slice args start e = slot_text p ∧ drop e args = rest.
Proof using.
  intros E start e. pose proof (drop_app_at _ _ _ _ E) as E1. fold start in E1.
  assert (drop (start + 3) args = slot_tail p ++ rest) as E3.
  { change 3 with (length (delim p :: lit "{}")). apply drop_app_at.
    by rewrite E1. }
  split_and!.
  - by apply slice_at with (slot_text p ++ rest).
  - apply (slice_at args start [delim p] (lit "{}" ++ slot_tail p ++ rest)). by rewrite E1.
  - replace e with (start + 3 + length (slot_tail p)); [by eapply slice_at|].
    unfold e, slot_text. simpl. lia.
  - by eapply slice_at.
  - by eapply drop_app_at.
Qed.

Lemma splice_go_render args ps tail keys cursor out :
  drop cursor args = render_pieces ps ++ tail →
  splice_go args (piece_slots cursor ps) keys cursor out = out ++ render_filled ps keys ++ tail.
Proof using.
  revert keys cursor out. induction ps as [|p ps IH]; intros keys cursor out E.
  { simpl. rewrite E. by destruct keys. }
  rewrite render_pieces_cons, <- !app_assoc in E.
  destruct (piece_slices args cursor p _ E) as (S1 & S2 & S3 & S4 & Ed).
  cbn [piece_slots splice_go slot_start key_tok_start key_tok_end slot_end]. cbv zeta in *.
  destruct keys as [|k keys]; rewrite S1.
  - rewrite S4, IH by done. rewrite render_filled_nil. cbn [render_filled].
    rewrite render_pieces_cons, <- !app_assoc. done.
  - rewrite S2, S3, IH by done. cbn [render_filled]. rewrite <- !app_assoc. cbn [app]. by rewrite <- !app_assoc.
Qed.

Context `{!SlotRegexLaws}.

(** Filling writes each key into its slot and nothing else. *)
Lemma splice_render args :
  ∃ ps tail, args = render_pieces ps ++ tail ∧ Forall piece_ok ps ∧ captures args = piece_slots 0 ps ∧
    ∀ keys, splice_empty_key_slots args keys = render_filled ps keys ++ tail.
Proof using Type*.
  destruct (captures_pieces args) as (ps & tail & E & Hok & Ec). exists ps, tail. split_and!; try done.
  intros keys. unfold splice_empty_key_slots. rewrite Ec. by apply (splice_go_render args ps tail keys 0 []).
Qed.

Lemma length_piece_slots i ps : length (piece_slots i ps) = length ps.
Proof using. revert i. induction ps as [|p ps IH]; intros i; simpl; [done|]. by rewrite IH. Qed.

(** The keys the arguments have of their own, once every slot reads as some key. *)
Definition own_keys (ps : list Piece) (tail : str) : list str :=
  default [] (stream_keys (render_filled ps (replicate (length ps) SENTINEL) ++ tail)).
Definition filled (args : str) (params : list str) (r : str) : Prop :=
  ∃ ps tail keys,
    args = render_pieces ps ++ tail ∧ Forall piece_ok ps ∧ ps ≠ [] ∧
    (∀ k, k ∈ keys ↔ k ∈ params ∧ k ∉ own_keys ps tail) ∧
    keys `sublist_of` params ∧ (NoDup params → NoDup keys) ∧ length keys = length ps ∧
    r = render_filled ps keys ++ tail.

Lemma fix_arguments_Ok args name schemas r :
  fix_arguments args name schemas = Ok (Some r) →
  ∃ params, schemas !! name = Some params ∧ is_match args = true ∧
    candidate_keys args params ≠ [] ∧
    length (candidate_keys args params) = length (captures args) ∧
    r = splice_empty_key_slots args (candidate_keys args params) ∧ is_Some (from_str r).
Proof using.
  unfold fix_arguments. destruct (is_match args); [|done]. simpl.
  destruct (schemas !! name) as [params|]; [|done]. cbv zeta.
  destruct (candidate_keys args params) as [|k ks] eqn:Ek; [done|].
  change (length (k :: ks) =? 0) with false. cbv iota.
  destruct (Nat.eqb_spec (length (k :: ks)) (length (captures args))) as [El|]; [|by destruct (_ <? _)].
  destruct (from_str (splice_empty_key_slots args (k :: ks))) eqn:Ef; [|done].
  intros [= <-]. exists params. rewrite Ek. by split_and!.
Qed.

Lemma count_zero masked k : top_level_key_count masked k = 0 ↔ k ∉ default [] (stream_keys masked).
Proof using.
  unfold top_level_key_count. destruct (stream_keys masked) as [ks|]; cbn; [|by split; [intros _; apply not_elem_of_nil|]].
  rewrite length_zero_iff_nil. split.
  - intros Hn Hin. assert (k ∈ filter (.= k) ks) as Hk by by apply list_elem_of_filter. rewrite Hn in Hk. by apply not_elem_of_nil in Hk.
  - intros Hn. apply filter_none, Forall_forall. intros x Hx ->. done.
Qed.

(** C26: A repair is a bijection: the parameters of the tool's schema that are no key
    of the arguments yet, all of them, in schema order and each once, are as many
    as the slots, and go into them one by one; every other byte is kept and the
    result parses. *)
Theorem empty_keys_filled args name schemas r :
  fix_arguments args name schemas = Ok (Some r) →
  is_Some (from_str r) ∧
  ∃ params, schemas !! name = Some params ∧ filled args params r.
Proof using Type*.
  intros E. apply fix_arguments_Ok in E as (params & Hp & Hm & Hne & Hl & -> & Hv).
  split; [done|]. exists params. split; [done|].
  destruct (splice_render args) as (ps & tail & Ea & Hok & Hc & Hs).
  exists ps, tail, (candidate_keys args params). rewrite Hc, length_piece_slots in Hl. split_and!; try done.
  - intros ->. by destruct (candidate_keys args params).
  - intros k. unfold candidate_keys, own_keys. rewrite list_elem_of_filter, Hc, length_piece_slots, Hs, count_zero. tauto.
  - unfold candidate_keys. apply sublist_filter.
  - intros Hnd. eapply sublist_NoDup; [apply Hnd|]. unfold candidate_keys. apply sublist_filter.
Qed.

(** No guessing: on a malformed string of a known tool, any other number of
    candidates than slots is an error. *)
Theorem empty_keys_no_guess args name schemas params :
  is_match args = true → schemas !! name = Some params →
  length (candidate_keys args params) ≠ length (captures args) →
  ∃ e, fix_arguments args name schemas = Err e.
Proof using.
  intros Hm Hs Hl. unfold fix_arguments. rewrite Hm, Hs. simpl.
  destruct (_ =? 0); [by eexists|]. rewrite (proj2 (Nat.eqb_neq _ _) Hl).
  destruct (_ <? _); by eexists.
Qed.

(** ** A response *)
Definition tool_name_of (call : Value) : str :=
  default [] (f ← get call (lit "function"); get f (lit "name") ≫= as_str).

Definition call_filled (schemas : ToolSchemas) (c c' : Value) : Prop :=
  (∀ k, k ≠ lit "function" → get c' k = get c k) ∧
  match arguments_of c with
  | Some args =>
      match fix_arguments args (tool_name_of c) schemas with
      | Ok (Some args') => arguments_of c' = Some args'
      | Ok None => c' = c
      | Err _ => False
      end
  | None => c' = c
  end.

Lemma fix_call_filled schemas :
  visits (visit_key (lit "function") (fix_call_function schemas)) (call_filled schemas).
Proof using.
  intros v s v' s' Hv. unfold visit_key in Hv. unfold call_filled, arguments_of, tool_name_of.
  destruct (get v (lit "function")) as [f|] eqn:Ef; [|by inv_outcome].
  apply outcome_bind_Ok in Hv as ([f' s1] & Hf & Hv). inv_outcome. simpl.
  split; [intros k Hk; by rewrite get_set_key, decide_False|].
  unfold fix_call_function in Hf. destruct (get f (lit "arguments")) as [a|] eqn:Ea; simpl in *.
  2:{ inv_outcome. by rewrite set_key_id. }
  destruct (as_str a) as [args|] eqn:Es; [|inv_outcome; by rewrite set_key_id].
  destruct (fix_arguments args _ schemas) as [[args'|]|e]; inv_outcome.
  - rewrite get_set_key, decide_True, Ef by done. simpl. by rewrite get_set_key, decide_True, Ea.
  - by rewrite set_key_id.
  - done.
Qed.

Lemma fix_choice_sides_visits schemas :
  visits (fix_choice_sides schemas) (λ c c',
    ∀ side, side = lit "message" ∨ side = lit "delta" →
      option_Forall2 (Forall2 (call_filled schemas)) (calls_of c side) (calls_of c' side)).
Proof using.
  intros v s v' s' Hv side Hside. unfold fix_choice_sides in Hv.
  apply outcome_bind_Ok in Hv as ([v1 s1] & Hm & Hd).
  apply (visit_calls_visits (lit "message") _ _ (fix_call_filled schemas)) in Hm as [K1 F1].
  apply (visit_calls_visits (lit "delta") _ _ (fix_call_filled schemas)) in Hd as [K2 F2].
  destruct Hside as [-> | ->].
  - unfold calls_of at 2. rewrite K2 by done. exact F1.
  - unfold calls_of at 1 in F2. rewrite K1 in F2 by done. exact F2.
Qed.

(** All or nothing: when the repair of a response succeeds, every tool call of
    both shapes has been repaired or needed no repair, and no other field of
    the response changed. *)
Theorem empty_keys_all_or_nothing response request response' action i side :
  fix_response_with_context response request = Some (Ok (response', action)) →
  side = lit "message" ∨ side = lit "delta" →
  (∀ k, k ≠ lit "choices" → get response' k = get response k) ∧
  (extract_tool_schemas request = ∅ ∧ response' = response ∨
   option_Forall2 (Forall2 (call_filled (extract_tool_schemas request)))
     (tool_calls_at response i side) (tool_calls_at response' i side)).
Proof using.
  intros E Hside. unfold fix_response_with_context in E. cbv zeta in E. case_bool_decide as He.
  - unfold mret, outcome_ret in E. simplify_eq. auto.
  - unfold finish_repairs in E. inv_outcome.
    apply (visit_choices_visits _ _ (fix_choice_sides_visits _)) in E0 as [Hk Hl].
    split; [done|]. right. apply tool_calls_at_Forall2. destruct Hl as [cs cs' Hl|]; constructor.
    eapply Forall2_impl; [done|]. intros c c' Hc. by apply Hc.
Qed.
End Splice.
