(* ===== verification/Fixes.v ===== *)
(** * The startup registries (llama-proxy/src/fixes/mod.rs) *)
From S2P Require Import Prelude Json JsonScan FixTypes Config Traverse.
From S2P Require NullIndex BadFilepath MalformedArgs.

Section Fixes.
Context `{Serde, MalformedArgs.SlotRegex}.

(** Registration order: the foundational fix first, the general one last. *)
Definition specs : list ResponseFix :=
  [NullIndex.ToolCallNullIndexFix;
   MalformedArgs.ToolcallMalformedArgumentsFix;
   BadFilepath.ToolcallBadFilepathFix].

Definition create_default_registry : FixRegistry :=
  register (register (register registry_new NullIndex.ToolCallNullIndexFix)
    MalformedArgs.ToolcallMalformedArgumentsFix) BadFilepath.ToolcallBadFilepathFix.

Definition create_registry_from_config (fixes : FixesConfig) : FixRegistry :=
  registry_from_config specs fixes.

(** * Facts *)

(** A fix that only ever rewrites inside [choices]. *)
Definition choices_only (f : ResponseFix) : Prop :=
  ∀ response request response' action k,
    apply_with_context f response request = Some (Ok (response', action)) →
    k ≠ lit "choices" → get response' k = get response k.

Lemma visit_choices_only v s v' s' f k :
  visit_choices f v s = Some (Ok (v', s')) → k ≠ lit "choices" → get v' k = get v k.
Proof using.
  intros E Hk. assert (visits f (λ _ _, True)) as Hf by done.
  apply (visit_choices_visits f _ Hf) in E as [E _]. by apply E.
Qed.

Lemma specs_choices_only : Forall choices_only specs.
Proof using.
  repeat constructor; intros response request response' action k E Hk; simpl in E.
  - unfold default_apply_with_context in E. simpl in E. injection E as E.
    pose proof (NullIndex.null_index_apply_value response) as Hv.
    rewrite E in Hv. simpl in Hv. subst response'.
    destruct (get response (lit "choices")) as [[]|]; try done. by rewrite get_set_key, decide_False.
  - unfold MalformedArgs.fix_response_with_context in E. cbv zeta in E.
    case_bool_decide; [unfold mret, outcome_ret in E; by simplify_eq|].
    unfold finish_repairs in E. inv_outcome. by eapply visit_choices_only.
  - unfold BadFilepath.apply_checked, finish_repairs in E. inv_outcome. by eapply visit_choices_only.
Qed.

Lemma Forall_filter {A} (P Q : A → Prop) `{∀ x, Decision (Q x)} l : Forall P l → Forall P (filter Q l).
Proof using. rewrite !Forall_forall. intros Hl x Hx. apply list_elem_of_filter in Hx as [_ ?]. auto. Qed.

Lemma run_ctx_choices_only fs request v log v' log' k :
  Forall choices_only fs → k ≠ lit "choices" →
  run_ctx fs request v log = Some (v', log') → get v' k = get v k.
Proof using.
  intros Hfs Hk. revert v log. induction Hfs as [|f fs Hf _ IH]; intros v log E; simpl in E.
  - by simplify_eq.
  - destruct (applies_with_context f v request); [|by eapply IH].
    destruct (apply_with_context f v request) as [[[v1 a]|e]|] eqn:Ef; simpl in E; [|by eapply IH|done].
    rewrite (IH _ _ E). by eapply Hf.
Qed.

Lemma default_registry_register_all : create_default_registry = register_all specs.
Proof using. done. Qed.

(** Under every configuration the pipeline of fixes leaves each field of a
    response other than its [choices] alone. *)
Theorem pipeline_choices_only fixes response request response' log k :
  apply_fixes_with_context (create_registry_from_config fixes) response request = Some (response', log) →
  k ≠ lit "choices" → get response' k = get response k.
Proof using.
  intros E Hk. rewrite apply_fixes_with_context_live in E. eapply run_ctx_choices_only; [|done..].
  unfold live, create_registry_from_config.
  assert (Forall choices_only (reg_fixes (registry_from_config specs fixes))) as HF; [|by apply Forall_filter].
  destruct (fixes_enabled fixes) eqn:He.
  - rewrite registry_from_config_register_all by done.
    destruct (register_all_spec (filter (λ f, module_on fixes f = true) specs)) as [-> _].
    apply Forall_filter, specs_choices_only.
  - unfold registry_from_config. rewrite He. constructor.
Qed.

(** The registry built from the configuration runs exactly the fixes that the
    default registry runs once configured. *)
Theorem startup_registry_is_configured_default fixes response request :
  fixes_enabled fixes = true →
  apply_fixes_with_context (create_registry_from_config fixes) response request =
  apply_fixes_with_context (configure create_default_registry (modules fixes)) response request.
Proof using. intros. rewrite default_registry_register_all. by apply registry_from_config_equiv. Qed.
End Fixes.
