(* ===== verification/Framing.v ===== *)
(** * The SSE byte framer (llama-proxy/src/proxy/streaming.rs, [FramingState]) *)
From S2P Require Import Prelude.

Definition LF : ascii := ascii_of_nat 10.
Definition CR : ascii := ascii_of_nat 13.
Definition PENDING_HIGH_WATER : N := 1024 * 1024.

Record FramingState := mkFraming {
  pending : str;
  scan_from : nat;
  cr_held : bool;
}.

Inductive Framed :=
  | Events (out : str) (events : nat)
  | ForceFlush (out : str)
  | Nothing.

Definition framing_new : FramingState := mkFraming [] 0 false.

(** The normalizing loop of [push] over the rest of the chunk: what it appends
    to [pending], and whether it ends on an undecided CR. *)
Fixpoint push_loop (rest : str) : str * bool :=
  match rest with
  | [] => ([], false)
  | c :: rest' =>
      if bool_decide (c = CR) then
        match rest' with
        | [] => ([], true)
        | d :: rest'' =>
            let '(out, held) := push_loop (if bool_decide (d = LF) then rest'' else rest') in
            (LF :: out, held)
        end
      else
        let '(out, held) := push_loop rest' in (c :: out, held)
  end.

Definition push (st : FramingState) (bytes : str) : FramingState :=
  let '(pend, rest) :=
    if cr_held st then
      (pending st ++ [LF],
       match bytes with
       | c :: rest => if bool_decide (c = LF) then rest else bytes
       | [] => []
       end)
    else (pending st, bytes) in
  let '(out, held) := push_loop rest in
  mkFraming (pend ++ out) (scan_from st) held.

(** [buf.windows(2).position(|w| w == "\n\n")] *)
Fixpoint find_double_newline (buf : str) : option nat :=
  match buf with
  | c :: buf' =>
      match buf' with
      | d :: _ => if bool_decide (c = LF) && bool_decide (d = LF) then Some 0
                  else S <$> find_double_newline buf'
      | [] => None
      end
  | [] => None
  end.

(** The scan for the last terminator: its offset and how many were crossed.
    Each turn advances the cursor by two, so [length pending] turns suffice. *)
Fixpoint scan_events (fuel : nat) (pend : str) (cursor : nat) (last : option nat) (events : nat)
    : option nat * nat :=
  match fuel with
  | 0 => (last, events)
  | S fuel' =>
      match find_double_newline (drop cursor pend) with
      | None => (last, events)
      | Some rel =>
          scan_events fuel' pend (Nat.min (cursor + rel + 2) (length pend)) (Some (cursor + rel))
            (S events)
      end
  end.

Definition take_framed (st : FramingState) : Framed * FramingState :=
  if bool_decide (pending st = []) then (Nothing, st)
  else
    let pend := pending st in
    let start := Nat.min (scan_from st) (length pend - 1) in
    match scan_events (length pend) pend start None 0 with
    | (Some p, events) =>
        let rest := drop (p + 2) pend in
        (Events (take (p + 2) pend) events, mkFraming rest (length rest - 1) (cr_held st))
    | (None, _) =>
        if (PENDING_HIGH_WATER <? N.of_nat (length pend))%N then
          let pend := if cr_held st then pend ++ [LF] else pend in
          (ForceFlush (pend ++ [LF; LF]), mkFraming [] 0 false)
        else (Nothing, mkFraming pend (length pend - 1) (cr_held st))
    end.

Definition finish (st : FramingState) : option str * FramingState :=
  let pend := if cr_held st then pending st ++ [LF] else pending st in
  (if bool_decide (pend = []) then None else Some pend, mkFraming [] 0 false).

(** ** The reference: normalize a whole text, then cut it into events *)

(** [text.replace("\r\n", "\n").replace('\r', "\n")]. *)
Fixpoint drop_crlf (s : str) : str :=
  match s with
  | [] => []
  | c :: s' =>
      if bool_decide (c = CR) && bool_decide (head s' = Some LF) then drop_crlf s' else c :: drop_crlf s'
  end.
Definition lf_normalize (s : str) : str := (λ c, if bool_decide (c = CR) then LF else c) <$> drop_crlf s.

(** One event: it ends at its first blank line. *)
Definition is_event (e : str) : Prop := ∃ body, e = body ++ [LF; LF] ∧ find_double_newline e = Some (length body).

(** [s] is the events [es] followed by an unterminated [tail]. *)
Definition parses (s : str) (es : list str) (tail : str) : Prop :=
  s = concat es ++ tail ∧ Forall is_event es ∧ find_double_newline tail = None.

(** The stream takes complete blocks until nothing is left to take; three
    turns are enough ([take_all_done]). *)
Fixpoint take_all (fuel : nat) (st : FramingState) : list Framed * FramingState :=
  match fuel with
  | 0 => ([], st)
  | S fuel' =>
      match take_framed st with
      | (Nothing, st') => ([], st')
      | (f, st') => let '(fs, st'') := take_all fuel' st' in (f :: fs, st'')
      end
  end.

(** The framer over a script of chunks: each is pushed, then everything
    complete is taken. *)
Fixpoint frame_all (st : FramingState) (chunks : list str) : list Framed * FramingState :=
  match chunks with
  | [] => ([], st)
  | c :: chunks' =>
      let '(fs, st1) := take_all 3 (push st c) in
      let '(fs', st2) := frame_all st1 chunks' in
      (fs ++ fs', st2)
  end.

Definition bytes_of (f : Framed) : str :=
  match f with Events out _ => out | ForceFlush out => out | Nothing => [] end.
Definition count_of (f : Framed) : nat :=
  match f with Events _ n => n | ForceFlush _ => 1 | Nothing => 0 end.

(** * Facts *)

(** ** Normalization *)
Definition strip_lf (s : str) : str :=
  match s with c :: s' => if bool_decide (c = LF) then s' else s | [] => [] end.

(** What the rest [s] of a stream normalizes to when a CR is held. *)
Definition continue (held : bool) (s : str) : str :=
  if held then LF :: lf_normalize (strip_lf s) else lf_normalize s.

Lemma lf_normalize_CR s : lf_normalize (CR :: s) = LF :: lf_normalize (strip_lf s).
Proof.
  unfold lf_normalize. destruct s as [|d s]; [done|].
  change (drop_crlf (CR :: d :: s)) with
    (if bool_decide (Some d = Some LF) then drop_crlf (d :: s) else CR :: drop_crlf (d :: s)).
  unfold strip_lf. destruct (decide (d = LF)) as [->|Hd].
  - by rewrite !bool_decide_eq_true_2.
  - by rewrite (bool_decide_eq_false_2 (d = LF)), (bool_decide_eq_false_2 (Some d = Some LF)) by congruence.
Qed.

Lemma lf_normalize_cons c s : c ≠ CR → lf_normalize (c :: s) = c :: lf_normalize s.
Proof.
  intros Hc. unfold lf_normalize. simpl. rewrite (bool_decide_eq_false_2 (c = CR)) by done. simpl.
  by rewrite (bool_decide_eq_false_2 (c = CR)).
Qed.

Lemma push_loop_CR d s :
  push_loop (CR :: d :: s) = (LF :: (push_loop (strip_lf (d :: s))).1, (push_loop (strip_lf (d :: s))).2).
Proof.
  change (push_loop (CR :: d :: s)) with
    (let '(out, held) := push_loop (strip_lf (d :: s)) in (LF :: out, held)).
  by destruct (push_loop _).
Qed.

Lemma push_loop_cons c s : c ≠ CR → push_loop (c :: s) = (c :: (push_loop s).1, (push_loop s).2).
Proof. intros Hc. simpl. rewrite bool_decide_eq_false_2 by done. by destruct (push_loop s). Qed.

Lemma strip_lf_app a b : a ≠ [] → strip_lf (a ++ b) = strip_lf a ++ b.
Proof. destruct a as [|c a]; [done|]. intros _. simpl. by case_bool_decide. Qed.

Lemma length_strip_lf s : length (strip_lf s) ≤ length s.
Proof. destruct s as [|c s]; simpl; [lia|]. case_bool_decide; simpl; lia. Qed.

Lemma push_loop_app a b :
  lf_normalize (a ++ b) = (push_loop a).1 ++ continue (push_loop a).2 b.
Proof.
  remember (length a) as n eqn:Hn. revert a Hn. induction n as [n IH] using lt_wf_ind. intros a ->.
  destruct a as [|c a]; [done|]. destruct (decide (c = CR)) as [->|Hc].
  - destruct a as [|d a]; [simpl app; by rewrite lf_normalize_CR|].
    rewrite push_loop_CR. simpl app at 1. rewrite lf_normalize_CR.
    change (d :: a ++ b) with ((d :: a) ++ b). rewrite strip_lf_app by done. simpl. f_equal.
    eapply IH; [|done]. pose proof (length_strip_lf (d :: a)). simpl in *. lia.
  - rewrite push_loop_cons by done. simpl. rewrite lf_normalize_cons by done. f_equal.
    eapply IH; [|done]. simpl. lia.
Qed.

Lemma continue_push st c b :
  c ≠ [] →
  pending st ++ continue (cr_held st) (c ++ b)
  = pending (push st c) ++ continue (cr_held (push st c)) b.
Proof.
  intros Hc. unfold push. destruct (cr_held st) eqn:Hh.
  - assert (match c with x :: rest => if bool_decide (x = LF) then rest else c | [] => [] end = strip_lf c)
      as -> by done.
    destruct (push_loop (strip_lf c)) as [out held] eqn:E. simpl.
    rewrite strip_lf_app, push_loop_app, E by done. simpl. by rewrite <- !app_assoc.
  - destruct (push_loop c) as [out held] eqn:E. simpl. rewrite push_loop_app, E. simpl.
    by rewrite <- app_assoc.
Qed.

(** ** Terminators *)
Lemma fdn_cons c s :
  find_double_newline (c :: s) =
    if bool_decide (c = LF) && bool_decide (head s = Some LF) then Some 0 else S <$> find_double_newline s.
Proof.
  destruct s as [|d s]; [by rewrite andb_false_r|]. simpl head.
  by rewrite (bool_decide_ext (Some d = Some LF) (d = LF)) by naive_solver.
Qed.

Lemma fdn_app_Some a b i : find_double_newline a = Some i → find_double_newline (a ++ b) = Some i.
Proof.
  revert i. induction a as [|c a IH]; intros i; [done|]. simpl app. rewrite !fdn_cons.
  assert (find_double_newline a ≠ None ∨ head a = Some LF → head (a ++ b) = head a) as Hh
    by (by destruct a; intros []).
  destruct (bool_decide (c = LF)); simpl.
  - case_bool_decide as Ha; [by rewrite Hh, bool_decide_eq_true_2 by auto|].
    intros H. apply fmap_Some in H as (j & Hj & ->). rewrite Hh, bool_decide_eq_false_2 by (rewrite ?Hj; auto).
    by rewrite (IH j Hj).
  - intros H. apply fmap_Some in H as (j & Hj & ->). by rewrite (IH j Hj).
Qed.

Lemma fdn_app_None a b : find_double_newline (a ++ b) = None → find_double_newline a = None.
Proof. destruct (find_double_newline a) eqn:E; [|done]. by rewrite (fdn_app_Some a b n E). Qed.

Lemma fdn_split s i :
  find_double_newline s = Some i →
  s = take i s ++ LF :: LF :: drop (i + 2) s ∧ length (take i s) = i ∧ is_event (take i s ++ [LF; LF]).
Proof.
  intros E. assert (s = take i s ++ LF :: LF :: drop (i + 2) s ∧ length (take i s) = i ∧
    find_double_newline (take i s ++ [LF; LF]) = Some i) as (H1 & H2 & H3).
  { revert i E. induction s as [|c s IH]; intros i; [done|]. rewrite fdn_cons.
    destruct (bool_decide (c = LF) && _) eqn:Eb.
    - intros [= <-]. apply andb_true_iff in Eb as [->%bool_decide_eq_true Hd%bool_decide_eq_true].
      destruct s; [done|]. simpl in Hd. simplify_eq. done.
    - intros H. apply fmap_Some in H as (j & Hj & ->). destruct (IH j Hj) as (I1 & I2 & I3).
      simpl. split; [by f_equal|]. split; [by rewrite I2|].
      assert (head (take j s ++ [LF; LF]) = head s) as Hh.
      { rewrite I1 at 2. by destruct (take j s). }
      change (find_double_newline (c :: (take j s ++ [LF; LF])) = Some (S j)).
      by rewrite fdn_cons, Hh, Eb, I3. }
  split_and!; [done|done|]. exists (take i s). by rewrite H2.
Qed.

Lemma fdn_skip k s :
  find_double_newline (take (k + 1) s) = None → k ≤ length s →
  find_double_newline s = (λ i, k + i) <$> find_double_newline (drop k s).
Proof.
  revert s. induction k as [|k IH]; intros s Hn Hk.
  { rewrite drop_0. by destruct (find_double_newline s). }
  destruct s as [|c s]; [simpl in Hk; lia|]. rewrite Nat.add_1_r in Hn.
  change (take (S (S k)) (c :: s)) with (c :: take (S k) s) in Hn. rewrite fdn_cons in Hn |- *.
  simpl in Hk. change (drop (S k) (c :: s)) with (drop k s).
  assert (head (take (S k) s) = head s) as Hh by (by destruct s). rewrite Hh in Hn.
  destruct (bool_decide (c = LF) && _); [done|].
  rewrite (IH s); [|rewrite Nat.add_1_r; by destruct (find_double_newline (take (S k) s))|lia].
  by destruct (find_double_newline (drop k s)).
Qed.

(** ** Taking the complete events *)
Lemma is_event_app pre e :
  find_double_newline (take (length pre + 1) (pre ++ e)) = None → is_event e → is_event (pre ++ e).
Proof.
  intros Hn (body & -> & Hb). exists (pre ++ body). split; [by rewrite app_assoc|].
  rewrite (fdn_skip (length pre)); [|done|rewrite length_app; lia].
  rewrite drop_app_length, Hb. simpl. by rewrite length_app.
Qed.

Lemma scan_events_parses pend fuel cursor last events :
  length pend ≤ cursor + fuel → cursor ≤ length pend →
  ∃ es tail, parses (drop cursor pend) es tail ∧
    scan_events fuel pend cursor last events =
      (match es with [] => last | _ => Some (cursor + length (concat es) - 2) end, events + length es).
Proof.
  revert cursor last events. induction fuel as [|fuel IH]; intros cursor last events Hf Hc.
  { exists [], []. rewrite drop_ge by lia. split; [done|]. simpl. by rewrite Nat.add_0_r. }
  simpl. destruct (find_double_newline (drop cursor pend)) as [rel|] eqn:E.
  2:{ exists [], (drop cursor pend). simpl. rewrite Nat.add_0_r. done. }
  destruct (fdn_split _ _ E) as (Es & Hl & He). rewrite drop_drop in Es.
  assert (length (drop cursor pend) = length pend - cursor) as HL by apply length_drop.
  rewrite Es, length_app, Hl in HL. simpl in HL. rewrite length_drop in HL.
  assert (cursor + rel + 2 ≤ length pend) as Hb by lia.
  rewrite (Nat.min_l _ _ Hb).
  destruct (IH (cursor + rel + 2) (Some (cursor + rel)) (S events)) as (es & tail & (P1 & P2 & P3) & ->);
    [lia|lia|].
  exists ((take rel (drop cursor pend) ++ [LF; LF]) :: es), tail. split.
  - split_and!; [|by constructor|done]. rewrite Es at 1. simpl. rewrite <- !app_assoc. simpl.
    rewrite Nat.add_assoc, P1. done.
  - cbn [concat length]. rewrite !length_app, Hl.
    f_equal; [|lia]. destruct es as [|e es]; f_equal; [simpl; lia|].
    apply Forall_cons in P2 as [(body & -> & _) _]. simpl. rewrite !length_app. simpl. lia.
Qed.

(** A framer at rest has scanned all it holds. *)
Definition at_rest (st : FramingState) : Prop :=
  find_double_newline (pending st) = None ∧ scan_from st = length (pending st) - 1.
(** One that has received bytes since. *)
Definition fed (st : FramingState) : Prop :=
  ∃ old ext, pending st = old ++ ext ∧ find_double_newline old = None ∧ scan_from st = length old - 1.

Lemma at_rest_fed st : at_rest st → fed st.
Proof. intros [H1 H2]. exists (pending st), []. by rewrite app_nil_r. Qed.

Lemma push_fed st c : at_rest st → fed (push st c).
Proof.
  intros [H1 H2]. unfold push. destruct (cr_held st); destruct (push_loop _) as [out held]; simpl.
  - exists (pending st), (LF :: out). by rewrite <- app_assoc.
  - by exists (pending st), out.
Qed.

Lemma fdn_short s : length s ≤ 1 → find_double_newline s = None.
Proof. destruct s as [|c [|d s]]; simpl; try done. lia. Qed.

Lemma fed_start st :
  fed st →
  let start := Nat.min (scan_from st) (length (pending st) - 1) in
  find_double_newline (take (start + 1) (pending st)) = None.
Proof.
  intros (old & ext & E & Hn & Hs). simpl. destruct (decide (length old ≤ 0)) as [H0|H0].
  - apply fdn_short. rewrite length_take. lia.
  - apply (fdn_app_None _ (drop (Nat.min (scan_from st) (length (pending st) - 1) + 1) old)).
    rewrite E at 2. rewrite Hs. rewrite take_app_le by lia. by rewrite take_drop.
Qed.

(** The whole buffer parsed, whatever part of it had been scanned before. *)
Lemma take_framed_scan st :
  fed st → pending st ≠ [] →
  ∃ es tail, parses (pending st) es tail ∧
    scan_events (length (pending st)) (pending st)
      (Nat.min (scan_from st) (length (pending st) - 1)) None 0
    = (match es with [] => None | _ => Some (length (concat es) - 2) end, length es).
Proof.
  intros Hf Hne. pose proof (fed_start st Hf) as Hn. cbv zeta in Hn.
  set (start := Nat.min (scan_from st) (length (pending st) - 1)) in *. set (pend := pending st) in *.
  assert (start ≤ length pend) as Hle by lia.
  destruct (scan_events_parses pend (length pend) start None 0) as (es & tail & (P1 & P2 & P3) & ->); [lia|lia|].
  assert (length (take start pend) = start) as Hlt by (rewrite length_take; lia).
  destruct es as [|e es].
  - exists [], pend. simpl. split; [|done]. split_and!; [done|constructor|].
    rewrite (fdn_skip start) by done. simpl in P1. by rewrite P1, P3.
  - apply Forall_cons in P2 as [He P2]. exists ((take start pend ++ e) :: es), tail. split.
    + split_and!; [|constructor; [|done]|done].
      * rewrite <- (take_drop start pend) at 1. rewrite P1. simpl. by rewrite <- !app_assoc.
      * apply is_event_app; [|done]. rewrite Hlt.
        assert (take (start + 1) (take start pend ++ e) = take (start + 1) pend) as ->; [|done].
        rewrite <- (take_drop start pend) at 2. rewrite P1. simpl.
        destruct He as (body & -> & _).
        rewrite !take_app, Hlt. replace (start + 1 - start) with 1 by lia.
        by destruct body.
    + simpl. rewrite !length_app, Hlt. f_equal. f_equal.
      destruct He as (body & -> & _). rewrite length_app. simpl. lia.
Qed.

Definition held_lf (st : FramingState) : str := if cr_held st then [LF] else [].

Lemma parses_last es : Forall is_event es → es ≠ [] → 2 ≤ length (concat es).
Proof.
  intros [|e es' (body & -> & _) _] Hne; [done|]. simpl. rewrite !length_app. simpl. lia.
Qed.

Lemma take_framed_spec st :
  fed st →
  match take_framed st with
  | (Events out n, st') =>
      ∃ es, es ≠ [] ∧ length es = n ∧ out = concat es ∧ parses (pending st) es (pending st') ∧
        at_rest st' ∧ cr_held st' = cr_held st
  | (ForceFlush out, st') =>
      (PENDING_HIGH_WATER < N.of_nat (length (pending st)))%N ∧ find_double_newline (pending st) = None ∧
      out = pending st ++ held_lf st ++ [LF; LF] ∧ st' = framing_new
  | (Nothing, st') =>
      find_double_newline (pending st) = None ∧ pending st' = pending st ∧ cr_held st' = cr_held st ∧
      (N.of_nat (length (pending st)) ≤ PENDING_HIGH_WATER)%N ∧ (pending st ≠ [] → at_rest st') ∧ (pending st = [] → st' = st)
  end.
Proof.
  intros Hf. unfold take_framed. case_bool_decide as Hp.
  { rewrite Hp. by split_and!. }
  destruct (take_framed_scan st Hf Hp) as (es & tail & HP & ->).
  destruct es as [|e es].
  - destruct HP as (P1 & _ & P3). simpl in P1. subst tail.
    destruct (N.ltb_spec PENDING_HIGH_WATER (N.of_nat (length (pending st)))) as [Hw|Hw].
    + split_and!; try done. unfold held_lf. destruct (cr_held st); [by rewrite <- app_assoc|done].
    + split_and!; try done.
  - pose proof HP as (P1 & P2 & P3). pose proof (parses_last _ P2 ltac:(done)) as Hl.
    set (es' := e :: es) in *.
    replace (length (concat es') - 2 + 2) with (length (concat es')) by lia.
    assert (drop (length (concat es')) (pending st) = tail) as Ed
      by (rewrite P1; by rewrite drop_app_length).
    exists es'. rewrite Ed. split_and!; try done. rewrite P1. by rewrite take_app_length.
Qed.

(** ** Taking everything *)
Definition settled (st : FramingState) : Prop :=
  at_rest st ∧ (N.of_nat (length (pending st)) ≤ PENDING_HIGH_WATER)%N.

Lemma settled_new : settled framing_new.
Proof. by split. Qed.

Lemma take_framed_rest st :
  at_rest st →
  take_framed st = (Nothing, st) ∧ settled st ∨
  ∃ o, take_framed st = (ForceFlush o, framing_new).
Proof.
  intros Hr. pose proof (take_framed_spec st (at_rest_fed _ Hr)) as H. pose proof Hr as [Hn Hs].
  destruct (take_framed st) as [[o m|o|] st'] eqn:E.
  - exfalso. destruct H as (es & Hne & _ & _ & (P1 & P2 & _) & _).
    destruct es as [|e es]; [done|]. apply Forall_cons in P2 as [(body & -> & Hb) _].
    simpl in P1. rewrite <- app_assoc in P1. rewrite P1 in Hn. by rewrite (fdn_app_Some _ _ _ Hb) in Hn.
  - destruct H as (_ & _ & _ & ->). eauto.
  - left. destruct H as (_ & Hp & Hc & Hw & Hr' & Hst). split; [|done]. f_equal.
    destruct (decide (pending st = [])) as [H0|H0]; [by apply Hst|].
    destruct (Hr' H0) as [_ Hs']. destruct st, st'. simpl in *. subst. congruence.
Qed.

Lemma take_framed_nothing st st' : fed st → take_framed st = (Nothing, st') → settled st'.
Proof.
  intros Hf E. pose proof (take_framed_spec st Hf) as H. rewrite E in H.
  destruct H as (Hn & Hp & Hc & Hw & Hr & Hs). unfold settled. rewrite Hp. split; [|done].
  destruct (decide (pending st = [])) as [H0|H0]; [|by auto]. rewrite (Hs H0).
  destruct Hf as (old & ext & Ho & _ & Hsc).
  rewrite H0 in Ho. symmetry in Ho. apply app_nil in Ho as [-> ->]. split; rewrite H0; [done|by rewrite Hsc].
Qed.

Lemma take_all_settled fuel st : settled st → take_all fuel st = ([], st).
Proof.
  intros [Hr Hw]. destruct fuel as [|fuel]; [done|]. simpl.
  destruct (take_framed_rest st Hr) as [[-> _]|[o E]]; [done|].
  pose proof (take_framed_spec st (at_rest_fed _ Hr)) as H. rewrite E in H. destruct H as [H _]. lia.
Qed.

(** Taking everything is at most one block of events and one forced flush. *)
Lemma take_all_cases st fuel :
  fed st →
  ∃ fs st', take_all (3 + fuel) st = (fs, st') ∧ take_all 3 st = (fs, st') ∧ settled st' ∧
    match take_framed st with
    | (Nothing, st1) => fs = [] ∧ st' = st1
    | (ForceFlush o, _) => fs = [ForceFlush o] ∧ st' = framing_new
    | (Events o n, st1) =>
        fs = [Events o n] ∧ st' = st1 ∨
        ∃ o', take_framed st1 = (ForceFlush o', framing_new) ∧ fs = [Events o n; ForceFlush o'] ∧ st' = framing_new
    end.
Proof.
  intros Hf. pose proof (take_framed_spec st Hf) as H.
  change (take_all (3 + fuel) st) with (take_all (S (S (S fuel))) st). cbn [take_all].
  destruct (take_framed st) as [[o m|o|] st1] eqn:E.
  - destruct H as (es & _ & _ & _ & _ & Hr & _).
    destruct (take_framed_rest st1 Hr) as [[E1 Hs]|[o' E1]]; rewrite E1.
    + exists [Events o m], st1. split_and!; auto.
    + exists [Events o m; ForceFlush o'], framing_new. split_and!; try done; eauto using settled_new.
  - destruct H as (_ & _ & _ & ->). exists [ForceFlush o], framing_new.
    pose proof (take_all_settled (S (S fuel)) framing_new settled_new) as E2. cbn [take_all] in E2.
    split_and!; try done; apply settled_new.
  - exists [], st1. split_and!; try done. by eapply take_framed_nothing.
Qed.

(** Whenever the stream goes back to the backend for more, everything complete
    has been taken and what is held is bounded. *)
Theorem take_all_settles st c fuel :
  at_rest st →
  take_all (3 + fuel) (push st c) = take_all 3 (push st c) ∧
  settled (take_all 3 (push st c)).2.
Proof.
  intros Hr. destruct (take_all_cases (push st c) fuel (push_fed st c Hr)) as (fs & st' & -> & -> & Hs & _).
  done.
Qed.

(** ** The whole script *)
Definition unflushed (f : Framed) : Prop := match f with ForceFlush _ => False | _ => True end.

Lemma parses_app s1 es1 s2 es2 tail :
  parses s1 es1 [] → parses s2 es2 tail → parses (s1 ++ s2) (es1 ++ es2) tail.
Proof.
  intros (-> & F1 & _) (-> & F2 & Ht). split_and!; [|by apply Forall_app|done].
  rewrite concat_app, app_nil_r. by rewrite app_assoc.
Qed.

(** Nothing is lost, added or reordered, and only complete events go out. *)
Lemma frame_all_parses chunks st fs st' :
  settled st → Forall (.≠ []) chunks → frame_all st chunks = (fs, st') → Forall unflushed fs →
  settled st' ∧
  ∃ es, concat (bytes_of <$> fs) = concat es ∧ sum_list (count_of <$> fs) = length es ∧ Forall is_event es ∧
    ∀ b, pending st ++ continue (cr_held st) (concat chunks ++ b)
         = concat es ++ pending st' ++ continue (cr_held st') b.
Proof.
  intros Hs Hc. revert st fs Hs. induction Hc as [|c chunks Hc _ IH]; intros st fs Hs E Hu; cbn [frame_all] in E.
  { simplify_eq. split; [done|]. by exists []. }
  destruct (take_all_cases (push st c) 0 (push_fed st c (proj1 Hs))) as (fs1 & st1 & _ & E1 & Hs1 & Hcase).
  rewrite E1 in E.
  destruct (frame_all st1 chunks) as [fs2 st2] eqn:E2. injection E as <- <-.
  apply Forall_app in Hu as [Hu1 Hu2].
  destruct (IH st1 fs2 Hs1 E2 Hu2) as (Hs2 & es2 & B2 & N2 & V2 & C2). split; [done|].
  pose proof (take_framed_spec (push st c) (push_fed st c (proj1 Hs))) as H.
  assert (∃ es1, concat (bytes_of <$> fs1) = concat es1 ∧ sum_list (count_of <$> fs1) = length es1 ∧
    Forall is_event es1 ∧ pending (push st c) = concat es1 ++ pending st1 ∧
    cr_held st1 = cr_held (push st c)) as (es1 & B1 & N1 & V1 & P1 & H1).
  { destruct (take_framed (push st c)) as [[o n|o|] st3].
    - destruct Hcase as [[-> ->]|(o' & _ & -> & _)]; [|by apply Forall_cons in Hu1 as [_ [Hu1 _]%Forall_cons]].
      destruct H as (es & _ & <- & -> & (P1 & P2 & _) & _ & Hh). exists es. simpl.
      by rewrite app_nil_r, Nat.add_0_r.
    - destruct Hcase as [-> _]. by apply Forall_cons in Hu1 as [].
    - destruct Hcase as [-> ->]. destruct H as (_ & Hp & Hh & _). exists []. by rewrite Hp. }
  exists (es1 ++ es2).
  split_and!.
  - by rewrite fmap_app, !concat_app, B1, B2.
  - rewrite fmap_app, length_app, <- N1, <- N2. clear. induction (count_of <$> fs1); simpl; lia.
  - by apply Forall_app.
  - intros b. simpl. rewrite <- app_assoc, continue_push by done.
    rewrite P1, <- H1, <- app_assoc, C2, concat_app. by rewrite <- app_assoc.
Qed.

(** ** A framer that never has to flush *)
(** No event of a text is larger than the framer may hold. *)
Definition events_fit (s : str) : Prop :=
  ∃ es tail, parses s es tail ∧
    Forall (λ e, (N.of_nat (length e) ≤ PENDING_HIGH_WATER)%N) (es ++ [tail]).

Lemma is_event_found e r : is_event e → find_double_newline (e ++ r) ≠ None.
Proof. intros (body & -> & Hb). by rewrite (fdn_app_Some _ r _ Hb). Qed.

Lemma held_event_bound (fits : str → Prop) es1 es p rest tail :
  (∀ a b, length a ≤ length b → fits b → fits a) →
  Forall is_event es1 → Forall is_event es →
  find_double_newline p = None → find_double_newline tail = None →
  concat es1 ++ p ++ rest = concat es ++ tail → Forall fits (es ++ [tail]) → fits p.
Proof.
  intros Hmono F1. revert es. induction F1 as [|e1 es1 He1 _ IH]; intros es F Hp Ht E Hfit.
  - destruct F as [|e es He F]; simpl in E.
    + apply Forall_app in Hfit as [_ Hfit]. apply Forall_cons in Hfit as [Hfit _].
      apply (Hmono p tail); [|done]. rewrite <- E, length_app. lia.
    + apply Forall_cons in Hfit as [Hfit _]. destruct (decide (length p ≤ length e)) as [Hl|Hl]; [by eapply Hmono|].
      exfalso. apply (is_event_found e (drop (length e) p) He). rewrite <- app_assoc in E.
      assert (e ++ drop (length e) p = p) as ->; [|done].
      apply (f_equal (take (length e))) in E. rewrite take_app_length, take_app_le in E by lia.
      rewrite <- E at 1. apply take_drop.
  - destruct F as [|e es He F]; simpl in E.
    + exfalso. rewrite <- app_assoc in E. rewrite <- E in Ht. by apply (is_event_found e1 _ He1) in Ht.
    + destruct He1 as (b1 & -> & H1), He as (b & -> & H2). rewrite <- !app_assoc in E.
      pose proof (fdn_app_Some _ (concat es1 ++ p ++ rest) _ H1) as K1. rewrite <- app_assoc, E in K1.
      pose proof (fdn_app_Some _ (concat es ++ tail) _ H2) as K2. rewrite <- app_assoc in K2.
      rewrite K2 in K1. injection K1 as K1. apply app_inj_1 in E as [-> E]; [|done].
      simpl in E. injection E as E. apply Forall_cons in Hfit as [_ Hfit]. by eapply IH.
Qed.

(** With events that fit, a full buffer always holds a terminator. *)
Lemma full_holds_terminator es0 p rest :
  events_fit (concat es0 ++ p ++ rest) → Forall is_event es0 → find_double_newline p = None →
  (N.of_nat (length p) ≤ PENDING_HIGH_WATER)%N.
Proof.
  intros (es & tail & (P1 & P2 & P3) & Hfit) F1 Hp.
  refine (held_event_bound (λ e, (N.of_nat (length e) ≤ PENDING_HIGH_WATER)%N) es0 es _ _ tail _ F1 P2 Hp P3 P1 Hfit).
  intros a b. lia.
Qed.

Lemma frame_all_unflushed chunks st fs st' es0 :
  settled st → Forall (.≠ []) chunks → frame_all st chunks = (fs, st') → Forall is_event es0 →
  events_fit (concat es0 ++ pending st ++ continue (cr_held st) (concat chunks)) → Forall unflushed fs.
Proof.
  intros Hs Hc. revert st fs es0 Hs. induction Hc as [|c chunks Hc _ IH]; intros st fs es0 Hs E F0 Hfit; cbn [frame_all] in E.
  { by simplify_eq. }
  destruct (take_all_cases (push st c) 0 (push_fed st c (proj1 Hs))) as (fs1 & st1 & _ & E1 & Hs1 & Hcase).
  rewrite E1 in E. destruct (frame_all st1 chunks) as [fs2 st2] eqn:E2. injection E as <- <-. simpl in Hfit.
  rewrite continue_push in Hfit by done.
  pose proof (take_framed_spec (push st c) (push_fed st c (proj1 Hs))) as H.
  destruct (take_framed (push st c)) as [[o n|o|] st3].
  - destruct H as (es & _ & _ & _ & (P1 & P2 & P3) & Hr & Hh).
    rewrite P1, <- Hh, <- app_assoc, (app_assoc (concat es0)), <- concat_app in Hfit.
    assert (Forall is_event (es0 ++ es)) as F by by apply Forall_app.
    destruct Hcase as [[-> ->]|(o' & E3 & _)]; [constructor; [done|by eapply IH]|].
    pose proof (take_framed_spec st3 (at_rest_fed _ Hr)) as H3. rewrite E3 in H3. destruct H3 as [Hw _].
    pose proof (full_holds_terminator _ _ _ Hfit F P3). lia.
  - destruct H as (Hw & Hn & _). pose proof (full_holds_terminator _ _ _ Hfit F0 Hn). lia.
  - destruct Hcase as [-> ->]. destruct H as (_ & Hp & Hh & _). rewrite <- Hp, <- Hh in Hfit. by eapply IH.
Qed.

(** Cutting into events is deterministic. *)
Lemma parses_unique s es tail es' tail' : parses s es tail → parses s es' tail' → es = es' ∧ tail = tail'.
Proof.
  revert s es'. induction es as [|e es IH]; intros s es' (E & F & Ht) (E' & F' & Ht').
  - destruct es' as [|e' es']; [by simpl in *; subst|]. exfalso.
    apply Forall_cons in F' as [(body & -> & Hb) _]. simpl in E, E'. subst s. subst tail.
    rewrite <- app_assoc in Ht. by rewrite (fdn_app_Some _ _ _ Hb) in Ht.
  - apply Forall_cons in F as [(body & -> & Hb) F]. destruct es' as [|e' es'].
    { exfalso. simpl in E, E'. subst s. subst tail'.
      rewrite <- app_assoc in Ht'. by rewrite (fdn_app_Some _ _ _ Hb) in Ht'. }
    apply Forall_cons in F' as [(body' & -> & Hb') F']. simpl in E, E'. rewrite <- !app_assoc in E, E'.
    pose proof (fdn_app_Some _ (concat es ++ tail) _ Hb) as H1. rewrite <- app_assoc, <- E in H1.
    pose proof (fdn_app_Some _ (concat es' ++ tail') _ Hb') as H2. rewrite <- app_assoc, <- E' in H2.
    rewrite H1 in H2. injection H2 as Hl. rewrite E in E'. apply app_inj_1 in E' as [-> E']; [|done].
    simpl in E'. injection E' as E'.
    destruct (IH (concat es ++ tail) es') as [-> ->]; [by split_and!|by split_and!|done].
Qed.

(** Every byte of a stream comes out once, in order, with line breaks
    normalized, cut at its blank lines: as the complete events first and the
    unterminated tail at the end. *)
Theorem framing_lossless chunks fs st' :
  Forall (.≠ []) chunks → frame_all framing_new chunks = (fs, st') → Forall unflushed fs →
  ∃ es,
    concat (bytes_of <$> fs) = concat es ∧ sum_list (count_of <$> fs) = length es ∧ Forall is_event es ∧
    find_double_newline (pending st') = None ∧
    concat (bytes_of <$> fs) ++ default [] (finish st').1 = lf_normalize (concat chunks).
Proof.
  intros Hc E Hu. destruct (frame_all_parses chunks framing_new fs st' settled_new Hc E Hu)
    as ([[Hn _] _] & es & B & N & V & C). exists es. split_and!; try done.
  specialize (C []). rewrite app_nil_r in C. simpl in C. rewrite B, C. f_equal.
  unfold finish. simpl. case_bool_decide as Hp; destruct (cr_held st'); simpl in *.
  - by apply app_eq_nil in Hp as [_ ?].
  - rewrite Hp. done.
  - done.
  - by rewrite app_nil_r.
Qed.

(** C16: How the transport cuts a stream into chunks does not matter as long as no
    event is over the framer's limit of 1 MiB: the same bytes, the same number
    of events and the same tail come out, and together they are the stream with
    its line breaks normalized. *)
Theorem framing_chunk_independent chunks chunks' fs fs' st st' :
  Forall (.≠ []) chunks → Forall (.≠ []) chunks' → concat chunks = concat chunks' →
  events_fit (lf_normalize (concat chunks)) →
  frame_all framing_new chunks = (fs, st) → frame_all framing_new chunks' = (fs', st') →
  concat (bytes_of <$> fs) = concat (bytes_of <$> fs') ∧
  sum_list (count_of <$> fs) = sum_list (count_of <$> fs') ∧
  (finish st).1 = (finish st').1 ∧
  concat (bytes_of <$> fs) ++ default [] (finish st).1 = lf_normalize (concat chunks).
Proof.
  intros Hc Hc' Heq Hfit E E'.
  assert (Forall unflushed fs) as Hu by exact (frame_all_unflushed _ _ _ _ [] settled_new Hc E ltac:(done) Hfit).
  assert (Forall unflushed fs') as Hu' 
    by (rewrite Heq in Hfit; exact (frame_all_unflushed _ _ _ _ [] settled_new Hc' E' ltac:(done) Hfit)).
  destruct (framing_lossless chunks fs st Hc E Hu) as (_ & _ & _ & _ & _ & Hall).
  destruct (frame_all_parses chunks framing_new fs st settled_new Hc E Hu) as ([[Hn _] _] & es & B & N & V & C).
  destruct (frame_all_parses chunks' framing_new fs' st' settled_new Hc' E' Hu')
    as ([[Hn' _] _] & es' & B' & N' & V' & C').
  assert (∀ b, (concat es ++ pending st) ++ continue (cr_held st) b
             = (concat es' ++ pending st') ++ continue (cr_held st') b) as HH.
  { intros b. by rewrite <- !app_assoc, <- C, <- C', Heq. }
  assert (cr_held st = cr_held st') as Hh.
  { pose proof (HH []) as H0. pose proof (HH [LF]) as H1.
    destruct (cr_held st), (cr_held st'); try done; cbn in H0, H1; rewrite app_nil_r in H0;
      rewrite H0 in H1 || rewrite <- H0 in H1; exfalso; apply (f_equal length) in H1;
      rewrite ?length_app in H1; simpl in H1; lia. }
  specialize (HH []). rewrite Hh in HH. apply app_inv_tail in HH.
  destruct (parses_unique (concat es ++ pending st) es (pending st) es' (pending st')) as [-> Hp];
    [by split_and!|by split_and!|].
  rewrite B, B', N, N'. rewrite B in Hall. split_and!; try done. unfold finish. by rewrite Hp, Hh.
Qed.

(** One call cuts exactly: the complete events of the buffer, all of them, go
    out and the unterminated rest stays; with no complete event the buffer
    stays, unless it is over the high-water mark, and then it goes out whole,
    closed by a blank line.  It is all scanned afterwards. *)
Theorem take_framed_cuts st es tail :
  fed st → parses (pending st) es tail →
  take_framed st =
    match es with
    | _ :: _ => (Events (concat es) (length es), mkFraming tail (length tail - 1) (cr_held st))
    | [] =>
        if (PENDING_HIGH_WATER <? N.of_nat (length tail))%N
        then (ForceFlush (tail ++ held_lf st ++ [LF; LF]), framing_new)
        else (Nothing, mkFraming tail (length tail - 1) (cr_held st))
    end.
Proof.
  intros Hf HP. unfold take_framed. case_bool_decide as Hp.
  - destruct (parses_unique [] es tail [] []) as [-> ->]; [by rewrite <- Hp|by split_and!|].
    simpl. f_equal. destruct Hf as (old & ext & Ho & _ & Hsc). rewrite Hp in Ho.
    symmetry in Ho. apply app_nil in Ho as [-> _]. destruct st as [p sf c]. simpl in *. by subst.
  - destruct (take_framed_scan st Hf Hp) as (es' & tail' & HP' & ->).
    destruct (parses_unique _ _ _ _ _ HP HP') as [<- <-]. destruct HP as (P1 & P2 & _).
    destruct es as [|e es]; [simpl in P1; rewrite P1|].
    + destruct (_ <? _)%N; [|done]. unfold held_lf. destruct (cr_held st); [by rewrite <- app_assoc|done].
    + pose proof (parses_last _ P2 ltac:(done)) as Hl. set (es' := e :: es) in *.
      replace (length (concat es') - 2 + 2) with (length (concat es')) by lia.
      rewrite P1. by rewrite drop_app_length, take_app_length.
Qed.
