(* ===== verification/Sse.v ===== *)
(** * Reading server-sent events (llama-proxy/src/proxy/streaming.rs)

    Analysis only: field extraction, completion detection and its byte
    prefilter. *)
From S2P Require Import Prelude Json Framing.

(** ** [String::from_utf8_lossy] *)
Definition in_range (lo hi : Z) (c : option ascii) : bool :=
  match c with Some c => ((lo <=? byte_val c) && (byte_val c <=? hi))%Z | None => false end.
Definition cont_at (s : str) (i : nat) : bool := in_range 128 191 (s !! i).

(** Whether the text starts with a well-formed sequence, and the length of the
    sequence or of the maximal ill-formed prefix. *)
Definition utf8_step (s : str) : bool * nat :=
  match s with
  | [] => (true, 0)
  | c :: _ =>
      let b := byte_val c in
      let second lo hi := in_range lo hi (s !! 1) in
      if (b <? 128)%Z then (true, 1)
      else if ((194 <=? b) && (b <=? 223))%Z then (if cont_at s 1 then (true, 2) else (false, 1))
      else if ((224 <=? b) && (b <=? 239))%Z then
        let ok := if (b =? 224)%Z then second 160%Z 191%Z
                  else if (b =? 237)%Z then second 128%Z 159%Z else second 128%Z 191%Z in
        if negb ok then (false, 1) else if cont_at s 2 then (true, 3) else (false, 2)
      else if ((240 <=? b) && (b <=? 244))%Z then
        let ok := if (b =? 240)%Z then second 144%Z 191%Z
                  else if (b =? 244)%Z then second 128%Z 143%Z else second 128%Z 191%Z in
        if negb ok then (false, 1)
        else if negb (cont_at s 2) then (false, 2)
        else if cont_at s 3 then (true, 4) else (false, 3)
      else (false, 1)
  end.

(** U+FFFD. *)
Definition replacement : str := ascii_of_nat <$> [239; 191; 189].

(** [n] more bytes of the current sequence to copy, or of the ill-formed
    prefix to skip. *)
Fixpoint lossy_go (keep : bool) (n : nat) (s : str) : str :=
  match s with
  | [] => []
  | c :: s' =>
      match n with
      | S n' => if keep then c :: lossy_go keep n' s' else lossy_go keep n' s'
      | 0 =>
          let '(ok, len) := utf8_step s in
          if ok then c :: lossy_go true (len - 1) s' else replacement ++ lossy_go false (len - 1) s'
      end
  end.
Definition from_utf8_lossy (s : str) : str := lossy_go true 0 s.

(** [str::lines]. *)
Fixpoint lines_of (parts : list str) : list str :=
  match parts with
  | [] => []
  | [last] => if bool_decide (last = []) then [] else [last]
  | p :: parts' => default p (strip_suffix p [CR]) :: lines_of parts'
  end.
Definition lines (s : str) : list str := lines_of (split_char LF s).

(** [text.split] on a blank line; the pieces are disjoint, so [length] turns suffice. *)
Fixpoint split_blank (fuel : nat) (s : str) : list str :=
  match fuel with
  | 0 => [s]
  | S fuel' =>
      match find_double_newline s with
      | None => [s]
      | Some i => take i s :: split_blank fuel' (drop (i + 2) s)
      end
  end.
Definition split_events (text : str) : list str := split_blank (length text) text.

(** ** Fields *)
Definition strip_field (line prefix : str) : option str :=
  (λ v, default v (strip_prefix v (lit " "))) <$> strip_prefix line prefix.

Definition split_step (acc : option str * list str) (line : str) : option str * list str :=
  match strip_field line (lit "event:") with
  | Some v => (Some v, acc.2)
  | None =>
      match strip_field line (lit "data:") with
      | Some v => (acc.1, acc.2 ++ [v])
      | None => acc
      end
  end.

Definition split_event (raw : str) : option str * list str :=
  foldl split_step (None, []) (lines (from_utf8_lossy raw)).

Definition DONE : str := lit "[DONE]".

Definition is_completion_event (event_type : option str) (payloads : list str) : bool :=
  bool_decide (event_type = Some (lit "message_stop"))
  || existsb (λ p, bool_decide (trim p = DONE)) payloads.

Definition count_unparsed_payloads `{Serde} (payloads : list str) : nat :=
  length (filter (λ p,
    let t := trim p in
    t ≠ [] ∧ t ≠ DONE ∧ starts_with t (lit ":") = false ∧ from_str t = None) payloads).

(** ** Completion *)
Definition mentions_bridge_event (b : str) : bool :=
  contains_sub b (lit "[DONE") || contains_sub b (lit "message_stop").

(** The scan behind the prefilter. *)
Definition completes (bytes : str) : bool :=
  existsb (λ raw, let '(event_type, payloads) := split_event raw in is_completion_event event_type payloads)
    (split_events (from_utf8_lossy bytes)).

Inductive StreamEnd := Completed | BackendClosed | BackendError | Stalled | ClientGone.

Definition end_as_str (e : StreamEnd) : str :=
  match e with
  | Completed => lit "ok"
  | BackendClosed | BackendError => lit "truncated"
  | Stalled => lit "stalled"
  | ClientGone => lit "client_gone"
  end.

(** The completion oneshot: still held by the stream, or used up with the
    value it carried. *)
Inductive Completion := Unsent | Sent (reason : StreamEnd).

Definition signal_end (tx : Completion) (reason : StreamEnd) : Completion :=
  match tx with Unsent => Sent reason | Sent _ => tx end.

Definition detect_and_signal_completion (bytes : str) (tx : Completion) : bool * Completion :=
  match tx with
  | Sent _ => (false, tx)
  | Unsent =>
      if negb (mentions_bridge_event bytes) then (false, tx)
      else if completes bytes then (true, Sent Completed) else (false, tx)
  end.

(** The receiver's side: what was sent wins; a stall on a closed channel is a
    client that left.  [closed]: the sender is gone without a value. *)
Definition resolve_end_reason (end_reason : StreamEnd) (tx : Completion) (closed : bool) : StreamEnd :=
  match tx with
  | Sent reason => reason
  | Unsent => match closed, end_reason with true, Stalled => ClientGone | _, _ => end_reason end
  end.

(** * Facts *)
Definition infix (p s : str) : Prop := ∃ a b, s = a ++ p ++ b.

#[export] Instance infix_trans : Transitive infix.
Proof.
  intros p q s (a & b & ->) (c & d & ->). exists (c ++ a), (b ++ d). by rewrite !app_assoc.
Qed.
Lemma infix_refl s : infix s s.
Proof. exists [], []. by rewrite app_nil_r. Qed.
Lemma infix_cons c p s : infix p s → infix p (c :: s).
Proof. intros (a & b & ->). by exists (c :: a), b. Qed.
Lemma infix_prefix p s : p `prefix_of` s → infix p s.
Proof. intros [k ->]. by exists [], k. Qed.
Lemma infix_app_l p a s : infix p s → infix p (a ++ s).
Proof. intros (x & y & ->). exists (a ++ x), y. by rewrite app_assoc. Qed.
Lemma infix_suffix p s : p `suffix_of` s → infix p s.
Proof. intros [k ->]. exists k, []. by rewrite app_nil_r. Qed.
Lemma infix_cons_inv p c s : infix p (c :: s) → p `prefix_of` (c :: s) ∨ infix p s.
Proof.
  intros (a & b & E). destruct a as [|d a]; [left; by exists b|]. simplify_eq/=. right. by exists a, b.
Qed.

Lemma contains_sub_infix s p : contains_sub s p = true ↔ infix p s.
Proof.
  unfold contains_sub. split.
  - destruct (find_sub s p) as [i|] eqn:E; [|done]. intros _. apply find_sub_Some in E as [H _].
    etrans; [by apply infix_prefix|]. apply infix_suffix. exists (take i s). by rewrite take_drop.
  - intros H. destruct (find_sub s p) as [i|] eqn:E; [done|]. exfalso. revert E H.
    induction s as [|c s IH]; simpl.
    + destruct (starts_with [] p) eqn:Es; [done|]. intros _ (a & b & E). symmetry in E.
      apply app_nil in E as [-> E]. by apply app_nil in E as [-> ->].
    + destruct (starts_with (c :: s) p) eqn:Es; [done|]. intros E [H|H]%infix_cons_inv.
      * apply starts_with_spec in H. congruence.
      * apply IH; [|done]. by destruct (find_sub s p).
Qed.

(** ** Lossy decoding invents no ASCII text *)
Definition is_ascii (p : str) : Prop := Forall (λ c, (byte_val c < 128)%Z) p.

Lemma lossy_prefix p n s : is_ascii p → p `prefix_of` lossy_go true n s → p `prefix_of` s.
Proof.
  revert p n. induction s as [|c s IH]; intros p n Hp H; [done|].
  destruct Hp as [|d p Hd Hp]; [apply prefix_nil|]. cbn [lossy_go] in H.
  destruct n as [|n].
  - destruct (utf8_step (c :: s)) as [[] len].
    + apply prefix_cons_inv_1 in H as Hc. apply prefix_cons_inv_2 in H. subst. apply prefix_cons. by eapply IH.
    + apply prefix_cons_inv_1 in H. by subst.
  - apply prefix_cons_inv_1 in H as Hc. apply prefix_cons_inv_2 in H. subst. apply prefix_cons. by eapply IH.
Qed.

Lemma lossy_infix p keep n s : p ≠ [] → is_ascii p → infix p (lossy_go keep n s) → infix p s.
Proof.
  intros Hne Hp. revert keep n. induction s as [|c s IH]; intros keep n H; [done|].
  assert (∀ m, infix p (c :: lossy_go true m s) → infix p (c :: s)) as Hkeep.
  { intros m [Hi|Hi]%infix_cons_inv; [|by apply infix_cons; eapply IH].
    apply infix_prefix. destruct p as [|d p]; [done|].
    apply prefix_cons_inv_1 in Hi as Hc. apply prefix_cons_inv_2 in Hi. subst. apply prefix_cons.
    eapply lossy_prefix; [by inversion Hp|done]. }
  cbn [lossy_go] in H. destruct n as [|n].
  - destruct (utf8_step (c :: s)) as [[] len]; [by eapply Hkeep|].
    apply infix_cons. apply (IH false (len - 1)).
    assert (∀ d r, (128 ≤ byte_val d)%Z → infix p (d :: r) → infix p r) as Hskip.
    { intros d r Hd [Hi|Hi]%infix_cons_inv; [|done]. destruct p as [|e p]; [done|].
      apply prefix_cons_inv_1 in Hi as ->. apply Forall_cons in Hp as [? _]. lia. }
    do 3 (apply Hskip in H; [|done]). done.
  - destruct keep; [by eapply Hkeep|]. apply infix_cons. by eapply IH.
Qed.

(** ** Every piece the reader extracts is a piece of the text *)
Lemma split_blank_infix fuel s p : p ∈ split_blank fuel s → infix p s.
Proof.
  revert s. induction fuel as [|fuel IH]; intros s; simpl.
  - intros ->%list_elem_of_singleton. apply infix_refl.
  - destruct (find_double_newline s) as [i|]; [|intros ->%list_elem_of_singleton; apply infix_refl].
    intros [->|H]%elem_of_cons.
    + apply infix_prefix. exists (drop i s). by rewrite take_drop.
    + etrans; [by apply IH|]. apply infix_suffix. exists (take (i + 2) s). by rewrite take_drop.
Qed.

Lemma split_char_infix c s p : p ∈ split_char c s → infix p s.
Proof.
  assert (∀ s, Forall (λ p, infix p s) (split_char c s) ∧
    match split_char c s with w :: _ => w `prefix_of` s | [] => True end) as H.
  { clear. intros s. induction s as [|d s [IH1 IH2]]; simpl.
    - split; [repeat constructor; apply infix_refl|done].
    - case_decide.
      + split; [|apply prefix_nil]. constructor; [apply infix_prefix, prefix_nil|].
        eapply Forall_impl; [done|]. intros p. apply infix_cons.
      + destruct (split_char c s) as [|w ws].
        * split; [|by apply prefix_cons, prefix_nil]. repeat constructor.
          by apply infix_prefix, prefix_cons, prefix_nil.
        * split; [|by apply prefix_cons]. apply Forall_cons in IH1 as [_ IH1].
          constructor; [by apply infix_prefix, prefix_cons|].
          eapply Forall_impl; [done|]. intros p'. apply infix_cons. }
  intros Hp. destruct (H s) as [HF _]. rewrite Forall_forall in HF. auto.
Qed.

Lemma lines_of_infix parts l : l ∈ lines_of parts → ∃ p, p ∈ parts ∧ infix l p.
Proof.
  induction parts as [|p parts IH]; [by intros ?%elem_of_nil|]. destruct parts as [|q parts].
  - simpl. case_bool_decide; [by intros ?%elem_of_nil|]. intros ->%list_elem_of_singleton.
    exists p. split; [left|apply infix_refl].
  - intros [->|Hl]%elem_of_cons.
    + exists p. split; [left|]. destruct (strip_suffix p [CR]) eqn:E; simpl; [|apply infix_refl].
      apply strip_suffix_Some in E as ->. apply infix_prefix. by eexists.
    + destruct (IH Hl) as (p' & Hp & Hi). exists p'. split; [by right|done].
Qed.

Lemma lines_infix s l : l ∈ lines s → infix l s.
Proof. intros (p & Hp & Hi)%lines_of_infix. etrans; [done|]. by eapply split_char_infix. Qed.

Lemma strip_field_infix line prefix v : strip_field line prefix = Some v → infix v line.
Proof.
  unfold strip_field. intros H. apply fmap_Some in H as (w & Hw & ->). apply strip_prefix_Some in Hw as ->.
  apply infix_app_l. destruct (strip_prefix w (lit " ")) eqn:E; simpl; [|apply infix_refl].
  apply strip_prefix_Some in E as ->. apply infix_app_l, infix_refl.
Qed.

Lemma split_event_infix raw :
  (∀ v, (split_event raw).1 = Some v → infix v (from_utf8_lossy raw)) ∧
  Forall (λ p, infix p (from_utf8_lossy raw)) (split_event raw).2.
Proof.
  unfold split_event. pose proof (lines_infix (from_utf8_lossy raw)) as Hl.
  induction (lines (from_utf8_lossy raw)) as [|l ls IH] using rev_ind; [by split|].
  rewrite foldl_app. simpl. destruct IH as [IH1 IH2]; [intros; apply Hl; set_solver|].
  assert (infix l (from_utf8_lossy raw)) as Hi by (apply Hl; set_solver).
  unfold split_step at 1 3. destruct (strip_field l (lit "event:")) as [v|] eqn:Ee; simpl.
  - split; [|done]. intros ? [= <-]. etrans; [by eapply strip_field_infix|done].
  - destruct (strip_field l (lit "data:")) as [v|] eqn:Ed; simpl; [|done]. split; [done|].
    apply Forall_app. split; [done|]. repeat constructor. etrans; [by eapply strip_field_infix|done].
Qed.

Lemma infix_concat (gs hs : list str) : (∃ a b, gs = a ++ hs ++ b) → infix (concat hs) (concat gs).
Proof. intros (a & b & ->). exists (concat a), (concat b). by rewrite !concat_app. Qed.

Lemma trim_infix s : infix (trim s) s.
Proof.
  rewrite <- (concat_chars s) at 2. apply infix_concat.
  destruct (drop_while_suffix is_whitespace (chars s)) as [a Ha].
  destruct (drop_while_suffix is_whitespace (reverse (drop_while is_whitespace (chars s)))) as [b Hb].
  exists a, (reverse b). rewrite Ha at 1. f_equal.
  apply (f_equal reverse) in Hb. by rewrite reverse_involutive, reverse_app in Hb.
Qed.

(** The byte prefilter has no false negative: a block that completes the
    stream always passes it, so detection with and without it agree. *)
Theorem prefilter_exact bytes tx :
  (completes bytes = true → mentions_bridge_event bytes = true) ∧
  detect_and_signal_completion bytes tx =
    match tx with
    | Unsent => if completes bytes then (true, Sent Completed) else (false, tx)
    | Sent _ => (false, tx)
    end.
Proof.
  assert (completes bytes = true → mentions_bridge_event bytes = true) as H.
  { unfold completes. intros H. apply existsb_exists in H as (raw & Hr & H).
    apply list_elem_of_In, split_blank_infix in Hr.
    destruct (split_event raw) as [ev ps] eqn:E. destruct (split_event_infix raw) as [H1 H2].
    rewrite E in H1, H2. simpl in *.
    assert (∀ p q, p ≠ [] → is_ascii p → infix p q → infix q (from_utf8_lossy raw) → infix p bytes) as Hback.
    { intros p q Hne Hp Hpq Hq. apply (lossy_infix p true 0); [done..|].
      etrans; [|exact Hr]. apply (lossy_infix p true 0); [done..|]. by etrans. }
    unfold mentions_bridge_event. rewrite orb_true_iff, !contains_sub_infix.
    unfold is_completion_event in H. apply orb_true_iff in H as [H|H].
    - apply bool_decide_eq_true in H. right. eapply Hback; [done| |apply infix_refl|by apply H1].
      repeat constructor; done.
    - apply existsb_exists in H as (p & Hp & Ht). apply bool_decide_eq_true in Ht.
      left. eapply (Hback _ p); [done| repeat constructor; done | |].
      + etrans; [|apply trim_infix]. rewrite Ht. by exists [], (lit "]").
      + rewrite Forall_forall in H2. by apply H2, list_elem_of_In. }
  split; [done|]. unfold detect_and_signal_completion. destruct tx; [|done].
  destruct (completes bytes); [by rewrite H|]. by destruct (negb _).
Qed.
