(* ===== verification/HolderArgs.v ===== *)
(** * Arguments of the model holder (model-holder/src/main.rs)

    The checks on page sizes and extensions, the refusal of parent directories
    and the expansion of patterns into the files to hold.  The file system and
    the glob crate are parameters. *)
From S2P Require Import Prelude Utf8 UnixPath Sse.

Inductive NoFiles :=
  | NoCurrentDir
  | InvalidGlob (pattern : str)
  | FileNotFound (pattern resolved : str)
  | CannotResolve (path : str)
  | NoneMatched (patterns : str)
  | CannotOpen (path : str)
  | CannotMap (path : str)
  | WarmupFailed (path : str)
  | CannotRead (what : str).

Inductive ModelHolderError :=
  | InvalidPageSize (page_size : Z)
  | InvalidExtensions (extensions : str)
  | NoFilesFound (why : NoFiles)
  | PermissionDenied (pids : list Z)
  | PathTraversal (path : str)
  | ProcessDisappeared (pid : Z)
  | UIError.

Definition is_power_of_two (n : Z) : bool := (0 <? n)%Z && (n =? 2 ^ Z.log2 n)%Z.
Definition validate_page_size (page_size : Z) : result ModelHolderError unit :=
  if (page_size =? 0)%Z || negb (is_power_of_two page_size) then Err (InvalidPageSize page_size) else Ok ().

Definition bad_extension (ext : str) : bool :=
  let ext := trim ext in
  bool_decide (ext = []) || starts_with ext (lit ".") || bool_decide ("."%char ∈ ext).
Definition validate_extensions (extensions : str) : result ModelHolderError unit :=
  if bool_decide (extensions = []) || existsb bad_extension (split_char ","%char extensions)
  then Err (InvalidExtensions extensions) else Ok ().

(** [v.dedup()]. *)
Fixpoint dedup {A} `{EqDecision A} (l : list A) : list A :=
  match l with
  | x :: (y :: _) as l' => if decide (x = y) then dedup l' else x :: dedup l'
  | _ => l
  end.

Lemma elem_of_concat {A} (ls : list (list A)) x : x ∈ concat ls ↔ ∃ l, l ∈ ls ∧ x ∈ l.
Proof. rewrite list_elem_of_In, in_concat. setoid_rewrite list_elem_of_In. done. Qed.

Section Files.
Context (current_dir : option str).
Context (glob : str → option (list str)).          (** the paths that match; [None]: no such pattern *)
Context (exists_ : str → bool) (canonicalize : str → option str).

Definition sanitize_path (path : str) : result ModelHolderError str :=
  if bool_decide (ParentDir ∈ components path) then Err (PathTraversal path)
  else if is_absolute path then Ok path
  else match current_dir with
       | None => Err (NoFilesFound NoCurrentDir)
       | Some dir => Ok (join_paths dir path)
       end.

Definition expand_pattern (pattern : str) : result ModelHolderError (list str) :=
  sanitized ← sanitize_path pattern;
  match glob (from_utf8_lossy sanitized) with
  | None => Err (NoFilesFound (InvalidGlob (from_utf8_lossy sanitized)))
  | Some [] =>
      if exists_ sanitized then Ok [sanitized]
      else Err (NoFilesFound (FileNotFound pattern (from_utf8_lossy sanitized)))
  | Some found => Ok found
  end.

Fixpoint try_map {E A B} (f : A → result E B) (l : list A) : result E (list B) :=
  match l with
  | [] => Ok []
  | x :: l' => y ← f x; ys ← try_map f l'; Ok (y :: ys)
  end.

Definition resolve (p : str) : result ModelHolderError str :=
  match canonicalize p with Some q => Ok q | None => Err (NoFilesFound (CannotResolve p)) end.

Definition expand_globs (patterns : list str) : result ModelHolderError (list str) :=
  found ← try_map expand_pattern patterns;
  canonical ← try_map resolve (concat found);
  match dedup (merge_sort path_le canonical) with
  | [] => Err (NoFilesFound (NoneMatched (join (lit ", ") patterns)))
  | paths => Ok paths
  end.

(** ** Lemmas *)
Lemma validate_page_size_Ok n : validate_page_size n = Ok () ↔ ∃ k, (0 ≤ k)%Z ∧ n = (2 ^ k)%Z.
Proof using Type.
  unfold validate_page_size, is_power_of_two. split.
  - destruct (n =? 0)%Z; [done|]. destruct (0 <? n)%Z eqn:E0; [|done]. simpl.
    destruct (n =? 2 ^ Z.log2 n)%Z eqn:E; [|done]. intros _. exists (Z.log2 n). split; [apply Z.log2_nonneg|lia].
  - intros (k & Hk & ->). rewrite Z.log2_pow2, Z.eqb_refl by done. pose proof (Z.pow_pos_nonneg 2 k).
    rewrite (proj2 (Z.eqb_neq _ _)), (proj2 (Z.ltb_lt _ _)) by lia. done.
Qed.

Lemma try_map_Ok {E A B} (f : A → result E B) l l' : try_map f l = Ok l' ↔ Forall2 (λ x y, f x = Ok y) l l'.
Proof using Type.
  revert l'. induction l as [|x l IH]; intros l'; simpl.
  - split; [intros [= <-]; constructor|by inversion 1].
  - rewrite result_bind_Ok. split.
    + intros (y & Hy & H). apply result_bind_Ok in H as (ys & Hys & [= <-]). constructor; [done|by apply IH].
    + inversion 1 as [|? y ? ys Hy Hys]; subst. exists y. split; [done|]. apply IH in Hys. by rewrite Hys.
Qed.

Lemma dedup_elem {A} `{EqDecision A} (l : list A) x : x ∈ dedup l ↔ x ∈ l.
Proof using Type.
  induction l as [|y [|z l] IH]; [done..|]. cbn [dedup]. destruct (decide (y = z)) as [->|].
  - rewrite IH. set_solver.
  - rewrite !(elem_of_cons _ _ y), IH. done.
Qed.

(** Sorted, what is left has strictly ascending components. *)
Lemma dedup_sorted l : Sorted path_le l → (∀ p q, p ∈ l → q ∈ l → components p = components q → p = q) → NoDup (dedup l).
Proof using Type.
  intros Hs Hinj. apply Sorted_StronglySorted in Hs; [|apply _]. revert Hs Hinj.
  induction l as [|y [|z l] IH]; intros Hs Hinj; [constructor|apply NoDup_singleton|].
  assert (NoDup (dedup (z :: l))) as Hnd.
  { apply IH; [by apply StronglySorted_inv in Hs as [? _]|]. intros p q Hp Hq. apply Hinj; by apply elem_of_cons; right. }
  change (dedup (y :: z :: l)) with (if decide (y = z) then dedup (z :: l) else y :: dedup (z :: l)).
  destruct (decide (y = z)) as [->|Hne]; [done|]. constructor; [|done].
  intros Hin. apply dedup_elem, elem_of_cons in Hin as [->|Hin]; [done|]. apply Hne.
  apply StronglySorted_inv in Hs as [Hs Hy]. apply StronglySorted_inv in Hs as [_ Hz].
  rewrite !Forall_forall in *. apply Hinj; [by left|by right; left|].
  apply path_le_antisym; [apply Hy; by left|]. by apply Hz.
Qed.

(** A pattern that is let through names no parent directory, and where the
    search starts is absolute. *)
Lemma sanitize_path_right path sane :
  (∀ dir, current_dir = Some dir → is_absolute dir = true ∧ ParentDir ∉ components dir) →
  sanitize_path path = Ok sane → is_absolute sane = true ∧ ParentDir ∉ components sane.
Proof using Type.
  intros Hdir. unfold sanitize_path. case_bool_decide; [done|]. destruct (is_absolute path) eqn:E; [by intros [= <-]|].
  destruct current_dir as [dir|]; [|done]. intros [= <-]. destruct (Hdir dir eq_refl) as [Ha Hn].
  by destruct (join_no_parent dir path Ha Hn) as [? ?].
Qed.

(** What is held: each file once, in the order of paths, at least one, and
    exactly what the patterns found - or the pattern itself where it matched
    nothing and names a file. *)
Theorem expand_globs_right patterns paths :
  (∀ dir, current_dir = Some dir → is_absolute dir = true ∧ ParentDir ∉ components dir) →
  (∀ p q p' q', canonicalize p = Some p' → canonicalize q = Some q' → components p' = components q' → p' = q') →
  expand_globs patterns = Ok paths →
  paths ≠ [] ∧ NoDup paths ∧
  (∀ q, q ∈ paths ↔ ∃ pattern sane p, pattern ∈ patterns ∧ sanitize_path pattern = Ok sane ∧ ParentDir ∉ components sane ∧
     (p ∈ default [] (glob (from_utf8_lossy sane)) ∨ glob (from_utf8_lossy sane) = Some [] ∧ exists_ sane = true ∧ p = sane) ∧
     canonicalize p = Some q).
Proof using Type.
  intros Hdir Hinj. unfold expand_globs. intros H. inv_result.
  apply try_map_Ok in H0, H1. assert (paths = dedup (merge_sort path_le a0) ∧ paths ≠ []) as [-> Hne].
  { destruct (dedup (merge_sort path_le a0)); by simplify_eq. }
  assert (∀ q, q ∈ a0 ↔ ∃ p, p ∈ concat a ∧ canonicalize p = Some q) as Hq.
  { intros q. assert (∀ p q, resolve p = Ok q ↔ canonicalize p = Some q) as Hr.
    { intros p q'. unfold resolve. destruct (canonicalize p); naive_solver. }
    split.
    - intros Hin. apply list_elem_of_lookup in Hin as [i Hi]. destruct (Forall2_lookup_r _ _ _ _ _ H1 Hi) as (p & Hp & E).
      exists p. rewrite <- Hr. split; [by eapply list_elem_of_lookup_2|done].
    - intros (p & Hin & E). apply list_elem_of_lookup in Hin as [i Hi]. destruct (Forall2_lookup_l _ _ _ _ _ H1 Hi) as (q' & Hq' & E').
      apply Hr in E'. assert (q' = q) as -> by congruence. by eapply list_elem_of_lookup_2. }
  split_and!; [done| |].
  - apply dedup_sorted; [apply Sorted_merge_sort, _|]. intros p q Hp Hq'. rewrite !merge_sort_Permutation, !Hq in *.
    destruct Hp as (? & _ & ?), Hq' as (? & _ & ?). by eapply Hinj.
  - intros q. rewrite dedup_elem, merge_sort_Permutation, Hq. split.
    + intros (p & Hp & E). apply elem_of_concat in Hp as (l & Hl & Hp).
      apply list_elem_of_lookup in Hl as [i Hi]. destruct (Forall2_lookup_r _ _ _ _ _ H0 Hi) as (pat & Hpat & Ep).
      unfold expand_pattern in Ep. apply result_bind_Ok in Ep as (sane & Hs & Ep).
      exists pat, sane, p. split_and!; [by eapply list_elem_of_lookup_2|done|by eapply sanitize_path_right| |done].
      destruct (glob _) as [[|g gs]|]; [|by left; simplify_eq|done]. right.
      destruct (exists_ sane); [|done]. simplify_eq. by apply list_elem_of_singleton in Hp as ->.
    + intros (pat & sane & p & Hpat & Hs & _ & Hp & E). exists p. split; [|done].
      apply list_elem_of_lookup in Hpat as [i Hi]. destruct (Forall2_lookup_l _ _ _ _ _ H0 Hi) as (l & Hl & Ep).
      apply elem_of_concat. exists l. split; [by eapply list_elem_of_lookup_2|].
      unfold expand_pattern in Ep. rewrite Hs in Ep. simpl in Ep.
      destruct Hp as [Hp|(Eg & Ex & ->)].
      * destruct (glob _) as [[|g gs]|]; simpl in Hp; [by apply elem_of_nil in Hp|by simplify_eq|done].
      * rewrite Eg, Ex in Ep. simplify_eq. by left.
Qed.
End Files.
