(* ===== verification/Holder.v ===== *)
(** * Holding files (model-holder/src/main.rs)

    The two holding commands as programs over the kernel's and the other
    threads' side of them ([Hd]), and the machine they run in: the main thread,
    the locking threads of the current chunk and the screen's thread, one shared
    access at a time.  The screen's thread draws, handles keys, leaves once told
    to, and may panic while it holds the lock of the state, which poisons it.  A
    mapping is the index of its place in the order they were made. *)
From S2P Require Import Prelude Numbers Prog Utf8 UnixPath HolderState HolderScreen Framing Sse HolderArgs.

Definition PROGRESS_UPDATE_INTERVAL : Z := 1000.
Definition PROGRESS_UPDATE_TIMEOUT_NS : Z := 100 * 1000000.
Definition BYTES_PER_GB : f64 := f64_of_Z 1073741824.

(** main.rs has a size format of its own. *)
Definition format_bytes (bytes : Z) : str :=
  if (1073741824 <=? bytes)%Z then fmt_f64 2 (f64_div (f64_of_Z bytes) BYTES_PER_GB) ++ lit " GB"
  else if (1048576 <=? bytes)%Z then fmt_f64 2 (f64_div (f64_of_Z bytes) BYTES_PER_MB) ++ lit " MB"
  else if (1024 <=? bytes)%Z then fmt_f64 2 (f64_div (f64_of_Z bytes) (f64_of_Z 1024)) ++ lit " KB"
  else show_Z bytes ++ lit " B".

Record MappedFile := mkMapped {
  mf_path : str;
  mf_id : nat;
  mf_len : Z;                      (** [mmap.len()] *)
  mf_size : Z;
  mf_mmap_duration : option Z;
}.

(** ** Lines of the two reports *)
Inductive Line :=
  | LReleased (held : nat) (bytes locked : Z)         (** the exit summary of the screen *)
  | LStart (n : nat)
  | LMapped (path : str) (size : Z)
  | LWarming
  | LProgress (batch : nat * nat) (percent speed : f64)          (** file of files *)
  | LComplete (batch : nat * nat) (elapsed : Z) (speed : f64) (checksum : Z)
  | LWarmDone (elapsed : Z)
  | LSkipWarmup
  | LLocking
  | LLocked (locked : Z)
  | LLockedSome (locked : Z) (failed : nat)
  | LFailed (path : str)
  | LSkipLock
  | LDropped (held : nat) (bytes : Z) (no_warmup no_mlock : bool)
  | LHint.

Definition plural_s (n : nat) : str := if decide (n = 1) then [] else lit "s".

Definition locked_part (locked bytes : Z) : str :=
  if (locked =? 0)%Z then lit "nothing was locked"
  else if (locked =? bytes)%Z then lit "all of it was locked"
  else format_bytes locked ++ lit " of it was locked".

Definition render_line (l : Line) : str :=
  match l with
  | LReleased 0 _ _ => lit "model-holder: nothing was mapped — nothing pinned"
  | LReleased held bytes locked =>
      lit "model-holder: released " ++ show_nat held ++ lit " mapping" ++ plural_s held ++ lit " (" ++ format_bytes bytes
      ++ lit ") — " ++ locked_part locked bytes ++ lit ", none pinned now"
  | LStart n => lit "model-holder oneshot: " ++ show_nat n ++ lit " file(s)"
  | LMapped path size => lit " mmap'd " ++ from_utf8_lossy path ++ lit " (" ++ format_bytes size ++ lit ")"
  | LWarming => lit " warming pages..."
  | LProgress (i, n) percent speed =>
      CR :: lit "[" ++ show_nat i ++ lit "/" ++ show_nat n ++ lit "] Progress: " ++ fmt_right 5 1 percent ++ lit "% | "
      ++ fmt_right 7 1 speed ++ lit " MB/s"
  | LComplete (i, n) elapsed speed checksum =>
      CR :: lit "[" ++ show_nat i ++ lit "/" ++ show_nat n ++ lit "] Complete: " ++ fmt_f64 2 (as_secs_f64 elapsed)
      ++ lit "s @ " ++ fmt_f64 1 speed ++ lit " MB/s (checksum: " ++ show_hex checksum ++ lit ")        "
  | LWarmDone elapsed => lit " warmup done in " ++ fmt_f64 2 (as_secs_f64 elapsed) ++ lit "s"
  | LSkipWarmup => lit " skipping warmup (--no-warmup)"
  | LLocking => lit " locking pages..."
  | LLocked locked => lit " locked " ++ format_bytes locked ++ lit " for the run"
  | LLockedSome locked failed =>
      lit " locked " ++ format_bytes locked ++ lit " for the run, " ++ show_nat failed
      ++ lit " file(s) failed to lock (check ulimit -l and permissions)"
  | LFailed path => lit "   - " ++ path
  | LSkipLock => lit " skipping mlock (--no-mlock)"
  | LDropped held bytes no_warmup no_mlock =>
      lit " released " ++ show_nat held ++ lit " mapping" ++ plural_s held ++ lit " (" ++ format_bytes bytes ++ lit ") — "
      ++ (if no_warmup then lit "pages were never touched (--no-warmup), nothing is pinned"
          else if no_mlock then lit "page cache stays warm" else lit "page cache stays warm, nothing is pinned")
  | LHint => lit " need the pages pinned until llama.cpp restarts? use: model-holder tui <paths>"
  end.

(** ** The main thread *)
Inductive Hd : Type → Type :=
  | InitTerminal : Hd bool                              (** [UIRenderer::new] *)
  | SpawnUi : Hd unit
  | Aborted : Hd bool                                   (** [should_exit.load()] *)
  | LockApp (f : AppState → AppState) : Hd unit         (** [lock_state], poisoned or not *)
  | TryApp (f : AppState → AppState) : Hd unit          (** [if let Ok(..) = state.lock()] *)
  | OpenFile (path : str) : Hd (option Z)               (** opened, its size *)
  | MapFile (path : str) (size : Z) : Hd (option (nat * Z))
  | ReadPage (id : nat) (offset : Z) : Hd Z
  | Clock : Hd Z
  | LockChunk (tui : bool) (chunk : list MappedFile) : Hd unit   (** [thread::scope] *)
  | Advise (id : nat) : Hd unit
  | TakeFailed : Hd (list str)
  | JoinUi : Hd bool                                    (** false: it panicked *)
  | LoadLocked : Hd Z
  | Unmap : Hd unit                                     (** [drop(mapped_files)] *)
  | IsTerminal : Hd bool
  | Tell (l : Line) : Hd unit
  | TellFlush (l : Line) : Hd bool.

Abbreviation hd A := (prog Hd A).

Definition ceil_div (a b : Z) : Z := (a + b - 1) / b.

(** The offsets [(0..len).step_by(page_size)]. *)
Definition page_offsets (len page_size : Z) : list Z :=
  (λ i, Z.of_nat i * page_size)%Z <$> seq 0 (Z.to_nat (ceil_div len page_size)).

(** The exit summary counts in [u64]. *)
Definition total_bytes (ms : list MappedFile) : Z := sum_u64 (mf_size <$> ms).

Fixpoint chunks_of {A} (fuel n : nat) (l : list A) : list (list A) :=
  match fuel, l with
  | S fuel', _ :: _ => take n l :: chunks_of fuel' n (drop n l)
  | _, _ => []
  end.
Definition chunks {A} (n : nat) (l : list A) : list (list A) := chunks_of (length l) n l.

(** [warmup_file_with_tui]: [None] when interrupted, else the checksum. *)
Fixpoint warm_pages (m : MappedFile) (page_size start : Z) (index : Z) (last_update checksum : Z) (offsets : list Z)
    : hd (option Z) :=
  match offsets with
  | [] => Ret (Some checksum)
  | offset :: offsets' =>
      byte ← trigger (ReadPage (mf_id m) offset);
      let checksum := ((checksum + byte) mod u64_modulus)%Z in
      due ← (if (index mod PROGRESS_UPDATE_INTERVAL =? 0)%Z then Ret true
             else now ← trigger Clock; Ret (PROGRESS_UPDATE_TIMEOUT_NS <? now - last_update)%Z);
      if due : bool then
        quit ← trigger Aborted;
        if quit : bool then Ret None
        else
          now ← trigger Clock;
          let elapsed := (now - start)%Z in
          let total_pages := ceil_div (mf_size m) page_size in
          let percent := f64_mul (f64_div (f64_of_Z index) (f64_of_Z total_pages)) (f64_of_Z 100) in
          _ ← trigger (TryApp (find_file_mut (from_utf8_lossy (mf_path m))
                (mark_warming percent (mb_per_second (f64_of_Z (index * page_size)) elapsed) elapsed)));
          last_update ← trigger Clock;
          warm_pages m page_size start (index + 1) last_update checksum offsets'
      else warm_pages m page_size start (index + 1) last_update checksum offsets'
  end.

Definition set_mmap_speed (speed : f64) (f : FileStatus) : FileStatus :=
  mkFile (f_path f) (filename f) (size_bytes f) (size_mb f) (stage f) (f_warmup_complete f)
    (process_index f) (mmap_duration f) (lock_duration f) (Some speed) (lock_speed f).
Definition set_mmap_duration (d : option Z) (f : FileStatus) : FileStatus :=
  mkFile (f_path f) (filename f) (size_bytes f) (size_mb f) (stage f) (f_warmup_complete f)
    (process_index f) d (lock_duration f) (mmap_speed f) (lock_speed f).
Definition set_lock_duration (d : Z) (f : FileStatus) : FileStatus :=
  mkFile (f_path f) (filename f) (size_bytes f) (size_mb f) (stage f) (f_warmup_complete f)
    (process_index f) (mmap_duration f) (Some d) (mmap_speed f) (lock_speed f).

Definition warmup_file_with_tui (m : MappedFile) (page_size : Z) : hd (option Z) :=
  start ← trigger Clock;
  last_update ← trigger Clock;
  r ← warm_pages m page_size start 0 last_update 0 (page_offsets (mf_len m) page_size);
  match r with
  | None => Ret None
  | Some checksum =>
      now ← trigger Clock;
      let elapsed := (now - start)%Z in
      let speed := mb_per_second (f64_of_Z (mf_size m)) elapsed in
      _ ← trigger (TryApp (find_file_mut (from_utf8_lossy (mf_path m)) (λ f, mark_complete speed elapsed (set_mmap_speed speed f))));
      Ret (Some checksum)
  end.

(** *** [hold_models_with_tui] *)
Fixpoint map_paths (paths : list str) (mapped : list MappedFile) : hd (list MappedFile) :=
  match paths with
  | [] => Ret mapped
  | path :: paths' =>
      let shown := from_utf8_lossy path in
      quit ← trigger Aborted;
      if quit : bool then Ret mapped
      else
        _ ← trigger (LockApp (find_file_mut shown (set_stage Found)));
        o ← trigger (OpenFile path);
        match o with
        | None => map_paths paths' mapped
        | Some size =>
            _ ← trigger (LockApp (λ app, update_total_size (find_file_mut shown (set_size size) app)));
            start ← trigger Clock;
            r ← trigger (MapFile path size);
            match r with
            | None => map_paths paths' mapped
            | Some (id, len) =>
                now ← trigger Clock;
                _ ← trigger (LockApp (find_file_mut shown mark_mapped));
                _ ← trigger (TryApp (find_file_mut shown (set_mmap_duration (Some (now - start)%Z))));
                map_paths paths' (mapped ++ [mkMapped path id len size (Some (now - start)%Z)])
            end
        end
  end.

Fixpoint warm_files (page_size : Z) (ms : list MappedFile) : hd unit :=
  match ms with
  | [] => Ret tt
  | m :: ms' =>
      quit ← trigger Aborted;
      if quit : bool then Ret tt
      else
        r ← warmup_file_with_tui m page_size;
        match r with None => Ret tt | Some _ => warm_files page_size ms' end
  end.

Fixpoint mark_chunk (chunk : list MappedFile) : hd unit :=
  match chunk with
  | [] => Ret tt
  | m :: chunk' => _ ← trigger (TryApp (find_file_mut (from_utf8_lossy (mf_path m)) (mark_locking 0))); mark_chunk chunk'
  end.
Fixpoint lock_chunks (cs : list (list MappedFile)) : hd unit :=
  match cs with
  | [] => Ret tt
  | c :: cs' =>
      quit ← trigger Aborted;
      if quit : bool then Ret tt
      else _ ← mark_chunk c; _ ← trigger (LockChunk true c); lock_chunks cs'
  end.
Fixpoint advise_all (ms : list MappedFile) : hd unit :=
  match ms with [] => Ret tt | m :: ms' => _ ← trigger (Advise (mf_id m)); advise_all ms' end.

Definition lock_phase (lock_threads : nat) (ms : list MappedFile) : hd unit :=
  _ ← lock_chunks (chunks (Nat.max lock_threads 1) ms);
  quit ← trigger Aborted;
  _ ← (if quit : bool then Ret tt else advise_all ms);
  failed ← trigger TakeFailed;
  quit ← trigger Aborted;
  if quit : bool then Ret tt
  else if bool_decide (failed = []) then trigger (LockApp mark_all_locked)
  else trigger (LockApp (set_failed failed)).

Definition release (ms : list MappedFile) : hd (result ModelHolderError unit) :=
  left_ ← trigger JoinUi;
  _ ← trigger Unmap;
  quit ← trigger Aborted;
  _ ← (if quit || negb left_ then
         locked ← trigger LoadLocked; trigger (Tell (LReleased (length ms) (total_bytes ms) locked))
       else Ret tt);
  Ret (if left_ : bool then Ok () else Err UIError).

Record HoldArgs := mkArgs {
  model_paths : list str;
  no_warmup : bool;
  page_size : Z;
  no_mlock : bool;
  lock_threads : nat;
}.

Definition fill_app (patterns paths : list str) (a : AppState) : AppState :=
  update_total_size (foldl (λ a p, add_file (from_utf8_lossy p) a) (set_input_patterns patterns a) paths).

(** From the expanded paths on. *)
Definition hold_paths (args : HoldArgs) (paths : list str) : hd (result ModelHolderError unit) :=
  ready ← trigger InitTerminal;
  if negb ready then Ret (Err UIError)
  else
    _ ← trigger (LockApp (fill_app (model_paths args) paths));
    _ ← trigger SpawnUi;
    ms ← map_paths paths [];
    _ ← (if no_warmup args then Ret tt
         else
           _ ← warm_files (page_size args) ms;
           quit ← trigger Aborted;
           if quit : bool then Ret tt else trigger (LockApp mark_warmup_complete));
    _ ← (if no_mlock args then Ret tt else lock_phase (lock_threads args) ms);
    release ms.

(** *** [hold_models_oneshot] *)
Definition fail_with {A} (why : NoFiles) : hd (result ModelHolderError A) :=
  _ ← trigger Unmap; Ret (Err (NoFilesFound why)).

Fixpoint map_all (paths : list str) (mapped : list MappedFile) : hd (result ModelHolderError (list MappedFile)) :=
  match paths with
  | [] => Ret (Ok mapped)
  | path :: paths' =>
      o ← trigger (OpenFile path);
      match o with
      | None => fail_with (CannotOpen (from_utf8_lossy path))
      | Some size =>
          r ← trigger (MapFile path size);
          match r with
          | None => fail_with (CannotMap (from_utf8_lossy path))
          | Some (id, len) =>
              _ ← trigger (Tell (LMapped path size));
              map_all paths' (mapped ++ [mkMapped path id len size None])
          end
      end
  end.

(** [warmup_file]: the checksum; [None] when a progress line cannot be flushed. *)
Fixpoint read_pages (m : MappedFile) (page_size : Z) (batch : nat * nat) (start index last_print checksum : Z) (offsets : list Z)
    : hd (option Z) :=
  match offsets with
  | [] => Ret (Some checksum)
  | offset :: offsets' =>
      byte ← trigger (ReadPage (mf_id m) offset);
      let checksum := ((checksum + byte) mod u64_modulus)%Z in
      due ← (if (index mod PROGRESS_UPDATE_INTERVAL =? 0)%Z then Ret true
             else now ← trigger Clock; Ret (PROGRESS_UPDATE_TIMEOUT_NS <? now - last_print)%Z);
      if due : bool then
        now ← trigger Clock;
        let percent := f64_mul (f64_div (f64_of_Z index) (f64_of_Z (ceil_div (mf_size m) page_size))) (f64_of_Z 100) in
        flushed ← trigger (TellFlush (LProgress batch percent (mb_per_second (f64_of_Z (index * page_size)) (now - start))));
        if negb flushed then Ret None
        else
          last_print ← trigger Clock;
          read_pages m page_size batch start (index + 1) last_print checksum offsets'
      else read_pages m page_size batch start (index + 1) last_print checksum offsets'
  end.
Definition warmup_file (m : MappedFile) (page_size : Z) (file_idx total_files : nat) : hd (option Z) :=
  start ← trigger Clock;
  last_print ← trigger Clock;
  r ← read_pages m page_size (file_idx + 1, total_files) start 0 last_print 0 (page_offsets (mf_len m) page_size);
  match r with
  | None => Ret None
  | Some checksum =>
      now ← trigger Clock;
      let elapsed := (now - start)%Z in
      _ ← trigger (Tell (LComplete (file_idx + 1, total_files) elapsed (mb_per_second (f64_of_Z (mf_size m)) elapsed) checksum));
      Ret (Some checksum)
  end.
Fixpoint warm_all (page_size : Z) (total idx : nat) (ms : list MappedFile) : hd (option MappedFile) :=
  match ms with
  | [] => Ret None
  | m :: ms' =>
      r ← warmup_file m page_size idx total;
      match r with None => Ret (Some m) | Some _ => warm_all page_size total (S idx) ms' end
  end.

Fixpoint lock_all (cs : list (list MappedFile)) : hd unit :=
  match cs with [] => Ret tt | c :: cs' => _ ← trigger (LockChunk false c); lock_all cs' end.
Fixpoint tell_failed (failed : list str) : hd unit :=
  match failed with [] => Ret tt | p :: ps => _ ← trigger (Tell (LFailed p)); tell_failed ps end.

Definition lock_report (lock_threads : nat) (ms : list MappedFile) : hd unit :=
  _ ← trigger (Tell LLocking);
  _ ← lock_all (chunks (Nat.max lock_threads 1) ms);
  _ ← advise_all ms;
  locked ← trigger LoadLocked;
  failed ← trigger TakeFailed;
  match merge_sort str_le failed with
  | [] => trigger (Tell (LLocked locked))
  | failed => _ ← trigger (Tell (LLockedSome locked (length failed))); tell_failed failed
  end.

Definition oneshot_paths (args : HoldArgs) (paths : list str) : hd (result ModelHolderError unit) :=
  _ ← trigger (Tell (LStart (length paths)));
  r ← map_all paths [];
  match r with
  | Err e => Ret (Err e)
  | Ok ms =>
      bad ← (if no_warmup args then _ ← trigger (Tell LSkipWarmup); Ret None
           else
             _ ← trigger (Tell LWarming);
             start ← trigger Clock;
             bad ← warm_all (page_size args) (length ms) 0 ms;
             match bad with
             | Some m => Ret (Some m)
             | None => now ← trigger Clock; _ ← trigger (Tell (LWarmDone (now - start)%Z)); Ret None
             end);
      match bad with
      | Some m => fail_with (WarmupFailed (from_utf8_lossy (mf_path m)))
      | None =>
      _ ← (if no_mlock args then trigger (Tell LSkipLock) else lock_report (lock_threads args) ms);
      _ ← trigger Unmap;
      _ ← trigger (Tell (LDropped (length ms) (total_bytes ms) (no_warmup args) (no_mlock args)));
      _ ← (if no_mlock args then Ret tt
           else tty ← trigger IsTerminal; if tty : bool then trigger (Tell LHint) else Ret tt);
      Ret (Ok ())
      end
  end.

(** ** The commands *)
Section Commands.
Context (current_dir : option str) (glob : str → option (list str)) (exists_ : str → bool) (canonicalize : str → option str).

Definition prepared (args : HoldArgs) : result ModelHolderError (list str) :=
  _ ← validate_page_size (page_size args);
  expand_globs current_dir glob exists_ canonicalize (model_paths args).

Definition hold_models_with_tui (args : HoldArgs) : hd (result ModelHolderError unit) :=
  match prepared args with Err e => Ret (Err e) | Ok paths => hold_paths args paths end.

Definition hold_models_oneshot (args : HoldArgs) : hd (result ModelHolderError unit) :=
  match prepared args with
  | Err e => Ret (Err e)
  | Ok [] => Ret (Err (NoFilesFound (NoneMatched (lit "No files matched"))))
  | Ok paths => oneshot_paths args paths
  end.
End Commands.
