(* ===== verification/HolderCheck.v ===== *)
(** * The check of the model holder (model-holder/src/main.rs)

    Which processes hold which model files, read off /proc, and how the files of
    the holders and of the servers compare.  /proc is the environment; a
    [HashMap] is a [gmap], and where its order shows the model fixes one. *)
From S2P Require Import Prelude Numbers Prog Utf8 UnixPath HolderState Framing Sse HolderArgs Holder.

Definition DEFAULT_EXTENSIONS : str := lit "gguf,ggml,bin".
Definition MODEL_HOLDER_PROCESS_NAME : str := lit "model-holder".
Definition LLAMA_PROCESS_NAMES : list str := [lit "llama-server"; lit "llama-cli"; lit "llama.cpp"].
Definition MAX_CMDLINE_DISPLAY_LENGTH : nat := 80.
Definition SIZE_MISMATCH_THRESHOLD : f64 := f64_div (f64_of_Z 1) (f64_of_Z 10).

(** (dev, inode). *)
Abbreviation FileIdentity := (str * Z)%type (only parsing).
Record MappedRegion := mkRegion { r_path : str; r_start : Z; r_end : Z; r_dev : str; r_inode : Z }.
Record ProcessMaps := mkMaps { pm_pid : Z; pm_comm : str; pm_cmdline : str; pm_maps : list MappedRegion }.
Record AggregatedFile := mkAgg { ag_path : str; ag_identity : FileIdentity; ag_mapped_size : Z }.

(** ** A line of /proc/pid/maps *)
Definition parse_region (line : str) : option MappedRegion :=
  match split_whitespace line with
  | addr :: _ :: _ :: dev :: inode :: (_ :: _) as path =>
      match split_char "-"%char addr with
      | [a; b] =>
          start ← parse_hex a;
          end_ ← parse_hex b;
          let inode := default 0%Z (parse_u64 inode) in
          let path := join (lit " ") path in
          if starts_with path (lit "/") && (0 <? inode)%Z then Some (mkRegion path start end_ dev inode) else None
      | _ => None
      end
  | _ => None
  end.

(** ** Files of a process *)
Section Files.
Context (to_lowercase : str → str).

Definition is_model_file (path : str) (extensions : list str) : bool :=
  match rfind "."%char path with
  | Some dot_pos => bool_decide (to_lowercase (drop (dot_pos + 1) path) ∈ extensions)
  | None => false
  end.
End Files.

Definition region_size (r : MappedRegion) : Z := ((r_end r - r_start r) mod u64_modulus)%Z.
Definition region_identity (r : MappedRegion) : FileIdentity := (r_dev r, r_inode r).

(** [entry(..).and_modify(..).or_insert(..)]. *)
Definition count_region (by_identity : gmap FileIdentity (str * Z)) (r : MappedRegion) : gmap FileIdentity (str * Z) :=
  match by_identity !! region_identity r with
  | Some (path, total) => <[region_identity r := (path, (total + region_size r) mod u64_modulus)]> by_identity
  | None => <[region_identity r := (r_path r, region_size r)]> by_identity
  end%Z.
Definition aggregate_maps (maps : list MappedRegion) : list AggregatedFile :=
  (λ e, mkAgg e.2.1 e.1 e.2.2) <$> map_to_list (foldl count_region ∅ maps).

(** [sort_by(|a, b| b.mapped_size.cmp(&a.mapped_size))]. *)
Definition larger (a b : AggregatedFile) : Prop := (ag_mapped_size b ≤ ag_mapped_size a)%Z.
#[export] Instance larger_dec : RelDecision larger.
Proof. intros a b. unfold larger. apply _. Defined.

(** The chars from the front that stay within a budget of bytes. *)
Fixpoint fit_bytes (budget used : nat) (gs : list str) : str :=
  match gs with
  | [] => []
  | g :: gs' => if budget <? used + length g then [] else g ++ fit_bytes budget (used + length g) gs'
  end.
Definition truncate_string (s : str) (max_len : nat) : str :=
  if length s <=? max_len then s
  else if max_len <? 4 then []
  else fit_bytes (max_len - 3) 0 (chars s) ++ lit "...".

(** ** What is read of /proc *)
Inductive OpenError := Denied | Gone | OtherError.
Inductive Proc : Type → Type :=
  | MyPid : Proc Z
  | ListProc : Proc (option (list (option str)))        (** names, or an entry that fails *)
  | ReadText (path : str) : Proc (option str)
  | OpenMaps (pid : Z) : Proc (result OpenError (list (option str)))   (** its lines *)
  | TryMaps (pid : Z) : Proc (result OpenError unit)
  | Uid : Proc Z
  | Report (l : ReportLine) : Proc unit
with ReportLine :=
  | NotRunning (process_name : str)
  | Processes (process_name : str)
  | ProcessRow (pid : Z) (comm cmd : str) (models : list AggregatedFile)
  | ProcessDenied (pid : Z) (why : ModelHolderError)
  | NoneFound
  | Comparison (shared : list (FileIdentity * (str * Z) * (str * Z) * option f64))
      (holder_only llama_only : list str) (verdict : option nat).

Abbreviation checked A := (prog Proc (result ModelHolderError A)).
Definition cbind {A B} (p : checked A) (f : A → checked B) : checked B :=
  p ≫= λ r, match r with Ok a => f a | Err e => Ret (Err e) end.

Definition proc_path (pid : Z) (file : String.string) : str := lit "/proc/" ++ show_Z pid ++ lit "/" ++ lit file.
Arguments proc_path _ file%_string.

Fixpoint find_pids (names : list str) (my_pid : Z) (entries : list (option str)) : checked (list Z) :=
  match entries with
  | [] => Ret (Ok [])
  | None :: _ => Ret (Err (NoFilesFound (CannotRead (lit "/proc entry"))))
  | Some name :: entries' =>
      match parse_u32 (from_utf8_lossy name) with
      | Some pid =>
          if (pid =? my_pid)%Z then find_pids names my_pid entries'
          else
            comm ← trigger (ReadText (proc_path pid "comm"));
            let found := match comm with
                         | Some comm => existsb (λ name, contains_sub (trim comm) name) names
                         | None => false
                         end in
            cbind (find_pids names my_pid entries') (λ rest, Ret (Ok (if found then pid :: rest else rest)))
      | None => find_pids names my_pid entries'
      end
  end.
Definition find_processes_by_name (names : list str) : checked (list Z) :=
  my_pid ← trigger MyPid;
  entries ← trigger ListProc;
  match entries with
  | None => Ret (Err (NoFilesFound (CannotRead (lit "/proc"))))
  | Some entries => find_pids names my_pid entries
  end.

Definition null_to_space (s : str) : str := (λ c, if decide (c = ascii_of_nat 0) then " "%char else c) <$> s.

(** [None]: a line that cannot be read. *)
Fixpoint regions (lines : list (option str)) : option (list MappedRegion) :=
  match lines with
  | [] => Some []
  | None :: _ => None
  | Some line :: lines' =>
      rest ← regions lines';
      Some (match parse_region line with Some r => r :: rest | None => rest end)
  end.

Definition read_process_maps (pid : Z) : checked ProcessMaps :=
  comm ← trigger (ReadText (proc_path pid "comm"));
  cmdline ← trigger (ReadText (proc_path pid "cmdline"));
  maps ← trigger (OpenMaps pid);
  Ret (match maps with
       | Err Denied => Err (PermissionDenied [pid])
       | Err Gone => Err (ProcessDisappeared pid)
       | Err OtherError => Err (NoFilesFound (CannotRead (proc_path pid "maps")))
       | Ok lines =>
           match regions lines with
           | None => Err (NoFilesFound (CannotRead (proc_path pid "maps")))
           | Some maps => Ok (mkMaps pid (trim (default [] comm)) (trim (null_to_space (default [] cmdline))) maps)
           end
       end).

Fixpoint denied_pids (pids : list Z) : prog Proc (list Z) :=
  match pids with
  | [] => Ret []
  | pid :: pids' =>
      r ← trigger (TryMaps pid);
      rest ← denied_pids pids';
      Ret (match r with Err Denied => pid :: rest | _ => rest end)
  end.
Definition check_process_permissions (pids : list Z) : checked unit :=
  denied ← denied_pids pids;
  match denied with
  | [] => Ret (Ok ())
  | _ => uid ← trigger Uid; Ret (if (uid =? 0)%Z then Ok () else Err (PermissionDenied denied))
  end.

Abbreviation Models := (gmap FileIdentity (str * Z)) (only parsing).

Section Check.
Context (to_lowercase : str → str).

Definition model_maps (extensions : list str) (maps : list MappedRegion) : list AggregatedFile :=
  merge_sort larger (filter (λ f, is_model_file to_lowercase (ag_path f) extensions = true) (aggregate_maps maps)).
Definition insert_models (models : Models) (found : list AggregatedFile) : Models :=
  foldl (λ m f, <[ag_identity f := (ag_path f, ag_mapped_size f)]> m) models found.

Fixpoint show_processes (extensions : list str) (pids : list Z) (models : Models) : prog Proc Models :=
  match pids with
  | [] => Ret models
  | pid :: pids' =>
      r ← read_process_maps pid;
      match r with
      | Ok pm =>
          let found := model_maps extensions (pm_maps pm) in
          _ ← trigger (Report (ProcessRow pid (pm_comm pm) (truncate_string (pm_cmdline pm) MAX_CMDLINE_DISPLAY_LENGTH) found));
          show_processes extensions pids' (insert_models models found)
      | Err e => _ ← trigger (Report (ProcessDenied pid e)); show_processes extensions pids' models
      end
  end.
Definition display_process_info (process_name : str) (pids : list Z) (extensions : list str) : prog Proc Models :=
  match pids with
  | [] => _ ← trigger (Report (NotRunning process_name)); Ret ∅
  | _ => _ ← trigger (Report (Processes process_name)); show_processes extensions pids ∅
  end.

(** ** The comparison *)
Definition size_ratio (holder_size llama_size : Z) : f64 :=
  if (0 <? holder_size)%Z then f64_div (f64_of_Z llama_size) (f64_of_Z holder_size) else f64_of_Z 1.
Definition has_mismatch (ratio : f64) : bool :=
  f64_lt ratio (f64_sub (f64_of_Z 1) SIZE_MISMATCH_THRESHOLD) || f64_lt (f64_add (f64_of_Z 1) SIZE_MISMATCH_THRESHOLD) ratio.

(** The files both hold, with the server's share when it is off. *)
Definition shared_files (holder llama : Models) : list (FileIdentity * (str * Z) * (str * Z) * option f64) :=
  omap (λ e, l ← llama !! e.1;
    let ratio := size_ratio e.2.2 l.2 in
    Some (e.1, e.2, l, if has_mismatch ratio then Some ratio else None)) (map_to_list holder).
Definition only_in (a b : Models) : list str := (λ e, e.2.1) <$> filter (λ e, b !! e.1 = None) (map_to_list a).

(** The closing line, when every file is shared: how many are off. *)
Definition display_model_comparison (holder llama : Models) : option ReportLine :=
  if bool_decide (holder = ∅) && bool_decide (llama = ∅) then None
  else
    let shared := shared_files holder llama in
    let holder_only := only_in holder llama in
    let llama_only := only_in llama holder in
    Some (Comparison shared holder_only llama_only
      (if bool_decide (holder_only = []) && bool_decide (llama_only = []) && negb (bool_decide (shared = []))
       then Some (length (filter (λ s, is_Some s.2) shared)) else None)).

Definition check_mmaps (extensions : str) : checked unit :=
  match validate_extensions extensions with
  | Err e => Ret (Err e)
  | Ok _ =>
      let ext_set := trim <$> split_char ","%char extensions in
      cbind (find_processes_by_name [MODEL_HOLDER_PROCESS_NAME]) (λ holder_pids,
      cbind (find_processes_by_name LLAMA_PROCESS_NAMES) (λ llama_pids,
      if bool_decide (holder_pids = []) && bool_decide (llama_pids = []) then
        _ ← trigger (Report NoneFound); Ret (Ok ())
      else
        cbind (check_process_permissions (holder_pids ++ llama_pids)) (λ _,
        holder_models ← display_process_info (lit "model-holder") holder_pids ext_set;
        llama_models ← display_process_info (lit "llama-server") llama_pids ext_set;
        match display_model_comparison holder_models llama_models with
        | Some l => _ ← trigger (Report l); Ret (Ok ())
        | None => Ret (Ok ())
        end)))
  end.
End Check.

(** ** What an aggregate says *)
Definition same_file (id : FileIdentity) (maps : list MappedRegion) : list MappedRegion := filter (λ r, region_identity r = id) maps.
Definition mapped_bytes (rs : list MappedRegion) : Z := (foldr (λ r t, region_size r + t) 0 rs mod u64_modulus)%Z.

Lemma count_regions m maps id :
  foldl count_region m maps !! id =
  match m !! id, same_file id maps with
  | Some (path, total), rs => Some (path, if bool_decide (rs = []) then total else (total + mapped_bytes rs) mod u64_modulus)%Z
  | None, r :: rs => Some (r_path r, mapped_bytes (r :: rs))
  | None, [] => None
  end.
Proof.
  unfold same_file, mapped_bytes. revert m. induction maps as [|r maps IH]; intros m.
  { cbn. by destruct (m !! id) as [[]|]. }
  cbn [foldl]. rewrite IH, filter_cons. unfold count_region. destruct (decide (region_identity r = id)) as [<-|Hne].
  - destruct (m !! region_identity r) as [[p t]|] eqn:E; rewrite lookup_insert_eq; f_equal; f_equal.
    + rewrite (bool_decide_eq_false_2 (r :: _ = [])) by done. cbn [foldr]. case_bool_decide as Hnil.
      * rewrite Hnil. cbn. by rewrite Zplus_mod_idemp_r, Z.add_0_r.
      * rewrite <- Zplus_mod, Zplus_mod_idemp_r. f_equal. lia.
    + assert (region_size r mod u64_modulus = region_size r)%Z as Hr by (unfold region_size; by rewrite Zmod_mod).
      cbn [foldr]. case_bool_decide as Hnil; [rewrite Hnil; cbn; by rewrite Z.add_0_r, Hr|]. by rewrite Zplus_mod_idemp_r.
  - destruct (m !! region_identity r) as [[p t]|]; by rewrite lookup_insert_ne.
Qed.

(** The regions of a process, file by file: each file mapped appears once, under
    the path of its first region, with the bytes of all its regions. *)
Theorem aggregate_right maps :
  NoDup (ag_identity <$> aggregate_maps maps) ∧
  ∀ a, a ∈ aggregate_maps maps ↔
    ∃ r rs, same_file (ag_identity a) maps = r :: rs ∧ ag_path a = r_path r ∧ ag_mapped_size a = mapped_bytes (r :: rs).
Proof.
  unfold aggregate_maps. split.
  - rewrite <- list_fmap_compose. change (ag_identity ∘ _) with (@fst FileIdentity (str * Z)). apply NoDup_fst_map_to_list.
  - intros [p id n]. rewrite list_elem_of_fmap. cbn. split.
    + intros ([id' [p' n']] & [= -> -> ->] & Hin). apply elem_of_map_to_list in Hin. rewrite count_regions, lookup_empty in Hin.
      destruct (same_file id' maps) as [|r rs]; [done|]. exists r, rs. by simplify_eq.
    + intros (r & rs & E & -> & ->). exists (id, (r_path r, mapped_bytes (r :: rs))). split; [done|].
      apply elem_of_map_to_list. by rewrite count_regions, lookup_empty, E.
Qed.

(** ** What the comparison says *)

(** Every file of a holder or of a server is told of exactly once: as shared,
    with both sizes, or as held on one side only; and all are said to be shared
    exactly when the two sides have the same files and any at all. *)
Theorem comparison_right holder llama shared holder_only llama_only verdict :
  display_model_comparison holder llama = Some (Comparison shared holder_only llama_only verdict) →
  (∀ id h l o, (id, h, l, o) ∈ shared ↔ holder !! id = Some h ∧ llama !! id = Some l ∧
     o = if has_mismatch (size_ratio h.2 l.2) then Some (size_ratio h.2 l.2) else None) ∧
  (∀ p, p ∈ holder_only ↔ ∃ id n, holder !! id = Some (p, n) ∧ llama !! id = None) ∧
  (∀ p, p ∈ llama_only ↔ ∃ id n, llama !! id = Some (p, n) ∧ holder !! id = None) ∧
  length shared + length holder_only = size holder ∧
  (is_Some verdict ↔ dom holder = dom llama ∧ holder ≠ ∅).
Proof.
  unfold display_model_comparison. destruct (_ && _) eqn:Hne; [done|]. intros [= <- <- <- <-].
  assert (∀ id h l o, (id, h, l, o) ∈ shared_files holder llama ↔ holder !! id = Some h ∧ llama !! id = Some l ∧
     o = if has_mismatch (size_ratio h.2 l.2) then Some (size_ratio h.2 l.2) else None) as Hs.
  { intros id h l o. unfold shared_files. rewrite list_elem_of_omap. split.
    - intros ([id' h'] & Hin & E). apply elem_of_map_to_list in Hin. apply bind_Some in E as (l' & El & E). by simplify_eq/=.
    - intros (Hh & Hl & ->). exists (id, h). split; [by apply elem_of_map_to_list|]. cbn. by rewrite Hl. }
  assert (∀ (a b : Models) p, p ∈ only_in a b ↔ ∃ id n, a !! id = Some (p, n) ∧ b !! id = None) as Ho.
  { intros a b p. unfold only_in. rewrite list_elem_of_fmap. split.
    - intros ([id [p' n]] & -> & [Hb Hin]%list_elem_of_filter). apply elem_of_map_to_list in Hin. by exists id, n.
    - intros (id & n & Ha & Hb). exists (id, (p, n)). split; [done|]. apply list_elem_of_filter. split; [done|]. by apply elem_of_map_to_list. }
  split_and!; [done|apply Ho|apply Ho| |].
  - unfold shared_files, only_in. rewrite length_fmap.
    match goal with |- length (omap ?f _) + length (filter ?P _) = _ =>
      assert (∀ es, length (omap f es) + length (filter P es) = length es) as Hl; [|rewrite Hl; apply length_map_to_list] end.
    intros es. induction es as [|[id h] es IH]; [done|]. rewrite filter_cons. cbn [omap list_omap fst].
    destruct (llama !! id); [rewrite decide_False by done; cbn; lia|rewrite decide_True by done; cbn; lia].
  - assert (∀ a b : Models, only_in a b = [] ↔ dom a ⊆ dom b) as Hd.
    { intros a b. split.
      - intros E id [[p n] Ha]%elem_of_dom. apply elem_of_dom. destruct (b !! id) eqn:Eb; [done|]. exfalso.
        apply (not_elem_of_nil p). rewrite <- E. apply Ho. eauto.
      - intros Hsub. apply elem_of_nil_inv. intros p (id & n & Ha & Hb)%Ho. apply elem_of_dom_2, Hsub in Ha. by apply not_elem_of_dom in Hb. }
    split.
    + intros [n E]. destruct (_ && _) eqn:Ev in E; [|done]. apply andb_true_iff in Ev as [[H1 H2]%andb_true_iff H3].
      apply bool_decide_eq_true in H1, H2. apply Hd in H1, H2. split; [set_solver|]. intros ->.
      unfold shared_files in H3. by rewrite map_to_list_empty in H3.
    + intros [E Hn]. rewrite (bool_decide_eq_true_2 (only_in holder llama = [])) by (apply Hd; by rewrite E).
      rewrite (bool_decide_eq_true_2 (only_in llama holder = [])) by (apply Hd; by rewrite E).
      apply map_choose in Hn as (id & h & Hh). assert (is_Some (llama !! id)) as [l Hl].
      { apply elem_of_dom. rewrite <- E. by apply elem_of_dom_2 in Hh. }
      rewrite bool_decide_eq_false_2; [done|]. intros En. apply (not_elem_of_nil (A := FileIdentity * (str * Z) * (str * Z) * option f64) (id, h, l, if has_mismatch (size_ratio h.2 l.2) then Some (size_ratio h.2 l.2) else None)).
      rewrite <- En. by apply Hs.
Qed.

(** ** Extensions *)

(** The extension of a file is lowered, those asked for are not: one asked for
    with a capital in it matches no file at all. *)
Lemma capital_extension_never_matches to_lowercase path extensions :
  (∀ s c, c ∈ to_lowercase s → ¬ (65 ≤ byte_val c ≤ 90)%Z) →
  Forall (λ e, ∃ c, c ∈ e ∧ (65 ≤ byte_val c ≤ 90)%Z) extensions →
  is_model_file to_lowercase path extensions = false.
Proof.
  intros Hlow Hcap. unfold is_model_file. destruct (rfind _ path) as [i|]; [|done]. apply bool_decide_eq_false_2. intros Hin.
  rewrite Forall_forall in Hcap. destruct (Hcap _ Hin) as (c & Hc & Hr). by apply (Hlow _ _ Hc).
Qed.

(** ** A command line on the screen *)
Lemma fit_bytes_spec budget used gs : used ≤ budget → used + length (fit_bytes budget used gs) ≤ budget ∧ fit_bytes budget used gs `prefix_of` concat gs.
Proof.
  revert used. induction gs as [|g gs IH]; intros used Hu; cbn [fit_bytes concat]; [split; [cbn; lia|done]|].
  destruct (budget <? used + length g) eqn:E; [split; [cbn; lia|apply prefix_nil]|]. apply Nat.ltb_ge in E.
  destruct (IH _ E) as [Hl Hp]. split; [rewrite length_app; lia|by apply prefix_app].
Qed.

Lemma truncate_string_right s n : length (truncate_string s n) ≤ n ∧ (length s ≤ n → truncate_string s n = s).
Proof.
  unfold truncate_string. destruct (length s <=? n) eqn:E; [apply Nat.leb_le in E; by split|]. apply Nat.leb_gt in E. split; [|lia].
  destruct (n <? 4) eqn:E4; [cbn; lia|]. apply Nat.ltb_ge in E4. destruct (fit_bytes_spec (n - 3) 0 (chars s)) as [Hl _]; [lia|].
  rewrite length_app. change (length (lit "...")) with 3. lia.
Qed.

(** ** A line of the maps *)

(** A line of six fields and more, whatever blanks stand before the path, is
    read as the region it names, provided it maps a file. *)
Theorem parse_region_right a b perms offset dev inode path gap start end_ ino :
  Forall word [a ++ lit "-" ++ b; perms; offset; dev; inode] → Forall word path → path ≠ [] →
  "-"%char ∉ a → "-"%char ∉ b → parse_hex a = Some start → parse_hex b = Some end_ → parse_u64 inode = Some ino →
  parse_region (join (lit " ") [a ++ lit "-" ++ b; perms; offset; dev; inode] ++ replicate (S gap) " "%char ++ join (lit " ") path) =
  if starts_with (join (lit " ") path) (lit "/") && (0 <? ino)%Z then Some (mkRegion (join (lit " ") path) start end_ dev ino) else None.
Proof.
  intros Hw Hp Hne Ha Hb Hs He Hi. apply Forall_cons in Hw as [H1 Hw]. apply Forall_cons in Hw as [H2 Hw].
  apply Forall_cons in Hw as [H3 Hw]. apply Forall_cons in Hw as [H4 Hw]. apply Forall_cons in Hw as [H5 _].
  remember (a ++ lit "-" ++ b) as ab eqn:Eab. cbn [join]. rewrite <- !app_assoc. change (lit " ") with [" "%char]. cbn [app].
  unfold parse_region. rewrite split_whitespace_cons by (auto using word_app_starts).
  do 3 rewrite split_whitespace_cons by (auto using word_app_starts).
  change (replicate (S gap) " "%char ++ ?s) with (" "%char :: replicate gap " "%char ++ s).
  rewrite split_whitespace_cons by first [done | destruct gap; [by apply join_starts|done]].
  rewrite split_whitespace_spaces, split_whitespace_join by (auto using join_starts). destruct path as [|w ws]; [done|].
  subst ab. change (a ++ lit "-" ++ b) with (a ++ "-"%char :: b). rewrite split_char_app, !split_char_clean by done. cbn [app].
  rewrite Hs, He, Hi. done.
Qed.
