(* ===== verification/HolderWorld.v ===== *)
(** * The model holder at work: threads over one world

    The main thread's program, the locking threads of the current chunk and the
    screen's thread, interleaved access by access.  A chunk is a scope: the main
    thread goes on when its threads are done.  The books beside the main thread
    keep what it knows; they have no part in what happens. *)
From S2P Require Import Prelude Numbers Prog Utf8 UnixPath HolderState HolderScreen HolderViews Sse HolderArgs Holder.

Inductive UiThread := UiNone | UiRunning | UiLeft | UiPanicked.

Record Mapping := mkMapping { mp_path : str; mp_size : Z; mp_pinned : bool }.

Record World := mkWorld {
  w_app : AppState;
  w_poisoned : bool;
  w_exit : bool;                   (** [should_exit] *)
  w_ui : UiThread;
  w_maps : list Mapping;
  w_gone : list Mapping;           (** mapped once, released since *)
  w_locked : Z;                    (** [locked_bytes] *)
  w_failed : list str;             (** [failed_files] *)
  w_time : Z;
  w_told : list Line;
}.

Definition on_app (f : AppState → AppState) (w : World) : World :=
  mkWorld (f (w_app w)) (w_poisoned w) (w_exit w) (w_ui w) (w_maps w) (w_gone w) (w_locked w) (w_failed w) (w_time w) (w_told w).
Definition try_app (f : AppState → AppState) (w : World) : World := if w_poisoned w then w else on_app f w.
Definition with_ui (u : UiThread) (poisoned exit : bool) (w : World) : World :=
  mkWorld (w_app w) poisoned exit u (w_maps w) (w_gone w) (w_locked w) (w_failed w) (w_time w) (w_told w).
Definition with_maps (maps gone : list Mapping) (w : World) : World :=
  mkWorld (w_app w) (w_poisoned w) (w_exit w) (w_ui w) maps gone (w_locked w) (w_failed w) (w_time w) (w_told w).
Definition with_locked (n : Z) (w : World) : World :=
  mkWorld (w_app w) (w_poisoned w) (w_exit w) (w_ui w) (w_maps w) (w_gone w) n (w_failed w) (w_time w) (w_told w).
Definition with_failed (l : list str) (w : World) : World :=
  mkWorld (w_app w) (w_poisoned w) (w_exit w) (w_ui w) (w_maps w) (w_gone w) (w_locked w) l (w_time w) (w_told w).
Definition at_time (t : Z) (w : World) : World :=
  mkWorld (w_app w) (w_poisoned w) (w_exit w) (w_ui w) (w_maps w) (w_gone w) (w_locked w) (w_failed w) t (w_told w).
Definition tell (l : Line) (w : World) : World :=
  mkWorld (w_app w) (w_poisoned w) (w_exit w) (w_ui w) (w_maps w) (w_gone w) (w_locked w) (w_failed w) (w_time w) (w_told w ++ [l]).

Definition world_new : World := mkWorld app_new false false UiNone [] [] 0 [] 0 [].

(** ** The main thread's accesses *)
Definition hd_effect (X : Type) (e : Hd X) : X → World → World → Prop :=
  match e in Hd X return X → World → World → Prop with
  | InitTerminal | IsTerminal => λ _ w w', w' = w
  | SpawnUi => λ _ w w', w' = with_ui UiRunning (w_poisoned w) (w_exit w) w
  | Aborted => λ x w w', x = w_exit w ∧ w' = w
  | LockApp f => λ _ w w', w' = on_app f w
  | TryApp f => λ _ w w', w' = try_app f w
  | OpenFile _ => λ _ w w', w' = w
  | MapFile path size => λ r w w',
      match r with
      | None => w' = w
      | Some (id, _) => id = length (w_maps w) ∧ w' = with_maps (w_maps w ++ [mkMapping path size false]) (w_gone w) w
      end
  | ReadPage _ _ | Advise _ => λ _ w w', w' = w
  | Clock => λ t w w', (w_time w ≤ t)%Z ∧ w' = at_time t w
  | LockChunk _ _ => λ _ _ _, False                     (** a step of its own *)
  | TakeFailed => λ l w w', l = w_failed w ∧ w' = w
  | JoinUi => λ ok w w', w' = w ∧ match w_ui w with UiRunning => False | UiPanicked => ok = false | _ => ok = true end
  | LoadLocked => λ n w w', n = w_locked w ∧ w' = w
  | Unmap => λ _ w w', w' = with_maps [] (w_gone w ++ w_maps w) w
  | Tell l => λ _ w w', w' = tell l w
  | TellFlush l => λ _ w w', w' = tell l w
  end.

(** ** A locking thread *)
Inductive WorkerPc :=
  | WStart                         (** about to read the clock *)
  | WLock (start : Z)              (** about to [mlock] *)
  | WAdd (start : Z)               (** locked; about to add to [locked_bytes] *)
  | WTimed (start : Z)             (** about to read the clock again *)
  | WPublish (elapsed : Z)         (** about to mark the file *)
  | WFail                          (** refused; about to note the file *)
  | WDone.
#[export] Instance worker_pc_eq_dec : EqDecision WorkerPc.
Proof. solve_decision. Defined.
Record Worker := mkWorker { wk_tui : bool; wk_file : MappedFile; wk_pc : WorkerPc }.

Definition spawn_worker (tui : bool) (m : MappedFile) : Worker := mkWorker tui m (if tui then WStart else WLock 0).
Definition at_pc (pc : WorkerPc) (k : Worker) : Worker := mkWorker (wk_tui k) (wk_file k) pc.

Definition publish_locked (m : MappedFile) (elapsed : Z) (f : FileStatus) : FileStatus :=
  let speed := mb_per_second (f64_of_Z (mf_size m)) elapsed in
  mark_locked (default f64_zero (mmap_speed f)) speed elapsed
    (set_lock_duration elapsed
      (set_mmap_duration (match mmap_duration f with Some d => Some d | None => mf_mmap_duration m end) f)).

Definition pin (m : Mapping) : Mapping := mkMapping (mp_path m) (mp_size m) true.

Inductive worker_step (k : Worker) (w : World) : Worker → World → Prop :=
  | wk_clock t : wk_pc k = WStart → (w_time w ≤ t)%Z → worker_step k w (at_pc (WLock t) k) (at_time t w)
  | wk_mlock start : wk_pc k = WLock start →
      worker_step k w (at_pc (WAdd start) k) (with_maps (alter pin (mf_id (wk_file k)) (w_maps w)) (w_gone w) w)
  | wk_refused start : wk_pc k = WLock start → worker_step k w (at_pc WFail k) w
  | wk_add start : wk_pc k = WAdd start →
      worker_step k w (at_pc (if wk_tui k then WTimed start else WDone) k)
        (with_locked ((w_locked w + mf_size (wk_file k)) mod u64_modulus)%Z w)
  | wk_timed start t : wk_pc k = WTimed start → (w_time w ≤ t)%Z →
      worker_step k w (at_pc (WPublish (t - start)%Z) k) (at_time t w)
  | wk_publish elapsed : wk_pc k = WPublish elapsed →
      worker_step k w (at_pc WDone k)
        (try_app (find_file_mut (from_utf8_lossy (mf_path (wk_file k))) (publish_locked (wk_file k) elapsed)) w)
  | wk_fail : wk_pc k = WFail →
      worker_step k w (at_pc WDone k) (with_failed (w_failed w ++ [from_utf8_lossy (mf_path (wk_file k))]) w).

Definition done (k : Worker) : Prop := wk_pc k = WDone.
#[export] Instance done_dec k : Decision (done k).
Proof. unfold done. apply _. Defined.

Section Machine.
Context (to_lowercase : str → str).

(** ** The screen's thread: [run] *)
Inductive ui_step (w : World) : World → Prop :=
  | ui_leaves : w_exit w = true → ui_step w (with_ui UiLeft (w_poisoned w) true w)
  | ui_draws : ui_step w w
  | ui_key key : w_poisoned w = false →
      ui_step w (on_app (λ a, (handle_key to_lowercase a key).1)
        (with_ui UiRunning false (w_exit w || (handle_key to_lowercase (w_app w) key).2) w))
  | ui_panics (holding : bool) : ui_step w (with_ui UiPanicked (w_poisoned w || holding) true w).

(** ** The books of the main thread *)
Record Books := mkBooks {
  b_maps : list (str * Z);         (** mapped so far: path and size *)
  b_handed : nat;                  (** of these, handed to locking threads *)
  b_quit : bool;                   (** seen [should_exit] set *)
  b_failed : option (list str);
  b_locked : option Z;
  b_spawned : bool;
  b_joined : bool;
  b_unmapped : bool;
  b_bogus : bool;                  (** an answer no world gives *)
}.
Definition books_new : Books := mkBooks [] 0 false None None false false false false.

Definition account (X : Type) (e : Hd X) (x : X) (b : Books) : Books :=
  match e in Hd X return X → Books with
  | SpawnUi => λ _, mkBooks (b_maps b) (b_handed b) (b_quit b) (b_failed b) (b_locked b) true (b_joined b) (b_unmapped b) (b_bogus b)
  | Aborted => λ x, mkBooks (b_maps b) (b_handed b) (b_quit b || x) (b_failed b) (b_locked b) (b_spawned b) (b_joined b)
      (b_unmapped b) (b_bogus b || (b_quit b && negb x))
  | MapFile path size => λ r,
      match r with
      | Some (id, _) => mkBooks (b_maps b ++ [(path, size)]) (b_handed b) (b_quit b) (b_failed b) (b_locked b) (b_spawned b)
          (b_joined b) (b_unmapped b) (b_bogus b || negb (id =? length (b_maps b)))
      | None => b
      end
  | LockChunk _ c => λ _, mkBooks (b_maps b) (b_handed b + length c) (b_quit b) (b_failed b) (b_locked b) (b_spawned b)
      (b_joined b) (b_unmapped b) (b_bogus b)
  | TakeFailed => λ x, mkBooks (b_maps b) (b_handed b) (b_quit b) (Some x) (b_locked b) (b_spawned b) (b_joined b) (b_unmapped b) (b_bogus b)
  | JoinUi => λ _, mkBooks (b_maps b) (b_handed b) (b_quit b) (b_failed b) (b_locked b) (b_spawned b) true (b_unmapped b) (b_bogus b)
  | LoadLocked => λ x, mkBooks (b_maps b) (b_handed b) (b_quit b) (b_failed b) (Some x) (b_spawned b) (b_joined b) (b_unmapped b) (b_bogus b)
  | Unmap => λ _, mkBooks (b_maps b) (b_handed b) (b_quit b) (b_failed b) (b_locked b) (b_spawned b) (b_joined b) true (b_bogus b)
  | _ => λ _, b
  end x.

(** ** The machine *)
Record Machine := mkMachine {
  m_main : hd (result ModelHolderError unit);
  m_books : Books;
  m_workers : list Worker;
  m_world : World;
}.
Definition start (p : hd (result ModelHolderError unit)) : Machine := mkMachine p books_new [] world_new.

Inductive own_step : Machine → Machine → Prop :=
  | step_main X (e : Hd X) k b ws w x w' :
      Forall done ws → hd_effect X e x w w' →
      own_step (mkMachine (Vis X e k) b ws w) (mkMachine (k x) (account X e x b) ws w')
  | step_scope tui c k b ws w :
      Forall done ws →
      own_step (mkMachine (Vis unit (LockChunk tui c) k) b ws w)
        (mkMachine (k tt) (account unit (LockChunk tui c) tt b) (spawn_worker tui <$> c) w)
  | step_worker i p b ws w k k' w' :
      ws !! i = Some k → worker_step k w k' w' →
      own_step (mkMachine p b ws w) (mkMachine p b (<[i := k']> ws) w').

Inductive step : Machine → Machine → Prop :=
  | step_own m m' : own_step m m' → step m m'
  | step_ui p b ws w w' : w_ui w = UiRunning → ui_step w w' → step (mkMachine p b ws w) (mkMachine p b ws w').

Definition runs : Machine → Machine → Prop := rtc step.
End Machine.
