(* ===== verification/HolderFacts.v ===== *)
(** * What the model holder promises

    The screen never shows a file as locked that is not pinned, nothing is
    released while the screen is up, the files, sizes and counts of the lines
    printed are true when they are read, and the holder ends once it is told to. *)
From S2P Require Import Prelude Numbers Prog Utf8 UnixPath HolderState HolderScreen HolderViews Sse HolderArgs Holder HolderWorld.

(** ** Counting *)
Definition pinned_bytes (ms : list Mapping) : Z := foldr (λ m t, (if mp_pinned m then mp_size m else 0) + t)%Z 0%Z ms.
Definition pending (ws : list Worker) : Z :=
  foldr (λ k t, (match wk_pc k with WAdd _ => mf_size (wk_file k) | _ => 0 end) + t)%Z 0%Z ws.
Definition mapped_all (w : World) : list Mapping := w_gone w ++ w_maps w.

Lemma foldr_sum_insert {A} (f : A → Z) (l : list A) i x y :
  l !! i = Some x →
  foldr (λ a t, f a + t)%Z 0%Z (<[i:=y]> l) = (foldr (λ a t, f a + t) 0 l - f x + f y)%Z.
Proof.
  revert i. induction l as [|a l IH]; intros [|i]; simpl; [done..|intros [= ->]; lia|].
  intros H. rewrite (IH _ H). lia.
Qed.
Lemma foldr_sum_app {A} (f : A → Z) (l k : list A) :
  foldr (λ a t, f a + t)%Z 0%Z (l ++ k) = (foldr (λ a t, f a + t) 0 l + foldr (λ a t, f a + t) 0 k)%Z.
Proof. induction l as [|a l IH]; simpl; lia. Qed.

Lemma pending_done ws : Forall done ws → pending ws = 0%Z.
Proof. unfold pending. induction 1 as [|k ws Hk _ IH]; [done|]. cbn. unfold done in Hk. rewrite Hk, IH. done. Qed.

Section Facts.
Context (to_lowercase : str → str) (total : nat).   (** the paths of the run *)
Abbreviation view_ok := (view_ok to_lowercase).

(** ** What the main thread may do, given its books *)

(** Locks no file on the screen, and nothing else it does not own. *)
Definition quiet (f : AppState → AppState) : Prop := ∀ a,
  (∀ g, g ∈ files (f a) → is_locked g = true → ∃ g0, g0 ∈ files a ∧ is_locked g0 = true ∧ f_path g0 = f_path g) ∧
  all_locked (f a) = all_locked a ∧ (view_ok a → view_ok (f a)).

Definition closed (b : Books) : bool :=
  match b_failed b, b_locked b with None, None => b_unmapped b | _, _ => true end.
Definition all_handed (b : Books) : Prop := b_handed b = length (b_maps b).

Definition handed_right (b : Books) (c : list MappedFile) : Prop :=
  ∀ i m, c !! i = Some m → mf_id m = b_handed b + i ∧ b_maps b !! mf_id m = Some (mf_path m, mf_size m).

Definition told_ok (b : Books) (l : Line) : Prop :=
  match l with
  | LReleased held bytes locked =>
      b_unmapped b = true ∧ held = length (b_maps b) ∧ bytes = sum_u64 (b_maps b).*2 ∧ b_locked b = Some locked
  | LLocked locked => b_locked b = Some locked ∧ b_failed b = Some [] ∧ all_handed b
  | LLockedSome locked n => b_locked b = Some locked ∧ ∃ l, b_failed b = Some l ∧ n = length l ∧ n ≠ 0
  | LStart n => n = total
  | LMapped path size => (path, size) ∈ b_maps b
  | LFailed path => ∃ l, b_failed b = Some l ∧ path ∈ l
  | LDropped held bytes _ _ => b_unmapped b = true ∧ held = length (b_maps b) ∧ bytes = sum_u64 (b_maps b).*2
  | _ => True
  end.

Definition may (X : Type) (e : Hd X) (b : Books) : Prop :=
  b_bogus b = true ∨
  match e with
  | SpawnUi => b_joined b = false ∧ closed b = false
  | LockApp f => quiet f ∨ f = mark_all_locked ∧ b_failed b = Some [] ∧ all_handed b
  | TryApp f => quiet f
  | MapFile _ _ => closed b = false ∧ b_handed b = 0
  | LockChunk _ c => closed b = false ∧ handed_right b c
  | Unmap => b_joined b = true ∨ b_spawned b = false
  | Tell l | TellFlush l => told_ok b l
  | _ => True
  end.

(** At the end everything is released. *)
Definition released (r : result ModelHolderError unit) (b : Books) : Prop :=
  b_bogus b = true ∨ (b_unmapped b = true ∨ b_maps b = []) ∧ (b_joined b = true ∨ b_spawned b = false).

(** ** The invariant *)
Definition line_true (w : World) (l : Line) : Prop :=
  match l with
  | LReleased held bytes locked =>
      w_maps w = [] ∧ w_ui w ≠ UiRunning ∧ held = length (mapped_all w) ∧ bytes = sum_u64 (mp_size <$> mapped_all w) ∧
      locked = (pinned_bytes (mapped_all w) mod u64_modulus)%Z
  | LLocked locked => Forall (λ m, mp_pinned m = true) (mapped_all w) ∧ locked = (pinned_bytes (mapped_all w) mod u64_modulus)%Z
  | LLockedSome locked n => locked = (pinned_bytes (mapped_all w) mod u64_modulus)%Z ∧ n = length (w_failed w) ∧ n ≠ 0
  | LStart n => n = total
  | LMapped path size => ∃ m, m ∈ mapped_all w ∧ mp_path m = path ∧ mp_size m = size
  | LFailed path => path ∈ w_failed w
  | LDropped held bytes _ _ => w_maps w = [] ∧ held = length (mapped_all w) ∧ bytes = sum_u64 (mp_size <$> mapped_all w)
  | _ => True
  end.
Definition counts (l : Line) : bool :=
  match l with LReleased _ _ _ | LLocked _ | LLockedSome _ _ | LDropped _ _ _ _ => true | _ => false end.

Definition pc_pinned (pc : WorkerPc) : bool :=
  match pc with WStart | WLock _ | WFail => false | _ => true end.

Record Inv (b : Books) (ws : list Worker) (w : World) : Prop := {
  i_all : (λ m, (mp_path m, mp_size m)) <$> mapped_all w = b_maps b;
  i_gone : if b_unmapped b then w_maps w = [] else w_gone w = [];
  i_quit : b_quit b = true → w_exit w = true;
  i_ui : (b_spawned b = false → w_ui w = UiNone) ∧ (b_joined b = true → w_ui w ≠ UiRunning);
  i_unmapped : b_unmapped b = true → b_joined b = true ∨ b_spawned b = false;
  i_closed : closed b = true → Forall done ws;
  i_worker : ∀ k, k ∈ ws → ¬ done k → mf_id (wk_file k) < b_handed b ∧
    ∃ m, w_maps w !! mf_id (wk_file k) = Some m ∧ mp_path m = mf_path (wk_file k) ∧ mp_size m = mf_size (wk_file k) ∧
      mp_pinned m = pc_pinned (wk_pc k);
  i_ids : NoDup ((λ k, mf_id (wk_file k)) <$> ws);
  i_pinned : ∀ id m, mapped_all w !! id = Some m → mp_pinned m = true → id < b_handed b;
  i_settled : ∀ id m, mapped_all w !! id = Some m → id < b_handed b →
    mp_pinned m = true ∨ (∃ k, k ∈ ws ∧ mf_id (wk_file k) = id ∧ ¬ done k) ∨ w_failed w ≠ [];
  i_count : ((w_locked w + pending ws) mod u64_modulus = pinned_bytes (mapped_all w) mod u64_modulus)%Z ∧
    (0 ≤ w_locked w < u64_modulus)%Z;
  i_failed : ∀ l, b_failed b = Some l → l = w_failed w;
  i_locked : ∀ n, b_locked b = Some n → n = w_locked w;
  i_honest : ∀ f, f ∈ files (w_app w) → is_locked f = true →
    ∃ m, m ∈ mapped_all w ∧ from_utf8_lossy (mp_path m) = f_path f ∧ mp_pinned m = true;
  i_all_locked : all_locked (w_app w) = true → closed b = true ∧ Forall (λ m, mp_pinned m = true) (mapped_all w);
  i_view : view_ok (w_app w);
  i_told : Forall (λ l, line_true w l ∧ (counts l = true → closed b = true)) (w_told w);
}.

Lemma inv_new : Inv books_new [] world_new.
Proof using Type.
  constructor; try done; cbn; try (intros; set_solver); try (split; done); try constructor; try set_solver; try lia.
Qed.

(** *** Changes of the screen's state *)
Lemma inv_on_app f b ws w :
  quiet f → Inv b ws w → Inv b ws (on_app f w).
Proof using Type.
  intros Hf [? ? ? ? ? ? ? ? ? ? ? ? ? Hh Ha Hv ?]. destruct (Hf (w_app w)) as (Hl & Hall & Hview).
  constructor; cbn in *; auto; [|by rewrite Hall].
  intros g Hg Hlk. destruct (Hl g Hg Hlk) as (g0 & Hg0 & Hlk0 & <-). by apply Hh.
Qed.

Lemma inv_try_app f b ws w : quiet f → Inv b ws w → Inv b ws (try_app f w).
Proof using Type. intros Hf Hi. unfold try_app. destruct (w_poisoned w); [done|by apply inv_on_app]. Qed.

Lemma inv_lengths b ws w : Inv b ws w → length (mapped_all w) = length (b_maps b).
Proof using Type. intros Hi. rewrite <- (i_all _ _ _ Hi). by rewrite length_fmap. Qed.

Lemma inv_pinned_all b ws w : Inv b ws w → b_failed b = Some [] → all_handed b → Forall (λ m, mp_pinned m = true) (mapped_all w).
Proof using Type.
  intros Hi Hf Ha. apply Forall_lookup. intros id m Hm.
  assert (id < b_handed b) as Hid. { rewrite Ha, <- (inv_lengths _ _ _ Hi). by apply lookup_lt_Some in Hm. }
  destruct (i_settled _ _ _ Hi id m Hm Hid) as [?|[(k & Hk & _ & Hnd)|Hne]]; [done| |].
  - exfalso. apply Hnd. assert (closed b = true) as Hc by (unfold closed; by rewrite Hf).
    pose proof (i_closed _ _ _ Hi Hc) as Hd. rewrite Forall_forall in Hd. auto.
  - by apply (i_failed _ _ _ Hi) in Hf.
Qed.

Lemma inv_all_locked b ws w :
  Inv b ws w → b_failed b = Some [] → all_handed b → Inv b ws (on_app mark_all_locked w).
Proof using Type.
  intros Hi Hf Ha. pose proof (inv_pinned_all b ws w Hi Hf Ha) as Hp. destruct Hi. constructor; try done.
  cbn. intros _. split; [|done]. unfold closed. by rewrite Hf.
Qed.

(** *** The screen's thread *)
Lemma inv_with_ui b ws w u p e : w_ui w = UiRunning → u ≠ UiNone → (w_exit w = true → e = true) → Inv b ws w → Inv b ws (with_ui u p e w).
Proof using Type.
  intros Hu Hn He [? ? ? [Hs Hj] ? ? ? ? ? ? ? ? ? ? ? ? Ht]. constructor; cbn; auto.
  - split; [intros H; by rewrite Hs in Hu|]. intros H. by apply Hj in H.
  - eapply Forall_impl; [exact Ht|]. intros [] [Hl Hc]; split; try done. destruct Hl as (_ & Hl & _). done.
Qed.

Lemma inv_ui_step b ws w w' : w_ui w = UiRunning → ui_step to_lowercase w w' → Inv b ws w → Inv b ws w'.
Proof using Type.
  intros Hu Hs Hi. destruct Hs as [He| |key Hp|h]; [|done| |].
  - by apply inv_with_ui.
  - apply inv_on_app; [|apply inv_with_ui; [done..|by intros ->|done]].
    intros a. split_and!.
    + intros g Hg Hl. exists g. split_and!; [|done..]. replace (files a) with (files (handle_key to_lowercase a key).1); [done|].
      apply handle_key_files.
    + apply handle_key_files.
    + apply handle_key_view.
  - by apply inv_with_ui.
Qed.

(** What is told stays true while mappings are made and pinned and files fail;
    the lines that count come when nothing of that happens any more. *)
Definition keeps (w w' : World) : Prop :=
  (∀ m, m ∈ mapped_all w → ∃ m', m' ∈ mapped_all w' ∧ mp_path m' = mp_path m ∧ mp_size m' = mp_size m) ∧
  w_failed w ⊆ w_failed w'.
Lemma told_open w w' b told : keeps w w' → Forall (λ l, line_true w l ∧ counts l = false) told →
  Forall (λ l, line_true w' l ∧ (counts l = true → closed b = true)) told.
Proof using Type.
  intros [Hm Hf] H. eapply Forall_impl; [exact H|]. intros [] [Hl Hc]; try done; split; try done; cbn in Hl |- *; [|by apply Hf].
  destruct Hl as (m & Hin & <- & <-). by apply Hm.
Qed.
Lemma keeps_same w w' : mapped_all w' = mapped_all w → w_failed w' = w_failed w → keeps w w'.
Proof using Type. intros E1 E2. split; [rewrite E1; eauto|by rewrite E2]. Qed.

Lemma inv_open b ws w : Inv b ws w → closed b = false → mapped_all w = w_maps w ∧ w_gone w = [] ∧ all_locked (w_app w) = false ∧
  Forall (λ l, line_true w l ∧ counts l = false) (w_told w).
Proof using Type.
  intros HI Hc. assert (b_unmapped b = false) as Hu by (revert Hc; unfold closed; by repeat case_match).
  pose proof (i_gone _ _ _ HI) as Hg. rewrite Hu in Hg. unfold mapped_all. rewrite Hg. split_and!; [done|done| |].
  - destruct (all_locked (w_app w)) eqn:E; [|done]. destruct (i_all_locked _ _ _ HI E). congruence.
  - eapply Forall_impl; [apply HI|]. intros l [Ht Hl]. split; [done|]. destruct (counts l); [|done]. by rewrite Hc in Hl; specialize (Hl eq_refl).
Qed.

(** *** A locking thread *)
Lemma worker_step_frame k w k' w' : worker_step k w k' w' →
  wk_file k' = wk_file k ∧ ¬ done k ∧ w_gone w' = w_gone w ∧ w_ui w' = w_ui w ∧ w_exit w' = w_exit w ∧ w_told w' = w_told w.
Proof using Type.
  unfold done. destruct 1; split_and!; cbn; try done; try congruence; unfold try_app; by destruct (w_poisoned w).
Qed.

(** The mapping of a thread is pinned by its system call, and only by it. *)
Lemma worker_step_maps k w k' w' : worker_step k w k' w' →
  (w_maps w' = w_maps w ∧ (done k' ∨ pc_pinned (wk_pc k') = pc_pinned (wk_pc k)) ∧
     (pending [k'] + w_locked w') mod u64_modulus = (pending [k] + w_locked w) mod u64_modulus)%Z ∨
  (w_maps w' = alter pin (mf_id (wk_file k)) (w_maps w) ∧ pc_pinned (wk_pc k) = false ∧ ¬ done k' ∧ pc_pinned (wk_pc k') = true ∧
     w_locked w' = w_locked w ∧ pending [k'] = mf_size (wk_file k) ∧ pending [k] = 0%Z).
Proof using Type.
  unfold done, pending. destruct 1 as [t E|s E|s E|s E|s t E|e E|E]; cbn; rewrite E; cbn.
  - left. auto.
  - right. split_and!; done || lia.
  - left. auto.
  - left. split_and!; [done|destruct (wk_tui k); auto|]. assert (u64_modulus ≠ 0)%Z by done.
    destruct (wk_tui k); rewrite Zplus_mod_idemp_r; f_equal; lia.
  - left. auto.
  - left. split_and!; [unfold try_app; by destruct (w_poisoned w)|auto|]. unfold try_app. by destruct (w_poisoned w).
  - left. auto.
Qed.

(** A thread that ends has locked its mapping or noted its file. *)
Lemma worker_step_ends k w k' w' : worker_step k w k' w' →
  (done k' → pc_pinned (wk_pc k) = true ∨ w_failed w' ≠ []) ∧ (w_failed w ≠ [] → w_failed w' ≠ []) ∧
  (0 ≤ w_locked w < u64_modulus → 0 ≤ w_locked w' < u64_modulus)%Z.
Proof using Type.
  assert (0 < u64_modulus)%Z by done.
  unfold done. destruct 1 as [t E|s E|s E|s E|s t E|e E|E]; cbn; rewrite ?E; cbn; split_and!; try done; auto.
  - intros _. by apply Z.mod_pos_bound.
  - unfold try_app. by destruct (w_poisoned w).
  - unfold try_app. by destruct (w_poisoned w).
  - intros _. right. by destruct (w_failed w).
  - intros _. by destruct (w_failed w).
Qed.

Lemma worker_step_failed k w k' w' : worker_step k w k' w' → w_failed w ⊆ w_failed w'.
Proof using Type.
  destruct 1; cbn; try done; [unfold try_app; by destruct (w_poisoned w)|]. intros x Hx. apply elem_of_app. by left.
Qed.

Lemma publish_view m e f : f_path (publish_locked m e f) = f_path f ∧ filename (publish_locked m e f) = filename f.
Proof using Type. done. Qed.

Lemma update_first_elem {A} (P : A → Prop) `{!∀ x, Decision (P x)} g l y :
  y ∈ update_first P g l → y ∈ l ∨ ∃ x, x ∈ l ∧ P x ∧ y = g x.
Proof using Type.
  induction l as [|x l IH]; [by left|]. cbn [update_first]. case_decide.
  - intros [->|Hy]%elem_of_cons; [right; exists x; split_and!; [by left|done..]|left; by right].
  - intros [->|Hy]%elem_of_cons; [left; by left|]. apply IH in Hy as [Hy|(z & Hz & ?)]; [left; by right|].
    right. exists z. split; [by right|done].
Qed.

(** What it shows on the screen: its own file, once that is pinned. *)
Lemma worker_step_app k w k' w' : worker_step k w k' w' →
  all_locked (w_app w') = all_locked (w_app w) ∧ (view_ok (w_app w) → view_ok (w_app w')) ∧
  ∀ f, f ∈ files (w_app w') → is_locked f = true →
    f ∈ files (w_app w) ∨ pc_pinned (wk_pc k) = true ∧ f_path f = from_utf8_lossy (mf_path (wk_file k)).
Proof using Type.
  destruct 1 as [t E|s E|s E|s E|s t E|e E|E]; cbn; try by (split_and!; auto).
  unfold try_app. destruct (w_poisoned w); [by split_and!; auto|]. cbn. split_and!; [done| |].
  - apply find_file_view, publish_view.
  - intros f Hf _. apply update_first_elem in Hf as [Hf|(g & Hg & Hp & ->)]; [by left|]. right. by rewrite E.
Qed.

Lemma pin_entries i (ms : list Mapping) : (λ m, (mp_path m, mp_size m)) <$> alter pin i ms = (λ m, (mp_path m, mp_size m)) <$> ms.
Proof using Type. apply list_eq. intros j. rewrite !list_lookup_fmap. destruct (decide (i = j)) as [->|Hne];
  [rewrite list_lookup_alter_eq|by rewrite list_lookup_alter_ne]. by destruct (ms !! j). Qed.

Lemma pinned_bytes_pin i (ms : list Mapping) m : ms !! i = Some m → mp_pinned m = false →
  pinned_bytes (alter pin i ms) = (pinned_bytes ms + mp_size m)%Z.
Proof using Type.
  revert i. induction ms as [|x ms IH]; intros [|i]; [done..| |]; intros Hi Hp.
  - simplify_eq/=. rewrite Hp. lia.
  - cbn. cbn in Hi. specialize (IH i Hi Hp). unfold pinned_bytes in IH. cbn in IH. rewrite IH. lia.
Qed.

Lemma pending_insert ws i k k' : ws !! i = Some k →
  pending (<[i:=k']> ws) = (pending ws - pending [k] + pending [k'])%Z.
Proof using Type. intros Hi. unfold pending. rewrite (foldr_sum_insert (λ k, match wk_pc k with WAdd _ => mf_size (wk_file k) | _ => 0%Z end) _ _ _ _ Hi). cbn. lia. Qed.

Section WorkerStep.
Context (b : Books) (ws : list Worker) (w w' : World) (i : nat) (k k' : Worker).
Hypothesis (Hi : ws !! i = Some k) (Hs : worker_step k w k' w') (HI : Inv b ws w).

Lemma ws_open : closed b = false ∧ b_unmapped b = false ∧ w_gone w = [].
Proof using HI Hs Hi.
  destruct (worker_step_frame _ _ _ _ Hs) as (_ & Hnd & _).
  assert (closed b = false) as Hc.
  { destruct (closed b) eqn:E; [|done]. destruct Hnd. pose proof (i_closed _ _ _ HI E) as Hd.
    rewrite Forall_lookup in Hd. by eapply Hd. }
  assert (b_unmapped b = false) as Hu by (revert Hc; unfold closed; by repeat case_match).
  pose proof (i_gone _ _ _ HI) as Hg. rewrite Hu in Hg. done.
Qed.

Lemma ws_mapping : mf_id (wk_file k) < b_handed b ∧ ∃ m, w_maps w !! mf_id (wk_file k) = Some m ∧ mp_path m = mf_path (wk_file k) ∧
  mp_size m = mf_size (wk_file k) ∧ mp_pinned m = pc_pinned (wk_pc k).
Proof using HI Hs Hi.
  destruct (worker_step_frame _ _ _ _ Hs) as (_ & Hnd & _). apply (i_worker _ _ _ HI k); [|done].
  by eapply list_elem_of_lookup_2.
Qed.

Lemma ws_all : mapped_all w = w_maps w ∧ mapped_all w' = w_maps w'.
Proof using HI Hs Hi.
  destruct (worker_step_frame _ _ _ _ Hs) as (_ & _ & Hg & _). destruct ws_open as (_ & _ & E).
  unfold mapped_all. by rewrite Hg, E.
Qed.

(** Mappings only get pinned. *)
Lemma ws_lookup id m : w_maps w' !! id = Some m → ∃ m0, w_maps w !! id = Some m0 ∧ mp_path m = mp_path m0 ∧ mp_size m = mp_size m0 ∧
  (mp_pinned m0 = true → mp_pinned m = true) ∧ (id ≠ mf_id (wk_file k) → m = m0).
Proof using Hs.
  destruct (worker_step_maps _ _ _ _ Hs) as [(-> & _)|(-> & _)]; [by exists m|].
  destruct (decide (mf_id (wk_file k) = id)) as [->|Hne]; [rewrite list_lookup_alter_eq|rewrite list_lookup_alter_ne by done; by exists m].
  intros (m0 & H0 & ->)%fmap_Some. exists m0. by split_and!.
Qed.

Lemma ws_keeps m : m ∈ w_maps w → mp_pinned m = true → ∃ m', m' ∈ w_maps w' ∧ mp_path m' = mp_path m ∧ mp_pinned m' = true.
Proof using Hs.
  intros Hm Hp. apply list_elem_of_lookup in Hm as [j Hj].
  destruct (worker_step_maps _ _ _ _ Hs) as [(-> & _)|(-> & _)]; [exists m; split_and!; [by eapply list_elem_of_lookup_2|done..]|].
  destruct (decide (mf_id (wk_file k) = j)) as [Ej|Hne].
  - exists (pin m). split_and!; [|done..]. apply (list_elem_of_lookup_2 _ j). by rewrite Ej, list_lookup_alter_eq, Hj.
  - exists m. split_and!; [|done..]. apply (list_elem_of_lookup_2 _ j). by rewrite list_lookup_alter_ne.
Qed.

Lemma ws_mapped m : m ∈ w_maps w → ∃ m', m' ∈ w_maps w' ∧ mp_path m' = mp_path m ∧ mp_size m' = mp_size m.
Proof using Hs.
  intros Hm. apply (list_elem_of_fmap_2 (λ m, (mp_path m, mp_size m))) in Hm.
  assert ((mp_path m, mp_size m) ∈ (λ m, (mp_path m, mp_size m)) <$> w_maps w') as (m' & [= E1 E2] & Hm')%list_elem_of_fmap; [|by exists m'].
  destruct (worker_step_maps _ _ _ _ Hs) as [(-> & _)|(-> & _)]; [done|by rewrite pin_entries].
Qed.

(** The other threads are about other mappings. *)
Lemma ws_others k2 : k2 ∈ <[i:=k']> ws → k2 = k' ∨ k2 ∈ ws ∧ mf_id (wk_file k2) ≠ mf_id (wk_file k).
Proof using HI Hs Hi.
  intros Hk2. apply list_elem_of_lookup in Hk2 as [j Hj]. destruct (decide (i = j)) as [<-|Hne].
  - left. rewrite list_lookup_insert_eq in Hj; [congruence|by eapply lookup_lt_Some].
  - right. rewrite list_lookup_insert_ne in Hj by done. split; [by eapply list_elem_of_lookup_2|]. intros E.
    apply Hne. eapply (NoDup_lookup _ i j); [apply (i_ids _ _ _ HI)|..]; rewrite list_lookup_fmap; [by rewrite Hi|rewrite Hj; cbn; congruence].
Qed.

Lemma ws_worker k2 : k2 ∈ <[i:=k']> ws → ¬ done k2 → mf_id (wk_file k2) < b_handed b ∧
  ∃ m, w_maps w' !! mf_id (wk_file k2) = Some m ∧ mp_path m = mf_path (wk_file k2) ∧ mp_size m = mf_size (wk_file k2) ∧
    mp_pinned m = pc_pinned (wk_pc k2).
Proof using HI Hs Hi.
  intros Hk2 Hnd. destruct ws_mapping as (Hlt & m & Hm & Hp & Hz & Hpin).
  destruct (worker_step_frame _ _ _ _ Hs) as (Hf & _).
  destruct (ws_others k2 Hk2) as [->|[Hin Hne]].
  - rewrite Hf. split; [done|]. destruct (worker_step_maps _ _ _ _ Hs) as [(Em & [Hd|Hpc] & _)|(Em & _ & _ & Hpc & _)]; [done| |].
    + exists m. rewrite Em, Hpc. by split_and!.
    + exists (pin m). rewrite Em, list_lookup_alter_eq, Hm, Hpc. by split_and!.
  - destruct (i_worker _ _ _ HI k2 Hin Hnd) as (Hlt2 & m2 & Hm2 & ?). split; [done|]. exists m2. split; [|done].
    destruct (worker_step_maps _ _ _ _ Hs) as [(-> & _)|(-> & _)]; [done|]. by rewrite list_lookup_alter_ne.
Qed.

Lemma ws_settled id m : w_maps w' !! id = Some m → id < b_handed b →
  mp_pinned m = true ∨ (∃ k2, k2 ∈ <[i:=k']> ws ∧ mf_id (wk_file k2) = id ∧ ¬ done k2) ∨ w_failed w' ≠ [].
Proof using HI Hs Hi.
  intros Hm Hid. destruct (ws_lookup id m Hm) as (m0 & Hm0 & _ & _ & Hkeep & Hsame).
  destruct ws_all as [Ea _]. rewrite <- Ea in Hm0.
  destruct (worker_step_ends _ _ _ _ Hs) as (Hend & Hfail & _).
  assert (k' ∈ <[i:=k']> ws) as Hin' by (apply (list_elem_of_lookup_2 _ i), list_lookup_insert_eq; by eapply lookup_lt_Some).
  destruct (worker_step_frame _ _ _ _ Hs) as (Hf & _).
  destruct (i_settled _ _ _ HI id m0 Hm0 Hid) as [?|[(k2 & Hk2 & E & Hnd)|?]]; [by left; apply Hkeep| |by auto].
  apply list_elem_of_lookup in Hk2 as [j Hj]. destruct (decide (i = j)) as [<-|Hne].
  - assert (k2 = k) as -> by congruence. destruct (decide (done k')) as [Hd|Hd].
    + destruct (Hend Hd) as [Hpin|?]; [|by auto]. left. apply Hkeep. destruct ws_mapping as (_ & m1 & Hm1 & _ & _ & Hp1).
      rewrite <- E, Ea in Hm0. congruence.
    + right; left. exists k'. by rewrite Hf.
  - right; left. exists k2. split_and!; [|done..]. apply (list_elem_of_lookup_2 _ j). by rewrite list_lookup_insert_ne.
Qed.

Lemma ws_count : ((w_locked w' + pending (<[i:=k']> ws)) mod u64_modulus = pinned_bytes (w_maps w') mod u64_modulus)%Z.
Proof using HI Hs Hi.
  destruct (i_count _ _ _ HI) as [Hc _]. destruct ws_all as [Ea _]. rewrite Ea in Hc.
  rewrite (pending_insert _ _ _ _ Hi). destruct (worker_step_maps _ _ _ _ Hs) as [(-> & _ & Hm)|(-> & Hnp & _ & _ & -> & Hp' & Hp)].
  - rewrite <- Hc. replace (w_locked w' + _)%Z with (pending [k'] + w_locked w' + (pending ws - pending [k]))%Z by lia.
    rewrite <- Zplus_mod_idemp_l, Hm, Zplus_mod_idemp_l. f_equal. lia.
  - destruct ws_mapping as (_ & m & Hm & _ & Hz & Hpin). rewrite (pinned_bytes_pin _ _ m) by congruence.
    rewrite <- (Zplus_mod_idemp_l (pinned_bytes (w_maps w))), <- Hc, Zplus_mod_idemp_l. f_equal. rewrite Hp, Hp', Hz. lia.
Qed.
End WorkerStep.

Lemma inv_worker_step b ws w i k k' w' : ws !! i = Some k → worker_step k w k' w' → Inv b ws w → Inv b (<[i:=k']> ws) w'.
Proof using Type.
  intros Hi Hs HI. destruct (worker_step_frame _ _ _ _ Hs) as (Hf & Hnd & Hg & Hu & He & Ht).
  destruct (ws_open _ _ _ _ _ _ _ Hi Hs HI) as (Hc & Hun & Hg0). destruct (ws_all _ _ _ _ _ _ _ Hi Hs HI) as [Ea Ea'].
  destruct (worker_step_ends _ _ _ _ Hs) as (_ & _ & Hr). destruct (worker_step_app _ _ _ _ Hs) as (Hal & Hv & Hl).
  pose proof (ws_mapping _ _ _ _ _ _ _ Hi Hs HI) as (Hlt & mk & Hmk & Hpk & _ & Hpin).
  constructor; rewrite ?Hu, ?He, ?Ht, ?Hg, ?Ea'; try apply HI.
  - rewrite <- (i_all _ _ _ HI), Ea. destruct (worker_step_maps _ _ _ _ Hs) as [(-> & _)|(-> & _)]; [done|by rewrite pin_entries].
  - rewrite Hun. done.
  - by rewrite Hc.
  - by eapply ws_worker.
  - rewrite list_fmap_insert, Hf, list_insert_id; [apply HI|]. by rewrite list_lookup_fmap, Hi.
  - intros id m Hm Hp. destruct (ws_lookup _ _ _ _ Hs id m Hm) as (m0 & Hm0 & _ & _ & _ & Hsame).
    destruct (decide (id = mf_id (wk_file k))) as [->|Hne]; [done|]. apply (i_pinned _ _ _ HI id m0); [by rewrite Ea|].
    by rewrite <- (Hsame Hne).
  - by eapply ws_settled.
  - split; [by eapply ws_count|]. apply Hr, HI.
  - intros l E. unfold closed in Hc. by rewrite E in Hc.
  - intros n E. unfold closed in Hc. destruct (b_failed b); [done|]. by rewrite E in Hc.
  - intros f Hin Hlk. destruct (Hl f Hin Hlk) as [Hin0|[Hpn Ep]].
    + destruct (i_honest _ _ _ HI f Hin0 Hlk) as (m & Hm & Em & Hmp). rewrite Ea in Hm.
      destruct (ws_keeps _ _ _ _ Hs m Hm Hmp) as (m' & Hm' & Ep & Hp'). exists m'. by rewrite Ep.
    + destruct (ws_keeps _ _ _ _ Hs mk) as (m' & Hm' & Ep' & Hp'); [by eapply list_elem_of_lookup_2|by rewrite Hpin|].
      exists m'. rewrite Ep', Ep. by rewrite Hpk.
  - rewrite Hal. intros H. destruct (i_all_locked _ _ _ HI H) as [H' _]. congruence.
  - apply Hv, HI.
  - apply (told_open w); [|apply (inv_open _ _ _ HI Hc)]. split; [|by eapply worker_step_failed].
    intros m Hm. rewrite Ea in Hm. rewrite Ea'. by apply (ws_mapped _ _ _ _ Hs).
Qed.

(** *** The main thread *)
Lemma locked_total b ws w : Forall done ws → Inv b ws w → w_locked w = (pinned_bytes (mapped_all w) mod u64_modulus)%Z.
Proof using Type.
  intros Hd HI. destruct (i_count _ _ _ HI) as [Hc Hr]. rewrite (pending_done _ Hd), Z.add_0_r in Hc.
  by rewrite <- Hc, Z.mod_small.
Qed.

Lemma inv_sizes b ws w : Inv b ws w → mp_size <$> mapped_all w = (b_maps b).*2.
Proof using Type. intros HI. rewrite <- (i_all _ _ _ HI), <- list_fmap_compose. done. Qed.

Lemma inv_tell b ws w l : Forall done ws → Inv b ws w → told_ok b l → Inv b ws (tell l w).
Proof using Type.
  intros Hd HI Hl. pose proof (locked_total _ _ _ Hd HI) as Hlk. pose proof (inv_sizes _ _ _ HI) as Hz.
  pose proof (inv_lengths _ _ _ HI) as Hlen. pose proof (i_gone _ _ _ HI) as Hg. destruct (i_ui _ _ _ HI) as [Hn Hj].
  assert (line_true w l ∧ (counts l = true → closed b = true)) as Hok.
  { destruct l; try (by split); cbn in Hl |- *.
    - destruct Hl as (Hu & -> & -> & Hlo). rewrite Hu in Hg. split.
      + split_and!; [done| |congruence|congruence|rewrite <- Hlk; by apply (i_locked _ _ _ HI)].
        destruct (i_unmapped _ _ _ HI Hu) as [H|H]; [by apply Hj|]. by rewrite Hn.
      + intros _. unfold closed. by rewrite Hu; repeat case_match.
    - split; [|done]. rewrite <- (i_all _ _ _ HI) in Hl. apply list_elem_of_fmap in Hl as (m & [= -> ->] & Hm). by exists m.
    - destruct Hl as (Hlo & Hf & Ha). split; [|intros _; unfold closed; by rewrite Hf].
      split; [by eapply inv_pinned_all|]. rewrite <- Hlk. by apply (i_locked _ _ _ HI).
    - destruct Hl as (Hlo & l & Hf & -> & Hne). split; [|intros _; unfold closed; by rewrite Hf].
      split; [rewrite <- Hlk; by apply (i_locked _ _ _ HI)|]. by rewrite <- (i_failed _ _ _ HI l Hf).
    - destruct Hl as (l & Hf & Hin). split; [|done]. by rewrite <- (i_failed _ _ _ HI l Hf).
    - destruct Hl as (Hu & -> & ->). rewrite Hu in Hg. split; [split_and!; congruence|].
      intros _. unfold closed. by rewrite Hu; repeat case_match. }
  destruct HI. constructor; try done. cbn. apply Forall_app. split; [done|]. by apply Forall_singleton.
Qed.

Lemma inv_unmap b ws w : Forall done ws → Inv b ws w → b_joined b = true ∨ b_spawned b = false →
  Inv (account unit Unmap tt b) ws (with_maps [] (w_gone w ++ w_maps w) w).
Proof using Type.
  intros Hd HI Hj. assert (mapped_all (with_maps [] (w_gone w ++ w_maps w) w) = mapped_all w) as Ea by apply app_nil_r.
  destruct b as [ms h q f l s j u z]. cbn in Hj.
  assert (closed (mkBooks ms h q f l s j true z) = true) as Hc by (unfold closed; cbn; by repeat case_match).
  constructor; rewrite ?Ea; try apply HI; try done.
  - intros k Hk Hnd. rewrite Forall_forall in Hd. by destruct (Hnd (Hd k Hk)).
  - intros H. destruct (i_all_locked _ _ _ HI H). done.
  - cbn. eapply Forall_impl; [apply HI|]. intros line [Hl _]. split; [|done]. destruct line; try done; unfold line_true; rewrite Ea;
      cbn in *; naive_solver.
Qed.

Lemma inv_map b ws w p n len : Forall done ws → Inv b ws w → closed b = false → b_handed b = 0 → b_bogus b = false →
  let b' := account _ (MapFile p n) (Some (length (w_maps w), len)) b in
  Inv b' ws (with_maps (w_maps w ++ [mkMapping p n false]) (w_gone w) w) ∧ b_bogus b' = false.
Proof using Type.
  intros Hd HI Hc Hh Hz. destruct (inv_open _ _ _ HI Hc) as (Ea & Hg & Hal & Ht). pose proof (inv_lengths _ _ _ HI) as Hlen.
  rewrite Ea in Hlen.
  assert (mapped_all (with_maps (w_maps w ++ [mkMapping p n false]) (w_gone w) w) = mapped_all w ++ [mkMapping p n false]) as Ea'.
  { unfold mapped_all. cbn. by rewrite Hg. }
  assert (∀ id m, (mapped_all w ++ [mkMapping p n false]) !! id = Some m → mp_pinned m = true → False) as Hnp.
  { intros id m Hm Hp. destruct (decide (id < length (mapped_all w))) as [Hlt|Hge].
    - rewrite lookup_app_l in Hm by done. pose proof (i_pinned _ _ _ HI id m Hm Hp) as Hi. lia.
    - rewrite lookup_app_r in Hm by lia. apply list_lookup_singleton_Some in Hm as [_ <-]. done. }
  destruct b as [ms h q f l s j u z]. cbn in Hh, Hz, Hlen. subst h z.
  split; [|cbn; by rewrite Hlen, Nat.eqb_refl].
  constructor; rewrite ?Ea'; try apply HI; cbn.
  - rewrite fmap_app, (i_all _ _ _ HI). done.
  - pose proof (i_gone _ _ _ HI) as Hg'. cbn in Hg'. destruct u; [|done]. by unfold closed in Hc; destruct f, l.
  - intros k Hk Hnd. rewrite Forall_forall in Hd. by destruct (Hnd (Hd k Hk)).
  - intros id m Hm Hp. by destruct (Hnp id m Hm Hp).
  - lia.
  - destruct (i_count _ _ _ HI) as [E Hr]. split; [|done]. rewrite E. f_equal. unfold pinned_bytes.
    rewrite foldr_sum_app. cbn. lia.
  - intros g Hin Hlk. destruct (i_honest _ _ _ HI g Hin Hlk) as (m & Hm & ?). exists m. split; [|done]. apply elem_of_app. by left.
  - by rewrite Hal.
  - apply (told_open w); [|done]. split; [|done]. intros m' Hm'. rewrite Ea'. exists m'. split; [apply elem_of_app; by left|done].
Qed.

Lemma inv_scope tui c b ws w : Forall done ws → Inv b ws w → closed b = false → handed_right b c →
  Inv (account unit (LockChunk tui c) tt b) (spawn_worker tui <$> c) w.
Proof using Type.
  intros Hd HI Hc Hr. destruct (inv_open _ _ _ HI Hc) as (Ea & Hg & Hal & Ht). pose proof (pending_done _ Hd) as Hp0.
  assert (pending (spawn_worker tui <$> c) = 0%Z) as Hp.
  { clear. unfold pending. induction c as [|m c IH]; [done|]. cbn. rewrite IH. by destruct tui. }
  assert (∀ k, k ∈ spawn_worker tui <$> c → ∃ i, c !! i = Some (wk_file k) ∧ ¬ done k ∧ pc_pinned (wk_pc k) = false) as Hk.
  { intros k (m & -> & Hm)%list_elem_of_fmap. apply list_elem_of_lookup in Hm as [i Hi]. exists i. split; [done|]. by destruct tui. }
  destruct b as [ms h q f l s j u z].
  constructor; try apply HI; cbn.
  - by unfold closed in *; cbn in *; rewrite Hc.
  - intros k Hin _. destruct (Hk k Hin) as (i & Hi & _ & Hpc). destruct (Hr i _ Hi) as [Eid Hm]. cbn in Eid, Hm.
    split; [rewrite Eid; apply lookup_lt_Some in Hi; lia|]. pose proof (i_all _ _ _ HI) as Hall. cbn in Hall. rewrite <- Hall, list_lookup_fmap, Ea in Hm. cbn in Hm.
    apply fmap_Some in Hm as (m & Hm & [= E1 E2]). exists m. split_and!; [done..|]. rewrite Hpc.
    destruct (mp_pinned m) eqn:E; [|done]. rewrite <- Ea in Hm. pose proof (i_pinned _ _ _ HI _ _ Hm E) as Hlt. cbn in Hlt. lia.
  - rewrite <- list_fmap_compose. assert ((λ k, mf_id (wk_file k)) ∘ spawn_worker tui <$> c = seq h (length c)) as ->; [|apply NoDup_seq].
    apply list_eq_same_length with (length c); [by rewrite length_seq|by rewrite length_fmap|].
    intros i x y Hi Hx Hy. apply lookup_seq in Hy as [-> _]. apply list_lookup_fmap_Some in Hx as (m & -> & Hm). cbn.
    by destruct (Hr i m Hm).
  - intros id m Hm Hpin. pose proof (i_pinned _ _ _ HI id m Hm Hpin) as H. cbn in H. lia.
  - intros id m Hm Hlt. destruct (decide (id < h)) as [Hid|Hid].
    + destruct (i_settled _ _ _ HI id m Hm Hid) as [?|[(k & Hin & _ & Hnd)|?]]; [by left| |by auto].
      rewrite Forall_forall in Hd. by destruct (Hnd (Hd k Hin)).
    + right; left. destruct (lookup_lt_is_Some_2 c (id - h)) as [mf Hmf]; [lia|]. exists (spawn_worker tui mf).
      split_and!; [by apply list_elem_of_fmap_2, (list_elem_of_lookup_2 _ (id - h))| |by destruct tui].
      destruct (Hr _ _ Hmf) as [E _]. cbn in *. lia.
  - rewrite Hp. destruct (i_count _ _ _ HI) as [E ?]. by rewrite Hp0 in E.
Qed.

Lemma inv_main X (e : Hd X) x b ws w w' :
  Forall done ws → hd_effect X e x w w' → b_bogus b = false → may X e b → Inv b ws w →
  Inv (account X e x b) ws w' ∧ b_bogus (account X e x b) = false.
Proof using Type.
  intros Hd He Hz [Hm|Hm] HI; [congruence|].
  destruct e as [| | |f|f|path|path size|id off| |tui c|id| | | | | |l|l]; cbn in He; try (subst w'; by destruct b).
  - subst w'. destruct Hm as (Hj & Hc). destruct (inv_open _ _ _ HI Hc) as (_ & _ & _ & Ht).
    destruct b as [ms h q f l s j u z]. cbn in *. subst j z.
    assert (u = false) as -> by (revert Hc; unfold closed; cbn; by repeat case_match).
    split; [|done]. destruct HI. constructor; try done; cbn; try (by apply (told_open w); [apply keeps_same|]); by intros.
  - destruct He as [-> ->]. destruct b as [ms h q f l s j u z]. cbn in *. subst z.
    assert (q && negb (w_exit w) = false) as E. { destruct q; [|done]. pose proof (i_quit _ _ _ HI eq_refl) as H. by rewrite H. }
    rewrite E. split; [|done]. destruct HI. constructor; try done. cbn in *. destruct q; auto.
  - subst w'. split; [|by destruct b]. assert (account unit (LockApp f) x b = b) as -> by by destruct b.
    destruct Hm as [Hq|(-> & Hf & Ha)]; [by apply inv_on_app|by apply inv_all_locked].
  - subst w'. split; [|by destruct b]. assert (account unit (TryApp f) x b = b) as -> by by destruct b. by apply inv_try_app.
  - destruct Hm as [Hc Hh]. destruct x as [[id len]|]; [|subst w'; by destruct b]. destruct He as [-> ->]. by apply inv_map.
  - destruct He as [_ ->]. split; [|by destruct b]. assert (account Z Clock x b = b) as -> by by destruct b. destruct HI. by constructor.
  - done.
  - destruct He as [-> ->]. destruct b as [ms h q f l s j u z]. cbn in *. split; [|done]. destruct HI. constructor; try done; cbn.
    + by intros l' [= <-].
    + intros H. by destruct (i_all_locked0 H).
    + eapply Forall_impl; [done|]. by intros line [Hl _].
  - destruct He as [-> He]. destruct b as [ms h q f l s j u z]. cbn in *. split; [|done].
    destruct HI as [? ? ? [Hn _] ? ? ? ? ? ? ? ? ? ? ? ? ?]. constructor; try done; cbn.
    + split; [done|]. intros _ E. by rewrite E in He.
    + by left.
  - destruct He as [-> ->]. destruct b as [ms h q f l s j u z]. cbn in *. split; [|done]. destruct HI. constructor; try done; cbn.
    + by intros l' [= <-].
    + intros H. destruct (i_all_locked0 H) as [Hc ?]. unfold closed. cbn. by destruct f.
    + eapply Forall_impl; [done|]. intros line [Hl _]. split; [done|]. unfold closed. cbn. by destruct f.
  - subst w'. split; [|by destruct b]. destruct x. by apply inv_unmap.
  - subst w'. split; [|by destruct b]. assert (account unit (Tell l) x b = b) as -> by by destruct b. by apply inv_tell.
  - subst w'. split; [|by destruct b]. assert (account bool (TellFlush l) x b = b) as -> by by destruct b. by apply inv_tell.
Qed.
End Facts.
