(* ===== verification/HolderRuns.v ===== *)
(** * Every run of the model holder

    The two commands keep to what their books allow, so the invariant holds at
    every moment of every run; and every run ends. *)
From S2P Require Import Prelude Numbers Prog Utf8 UnixPath HolderState HolderScreen HolderViews Sse HolderArgs Holder HolderWorld HolderFacts.

Section Runs.
Context (to_lowercase : str → str) (total : nat).
Abbreviation may := (may to_lowercase total).
Abbreviation quiet := (quiet to_lowercase).
Abbreviation told_ok := (told_ok total).
Abbreviation swp := (swp account may).

(** ** Programs, up to answers no world gives *)
Lemma account_bogus X (e : Hd X) x b : b_bogus b = true → b_bogus (account X e x b) = true.
Proof using Type. intros H. destruct e; cbn; rewrite ?H; try done. by destruct x as [[]|]; cbn; rewrite ?H. Qed.

Lemma swp_bogus {A} (p : hd A) Q b : b_bogus b = true → (∀ r b', b_bogus b' = true → Q r b') → swp p Q b.
Proof using Type.
  intros Hb HQ. revert b Hb. induction p as [a|X e k IH]; intros b Hb; cbn; [auto|].
  split; [by left|]. intros x. apply IH. by apply account_bogus.
Qed.

Definition sp {A} (p : hd A) (P : A → Books → Prop) (b : Books) : Prop := swp p (λ r b', b_bogus b' = true ∨ P r b') b.

Lemma sp_bogus {A} (p : hd A) P b : b_bogus b = true → sp p P b.
Proof using Type. intros H. apply swp_bogus; auto. Qed.
Lemma sp_ret {A} (a : A) (P : A → Books → Prop) b : P a b → sp (Ret a) P b.
Proof using Type. intros H. by right. Qed.
Lemma sp_bind {A B} (p : hd A) (f : A → hd B) P Q b :
  sp p P b → (∀ a b', P a b' → sp (f a) Q b') → sp (p ≫= f) Q b.
Proof using Type.
  intros Hp Hf. apply swp_bind. eapply swp_mono; [exact Hp|]. intros a b' [H|H]; [by apply sp_bogus|by apply Hf].
Qed.
Lemma sp_mono {A} (p : hd A) (P Q : A → Books → Prop) b : sp p P b → (∀ a b', P a b' → Q a b') → sp p Q b.
Proof using Type. intros Hp HPQ. eapply swp_mono; [exact Hp|]. intros a b' [?|?]; auto. Qed.
Lemma sp_vis {A X} (e : Hd X) (k : X → hd A) P b :
  may X e b → (∀ x, b_bogus (account X e x b) = false → sp (k x) P (account X e x b)) → sp (trigger e ≫= k) P b.
Proof using Type.
  intros Hm Hk. split; [done|]. intros x. destruct (b_bogus (account X e x b)) eqn:E; [by apply sp_bogus|by apply Hk].
Qed.
Lemma sp_trigger {X} (e : Hd X) P b : may X e b → (∀ x, P x (account X e x b)) → sp (trigger e) P b.
Proof using Type. intros Hm Hk. split; [done|]. intros x. right. apply Hk. Qed.

(** Accesses that leave the books as they are. *)
Definition idle {X} (e : Hd X) : bool :=
  match e with
  | InitTerminal | OpenFile _ | ReadPage _ _ | Clock | Advise _ | IsTerminal => true
  | _ => false
  end.
Lemma sp_idle {A X} (e : Hd X) (k : X → hd A) P b : idle e = true → (∀ x, sp (k x) P b) → sp (trigger e ≫= k) P b.
Proof using Type. intros He Hk. split; [right; by destruct e|]. intros x. replace (account X e x b) with b by by destruct e. apply Hk. Qed.
Lemma sp_lock {A} f (k : unit → hd A) P b : quiet f → sp (k tt) P b → sp (trigger (LockApp f) ≫= k) P b.
Proof using Type. intros Hf Hk. apply sp_vis; [right; by left|]. by intros []. Qed.
Lemma sp_try {A} f (k : unit → hd A) P b : quiet f → sp (k tt) P b → sp (trigger (TryApp f) ≫= k) P b.
Proof using Type. intros Hf Hk. apply sp_vis; [by right|]. by intros []. Qed.
Lemma sp_tell {A} l (k : unit → hd A) P b : told_ok b l → sp (k tt) P b → sp (trigger (Tell l) ≫= k) P b.
Proof using Type. intros Hl Hk. apply sp_vis; [by right|]. by intros []. Qed.

(** ** Quiet changes of the screen's state *)
Lemma quiet_file p g :
  (∀ f, f_path (g f) = f_path f ∧ filename (g f) = filename f ∧ (is_locked (g f) = true → is_locked f = true)) →
  quiet (find_file_mut p g).
Proof using Type.
  intros Hg a. split_and!; [|done|apply find_file_view; intros f; destruct (Hg f) as (? & ? & _); done].
  intros f Hf Hl. apply update_first_elem in Hf as [Hf|(h & Hh & _ & ->)]; [by exists f|].
  exists h. destruct (Hg h) as (E & _ & Hlk). split_and!; auto.
Qed.
Lemma quiet_comp f g : quiet f → quiet g → quiet (λ a, f (g a)).
Proof using Type.
  intros Hf Hg a. destruct (Hf (g a)) as (H1 & H2 & H3), (Hg a) as (G1 & G2 & G3). split_and!; [|congruence|auto].
  intros h Hh Hl. destruct (H1 h Hh Hl) as (h1 & Hh1 & Hl1 & <-). destruct (G1 h1 Hh1 Hl1) as (h0 & ? & ? & ?). eauto.
Qed.
Lemma quiet_total : quiet update_total_size.
Proof using Type. intros a. split_and!; [eauto|done|done]. Qed.
Lemma quiet_warm : quiet mark_warmup_complete.
Proof using Type. intros a. split_and!; [eauto|done|done]. Qed.
Lemma quiet_failed l : quiet (set_failed l).
Proof using Type. intros a. split_and!; [eauto|done|done]. Qed.
Lemma quiet_add p : quiet (add_file p).
Proof using Type.
  intros a. split_and!; [|done|].
  - intros g [Hg|Hg%list_elem_of_singleton]%elem_of_app Hl; [eauto|]. by subst g.
  - intros [Hs Hm]. split; [|done]. unfold shown_of in *. cbn. rewrite filter_app, length_app. cbn in Hs. lia.
Qed.
Lemma quiet_fill patterns paths : quiet (fill_app patterns paths).
Proof using Type.
  unfold fill_app. apply (quiet_comp update_total_size (λ a, foldl _ (set_input_patterns patterns a) paths)); [apply quiet_total|].
  apply (quiet_comp (λ a, foldl (λ a p, add_file (from_utf8_lossy p) a) a paths)); [|by intros a; split_and!; eauto].
  induction paths as [|p paths IH]; [intros a; split_and!; eauto|].
  apply (quiet_comp (λ a, foldl (λ a p, add_file (from_utf8_lossy p) a) a paths) (add_file (from_utf8_lossy p))); [done|apply quiet_add].
Qed.

Create HintDb holder.
Hint Resolve quiet_comp quiet_total quiet_warm quiet_failed quiet_add quiet_fill : holder.
Hint Extern 2 (quiet (find_file_mut _ _)) => apply quiet_file; by intros : holder.

(** One access of the program that leaves the books as they are. *)
Ltac sp_step :=
  match goal with
  | |- sp (trigger (LockApp _) ≫= _) _ _ => apply sp_lock; [solve [auto with holder]|]
  | |- sp (trigger (TryApp _) ≫= _) _ _ => apply sp_try; [solve [auto with holder]|]
  | |- sp (trigger (Tell _) ≫= _) _ _ => apply sp_tell; [done|]
  | |- sp (trigger Aborted ≫= _) _ _ => apply sp_vis; [by right|intros ? ?]
  | |- sp (trigger _ ≫= _) _ _ => apply sp_idle; [reflexivity|intros ?]
  end.

(** ** Mapping *)
Definition describes (ms : list MappedFile) (b : Books) : Prop :=
  b_maps b = (λ m, (mf_path m, mf_size m)) <$> ms ∧ mf_id <$> ms = seq 0 (length ms).
Definition fresh (b : Books) : Prop := closed b = false ∧ b_handed b = 0.

Lemma describes_snoc ms b p id len size d :
  describes ms b → b_bogus (account _ (MapFile p size) (Some (id, len)) b) = false →
  describes (ms ++ [mkMapped p id len size d]) (account _ (MapFile p size) (Some (id, len)) b).
Proof using Type.
  intros [Hm Hi] Hz. cbn in Hz. apply orb_false_iff in Hz as [_ Hz]. apply negb_false_iff, Nat.eqb_eq in Hz.
  split; cbn; [by rewrite fmap_app, Hm|]. rewrite fmap_app, Hi, length_app, seq_app. cbn. by rewrite Hz, Hm, length_fmap.
Qed.

Lemma sp_map_paths paths ms b : describes ms b → fresh b →
  sp (map_paths paths ms) (λ ms' b', describes ms' b' ∧ fresh b') b.
Proof using Type.
  revert ms b. induction paths as [|p paths IH]; intros ms b Hd Hf; cbn [map_paths]; [by apply sp_ret|].
  sp_step. destruct x; [by apply sp_ret|]. sp_step. sp_step. destruct x; [|by apply IH]. sp_step. sp_step.
  apply sp_vis; [by right|]. intros [[id len]|] Hz; [|by apply IH]. sp_step. sp_step. sp_step. apply IH; [|done].
  by apply describes_snoc.
Qed.

(** ** What only looks and reports *)
Definition same (b b' : Books) : Prop :=
  b_maps b' = b_maps b ∧ b_handed b' = b_handed b ∧ b_failed b' = b_failed b ∧ b_locked b' = b_locked b ∧
  b_unmapped b' = b_unmapped b ∧ b_spawned b' = b_spawned b.
Lemma same_refl b : same b b.
Proof using Type. done. Qed.
Lemma same_trans a b c : same a b → same b c → same a c.
Proof using Type. intros (?&?&?&?&?&?) (?&?&?&?&?&?). split_and!; congruence. Qed.
Lemma same_describes ms b b' : same b b' → describes ms b → describes ms b'.
Proof using Type. intros (E & _) [? ?]. split; [by rewrite E|done]. Qed.
Lemma same_fresh b b' : same b b' → fresh b → fresh b'.
Proof using Type. intros (_ & Eh & Ef & El & Eu & _). unfold fresh, closed. by rewrite Eh, Ef, El, Eu. Qed.
Hint Resolve same_refl : holder.

Lemma sp_warm_pages m ps start index last sum offsets b :
  sp (warm_pages m ps start index last sum offsets) (λ _ b', same b b') b.
Proof using Type.
  revert index last sum b. induction offsets as [|o offsets IH]; intros index last sum b; cbn [warm_pages]; [by apply sp_ret|].
  sp_step. apply (sp_bind _ _ (λ _ b', same b b')).
  { case_match; [by apply sp_ret|]. sp_step. by apply sp_ret. }
  intros [] b1 H1.
  - sp_step. destruct x0; [by apply sp_ret|]. sp_step. sp_step. sp_step.
    eapply sp_mono; [apply IH|]. intros a b2 H2. eapply same_trans; [exact H1|]. exact H2.
  - eapply sp_mono; [apply IH|]. intros a b2 H2. by eapply same_trans.
Qed.

Lemma sp_warm_files ps ms b : sp (warm_files ps ms) (λ _ b', same b b') b.
Proof using Type.
  revert b. induction ms as [|m ms IH]; intros b; cbn [warm_files]; [by apply sp_ret|].
  sp_step. destruct x; [by apply sp_ret|]. apply (sp_bind _ _ (λ _ b', same b b')).
  { unfold warmup_file_with_tui. sp_step. sp_step. eapply sp_bind; [apply sp_warm_pages|]. intros [c|] b1 H1; [|by apply sp_ret].
    sp_step. sp_step. by apply sp_ret. }
  intros [c|] b1 H1; [|by apply sp_ret]. eapply sp_mono; [apply IH|]. intros a b2 H2. by eapply same_trans.
Qed.

Lemma sp_mark_chunk c b : sp (mark_chunk c) (λ _ b', b' = b) b.
Proof using Type. induction c as [|m c IH]; cbn [mark_chunk]; [by apply sp_ret|]. by sp_step. Qed.
Lemma sp_advise_all ms b : sp (advise_all ms) (λ _ b', b' = b) b.
Proof using Type. induction ms as [|m ms IH]; cbn [advise_all]; [by apply sp_ret|]. by sp_step. Qed.

(** ** Locking *)
Lemma chunks_concat {A} n (l : list A) : 1 ≤ n → concat (chunks n l) = l.
Proof using Type.
  intros Hn. unfold chunks. assert (∀ fuel (l : list A), length l ≤ fuel → concat (chunks_of fuel n l) = l) as H; [|by apply H].
  clear l. intros fuel. induction fuel as [|fuel IH]; intros [|x l] Hl; try done; [cbn in Hl; lia|].
  cbn [chunks_of concat]. rewrite IH; [by rewrite take_drop|]. rewrite length_drop. cbn in *. lia.
Qed.

Lemma describes_handed ms b k c : describes ms b → b_handed b = k → (∃ rest, drop k ms = c ++ rest) → handed_right b c.
Proof using Type.
  intros [Hm Hi] <- [rest Hr] i m Hc. assert (ms !! (b_handed b + i) = Some m) as E.
  { rewrite <- lookup_drop, Hr. by apply lookup_app_l_Some. }
  assert (mf_id m = b_handed b + i) as Hid.
  { pose proof (list_lookup_fmap mf_id ms (b_handed b + i)) as H. rewrite Hi, E in H. apply lookup_seq in H. lia. }
  split; [done|]. by rewrite Hid, Hm, list_lookup_fmap, E.
Qed.

Definition handing (ms : list MappedFile) (b : Books) (rest : list MappedFile) : Prop :=
  describes ms b ∧ closed b = false ∧ drop (b_handed b) ms = rest ∧ b_handed b ≤ length ms.

Lemma handing_next ms b c rest tui : handing ms b (c ++ rest) →
  may _ (LockChunk tui c) b ∧ handing ms (account unit (LockChunk tui c) tt b) rest.
Proof using Type.
  intros (Hd & Hc & Hr & Hle). split; [right; split; [done|]; eapply describes_handed; eauto|].
  split_and!; [done|done| |].
  - cbn. rewrite <- drop_drop, Hr, drop_app_length. done.
  - cbn. assert (length (drop (b_handed b) ms) = length c + length rest) as E by by rewrite Hr, length_app.
    rewrite length_drop in E. lia.
Qed.

Lemma sp_lock_chunks ms cs b : handing ms b (concat cs) →
  sp (lock_chunks cs) (λ _ b', describes ms b' ∧ closed b' = false ∧ (b_quit b' = true ∨ b_handed b' = length ms)) b.
Proof using Type.
  revert b. induction cs as [|c cs IH]; intros b Hh; cbn [lock_chunks].
  - apply sp_ret. destruct Hh as (Hd & Hc & Hr & Hle). split_and!; [done..|right]. apply (f_equal length) in Hr.
    rewrite length_drop in Hr. cbn in Hr. lia.
  - sp_step. destruct x.
    + apply sp_ret. destruct Hh as (Hd & Hc & _). split_and!; [done..|]. left. cbn. by rewrite orb_true_r.
    + cbn [negb]. eapply sp_bind; [apply sp_mark_chunk|]. intros _ b1 ->.
      set (b1 := account bool Aborted false b). assert (handing ms b1 (c ++ concat cs)) as Hh1 by done.
      destruct (handing_next ms b1 c (concat cs) true Hh1) as [Hm Hn]. apply sp_vis; [done|]. intros [] _. by apply IH.
Qed.

Lemma sp_lock_phase n ms b : describes ms b → fresh b → sp (lock_phase n ms) (λ _ b', describes ms b') b.
Proof using Type.
  intros Hd [Hc Hh]. unfold lock_phase. eapply sp_bind.
  { apply (sp_lock_chunks ms). split_and!; [done|done| |lia]. rewrite Hh, chunks_concat by lia. done. }
  intros _ b1 (Hd1 & Hc1 & Hall). sp_step. apply (sp_bind _ _ (λ _ b', b' = account bool Aborted x b1)).
  { destruct x; [by apply sp_ret|]. apply sp_advise_all. }
  intros _ b2 ->. apply sp_vis; [by right|]. intros failed Hz. sp_step. destruct x0; [by apply sp_ret|].
  case_bool_decide as Hf; [|apply sp_trigger; [right; left; auto with holder|by intros]].
  apply sp_trigger; [|by intros]. right. right. split_and!; [done|by rewrite Hf|].
  unfold all_handed. cbn. destruct Hd1 as [-> _]. rewrite length_fmap. destruct Hall as [Hq| ->]; [|done].
  cbn in H0. rewrite Hq in H0. cbn in H0. by rewrite orb_true_r in H0.
Qed.

Definition ended (_ : result ModelHolderError unit) (b : Books) : Prop :=
  (b_unmapped b = true ∨ b_maps b = []) ∧ (b_joined b = true ∨ b_spawned b = false).

Lemma describes_totals ms b : describes ms b → length ms = length (b_maps b) ∧ total_bytes ms = sum_u64 (b_maps b).*2.
Proof using Type. intros [-> _]. by rewrite length_fmap, <- list_fmap_compose. Qed.

Lemma sp_release ms b : describes ms b → sp (release ms) ended b.
Proof using Type.
  intros Hd. destruct (describes_totals _ _ Hd) as [Hl Ht]. unfold release. apply sp_vis; [by right|]. intros ok Hz1.
  apply sp_vis; [right; by left|]. intros [] Hz2. sp_step. apply (sp_bind _ _ (λ _ b', b_unmapped b' = true ∧ b_joined b' = true)).
  - destruct (_ || _); [|by apply sp_ret]. apply sp_vis; [by right|]. intros n _. apply sp_trigger; [|by intros].
    right. cbn. by split_and!.
  - intros _ b' [? ?]. apply sp_ret. by split; left.
Qed.

Lemma sp_hold_paths args paths : sp (hold_paths args paths) ended books_new.
Proof using Type.
  unfold hold_paths. sp_step. destruct (negb x); [apply sp_ret; by split; right|]. sp_step.
  apply sp_vis; [by right|]. intros [] _. eapply sp_bind; [by apply (sp_map_paths _ [])|]. intros ms b [Hd Hf].
  apply (sp_bind _ _ (λ _ b', describes ms b' ∧ fresh b')).
  { destruct (no_warmup args); [by apply sp_ret|]. eapply sp_bind; [apply sp_warm_files|]. intros u b1 Hs. sp_step.
    assert (describes ms (account bool Aborted x0 b1) ∧ fresh (account bool Aborted x0 b1)) as H1.
    { split; [by eapply (same_describes _ b)|by eapply (same_fresh b)]. }
    destruct x0; [by apply sp_ret|]. apply sp_trigger; [right; left; auto with holder|by intros]. }
  intros _ b1 [Hd1 Hf1]. apply (sp_bind _ _ (λ _ b', describes ms b')).
  { destruct (no_mlock args); [by apply sp_ret|]. by apply sp_lock_phase. }
  intros _ b2 Hd2. by apply sp_release.
Qed.

(** ** The run without a screen *)
Definition off (b : Books) : Prop := b_spawned b = false.

Lemma sp_fail_with {A} why b : off b → sp (fail_with (A := A) why) (λ r b', is_ok r = false ∧ b_unmapped b' = true ∧ off b') b.
Proof using Type. intros Ho. apply sp_vis; [right; by right|]. intros [] _. by apply sp_ret. Qed.

Lemma sp_map_all paths ms b : describes ms b → fresh b → off b →
  sp (map_all paths ms) (λ r b', off b' ∧ match r with Ok ms' => describes ms' b' ∧ fresh b' | Err _ => b_unmapped b' = true end) b.
Proof using Type.
  assert (∀ why b, off b → sp (fail_with why) (λ (r : result _ (list MappedFile)) b', off b' ∧
    match r with Ok ms' => describes ms' b' ∧ fresh b' | Err _ => b_unmapped b' = true end) b) as Hfail.
  { intros why b' Ho. eapply sp_mono; [by apply sp_fail_with|]. intros [] b2 (? & ? & ?); done. }
  revert ms b. induction paths as [|p paths IH]; intros ms b Hd Hf Ho; cbn [map_all]; [by apply sp_ret|].
  sp_step. destruct x; [|by apply Hfail].
  apply sp_vis; [by right|]. intros [[id len]|] Hz; [|by apply Hfail].
  apply sp_tell; [cbn; apply elem_of_app; right; by apply list_elem_of_singleton|]. apply IH; [|done..].
  by apply describes_snoc.
Qed.

Lemma sp_read_pages m ps batch start index last sum offsets b :
  sp (read_pages m ps batch start index last sum offsets) (λ _ b', b' = b) b.
Proof using Type.
  revert index last sum. induction offsets as [|o offsets IH]; intros index last sum; cbn [read_pages]; [by apply sp_ret|].
  sp_step. apply (sp_bind _ _ (λ _ b', b' = b)).
  { case_match; [by apply sp_ret|]. sp_step. by apply sp_ret. }
  intros [] b1 ->; [|apply IH]. sp_step. apply sp_vis; [by right|]. intros flushed _. cbn [account].
  destruct (negb flushed); [by apply sp_ret|]. sp_step. apply IH.
Qed.

Lemma sp_warm_all ps n idx ms b : sp (warm_all ps n idx ms) (λ _ b', b' = b) b.
Proof using Type.
  revert idx. induction ms as [|m ms IH]; intros idx; cbn [warm_all]; [by apply sp_ret|].
  apply (sp_bind _ _ (λ _ b', b' = b)).
  { unfold warmup_file. sp_step. sp_step. eapply sp_bind; [apply sp_read_pages|]. intros [c|] b1 ->; [|by apply sp_ret].
    sp_step. sp_step. by apply sp_ret. }
  intros [c|] b1 ->; [apply IH|by apply sp_ret].
Qed.

Lemma sp_lock_all ms cs b : handing ms b (concat cs) → off b →
  sp (lock_all cs) (λ _ b', describes ms b' ∧ off b' ∧ closed b' = false ∧ b_handed b' = length ms) b.
Proof using Type.
  revert b. induction cs as [|c cs IH]; intros b Hh Ho; cbn [lock_all].
  - apply sp_ret. destruct Hh as (Hd & Hc & Hr & Hle). split_and!; [done..|]. apply (f_equal length) in Hr.
    rewrite length_drop in Hr. cbn in Hr. lia.
  - destruct (handing_next ms b c (concat cs) false Hh) as [Hm Hn]. apply sp_vis; [done|]. intros [] _. by apply IH.
Qed.

Lemma sp_tell_failed failed l b : b_failed b = Some l → failed ⊆ l → sp (tell_failed failed) (λ _ b', b' = b) b.
Proof using Type.
  intros Hb. induction failed as [|p ps IH]; intros Hl; cbn [tell_failed]; [by apply sp_ret|].
  apply sp_tell; [exists l; split; [done|]; apply Hl; by left|]. apply IH. intros q Hq. apply Hl. by right.
Qed.

Lemma sp_lock_report n ms b : describes ms b → fresh b → off b → sp (lock_report n ms) (λ _ b', describes ms b' ∧ off b') b.
Proof using Type.
  intros Hd [Hc Hh] Ho. unfold lock_report. sp_step. eapply sp_bind.
  { apply (sp_lock_all ms); [|done]. split_and!; [done|done| |lia]. rewrite Hh, chunks_concat by lia. done. }
  intros _ b1 (Hd1 & Ho1 & Hc1 & Hall). eapply sp_bind; [apply sp_advise_all|]. intros _ b2 ->.
  apply sp_vis; [by right|]. intros locked _. apply sp_vis; [by right|]. intros failed _.
  destruct (merge_sort str_le failed) as [|p ps] eqn:E.
  - apply sp_trigger; [|by intros]. right. cbn. split_and!; [done| |].
    + f_equal. apply Permutation_nil. by rewrite <- (merge_sort_Permutation str_le failed), E.
    + unfold all_handed. cbn. destruct Hd1 as [-> _]. by rewrite length_fmap.
  - assert (p :: ps ≡ₚ failed) as Hp by (rewrite <- E; apply merge_sort_Permutation).
    apply sp_tell; [cbn; split; [done|]; exists failed; split_and!; [done|by rewrite <- Hp|done]|].
    eapply sp_mono; [apply (sp_tell_failed _ failed); [done|intros q Hq; by rewrite <- Hp]|]. by intros _ b2 ->.
Qed.

Lemma sp_oneshot_paths args paths : total = length paths → sp (oneshot_paths args paths) ended books_new.
Proof using Type.
  intros Ht. unfold oneshot_paths. apply sp_tell; [done|]. eapply sp_bind; [by apply (sp_map_all _ [])|]. intros [ms|e] b [Ho Hb]; [|apply sp_ret; split; auto].
  destruct Hb as [Hd Hf]. apply (sp_bind _ _ (λ _ b', b' = b)).
  { destruct (no_warmup args); [sp_step; by apply sp_ret|]. sp_step. sp_step. eapply sp_bind; [apply sp_warm_all|].
    intros [m|] b1 ->; [by apply sp_ret|]. sp_step. sp_step. by apply sp_ret. }
  intros [m|] b1 ->.
  { eapply sp_mono; [by apply sp_fail_with|]. intros r b1 (_ & ? & ?). split; auto. }
  apply (sp_bind _ _ (λ _ b', describes ms b' ∧ off b')).
  { destruct (no_mlock args); [by apply sp_trigger; [right|]|]. by apply sp_lock_report. }
  intros _ b1 [Hd1 Ho1]. destruct (describes_totals _ _ Hd1) as [Hl Hb]. apply sp_vis; [right; by right|]. intros [] _.
  apply sp_tell; [done|]. apply (sp_bind _ _ (λ _ b', b_unmapped b' = true ∧ off b')).
  - destruct (no_mlock args); [by apply sp_ret|]. sp_step. destruct x; [|by apply sp_ret]. by apply sp_trigger; [right|].
  - intros _ b2 [? ?]. apply sp_ret. split; auto.
Qed.

End Runs.

(** ** The machine *)
Section Commands.
Context (to_lowercase : str → str).
Context (current_dir : option str) (glob : str → option (list str)) (exists_ : str → bool) (canonicalize : str → option str).
Abbreviation tui := (hold_models_with_tui current_dir glob exists_ canonicalize).
Abbreviation oneshot := (hold_models_oneshot current_dir glob exists_ canonicalize).

(** The program of either holding command. *)
Definition command (p : hd (result ModelHolderError unit)) : Prop := ∃ args, p = tui args ∨ p = oneshot args.
(** The paths its patterns stand for. *)
Definition total_of (args : HoldArgs) : nat :=
  match prepared current_dir glob exists_ canonicalize args with Ok paths => length paths | Err _ => 0 end.

Lemma sp_command args p : p = tui args ∨ p = oneshot args → sp to_lowercase (total_of args) p ended books_new.
Proof using Type.
  unfold total_of. intros [-> | ->]; unfold hold_models_with_tui, hold_models_oneshot; destruct (prepared _ _ _ _ args) as [paths|e];
    try (by apply sp_ret; split; right).
  - apply sp_hold_paths.
  - destruct paths; [by apply sp_ret; split; right|]. by apply sp_oneshot_paths.
Qed.

Definition machine_ok (total : nat) (m : Machine) : Prop :=
  sp to_lowercase total (m_main m) ended (m_books m) ∧ b_bogus (m_books m) = false ∧
  Inv to_lowercase total (m_books m) (m_workers m) (m_world m).

Lemma machine_step total m m' : step to_lowercase m m' → machine_ok total m → machine_ok total m'.
Proof using Type.
  intros Hs (Hp & Hz & HI). destruct Hs as [m m' Ho|p b ws w w' Hu Hs]; [destruct Ho as [X e k b ws w x w' Hd He|t c k b ws w Hd|i p b ws w k k' w' Hk Hw]|];
    cbn in *.
  - destruct Hp as [Hm Hk]. destruct (inv_main to_lowercase total X e x b ws w w' Hd He Hz Hm HI) as [HI' Hz']. split_and!; [apply Hk|done..].
  - destruct Hp as [[Hm|[Hc Hr]] Hk]; [congruence|]. split_and!; [apply (Hk tt)|done|]. by apply (inv_scope to_lowercase total t c b ws).
  - split_and!; [done..|]. by eapply inv_worker_step.
  - split_and!; [done..|]. by eapply inv_ui_step.
Qed.

Lemma args_runs args p m : p = tui args ∨ p = oneshot args → runs to_lowercase (start p) m → machine_ok (total_of args) m.
Proof using Type.
  intros Hc Hr. assert (machine_ok (total_of args) (start p)) as H0 by (split_and!; [by apply sp_command|done|apply inv_new]).
  revert H0. induction Hr as [|x y z Hs _ IH]; [done|]. intros H. by apply IH, (machine_step _ x).
Qed.
Lemma machine_runs p m : command p → runs to_lowercase (start p) m → ∃ total, machine_ok total m.
Proof using Type. intros [args Hc] Hr. eexists. by apply (args_runs args p). Qed.

(** C11: The screen tells the truth: while it is up nothing has been released, every
    file it shows as locked is mapped and pinned, the title says locked only
    when every mapping is pinned, and the list is scrolled to a place in it. *)
Theorem screen_honest p m :
  command p → runs to_lowercase (start p) m → w_ui (m_world m) = UiRunning →
  let w := m_world m in
  w_gone w = [] ∧ view_ok to_lowercase (w_app w) ∧
  (∀ f, f ∈ files (w_app w) → is_locked f = true →
     ∃ mp, mp ∈ w_maps w ∧ from_utf8_lossy (mp_path mp) = f_path f ∧ mp_pinned mp = true) ∧
  (all_locked (w_app w) = true → Forall (λ mp, mp_pinned mp = true) (w_maps w)).
Proof using Type.
  intros Hc Hr Hu. destruct (machine_runs p m Hc Hr) as (total & _ & _ & HI). cbv zeta.
  assert (w_gone (m_world m) = []) as Hg.
  { pose proof (i_gone _ _ _ _ _ HI) as Hg. destruct (b_unmapped (m_books m)) eqn:E; [|done]. destruct (i_ui _ _ _ _ _ HI) as [Hn Hj].
    destruct (i_unmapped _ _ _ _ _ HI E) as [H|H]; [by apply Hj in H|]. by rewrite Hn in Hu. }
  pose proof (i_honest _ _ _ _ _ HI) as Hh. pose proof (i_all_locked _ _ _ _ _ HI) as Ha. unfold mapped_all in *. rewrite Hg in *.
  split_and!; [done|apply HI|done|]. intros H. by apply Ha.
Qed.

(** C30: What is printed is true once it is read: the run starts on as many files as
    its patterns stand for; a file told as mapped is mapped under that path and
    size; what is told as locked is the bytes pinned, with as many files failed as
    did fail, and those named are of them; the lines that count mappings and bytes
    count those of the run, a release is told when nothing is mapped and no screen
    is up any more; and when the command returns nothing is mapped.  (The progress
    lines, of percentages, speeds and times, are not meant.) *)
Theorem reports_true args p m :
  p = tui args ∨ p = oneshot args → runs to_lowercase (start p) m →
  Forall (line_true (total_of args) (m_world m)) (w_told (m_world m)) ∧
  ∀ r, m_main m = Ret r → w_maps (m_world m) = [] ∧ w_ui (m_world m) ≠ UiRunning.
Proof using Type.
  intros Hc Hr. destruct (args_runs args p m Hc Hr) as (Hp & Hz & HI). split.
  - eapply Forall_impl; [apply HI|]. by intros l [Hl _].
  - intros r E. rewrite E in Hp. destruct Hp as [Hp|[Hu Hj]]; [congruence|]. destruct (i_ui _ _ _ _ _ HI) as [Hn Hjo]. split.
    + pose proof (i_gone _ _ _ _ _ HI) as Hg. destruct Hu as [Hu|Hm]; [by rewrite Hu in Hg|].
      pose proof (inv_lengths _ _ _ _ _ HI) as Hl. rewrite Hm in Hl. unfold mapped_all in Hl. rewrite length_app in Hl.
      destruct (w_maps (m_world m)); [done|]. cbn in Hl. lia.
    + destruct Hj as [Hj|Hj]; [by apply Hjo|]. by rewrite Hn.
Qed.
End Commands.

(** ** Ending *)
Definition pc_rank (pc : WorkerPc) : nat :=
  match pc with WStart => 6 | WLock _ => 5 | WAdd _ => 4 | WTimed _ => 3 | WPublish _ => 2 | WFail => 1 | WDone => 0 end.
Definition work_left (ws : list Worker) : nat := sum_list_with (λ k, pc_rank (wk_pc k)) ws.

Lemma worker_step_rank k w k' w' : worker_step k w k' w' → pc_rank (wk_pc k') < pc_rank (wk_pc k).
Proof using Type. destruct 1 as [t E|s E|s E|s E|s t E|e E|E]; cbn; rewrite E; cbn; try lia. destruct (wk_tui k); cbn; lia. Qed.

Lemma work_left_step ws i k k' w w' : ws !! i = Some k → worker_step k w k' w' → work_left (<[i:=k']> ws) < work_left ws.
Proof using Type.
  intros Hi Hs. apply worker_step_rank in Hs. revert i Hi. unfold work_left.
  induction ws as [|x ws IH]; intros [|i] Hi; try done; simpl in *; [simplify_eq; lia|]. specialize (IH i Hi). lia.
Qed.

Lemma own_step_next m m' : own_step m m' →
  match m_main m with Ret _ => False | Vis X e k => ∃ x, m_main m' = k x end ∨
  m_main m' = m_main m ∧ work_left (m_workers m') < work_left (m_workers m).
Proof using Type.
  destruct 1 as [X e k b ws w x w' Hd He|t c k b ws w Hd|i p b ws w k k' w' Hk Hw]; cbn; [left; eauto..|right].
  split; [done|]. by eapply work_left_step.
Qed.

Lemma own_steps_end p b ws w : Acc (flip own_step) (mkMachine p b ws w).
Proof using Type.
  revert b ws w. induction p as [a|X e k IH]; intros b ws; remember (work_left ws) as n eqn:En;
    revert b ws En; induction (lt_wf n) as [n _ IHn]; intros b ws -> w; constructor; intros m' Hs; unfold flip in Hs.
  all: destruct m' as [p' b' ws' w']; apply own_step_next in Hs as [Hm|[Hm Hlt]]; cbn in Hm.
  - done.
  - subst p'. by eapply (IHn _ Hlt).
  - destruct Hm as [x ->]. apply IH.
  - subst p'. by eapply (IHn _ Hlt).
Qed.

Lemma worker_goes k w : ¬ done k → ∃ k' w', worker_step k w k' w'.
Proof using Type.
  intros Hd. destruct (wk_pc k) as [|s|s|s|e| |] eqn:E; [| | | | | |done]; eexists _, _.
  - by eapply (wk_clock _ _ (w_time w)).
  - by eapply wk_refused.
  - by eapply wk_add.
  - by eapply (wk_timed _ _ s (w_time w)).
  - by eapply wk_publish.
  - by eapply wk_fail.
Qed.

Lemma main_goes X (e : Hd X) w : (∃ tui c, X = unit ∧ ∀ P : ∀ X, Hd X → Prop, P unit (LockChunk tui c) → P X e) ∨
  (w_ui w = UiRunning ∧ ∀ P : ∀ X, Hd X → Prop, P bool JoinUi → P X e) ∨ ∃ x w', hd_effect X e x w w'.
Proof using Type.
  destruct e; try (right; right; by eexists true, _); try (right; right; by eexists tt, _); try (right; right; by eexists None, _);
    try (right; right; by eexists 0%Z, _).
  - right; right. by eexists (w_exit w), _.
  - right; right. exists (w_time w). by eexists.
  - left. by eexists _, _.
  - right; right. by eexists (w_failed w), _.
  - destruct (w_ui w) eqn:E; [right; right|by right; left|right; right|right; right]; cbn; rewrite E.
    + by exists true, w.
    + by exists true, w.
    + by exists false, w.
  - right; right. by eexists (w_locked w), _.
Qed.

(** Nothing to do but to wait for the screen's thread. *)
Definition waits_for_screen (m : Machine) : Prop := w_ui (m_world m) = UiRunning ∧ ∃ k, m_main m = Vis bool JoinUi k.

(** The holder never gets stuck: the main thread and its locking threads stop
    only at the end, or to wait for a screen that is still up, whatever they are
    answered (that they take finitely many steps holds of any such machine, its
    programs having no loop).  The screen comes down after two presses of Esc
    from any state ([two_presses_quit]). *)
Theorem holder_ends m :
  Acc (flip own_step) m ∧
  ((∃ r, m_main m = Ret r) ∨ (∃ m', own_step m m') ∨ waits_for_screen m).
Proof using Type.
  destruct m as [p b ws w]. split; [apply own_steps_end|]. cbn.
  destruct (decide (Forall done ws)) as [Hd|Hd].
  - destruct p as [r|X e k]; [by left; exists r|]. right.
    destruct (main_goes X e w) as [(tui & c & _ & HP)|[[Hu HP]|(x & w' & He)]].
    + left. revert k. apply (HP (λ X e, ∀ k : X → _, ∃ m', own_step (mkMachine (Vis X e k) b ws w) m')).
      intros k. eexists. by apply step_scope.
    + right. split; [done|]. revert k. apply (HP (λ X e, ∀ k : X → hd (result ModelHolderError unit), ∃ k0, Vis X e k = Vis bool JoinUi k0)).
      by eexists.
    + left. eexists. by eapply step_main.
  - right; left. apply not_Forall_Exists in Hd; [|apply _]. apply Exists_exists in Hd as (k & Hk & Hnd).
    apply list_elem_of_lookup in Hk as [i Hi]. destruct (worker_goes k w Hnd) as (k' & w' & Hs). eexists. by eapply step_worker.
Qed.
