(* ===== verification/KvLabels.v ===== *)
(** * The cache-configuration gauge (llama-proxy/src/proxy/kv_labels.rs)

    The pure parser of one metric family out of a Prometheus text body.  The
    loops over [char_indices] only react to ASCII characters, so they are read
    byte by byte; a label map is a [gmap]. *)
From S2P Require Import Prelude Utf8 Framing Sse.

Definition QUOTE : ascii := ascii_of_nat 34.
Definition BACKSLASH : ascii := ascii_of_nat 92.

Definition METRIC_NAME : str := lit "vllm:cache_config_info".
Definition ENGINE_LABEL : str := lit "engine".

(** [KvCacheInfo]: the labels of one series. *)
Abbreviation KvCacheInfo := (gmap str str) (only parsing).

(** ** Quotes and escapes: [(in_quotes, escaped)] *)
Definition quote_step (st : bool * bool) (ch : ascii) : bool * bool :=
  let '(in_quotes, escaped) := st in
  if escaped then (in_quotes, false)
  else if bool_decide (ch = BACKSLASH) && in_quotes then (in_quotes, true)
  else if bool_decide (ch = QUOTE) then (negb in_quotes, escaped)
  else st.
Definition unquoted (st : bool * bool) : bool := negb st.1 && negb st.2.

Fixpoint label_set_inner_go (st : bool * bool) (rest : str) : option str :=
  match rest with
  | [] => None
  | ch :: rest' =>
      if bool_decide (ch = "}"%char) && unquoted st then Some []
      else cons ch <$> label_set_inner_go (quote_step st ch) rest'
  end.
Definition label_set_inner (rest : str) : option str := label_set_inner_go (false, false) rest.

(** The texts between the commas outside quotes. *)
Fixpoint segments (st : bool * bool) (inner : str) : list str :=
  match inner with
  | [] => [[]]
  | ch :: inner' =>
      if bool_decide (ch = ","%char) && unquoted st then [] :: segments st inner'
      else match segments (quote_step st ch) inner' with
           | w :: ws => (ch :: w) :: ws
           | [] => [[ch]]
           end
  end.

(** [str::split_once] of an ASCII char. *)
Fixpoint split_once (c : ascii) (s : str) : option (str * str) :=
  match s with
  | [] => None
  | d :: s' => if decide (d = c) then Some ([], s') else (λ p, (d :: p.1, p.2)) <$> split_once c s'
  end.

Definition unescaped (ch : ascii) : ascii :=
  if decide (ch = "n"%char) then LF
  else if decide (ch = "r"%char) then CR
  else if decide (ch = "t"%char) then ascii_of_nat 9
  else ch.
Fixpoint unescape (escaped : bool) (s : str) : str :=
  match s with
  | [] => []
  | ch :: s' =>
      if escaped then unescaped ch :: unescape false s'
      else if decide (ch = BACKSLASH) then unescape true s'
      else ch :: unescape false s'
  end.

Definition unquote (quoted : str) : option str :=
  rest ← strip_prefix quoted [QUOTE];
  inner ← strip_suffix rest [QUOTE];
  Some (if bool_decide (BACKSLASH ∈ inner) then unescape false inner else inner).

Definition insert_pair (labels : KvCacheInfo) (pair : str) : KvCacheInfo :=
  match split_once "="%char pair with
  | None => labels
  | Some (name, value) =>
      let name := trim name in
      match unquote (trim value) with
      | None => labels
      | Some value => if bool_decide (name = []) then labels else <[name := value]> labels
      end
  end.

Definition parse_label_pairs (inner : str) : KvCacheInfo :=
  foldl insert_pair ∅ (segments (false, false) inner).

Definition cache_config_labels (line : str) : option KvCacheInfo :=
  let line := trim line in
  if starts_with line (lit "#") then None
  else
    rest ← strip_prefix line METRIC_NAME;
    rest ← strip_prefix rest (lit "{");
    inner ← label_set_inner rest;
    let labels := parse_label_pairs inner in
    if bool_decide (labels = ∅) then None else Some labels.

(** [a < b] on strings. *)
Definition str_lt (a b : str) : bool := negb (bool_decide (str_le b a)).

Definition engine_of (labels : KvCacheInfo) : str := default [] (labels !! ENGINE_LABEL).
Definition pick_series (best : option (str * KvCacheInfo)) (line : str) : option (str * KvCacheInfo) :=
  match cache_config_labels line with
  | None => best
  | Some labels =>
      let engine := engine_of labels in
      let wins := match best with Some (lowest, _) => str_lt engine lowest | None => true end in
      if wins then Some (engine, labels) else best
  end.
Definition parse_cache_config_info (body : str) : option KvCacheInfo :=
  snd <$> foldl pick_series None (lines body).

(** ** The exposition format, written *)
Definition escape_byte (c : ascii) : str :=
  if decide (c = BACKSLASH) then [BACKSLASH; BACKSLASH]
  else if decide (c = QUOTE) then [BACKSLASH; QUOTE]
  else if decide (c = LF) then [BACKSLASH; "n"%char]
  else [c].
Definition escape (v : str) : str := v ≫= escape_byte.
Definition render_label (l : str * str) : str := l.1 ++ "="%char :: QUOTE :: escape l.2 ++ [QUOTE].
Fixpoint render_labels (ls : list (str * str)) : str :=
  match ls with
  | [] => []
  | [l] => render_label l
  | l :: ls' => render_label l ++ ","%char :: render_labels ls'
  end.
Definition render_series (ls : list (str * str)) (value : str) : str :=
  METRIC_NAME ++ lit "{" ++ render_labels ls ++ lit "} " ++ value.

(** A label name and the printed value of a sample. *)
Definition name_byte (c : ascii) : bool := is_ascii_alphanumeric c || bool_decide (c = "_"%char).
Definition label_name (n : str) : Prop := n ≠ [] ∧ Forall (λ c, name_byte c = true) n.
Definition sample_value (v : str) : Prop := v ≠ [] ∧ Forall (λ c, graphic c = true) v.

(** * Facts *)

(** ** Reading back what was written *)

(** Reads [t] without meeting [stop] outside quotes. *)
Fixpoint runs (stop : ascii) (st : bool * bool) (t : str) : option (bool * bool) :=
  match t with
  | [] => Some st
  | c :: t' => if bool_decide (c = stop) && unquoted st then None else runs stop (quote_step st c) t'
  end.

Lemma runs_app stop st t t' : runs stop st (t ++ t') = runs stop st t ≫= λ st', runs stop st' t'.
Proof. revert st. induction t as [|c t IH]; intros st; simpl; [done|]. by case_match. Qed.

Lemma inner_runs st st' t s :
  runs "}"%char st t = Some st' →
  label_set_inner_go st (t ++ s) = app t <$> label_set_inner_go st' s.
Proof.
  revert st. induction t as [|c t IH]; intros st; simpl; [intros [= ->]; by destruct (label_set_inner_go st' s)|].
  case_match; [done|]. intros Ht. rewrite (IH _ Ht). by destruct (label_set_inner_go st' s).
Qed.

Lemma segments_runs st st' t s :
  runs ","%char st t = Some st' →
  segments st (t ++ s) = match segments st' s with w :: ws => (t ++ w) :: ws | [] => [t] end.
Proof.
  assert (∀ st s, segments st s ≠ []) as Hne.
  { clear. intros st s. destruct s as [|c s]; simpl; [done|]. repeat case_match; done. }
  revert st. induction t as [|c t IH]; intros st; simpl.
  - intros [= ->]. specialize (Hne st' s). by destruct (segments st' s).
  - destruct (bool_decide (c = ","%char) && unquoted st); [done|]. intros Ht. rewrite (IH _ Ht).
    specialize (Hne st' s). by destruct (segments st' s).
Qed.

Lemma runs_escape stop v : runs stop (true, false) (escape v) = Some (true, false).
Proof.
  induction v as [|c v IH]; [done|]. change (escape (c :: v)) with (escape_byte c ++ escape v).
  rewrite runs_app. enough (runs stop (true, false) (escape_byte c) = Some (true, false)) as -> by done.
  unfold escape_byte. repeat case_decide; subst; simpl; rewrite ?andb_false_r; try done.
  unfold quote_step. by rewrite !bool_decide_false by done.
Qed.

Lemma name_byte_plain c :
  name_byte c = true →
  c ≠ QUOTE ∧ c ≠ BACKSLASH ∧ c ≠ "}"%char ∧ c ≠ ","%char ∧ c ≠ "="%char ∧ c ≠ "#"%char ∧ graphic c = true.
Proof.
  intros H. repeat split; [by intros ->..|].
  destruct c as [[] [] [] [] [] [] [] []]; vm_compute in H |- *; done.
Qed.

Lemma runs_name stop n :
  stop = "}"%char ∨ stop = ","%char → Forall (λ c, name_byte c = true) n →
  runs stop (false, false) n = Some (false, false).
Proof.
  intros Hs. induction 1 as [|c n Hc _ IH]; simpl; [done|].
  apply name_byte_plain in Hc as (H1 & H2 & H3 & H4 & _).
  rewrite bool_decide_false by naive_solver. unfold quote_step. by rewrite !bool_decide_false by done.
Qed.

Lemma runs_label stop l :
  stop = "}"%char ∨ stop = ","%char → label_name l.1 →
  runs stop (false, false) (render_label l) = Some (false, false).
Proof.
  intros Hs [_ Hn]. unfold render_label. rewrite runs_app, runs_name by done.
  assert (∀ c t, c ≠ stop → runs stop (false, false) (c :: t) = runs stop (quote_step (false, false) c) t) as Hstep.
  { intros c t Hc. simpl. by rewrite bool_decide_false. }
  cbn [mbind option_bind]. rewrite Hstep by (by destruct Hs; subst).
  change (quote_step (false, false) "="%char) with (false, false).
  rewrite Hstep by (by destruct Hs; subst).
  change (quote_step (false, false) QUOTE) with (true, false).
  rewrite runs_app, runs_escape. simpl. by rewrite andb_false_r.
Qed.

Lemma runs_labels ls :
  Forall (λ l, label_name l.1) ls → runs "}"%char (false, false) (render_labels ls) = Some (false, false).
Proof.
  induction 1 as [|l ls Hl Hls IH]; [done|]. destruct ls as [|l' ls]; [apply runs_label; auto|].
  change (render_labels (l :: l' :: ls)) with (render_label l ++ ","%char :: render_labels (l' :: ls)).
  rewrite runs_app, runs_label by auto. done.
Qed.

Lemma segments_rendered ls :
  Forall (λ l, label_name l.1) ls → ls ≠ [] →
  segments (false, false) (render_labels ls) = render_label <$> ls.
Proof.
  induction 1 as [|l ls Hl Hls IH]; [done|]. intros _. destruct ls as [|l' ls].
  - simpl. rewrite <- (app_nil_r (render_label l)) at 1.
    rewrite (segments_runs _ (false, false)) by (apply runs_label; auto). simpl. by rewrite app_nil_r.
  - change (render_labels (l :: l' :: ls)) with (render_label l ++ ","%char :: render_labels (l' :: ls)).
    rewrite (segments_runs _ (false, false)) by (apply runs_label; auto).
    change (segments (false, false) (","%char :: render_labels (l' :: ls)))
      with ([] :: segments (false, false) (render_labels (l' :: ls))).
    rewrite IH by done. by rewrite app_nil_r.
Qed.

Lemma unescape_escape v : unescape false (escape v) = v.
Proof.
  induction v as [|c v IH]; [done|]. change (escape (c :: v)) with (escape_byte c ++ escape v).
  unfold escape_byte. repeat case_decide; subst; cbn; rewrite ?IH; try done.
  by rewrite decide_False by done.
Qed.

Lemma unquote_rendered v : unquote (QUOTE :: escape v ++ [QUOTE]) = Some v.
Proof.
  unfold unquote.
  assert (strip_prefix (QUOTE :: escape v ++ [QUOTE]) [QUOTE] = Some (escape v ++ [QUOTE])) as ->
    by by apply strip_prefix_Some.
  cbn [mbind option_bind].
  assert (strip_suffix (escape v ++ [QUOTE]) [QUOTE] = Some (escape v)) as -> by by apply strip_suffix_Some.
  cbn [mbind option_bind]. case_bool_decide as Hb; [by rewrite unescape_escape|]. f_equal.
  induction v as [|c v IH]; [done|]. change (escape (c :: v)) with (escape_byte c ++ escape v) in *.
  unfold escape_byte in *. repeat case_decide; subst; [set_solver..|].
  simpl. f_equal. apply IH. set_solver.
Qed.

Lemma split_once_name c n r : c ∉ n → split_once c (n ++ c :: r) = Some (n, r).
Proof.
  induction n as [|d n IH]; intros Hc; simpl; [by rewrite decide_True|].
  rewrite decide_False by set_solver. rewrite IH by set_solver. done.
Qed.

Lemma insert_pair_rendered labels l :
  label_name l.1 → insert_pair labels (render_label l) = <[l.1 := l.2]> labels.
Proof.
  intros [Hne Hn]. unfold insert_pair, render_label. rewrite split_once_name.
  - rewrite (trim_graphic_all l.1) by (eapply Forall_impl; [done|]; intros c Hc; by apply name_byte_plain in Hc as (? & ? & ? & ? & ? & ? & ?)).
    rewrite (trim_graphic QUOTE (escape l.2) QUOTE) by done. rewrite unquote_rendered.
    by rewrite bool_decide_false.
  - intros Hin. rewrite Forall_forall in Hn. apply Hn, name_byte_plain in Hin. naive_solver.
Qed.

(** A rendered label set parses to its labels, the last value of a name winning. *)
Lemma parse_rendered ls :
  Forall (λ l, label_name l.1) ls → ls ≠ [] →
  parse_label_pairs (render_labels ls) = foldl (λ m l, <[l.1 := l.2]> m) ∅ ls.
Proof.
  intros Hls Hne. unfold parse_label_pairs. rewrite segments_rendered by done. clear Hne.
  generalize (∅ : gmap str str). induction Hls as [|l ls Hl _ IH]; intros m; simpl; [done|].
  by rewrite insert_pair_rendered.
Qed.

Lemma foldl_insert_to_map (ls : list (str * str)) (m : gmap str str) :
  NoDup ls.*1 → foldl (λ m l, <[l.1 := l.2]> m) m ls = list_to_map ls ∪ m.
Proof.
  revert m. induction ls as [|[n v] ls IH]; intros m Hnd; simpl; [by rewrite (left_id_L ∅ (∪))|].
  apply NoDup_cons in Hnd as [Hn Hnd]. rewrite IH by done.
  rewrite <- insert_union_r by (by apply not_elem_of_list_to_map_1). by rewrite insert_union_l.
Qed.

(** What vLLM prints is read back exactly: a series with distinct label names
    parses to its labels, every value verbatim, whatever bytes it holds. *)
Theorem series_roundtrip ls value :
  NoDup ls.*1 → Forall (λ l, label_name l.1) ls → ls ≠ [] → sample_value value →
  cache_config_labels (render_series ls value) = Some (list_to_map ls).
Proof.
  intros Hnd Hls Hne [Hv Hg]. unfold cache_config_labels.
  assert (trim (render_series ls value) = render_series ls value) as ->.
  { destruct value as [|d value _] using rev_ind; [done|]. apply Forall_app in Hg as [_ Hg].
    unfold render_series. rewrite !app_assoc. change METRIC_NAME with ("v"%char :: lit "llm:cache_config_info").
    apply trim_graphic; [done|]. by inversion Hg. }
  change (starts_with (render_series ls value) (lit "#")) with false. cbv iota.
  assert (strip_prefix (render_series ls value) METRIC_NAME =
    Some (lit "{" ++ render_labels ls ++ lit "} " ++ value)) as -> by by apply strip_prefix_Some.
  cbn [mbind option_bind].
  assert (∀ r, strip_prefix (lit "{" ++ r) (lit "{") = Some r) as -> by (intros; by apply strip_prefix_Some).
  cbn [mbind option_bind]. unfold label_set_inner.
  rewrite (inner_runs _ (false, false)) by (by apply runs_labels).
  change (label_set_inner_go (false, false) (lit "} " ++ value)) with (Some ([] : str)).
  cbn [fmap option_fmap option_map mbind option_bind]. rewrite app_nil_r.
  rewrite parse_rendered, foldl_insert_to_map, (right_id_L ∅ (∪)) by done.
  case_bool_decide as He; [|done]. destruct ls as [|[n v] ls]; [done|]. simpl in He.
  by apply insert_non_empty in He.
Qed.

(** ** Which series wins *)
Lemma str_lt_trans a b c : str_lt a b = true → str_lt b c = true → str_lt a c = true.
Proof.
  unfold str_lt. rewrite !negb_true_iff, !bool_decide_eq_false. intros Hab Hbc Hca.
  destruct (total str_le b a) as [|H]; [done|]. apply Hbc. by trans a.
Qed.

Lemma str_lt_le a b : str_lt a b = false ↔ str_le b a.
Proof. unfold str_lt. by rewrite negb_false_iff, bool_decide_eq_true. Qed.

Lemma cache_config_labels_nonempty line m : cache_config_labels line = Some m → m ≠ ∅.
Proof.
  unfold cache_config_labels. case_match; [done|]. intros H0.
  repeat (apply bind_Some in H0 as (? & _ & H0)). case_bool_decide; naive_solver.
Qed.

(** [l] is the first of the smallest series before and after it. *)
Definition first_lowest (ls : list str) (l : str) (m : KvCacheInfo) : Prop :=
  ∃ pre post, ls = pre ++ l :: post ∧ cache_config_labels l = Some m ∧
    (∀ l' m', l' ∈ pre → cache_config_labels l' = Some m' → str_lt (engine_of m) (engine_of m') = true) ∧
    (∀ l' m', l' ∈ post → cache_config_labels l' = Some m' → str_le (engine_of m) (engine_of m')).

(** A body yields a series exactly when one of its lines is one; it is whole,
    has a label, and is the first of those whose engine label is lowest. *)
Theorem parse_picks_lowest body :
  match parse_cache_config_info body with
  | None => ∀ l, l ∈ lines body → cache_config_labels l = None
  | Some m => m ≠ ∅ ∧ ∃ l, first_lowest (lines body) l m
  end.
Proof.
  unfold parse_cache_config_info. enough (match foldl pick_series None (lines body) with
    | None => ∀ l, l ∈ lines body → cache_config_labels l = None
    | Some (e, m) => e = engine_of m ∧ ∃ l, first_lowest (lines body) l m end) as H.
  { destruct (foldl pick_series None (lines body)) as [[e m]|]; [|done]. destruct H as [_ [l Hl]].
    split; [|by exists l]. destruct Hl as (_ & _ & _ & Hl & _). by eapply cache_config_labels_nonempty. }
  induction (lines body) as [|l ls IH] using rev_ind; [set_solver|].
  rewrite foldl_app. simpl. destruct (foldl pick_series None ls) as [[e m]|]; unfold pick_series;
    destruct (cache_config_labels l) as [m'|] eqn:El.
  - destruct IH as [-> [l0 (pre & post & -> & H0 & Hpre & Hpost)]].
    destruct (str_lt (engine_of m') (engine_of m)) eqn:Hlt; (split; [done|]).
    + exists l, (pre ++ l0 :: post), []. split_and!; [done|done| |set_solver].
      intros l' m2 Hl' E. apply elem_of_app in Hl' as [Hl'|Hl'].
      * eapply str_lt_trans; [done|]. by eapply Hpre.
      * apply elem_of_cons in Hl' as [->|Hl']; [congruence|].
        specialize (Hpost _ _ Hl' E). apply str_lt_le in Hpost.
        destruct (str_lt (engine_of m') (engine_of m2)) eqn:Hc; [done|].
        apply str_lt_le in Hc, Hpost. assert (str_le (engine_of m) (engine_of m')) as Hx by (by trans (engine_of m2)).
        apply str_lt_le in Hx. congruence.
    + exists l0, pre, (post ++ [l]). rewrite <- app_assoc. split_and!; [done|done|done|].
      intros l' m2 [Hl'| ->%list_elem_of_singleton]%elem_of_app E; [by eapply Hpost|].
      apply str_lt_le. congruence.
  - destruct IH as [-> [l0 (pre & post & -> & H0 & Hpre & Hpost)]]. split; [done|].
    exists l0, pre, (post ++ [l]). rewrite <- app_assoc. split_and!; [done..|].
    intros l' m2 [Hl'| ->%list_elem_of_singleton]%elem_of_app E; [by eapply Hpost|congruence].
  - split; [done|]. exists l, ls, []. split_and!; [done|done| |set_solver].
    intros l' m2 Hl' E. rewrite IH in E by done. done.
  - intros l' [Hl'| ->%list_elem_of_singleton]%elem_of_app; auto.
Qed.
