(* ===== verification/Jsonc.v ===== *)
(** * Line edits of a commented JSON file (opencode/helpers/model-switcher/src/config.rs)

    The comment stripper, the line walk and the edits of single-line objects.
    Every character the code reacts to is ASCII, so its loops over chars are
    read byte by byte; offsets are byte offsets, as in the code. *)
From S2P Require Import Prelude Utf8 Framing Sse.

Definition QUOT : ascii := ascii_of_nat 34.
Definition BSLASH : ascii := ascii_of_nat 92.

(** [rest.len() - rest.trim_start().len()]. *)
Definition ws_len (s : str) : nat := length s - length (trim_start s).

(** ** Stripping *)
Inductive Lexing :=
  | InCode
  | InStr
  | InEscape                       (** after a backslash in a string *)
  | InLine                         (** in a [//] comment *)
  | InBlock (star : bool).         (** in a block comment, after a star *)

Fixpoint strip_comments (st : Lexing) (src : str) : str :=
  match src with
  | [] => match st with InBlock _ => lit " " | _ => [] end
  | c :: src' =>
      match st with
      | InStr =>
          c :: strip_comments (if decide (c = BSLASH) then InEscape else if decide (c = QUOT) then InCode else InStr) src'
      | InEscape => c :: strip_comments InStr src'
      | InLine => if decide (c = LF) then c :: strip_comments InCode src' else strip_comments InLine src'
      | InBlock star =>
          if star && bool_decide (c = "/"%char) then lit " " ++ strip_comments InCode src'
          else strip_comments (InBlock (bool_decide (c = "*"%char))) src'
      | InCode =>
          if decide (c = QUOT) then c :: strip_comments InStr src'
          else if decide (c = "/"%char) then
            match src' with
            | d :: rest =>
                if decide (d = "/"%char) then strip_comments InLine src'
                else if decide (d = "*"%char) then strip_comments (InBlock false) rest
                else c :: strip_comments InCode src'
            | [] => [c]
            end
          else c :: strip_comments InCode src'
      end
  end.

Definition is_closer (g : str) : bool := bool_decide (g = lit "}") || bool_decide (g = lit "]").

(** The next char that is not whitespace closes something. *)
Definition closes_next (rest : str) : bool :=
  match drop_while is_whitespace (chars rest) with g :: _ => is_closer g | [] => false end.

Fixpoint remove_trailing_commas (st : Lexing) (src : str) : str :=
  match src with
  | [] => []
  | c :: src' =>
      match st with
      | InStr =>
          c :: remove_trailing_commas
                 (if decide (c = BSLASH) then InEscape else if decide (c = QUOT) then InCode else InStr) src'
      | InEscape => c :: remove_trailing_commas InStr src'
      | _ =>
          if decide (c = QUOT) then c :: remove_trailing_commas InStr src'
          else if decide (c = ","%char) then
            if closes_next src' then remove_trailing_commas InCode src' else c :: remove_trailing_commas InCode src'
          else c :: remove_trailing_commas InCode src'
      end
  end.

Definition strip_jsonc (src : str) : str := remove_trailing_commas InCode (strip_comments InCode src).

(** ** Lines *)

(** [f] is given the number of the line. *)
Definition map_lines (content : str) (f : nat → str → str) : str * nat :=
  let ls := lines content in
  let out := imap f ls in
  (join [LF] out ++ (if ends_with content [LF] then [LF] else []),
   length (filter (λ p : str * str, p.1 ≠ p.2) (zip ls out))).

Record DepthState := mkDepth { depth : nat; in_str : bool; in_block : bool }.

(** The rest of one line. *)
Fixpoint line_depth (st : DepthState) (b : str) : DepthState :=
  match b with
  | [] => st
  | c :: b' =>
      if in_block st then
        if decide (c = "*"%char) then
          match b' with
          | d :: rest => if decide (d = "/"%char) then line_depth (mkDepth (depth st) (in_str st) false) rest
                         else line_depth st b'
          | [] => st
          end
        else line_depth st b'
      else if in_str st then
        if decide (c = BSLASH) then match b' with _ :: rest => line_depth st rest | [] => st end
        else if decide (c = QUOT) then line_depth (mkDepth (depth st) false false) b'
        else line_depth st b'
      else if decide (c = QUOT) then line_depth (mkDepth (depth st) true false) b'
      else if decide (c = "/"%char) then
        match b' with
        | d :: rest =>
            if decide (d = "/"%char) then st
            else if decide (d = "*"%char) then line_depth (mkDepth (depth st) false true) rest
            else line_depth st b'
        | [] => st
        end
      else if bool_decide (c = "{"%char) || bool_decide (c = "["%char) then line_depth (mkDepth (S (depth st)) false false) b'
      else if bool_decide (c = "}"%char) || bool_decide (c = "]"%char) then line_depth (mkDepth (depth st - 1) false false) b'
      else line_depth st b'
  end.

Fixpoint line_start_depths_go (st : DepthState) (ls : list str) : list nat :=
  match ls with
  | [] => []
  | l :: ls' => depth st :: line_start_depths_go (line_depth st l) ls'
  end.
Definition line_start_depths (content : str) : list nat :=
  line_start_depths_go (mkDepth 0 false false) (lines content).

(** ** Keys and spans *)
Definition quoted (key : str) : str := QUOT :: key ++ [QUOT].

(** Every turn moves past a match, so [length s] turns suffice. *)
Fixpoint find_key_go (fuel : nat) (s pat : str) (from : nat) : option (nat * nat) :=
  match fuel with
  | 0 => None
  | S fuel' =>
      match find_sub (drop from s) pat with
      | None => None
      | Some off =>
          let start := from + off in
          let after := start + length pat in
          let rest := drop after s in
          let ws := ws_len rest in
          if starts_with (drop ws rest) (lit ":") then Some (start, after + ws + 1)
          else find_key_go fuel' s pat after
      end
  end.
Definition find_key (s key : str) : option (nat * nat) := find_key_go (S (length s)) s (quoted key) 0.

(** The offset of the bracket that closes the first one. *)
Fixpoint match_close (open close : ascii) (depth : nat) (in_str esc : bool) (i : nat) (s : str) : option nat :=
  match s with
  | [] => None
  | c :: s' =>
      if in_str then
        if esc then match_close open close depth true false (S i) s'
        else if decide (c = BSLASH) then match_close open close depth true true (S i) s'
        else match_close open close depth (negb (bool_decide (c = QUOT))) false (S i) s'
      else if decide (c = QUOT) then match_close open close depth true esc (S i) s'
      else if decide (c = open) then match_close open close (S depth) false esc (S i) s'
      else if decide (c = close) then
        if decide (depth - 1 = 0) then Some i else match_close open close (depth - 1) false esc (S i) s'
      else match_close open close depth false esc (S i) s'
  end.

Definition bracket_span (s : str) (from : nat) (open close : ascii) : option (nat * nat) :=
  let start := from + ws_len (drop from s) in
  if starts_with (drop start s) [open]
  then (λ i, (start, start + i)) <$> match_close open close 0 false false 0 (drop start s)
  else None.

Definition object_after_key (s key : str) : option (nat * nat) :=
  '(_, after) ← find_key s key; bracket_span s after "{"%char "}"%char.

(** ** Edits of one object on one line: [obj] runs from its brace to its brace *)
Definition digits_len (s : str) : nat := length s - length (drop_while is_ascii_digit s).

Definition insert_entry (obj entry : str) : str :=
  let close := length obj - 1 in
  if bool_decide (trim (slice obj 1 close) = []) then lit "{ " ++ entry ++ lit " }"
  else
    let body_end := length (trim_end (take close obj)) in
    take body_end obj ++ lit ", " ++ entry ++ drop body_end obj.

Definition remove_entry (obj : str) (key_start value_end : nat) : str :=
  let forward :=
    let after := drop value_end obj in
    let ws := ws_len after in
    if starts_with (drop ws after) (lit ",") then
      let rest := drop (ws + 1) after in take key_start obj ++ drop (ws_len rest) rest
    else take key_start obj ++ drop value_end obj in
  match rfind ","%char (take key_start obj) with
  | Some comma =>
      if bool_decide (trim (slice obj (comma + 1) key_start) = []) then take comma obj ++ drop value_end obj
      else forward
  | None => forward
  end.

(** The number after a key's colon: where it starts and ends. *)
Definition number_span (obj : str) (after : nat) : nat * nat :=
  let num_start := after + ws_len (drop after obj) in
  (num_start, num_start + digits_len (drop num_start obj)).

Definition set_number_in_object (obj key : str) (val : option Z) : str :=
  match find_key obj key, val with
  | Some (_, after), Some v =>
      let '(s, e) := number_span obj after in take s obj ++ show_Z v ++ drop e obj
  | None, Some v =>
      match (if bool_decide (key = lit "input") then find_key obj (lit "context") else None) with
      | Some (_, after) =>
          let '(_, e) := number_span obj after in
          take e obj ++ lit ", " ++ quoted key ++ lit ": " ++ show_Z v ++ drop e obj
      | None => insert_entry obj (quoted key ++ lit ": " ++ show_Z v)
      end
  | Some (key_start, after), None => let '(_, e) := number_span obj after in remove_entry obj key_start e
  | None, None => obj
  end.

Definition splice (line : str) (span : nat * nat) (replacement : str) : str :=
  take span.1 line ++ replacement ++ drop (span.2 + 1) line.
Definition span_text (line : str) (span : nat * nat) : str := slice line span.1 (span.2 + 1).

Definition edit_limit_on_line (line key : str) (val : option Z) : str :=
  match object_after_key line (lit "limit") with
  | None => line
  | Some span => splice line span (set_number_in_object (span_text line span) key val)
  end.

(** The closing quote of a string, from just after its opening one. *)
Fixpoint close_quote (esc : bool) (i : nat) (s : str) : option nat :=
  match s with
  | [] => None
  | c :: s' =>
      if esc then close_quote false (S i) s'
      else if decide (c = BSLASH) then close_quote true (S i) s'
      else if decide (c = QUOT) then Some i
      else close_quote false (S i) s'
  end.

Definition replace_string_value (line key value : str) : option str :=
  '(_, after) ← find_key line key;
  off ← find_sub (drop after line) [QUOT];
  let open := after + off in
  i ← close_quote false 0 (drop (open + 1) line);
  Some (take (open + 1) line ++ value ++ drop (open + 1 + i) line).

(** [trim_matches(c)]. *)
Definition trim_matches (c : ascii) (s : str) : str := trim_end_matches c (drop_while (λ d, bool_decide (d = c)) s).

Definition parse_string_array (arr : str) : list str :=
  filter (λ s, s ≠ []) ((λ s, trim_matches QUOT (trim s)) <$> split_char ","%char (slice arr 1 (length arr - 1))).
Definition render_string_array (items : list str) : str := lit "[" ++ join (lit ", ") (quoted <$> items) ++ lit "]".

Definition IMAGE : str := lit "image".
Definition DEFAULT_CAPABILITIES : str :=
  qlit "'capabilities': { 'tools': true, 'input': ['text', 'image'], 'output': ['text'] }".

Definition set_image_on_line (line : str) (enable : bool) : str :=
  match find_key line (lit "limit") with
  | None => line
  | Some (limit_start, _) =>
      match object_after_key line (lit "capabilities") with
      | None =>
          if enable then take limit_start line ++ DEFAULT_CAPABILITIES ++ lit ", " ++ drop limit_start line else line
      | Some caps_span =>
          let caps := span_text line caps_span in
          match find_key caps (lit "input") with
          | Some (_, after) =>
              match bracket_span caps after "["%char "]"%char with
              | None => line
              | Some arr_span =>
                  let items := parse_string_array (span_text caps arr_span) in
                  let has := bool_decide (IMAGE ∈ items) in
                  if Bool.eqb enable has then line
                  else
                    let items' := if enable then items ++ [IMAGE] else filter (λ i, i ≠ IMAGE) items in
                    splice line caps_span (splice caps arr_span (render_string_array items'))
              end
          | None =>
              if enable then splice line caps_span (insert_entry caps (qlit "'input': ['text', 'image']")) else line
          end
      end
  end.

(** * Facts *)

(** ** Commented JSON, written *)
Inductive Piece :=
  | Raw (c : ascii)                (** a byte of JSON outside strings *)
  | StrLit (body : str)
  | LineComment (text : str)       (** up to its line break, which is a [Raw] of its own *)
  | BlockComment (text : str).

(** Escapes are complete and no bare quote is inside. *)
Fixpoint str_body (s : str) : bool :=
  match s with
  | [] => true
  | c :: s' =>
      if decide (c = BSLASH) then match s' with _ :: rest => str_body rest | [] => false end
      else if decide (c = QUOT) then false else str_body s'
  end.

(** The text does not close the block comment it is in. *)
Fixpoint block_body (star : bool) (s : str) : bool :=
  match s with
  | [] => true
  | c :: s' => negb (star && bool_decide (c = "/"%char)) && block_body (bool_decide (c = "*"%char)) s'
  end.

Definition piece_ok (p : Piece) : Prop :=
  match p with
  | Raw c => (byte_val c < 128)%Z ∧ c ≠ QUOT ∧ c ≠ "/"%char
  | StrLit body => str_body body = true
  | LineComment text => LF ∉ text
  | BlockComment text => block_body false text = true
  end.

(** A line comment runs to a line break or to the end of the file. *)
Fixpoint pieces_ok (ps : list Piece) : Prop :=
  match ps with
  | [] => True
  | p :: ps' => piece_ok p ∧ pieces_ok ps' ∧
      match p, ps' with LineComment _, q :: _ => q = Raw LF | _, _ => True end
  end.

Definition render_piece (p : Piece) : str :=
  match p with
  | Raw c => [c]
  | StrLit body => QUOT :: body ++ [QUOT]
  | LineComment text => lit "//" ++ text
  | BlockComment text => lit "/*" ++ text ++ lit "*/"
  end.
Definition render (ps : list Piece) : str := ps ≫= render_piece.

(** What is left without comments: a block comment is a blank. *)
Definition uncommented (p : Piece) : list Piece :=
  match p with LineComment _ => [] | BlockComment _ => [Raw " "%char] | _ => [p] end.

Lemma strip_string body rest :
  str_body body = true →
  strip_comments InStr (body ++ QUOT :: rest) = body ++ QUOT :: strip_comments InCode rest ∧
  remove_trailing_commas InStr (body ++ QUOT :: rest) = body ++ QUOT :: remove_trailing_commas InCode rest.
Proof.
  remember (length body) as n eqn:Hn. revert body Hn. induction (lt_wf n) as [n _ IH]. intros [|c body] -> Hb; [done|].
  simpl in Hb. cbn [app strip_comments remove_trailing_commas]. destruct (decide (c = BSLASH)) as [->|].
  - destruct body as [|d body]; [done|]. cbn [app strip_comments remove_trailing_commas].
    destruct (IH (length body) ltac:(simpl; lia) body eq_refl Hb) as [-> ->]. done.
  - destruct (decide (c = QUOT)); [done|]. destruct (IH (length body) ltac:(simpl; lia) body eq_refl Hb) as [-> ->]. done.
Qed.

Lemma strip_line text rest : LF ∉ text → match rest with c :: _ => c = LF | [] => True end →
  strip_comments InLine (text ++ rest) = strip_comments InCode rest.
Proof.
  intros Ht Hr. induction text as [|c text IH]; simpl.
  - destruct rest as [|c rest]; [done|]. by subst c.
  - apply not_elem_of_cons in Ht as [Hc Ht]. rewrite decide_False by congruence. auto.
Qed.

Lemma strip_block star text rest : block_body star text = true →
  strip_comments (InBlock star) (text ++ lit "*/" ++ rest) = " "%char :: strip_comments InCode rest.
Proof.
  revert star. induction text as [|c text IH]; intros star Hb.
  - change (lit "*/" ++ rest) with ("*"%char :: "/"%char :: rest). by destruct star.
  - simpl in Hb. apply andb_true_iff in Hb as [Hc Hb]. cbn [app strip_comments]. apply negb_true_iff in Hc. rewrite Hc. auto.
Qed.

Lemma render_cons p ps : render (p :: ps) = render_piece p ++ render ps.
Proof. done. Qed.

Lemma strip_comments_right ps : pieces_ok ps → strip_comments InCode (render ps) = render (ps ≫= uncommented).
Proof.
  induction ps as [|p ps IH]; [done|]. intros (Hp & Hps & Hnext). specialize (IH Hps).
  change (render (p :: ps)) with (render_piece p ++ render ps).
  change ((p :: ps) ≫= uncommented) with (uncommented p ++ (ps ≫= uncommented)).
  destruct p as [c|body|text|text]; simpl in Hp; cbn [render_piece uncommented].
  - destruct Hp as (_ & Hq & Hs). cbn [app strip_comments]. rewrite !decide_False by done. by rewrite IH.
  - cbn [app]. rewrite <- app_assoc. cbn [app strip_comments]. rewrite decide_True by done.
    rewrite (proj1 (strip_string body (render ps) Hp)), IH.
    cbn [app]. rewrite render_cons. cbn [render_piece app]. by rewrite <- app_assoc.
  - change (lit "//" ++ text) with ("/"%char :: "/"%char :: text). cbn [app strip_comments]. cbn [decide].
    transitivity (strip_comments InLine (text ++ render ps)); [done|].
    rewrite strip_line; [done|done|]. destruct ps as [|q ps]; [done|]. by subst q.
  - change ((lit "/*" ++ text ++ lit "*/") ++ render ps) with ("/"%char :: "*"%char :: (text ++ lit "*/") ++ render ps).
    transitivity (strip_comments (InBlock false) ((text ++ lit "*/") ++ render ps)); [done|].
    rewrite <- app_assoc, strip_block by done. by rewrite IH.
Qed.

(** The next piece that is neither blank nor a comment closes something. *)
Fixpoint next_closes (ps : list Piece) : bool :=
  match ps with
  | Raw c :: ps' => if is_whitespace [c] then next_closes ps' else is_closer [c]
  | StrLit _ :: _ => false
  | _ :: ps' => next_closes ps'
  | [] => false
  end.

(** The plain JSON meant: comments gone, and every comma before a closer. *)
Fixpoint cleaned (ps : list Piece) : list Piece :=
  match ps with
  | [] => []
  | p :: ps' =>
      (if match p with Raw c => bool_decide (c = ","%char) && next_closes ps' | _ => false end then [] else uncommented p)
      ++ cleaned ps'
  end.

Lemma ascii_not_cont c : (byte_val c < 128)%Z → is_cont c = false.
Proof. intros Hc. unfold is_cont. by rewrite (proj2 (Z.leb_gt _ _)) by lia. Qed.

Lemma quote_char t : is_whitespace (QUOT :: t) = false ∧ is_closer (QUOT :: t) = false.
Proof. split; [by destruct t|]. by unfold is_closer; rewrite !bool_decide_eq_false_2 by done. Qed.

Lemma closes_next_right ps : pieces_ok ps → closes_next (render (ps ≫= uncommented)) = next_closes ps.
Proof.
  induction ps as [|p ps IH]; [done|]. intros (Hp & Hps & Hn). specialize (IH Hps).
  assert (starts_char (render (ps ≫= uncommented))) as Hs.
  { clear -Hps. induction ps as [|p ps IH]; [done|]. destruct Hps as (Hp & Hps & _).
    destruct p as [c|body|text|text]; simpl in *; [by apply ascii_not_cont; destruct Hp|done|by auto|done]. }
  change ((p :: ps) ≫= uncommented) with (uncommented p ++ (ps ≫= uncommented)).
  destruct p as [c|body|text|text]; cbn [uncommented app next_closes]; [| |done|]; rewrite ?render_cons; cbn [render_piece app].
  - unfold closes_next. rewrite chars_cons_start by done. cbn [drop_while]. by destruct (is_whitespace [c]).
  - unfold closes_next. destruct (chars_group_head QUOT ((body ++ [QUOT]) ++ render (ps ≫= uncommented))) as (t & gs & ->).
    cbn [drop_while]. by destruct (quote_char t) as [-> ->].
  - unfold closes_next in *. rewrite chars_cons_start by done. done.
Qed.

Lemma remove_commas_right ps : pieces_ok ps →
  remove_trailing_commas InCode (render (ps ≫= uncommented)) = render (cleaned ps).
Proof.
  induction ps as [|p ps IH]; [done|]. intros (Hp & Hps & Hn). specialize (IH Hps).
  change ((p :: ps) ≫= uncommented) with (uncommented p ++ (ps ≫= uncommented)).
  destruct p as [c|body|text|text]; cbn [uncommented cleaned app]; [| |done|].
  - destruct Hp as (_ & Hq & _). rewrite !render_cons. cbn [render_piece app remove_trailing_commas].
    rewrite decide_False by done. rewrite closes_next_right by done.
    destruct (decide (c = ","%char)) as [->|Hc].
    + rewrite bool_decide_eq_true_2 by done. cbn [andb]. destruct (next_closes ps); cbn [app]; [done|].
      rewrite render_cons. cbn [render_piece app]. by rewrite IH.
    + rewrite bool_decide_eq_false_2 by done. cbn [andb app]. rewrite render_cons. cbn [render_piece app]. by rewrite IH.
  - rewrite !render_cons. cbn [render_piece app remove_trailing_commas]. rewrite decide_True by done.
    rewrite <- !app_assoc. cbn [app]. rewrite (proj2 (strip_string body _ Hp)). by rewrite IH.
  - rewrite !render_cons. cbn [render_piece app remove_trailing_commas].
    transitivity (" "%char :: remove_trailing_commas InCode (render (ps ≫= uncommented))); [done|]. by rewrite IH.
Qed.

(** C34: Stripping a commented file leaves exactly the JSON meant: strings verbatim
    whatever they hold, line comments gone, block comments a blank, and a comma
    gone exactly where the next thing that counts closes an object or an
    array. *)
Theorem strip_jsonc_right ps : pieces_ok ps → strip_jsonc (render ps) = render (cleaned ps).
Proof. intros Hps. unfold strip_jsonc. rewrite strip_comments_right by done. by apply remove_commas_right. Qed.
