(* ===== verification/JsoncFacts.v ===== *)
(** * What the line edits do

    The lines of an edited file are the edited lines, and the edit of a limit
    object is the edit of the list of its entries. *)
From S2P Require Import Prelude Utf8 Framing Sse Jsonc.

(** ** Lines *)
Definition line_ok (l : str) : Prop := LF ∉ l ∧ ends_with l [CR] = false.

Lemma strip_CR_ok l : line_ok l → default l (strip_suffix l [CR]) = l.
Proof. intros [_ Hl]. unfold ends_with in Hl. by destruct (strip_suffix l [CR]). Qed.

Lemma lines_of_snoc parts r :
  lines_of (parts ++ [r]) = ((λ p, default p (strip_suffix p [CR])) <$> parts) ++ (if bool_decide (r = []) then [] else [r]).
Proof.
  induction parts as [|p parts IH]; [done|]. cbn [app lines_of fmap list_fmap].
  rewrite IH. by destruct parts.
Qed.

Lemma join_snoc_nil sep ls : ls ≠ [] → join sep (ls ++ [[]]) = join sep ls ++ sep.
Proof.
  induction ls as [|l ls IH]; [done|]. intros _. destruct ls as [|l' ls]; [cbn; by rewrite app_nil_r|].
  change (join sep ((l :: l' :: ls) ++ [[]])) with (l ++ sep ++ join sep ((l' :: ls) ++ [[]])).
  rewrite IH by done. change (join sep (l :: l' :: ls)) with (l ++ sep ++ join sep (l' :: ls)). by rewrite <- !app_assoc.
Qed.

Lemma split_join c ps : ps ≠ [] → Forall (λ p, c ∉ p) ps → split_char c (join [c] ps) = ps.
Proof.
  induction ps as [|p ps IH]; [done|]. intros _ [Hp Hps]%Forall_cons. destruct ps as [|q ps]; [by apply split_char_clean|].
  change (join [c] (p :: q :: ps)) with (p ++ c :: join [c] (q :: ps)).
  rewrite split_char_cut by done. by rewrite IH.
Qed.

Lemma join_split c s : join [c] (split_char c s) = s.
Proof.
  induction s as [|d s IH]; [done|]. simpl. destruct (split_char c s) as [|w ws] eqn:E; [by destruct s; simpl in *; repeat case_match|].
  case_decide as Hd; [by rewrite Hd, <- IH at 1|]. rewrite <- IH at 1. by destruct ws.
Qed.

Lemma split_no c s : Forall (λ p, c ∉ p) (split_char c s).
Proof.
  induction s as [|d s IH]; simpl; [repeat constructor; apply not_elem_of_nil|].
  case_decide; [constructor; [apply not_elem_of_nil|done]|].
  destruct IH as [|w ws Hw Hws]; repeat constructor; try done; apply not_elem_of_cons; split; try done; apply not_elem_of_nil.
Qed.

Lemma join_suffix sep ls r : ∃ k, join sep (ls ++ [r]) = k ++ r.
Proof.
  induction ls as [|l ls [k IH]]; [by exists []|]. destruct ls as [|l' ls]; [by exists (l ++ sep); rewrite <- app_assoc|].
  exists (l ++ sep ++ k). change (join sep ((l :: l' :: ls) ++ [r])) with (l ++ sep ++ join sep ((l' :: ls) ++ [r])).
  by rewrite IH, <- !app_assoc.
Qed.

(** What is after the last break. *)
Lemma split_char_end c s : ∃ ls r, split_char c s = ls ++ [r] ∧ Forall (λ p, c ∉ p) (ls ++ [r]) ∧
  (ends_with s [c] = true ↔ r = [] ∧ ls ≠ []).
Proof.
  destruct (exists_last (l := split_char c s)) as (ls & r & E).
  { intros E. pose proof (join_split c s) as Hj. rewrite E in Hj. by subst s. }
  pose proof (split_no c s) as Hn. pose proof (join_split c s) as Hj. rewrite E in Hn, Hj. exists ls, r. split_and!; [done..|].
  rewrite ends_with_spec. split.
  - intros [k Hk]. destruct (join_suffix [c] ls r) as [k' Hk']. rewrite Hj, Hk in Hk'.
    destruct r as [|x r _] using rev_ind.
    + split; [done|]. intros ->. rewrite <- Hj in Hk. by destruct k.
    + rewrite app_assoc in Hk'. apply app_inj_tail in Hk' as [_ <-].
      apply Forall_app in Hn as [_ Hn]. apply Forall_inv in Hn. destruct Hn. apply elem_of_app. right. by constructor.
  - intros [-> Hl]. rewrite join_snoc_nil in Hj by done. by exists (join [c] ls).
Qed.

Lemma imap_fmap_id {A} (f : nat → A → A) l : (∀ i x, l !! i = Some x → f i x = x) → imap f l = l.
Proof.
  revert f. induction l as [|x l IH]; intros f Hf; [done|]. cbn [imap]. f_equal; [by apply Hf|].
  apply IH. intros i y Hi. by apply (Hf (S i)).
Qed.

Lemma lines_of_ok ls tl : Forall line_ok ls → tl = true ∧ ls ≠ [] ∨ tl = false ∧ last ls ≠ Some [] →
  lines (join [LF] ls ++ (if tl then [LF] else [])) = ls.
Proof.
  intros Hls Htl. assert (Forall (λ p, LF ∉ p) ls) as Hno by (eapply Forall_impl; [done|by intros ? []]).
  assert (∀ ls, Forall line_ok ls → (λ p, default p (strip_suffix p [CR])) <$> ls = ls) as Hcr.
  { clear. intros ls Hls. induction Hls; cbn; [done|]. by rewrite strip_CR_ok; [f_equal|]. }
  unfold lines. destruct Htl as [[-> Hne]|[-> Hlast]].
  - rewrite <- join_snoc_nil, split_join; [|by destruct ls|apply Forall_app; split; [done|repeat constructor; apply not_elem_of_nil]|done].
    by rewrite lines_of_snoc, Hcr, app_nil_r.
  - rewrite app_nil_r. destruct ls as [|r ls _] using rev_ind; [done|]. rewrite split_join by (done || by destruct ls).
    rewrite lines_of_snoc, bool_decide_eq_false_2 by (by intros ->; rewrite last_snoc in Hlast).
    apply Forall_app in Hls as [Hls _]. by rewrite Hcr.
Qed.

(** The lines written are the lines answered, one for each, as long as an edit
    keeps a line a line. *)
Lemma lines_map_lines content f :
  (∀ i l, lines content !! i = Some l → line_ok (f i l) ∧ (l ≠ [] → f i l ≠ [])) →
  lines (map_lines content f).1 = imap f (lines content).
Proof.
  intros Hf. unfold map_lines. cbn [fst].
  assert (Forall line_ok (imap f (lines content))) as Hok.
  { apply Forall_lookup. intros i l Hi. rewrite list_lookup_imap in Hi.
    destruct (lines content !! i) eqn:E; simplify_eq/=. by apply Hf in E as [? _]. }
  apply lines_of_ok; [done|]. destruct (split_char_end LF content) as (ls & r & E & _ & Hends).
  assert (lines content = ((λ p, default p (strip_suffix p [CR])) <$> ls) ++ (if bool_decide (r = []) then [] else [r])) as EL.
  { unfold lines. by rewrite E, lines_of_snoc. }
  destruct (ends_with content [LF]) eqn:He; [left|right].
  - split; [done|]. destruct Hends as [[-> Hne] _]; [done|]. rewrite EL. by destruct ls.
  - split; [done|]. destruct (decide (r = [])) as [->|Hr].
    + assert (ls = []) as -> by (destruct (decide (ls = [])); [done|]; exfalso; assert (false = true) by (by apply Hends); done). by rewrite EL.
    + assert (lines content !! length ls = Some r) as Hr'.
      { rewrite EL, bool_decide_eq_false_2 by done. rewrite lookup_app_r; rewrite length_fmap; [|done]. by rewrite Nat.sub_diag. }
      assert (length (lines content) = S (length ls)) as Hlen.
      { rewrite EL, bool_decide_eq_false_2, length_app, length_fmap by done. simpl. lia. }
      rewrite last_lookup, length_imap, Hlen. cbn [pred]. rewrite list_lookup_imap, Hr'. cbn. intros [= Hbad].
      apply Hf in Hr' as [_ Hr']. by apply Hr'.
Qed.

(** ** A limit object as the list of its entries *)
Definition entry_text (e : str * Z) : str := quoted e.1 ++ lit ": " ++ show_Z e.2.
Definition object_text (es : list (str * Z)) : str := lit "{ " ++ join (lit ", ") (entry_text <$> es) ++ lit " }".

Definition key_ok (k : str) : Prop := Forall (λ c, is_ascii_alphanumeric c = true) k.
Definition entry_ok (e : str * Z) : Prop := key_ok e.1 ∧ (0 ≤ e.2)%Z.

Fixpoint set_entry (k : str) (v : Z) (es : list (str * Z)) : list (str * Z) :=
  match es with
  | [] => []
  | e :: es' => if decide (e.1 = k) then (k, v) :: es' else e :: set_entry k v es'
  end.
Fixpoint drop_entry (k : str) (es : list (str * Z)) : list (str * Z) :=
  match es with
  | [] => []
  | e :: es' => if decide (e.1 = k) then es' else e :: drop_entry k es'
  end.
Fixpoint entry_after (anchor : str) (n : str * Z) (es : list (str * Z)) : list (str * Z) :=
  match es with
  | [] => []
  | e :: es' => if decide (e.1 = anchor) then e :: n :: es' else e :: entry_after anchor n es'
  end.

(** What an edit means: a key that is there is set in place or goes; a new one
    comes last, but [input] comes right after [context]. *)
Definition set_limit (k : str) (val : option Z) (es : list (str * Z)) : list (str * Z) :=
  match decide (k ∈ es.*1), val with
  | left _, Some v => set_entry k v es
  | left _, None => drop_entry k es
  | right _, None => es
  | right _, Some v =>
      if decide (k = lit "input" ∧ lit "context" ∈ es.*1) then entry_after (lit "context") (k, v) es else es ++ [(k, v)]
  end.

(** The text before and after an entry. *)
Definition head_text (es : list (str * Z)) : str := lit "{ " ++ (es ≫= λ e, entry_text e ++ lit ", ").
Definition tail_text (es : list (str * Z)) : str := (es ≫= λ e, lit ", " ++ entry_text e) ++ lit " }".

Lemma head_text_snoc es e : head_text (es ++ [e]) = head_text es ++ entry_text e ++ lit ", ".
Proof. unfold head_text. rewrite bind_app. cbn [mbind list_bind]. by rewrite app_nil_r, <- !app_assoc. Qed.

Lemma object_tail e es : object_text (e :: es) = lit "{ " ++ entry_text e ++ tail_text es.
Proof.
  unfold object_text, tail_text. f_equal. cbn [fmap list_fmap]. revert e. induction es as [|e' es IH]; intros e; [done|].
  cbn [fmap list_fmap mbind list_bind]. 
  change (join (lit ", ") (entry_text e :: entry_text e' :: (entry_text <$> es)))
    with (entry_text e ++ lit ", " ++ join (lit ", ") (entry_text e' :: (entry_text <$> es))).
  rewrite <- !app_assoc. do 2 f_equal. rewrite IH. by rewrite <- ?app_assoc.
Qed.

Lemma object_split es1 e es2 : object_text (es1 ++ e :: es2) = head_text es1 ++ entry_text e ++ tail_text es2.
Proof.
  destruct es1 as [|e1 es1]; [apply object_tail|]. cbn [app]. rewrite object_tail.
  unfold head_text. cbn [mbind list_bind]. rewrite <- !app_assoc. do 2 f_equal.
  induction es1 as [|e' es1 IH]; cbn [app mbind list_bind].
  - unfold tail_text. cbn [mbind list_bind]. by rewrite <- !app_assoc.
  - unfold tail_text in *. cbn [mbind list_bind]. rewrite <- !app_assoc, IH. by rewrite <- ?app_assoc.
Qed.

Lemma first_entry (k : str) (es : list (str * Z)) : k ∈ es.*1 → ∃ es1 v es2, es = es1 ++ (k, v) :: es2 ∧ k ∉ es1.*1.
Proof.
  induction es as [|[k' v'] es IH]; [by intros ?%elem_of_nil|]. cbn [fmap list_fmap fst]. intros [->|Hk]%elem_of_cons.
  - exists [], v', es. split; [done|]. apply not_elem_of_nil.
  - destruct (decide (k = k')) as [->|]; [exists [], v', es; split; [done|apply not_elem_of_nil]|].
    destruct (IH Hk) as (es1 & v & es2 & -> & Hno). exists ((k', v') :: es1), v, es2. split; [done|]. by apply not_elem_of_cons.
Qed.

Section FirstEntry.
Context (k : str) (es1 : list (str * Z)) (Hno : k ∉ es1.*1) (v0 : Z) (es2 : list (str * Z)).
Lemma set_entry_split v : set_entry k v (es1 ++ (k, v0) :: es2) = es1 ++ (k, v) :: es2.
Proof using Hno. induction es1 as [|e es IH]; simpl; [by rewrite decide_True|].
  apply not_elem_of_cons in Hno as [? ?]. rewrite decide_False by congruence. by rewrite IH. Qed.
Lemma drop_entry_split : drop_entry k (es1 ++ (k, v0) :: es2) = es1 ++ es2.
Proof using Hno. induction es1 as [|e es IH]; simpl; [by rewrite decide_True|].
  apply not_elem_of_cons in Hno as [? ?]. rewrite decide_False by congruence. by rewrite IH. Qed.
Lemma entry_after_split n : entry_after k n (es1 ++ (k, v0) :: es2) = es1 ++ (k, v0) :: n :: es2.
Proof using Hno. induction es1 as [|e es IH]; simpl; [by rewrite decide_True|].
  apply not_elem_of_cons in Hno as [? ?]. rewrite decide_False by congruence. by rewrite IH. Qed.
End FirstEntry.

(** ** Finding a key in the text *)
Lemma alnum_graphic c : is_ascii_alphanumeric c = true → graphic c = true ∧ c ≠ QUOT ∧ c ≠ ":"%char ∧ c ≠ ","%char.
Proof. destruct c as [[] [] [] [] [] [] [] []]; intros Hc; vm_compute in Hc; try discriminate Hc; by vm_compute. Qed.
Lemma digit_graphic c : is_ascii_digit c = true → graphic c = true ∧ is_ascii_alphanumeric c = true.
Proof. destruct c as [[] [] [] [] [] [] [] []]; intros Hc; vm_compute in Hc; try discriminate Hc; by vm_compute. Qed.

Lemma show_digits v : (0 ≤ v)%Z → Forall (λ c, is_ascii_digit c = true) (show_Z v).
Proof.
  intros Hv. assert (∀ n, is_ascii_digit (pretty_N_char n) = true) as Hd by (intros n; unfold pretty_N_char; by repeat case_match).
  unfold show_Z, pretty, pretty_Z. destruct v as [|p|p]; [by repeat constructor| |lia]. by apply (show_N_Forall _ (Npos p)).
Qed.
Lemma show_last v : (0 ≤ v)%Z → ∃ s d, show_Z v = s ++ [d] ∧ is_ascii_digit d = true.
Proof.
  intros Hv. pose proof (show_digits v Hv) as Hd. destruct (exists_last (l := show_Z v)) as (s & d & E).
  { unfold show_Z, pretty, pretty_Z. destruct v as [|p|p]; [done| |lia].
    change (lit (pretty (N.pos p)) ≠ []). unfold pretty, pretty_N. rewrite decide_False by done. rewrite pretty_N_go_step by lia. generalize (N.pos p / 10)%N. intros n E.
    assert (∀ x t, lit t ≠ [] → lit (pretty_N_go x t) ≠ []) as Hne; [|eapply Hne; [|exact E]; done].
    clear. intros x. induction (N.lt_wf_0 x) as [x _ IH]. intros t Ht.
    destruct (decide (x = 0)%N) as [->|Hx]; [by rewrite pretty_N_go_0|].
    rewrite pretty_N_go_step by lia. apply IH; [by apply N.div_lt; lia|done]. }
  exists s, d. split; [done|]. rewrite E in Hd. by apply Forall_app in Hd as [_ Hd%Forall_inv].
Qed.

Lemma no_quot s : Forall (λ c, is_ascii_alphanumeric c = true) s → QUOT ∉ s.
Proof. intros Hs Hin. by destruct (alnum_graphic _ (proj1 (Forall_forall _ _) Hs _ Hin)) as (_ & ? & _). Qed.
Lemma show_no_quot v : (0 ≤ v)%Z → QUOT ∉ show_Z v.
Proof. intros Hv. apply no_quot. eapply Forall_impl; [by apply show_digits|]. intros c Hc. by apply digit_graphic. Qed.

Lemma find_sub_skip pre s k : QUOT ∉ pre → find_sub (pre ++ s) (quoted k) = Nat.add (length pre) <$> find_sub s (quoted k).
Proof.
  induction pre as [|c pre IH]; intros Hpre; [by cbn [app length]; destruct (find_sub s (quoted k))|].
  apply not_elem_of_cons in Hpre as [Hc Hpre]. cbn [app find_sub].
  destruct (starts_with (c :: pre ++ s) (quoted k)) eqn:E; [apply starts_with_spec in E as [r [= -> _]]; done|].
  rewrite IH by done. by destruct (find_sub s _).
Qed.

Lemma find_sub_here k s : find_sub (quoted k ++ s) (quoted k) = Some 0.
Proof.
  assert (starts_with (quoted k ++ s) (quoted k) = true) as E by (apply starts_with_spec; by eexists).
  unfold quoted in *. cbn [app find_sub] in *. by rewrite E.
Qed.

Lemma quoted_prefix k k' r : QUOT ∉ k → QUOT ∉ k' → quoted k `prefix_of` quoted k' ++ r → k = k'.
Proof.
  intros Hk Hk' [t Ht]. unfold quoted in Ht. simpl in Ht. injection Ht as Ht. rewrite <- !app_assoc in Ht. revert k' Hk' Ht.
  induction k as [|c k IH]; intros [|c' k'] Hk' Ht; simplify_eq/=; [done|by apply not_elem_of_cons in Hk' as []| |].
  - by apply not_elem_of_cons in Hk as [].
  - f_equal. apply not_elem_of_cons in Hk as [_ Hk], Hk' as [_ Hk']. by apply IH.
Qed.

(** An entry of another key is passed over. *)
Lemma find_sub_entry k e s : key_ok k → entry_ok e → e.1 ≠ k →
  find_sub (entry_text e ++ s) (quoted k) = Nat.add (length (entry_text e)) <$> find_sub s (quoted k).
Proof.
  intros Hk [Hk' Hv] Hne. destruct e as [k' v]; cbn [fst snd] in *. unfold entry_text. cbn [fst snd].
  pose proof (no_quot _ Hk) as Hqk. pose proof (no_quot _ Hk') as Hqk'. pose proof (show_no_quot v Hv) as Hqv.
  assert (starts_with (quoted k' ++ (lit ": " ++ show_Z v) ++ s) (quoted k) = false) as E.
  { apply not_true_iff_false. intros Hp%starts_with_spec. by apply quoted_prefix in Hp. }
  rewrite <- app_assoc. unfold quoted at 1. cbn [app find_sub]. change (QUOT :: ?l ++ ?r) with ((QUOT :: l) ++ r).
  change ((QUOT :: k' ++ [QUOT]) ++ ?r) with (quoted k' ++ r). rewrite E.
  rewrite <- app_assoc, find_sub_skip by done. cbn [app find_sub].
  assert (starts_with (QUOT :: (lit ": " ++ show_Z v) ++ s) (quoted k) = false) as ->.
  { apply not_true_iff_false. intros [r Hr]%starts_with_spec. unfold quoted in Hr. simpl in Hr. destruct k as [|c k]; [done|].
    injection Hr as <- _. by apply Forall_cons in Hk as [? _]. }
  rewrite find_sub_skip.
  - destruct (find_sub s (quoted k)); [|done]. cbn. f_equal. rewrite !length_app. cbn [length]. lia.
  - apply not_elem_of_app. split; [by vm_decide|done].
Qed.

Lemma find_sub_head k es s : key_ok k → Forall entry_ok es → k ∉ es.*1 →
  find_sub (head_text es ++ s) (quoted k) = Nat.add (length (head_text es)) <$> find_sub s (quoted k).
Proof.
  intros Hk Hes Hno. unfold head_text. rewrite <- app_assoc, find_sub_skip by vm_decide.
  assert (find_sub ((es ≫= λ e, entry_text e ++ lit ", ") ++ s) (quoted k)
          = Nat.add (length (es ≫= λ e, entry_text e ++ lit ", ")) <$> find_sub s (quoted k)) as ->.
  { induction Hes as [|e es He Hes IH]; [by cbn; destruct (find_sub s (quoted k))|].
    apply not_elem_of_cons in Hno as [Hne Hno]. cbn [mbind list_bind]. rewrite <- !app_assoc.
    rewrite find_sub_entry, find_sub_skip, IH by (done || vm_decide || congruence).
    destruct (find_sub s (quoted k)); [|done]. cbn. f_equal. rewrite !length_app. cbn [length]. lia. }
  by destruct (find_sub s (quoted k)).
Qed.

Lemma ws_len_graphic c s : graphic c = true → ws_len (c :: s) = 0.
Proof.
  intros Hc. unfold ws_len, trim_start. destruct (chars_group_head c s) as (t & gs & E). rewrite E. cbn [drop_while].
  rewrite graphic_head_not_whitespace by done. rewrite <- E, concat_chars. lia.
Qed.
Lemma ws_len_space c s : graphic c = true → ws_len (" "%char :: c :: s) = 1.
Proof.
  intros Hc. unfold ws_len, trim_start. rewrite chars_cons_start by (by apply graphic_not_cont).
  destruct (chars_group_head c s) as (t & gs & E). rewrite E.
  change (drop_while is_whitespace ([" "%char] :: (c :: t) :: gs)) with (drop_while is_whitespace ((c :: t) :: gs)). cbn [drop_while].
  rewrite graphic_head_not_whitespace by done. rewrite <- E, concat_chars. cbn [length]. lia.
Qed.

Lemma drop_at {A} (p t s : list A) : t = p ++ s → drop (length p) t = s.
Proof. intros ->. by rewrite drop_app_length. Qed.
Lemma take_at {A} (p t s : list A) : t = p ++ s → take (length p) t = p.
Proof. intros ->. by rewrite take_app_length. Qed.

(** A key found in front of its colon is the key. *)
Lemma find_key_at pre k s : find_sub (pre ++ quoted k ++ lit ":" ++ s) (quoted k) = Some (length pre) →
  find_key (pre ++ quoted k ++ lit ":" ++ s) k = Some (length pre, length pre + length (quoted k) + 1).
Proof.
  intros Hf. unfold find_key. cbn [find_key_go]. rewrite drop_0, Hf. cbv zeta.
  assert (drop (0 + length pre + length (quoted k)) (pre ++ quoted k ++ lit ":" ++ s) = lit ":" ++ s) as ->.
  { rewrite app_assoc. change (0 + ?n) with n. by rewrite <- length_app, drop_app_length. }
  change (lit ":" ++ s) with (":"%char :: s). rewrite ws_len_graphic by done. rewrite drop_0. cbn [Nat.add].
  assert (starts_with (":"%char :: s) (lit ":") = true) as -> by (apply starts_with_spec; by exists s).
  do 2 f_equal. lia.
Qed.

Lemma find_key_none k s : find_sub s (quoted k) = None → find_key s k = None.
Proof. intros Hf. unfold find_key. cbn [find_key_go]. by rewrite drop_0, Hf. Qed.

Lemma entry_colon k v s : entry_text (k, v) ++ s = quoted k ++ lit ":" ++ " "%char :: show_Z v ++ s.
Proof. unfold entry_text. cbn [fst snd]. by rewrite <- !app_assoc. Qed.

Lemma find_key_entry k v es1 es2 : key_ok k → Forall entry_ok es1 → k ∉ es1.*1 →
  find_key (object_text (es1 ++ (k, v) :: es2)) k
  = Some (length (head_text es1), length (head_text es1) + length (quoted k) + 1).
Proof.
  intros Hk Hes Hno. rewrite object_split, entry_colon. apply find_key_at.
  rewrite find_sub_head by done. rewrite find_sub_here. cbn. by rewrite Nat.add_0_r.
Qed.

Lemma find_key_absent k es : key_ok k → Forall entry_ok es → k ∉ es.*1 → find_key (object_text es) k = None.
Proof.
  intros Hk Hes Hno. apply find_key_none. destruct es as [|e es _] using rev_ind.
  - change (object_text []) with (lit "{  }" ++ []). rewrite find_sub_skip by vm_decide. done.
  - apply Forall_app in Hes as [Hes He%Forall_inv]. rewrite fmap_app, not_elem_of_app in Hno. destruct Hno as [Hno Hne].
    rewrite object_split, find_sub_head by done. rewrite find_sub_entry; [|done..|].
    + change (tail_text []) with (lit " }" ++ []). by rewrite find_sub_skip by vm_decide.
    + intros E. apply Hne. rewrite <- E. by constructor.
Qed.

(** The number of an entry is where it is looked for. *)
Lemma number_span_entry pre k v c s : (0 ≤ v)%Z → is_ascii_digit c = false →
  number_span (pre ++ entry_text (k, v) ++ c :: s) (length pre + length (quoted k) + 1)
  = (length (pre ++ quoted k ++ lit ": "), length (pre ++ entry_text (k, v))).
Proof.
  intros Hv Hc. unfold number_span. rewrite entry_colon.
  assert (drop (length pre + length (quoted k) + 1) (pre ++ quoted k ++ lit ":" ++ " "%char :: show_Z v ++ c :: s)
          = " "%char :: show_Z v ++ c :: s) as ->.
  { replace (length pre + length (quoted k) + 1) with (length (pre ++ quoted k ++ lit ":")) by (rewrite !length_app; simpl (length (lit _)); lia).
    apply drop_at. by rewrite <- !app_assoc. }
  destruct (show_last v Hv) as (t & d & Et & Hd). pose proof (show_digits v Hv) as Hall.
  assert (ws_len (" "%char :: show_Z v ++ c :: s) = 1) as ->.
  { rewrite Et in *. destruct t as [|e t]; cbn [app] in *; apply ws_len_space; apply digit_graphic; [done|by inversion Hall]. }
  replace (length pre + length (quoted k) + 1 + 1) with (length (pre ++ quoted k ++ lit ": ")) by (rewrite !length_app; simpl (length (lit _)); lia).
  replace (pre ++ quoted k ++ lit ":" ++ " "%char :: show_Z v ++ c :: s) with ((pre ++ quoted k ++ lit ": ") ++ show_Z v ++ c :: s)
    by (by rewrite <- !app_assoc).
  rewrite drop_app_length. f_equal. unfold digits_len.
  assert (drop_while is_ascii_digit (show_Z v ++ c :: s) = c :: s) as ->.
  { clear Et. induction Hall as [|x l Hx Hl IH]; cbn [app drop_while]; [by rewrite Hc|]. by rewrite Hx. }
  unfold entry_text. cbn [fst snd]. rewrite !length_app. cbn [length]. lia.
Qed.

(** ** The edits *)
Lemma tail_text_head es : ∃ c s, tail_text es = c :: s ∧ is_ascii_digit c = false.
Proof. destruct es as [|e es]; [by exists " "%char, (lit "}")|]. eexists ","%char, _. split; [|done]. unfold tail_text. cbn. done. Qed.

(** An entry starts with its quote and ends with a digit. *)
Lemma entry_ends e : entry_ok e → ∃ s d, entry_text e = QUOT :: s ++ [d] ∧ graphic d = true.
Proof.
  intros [_ Hv]. destruct e as [k v]. destruct (show_last v Hv) as (t & d & E & Hd%digit_graphic).
  exists (k ++ QUOT :: lit ": " ++ t), d. split; [|tauto]. unfold entry_text, quoted. cbn [fst snd] in *. rewrite E.
  cbn [app]. by rewrite <- !app_assoc.
Qed.

(** What is between the braces of an object with entries. *)
Lemma object_body es : Forall entry_ok es → es ≠ [] →
  ∃ s d, object_text es = lit "{ " ++ (QUOT :: s ++ [d]) ++ lit " }" ∧ graphic d = true.
Proof.
  intros Hes Hne. destruct (exists_last Hne) as (es' & e & ->). apply Forall_app in Hes as [Hes' He%Forall_inv].
  destruct (entry_ends e He) as (s & d & E & Hd). rewrite object_split, E.
  destruct es' as [|e' es']; [by exists s, d|].
  apply Forall_cons in Hes' as [He' _]. destruct (entry_ends e' He') as (s' & d' & E' & _).
  eexists (s' ++ d' :: lit ", " ++ (es' ≫= λ e, entry_text e ++ lit ", ") ++ QUOT :: s), d. split; [|done].
  unfold head_text. cbn [mbind list_bind]. rewrite E'. change (tail_text []) with (lit " }").
  cbn [app]. rewrite <- !app_assoc. cbn [app]. by rewrite <- !app_assoc.
Qed.

Lemma trim_end_space s d : graphic d = true → trim_end ((s ++ [d]) ++ lit " ") = s ++ [d].
Proof.
  intros Hd. unfold trim_end. rewrite chars_app by done. change (chars (lit " ")) with [[" "%char]].
  rewrite reverse_app. cbn [reverse app]. change (reverse [[" "%char]]) with [[" "%char]]. cbn [app].
  change (drop_while is_whitespace ([" "%char] :: ?l)) with (drop_while is_whitespace l).
  rewrite chars_app by (by apply graphic_not_cont). change (chars [d]) with [[d]]. rewrite reverse_app.
  change (reverse [[d]]) with [[d]]. cbn [app drop_while]. rewrite graphic_head_not_whitespace by done.
  rewrite <- (reverse_involutive ([d] :: reverse (chars s))), reverse_cons, reverse_involutive, reverse_involutive.
  by rewrite concat_app, concat_chars.
Qed.

Lemma trim_spaced c s d : graphic c = true → graphic d = true →
  trim (" "%char :: (c :: s ++ [d]) ++ lit " ") = c :: s ++ [d].
Proof.
  intros Hc Hd. rewrite <- (trim_graphic c s d) at 2 by done. unfold trim.
  rewrite chars_cons_start by (by apply graphic_not_cont). rewrite (chars_app _ (lit " ")) by done.
  change (drop_while is_whitespace ([" "%char] :: ?l)) with (drop_while is_whitespace l).
  destruct (chars_group_head c (s ++ [d])) as (t & gs & E). rewrite E. cbn [app drop_while].
  rewrite graphic_head_not_whitespace by done. rewrite app_comm_cons, reverse_app. done.
Qed.

Lemma insert_entry_right es e : Forall entry_ok es → insert_entry (object_text es) (entry_text e) = object_text (es ++ [e]).
Proof.
  intros Hes. destruct (decide (es = [])) as [->|Hne].
  { unfold insert_entry. rewrite bool_decide_eq_true_2 by (by vm_compute). unfold object_text. cbn [app fmap list_fmap join]. done. }
  destruct (object_body es Hes Hne) as (s & d & E & Hd). unfold insert_entry. rewrite E.
  set (body := QUOT :: s ++ [d]).
  assert (length (lit "{ " ++ body ++ lit " }") - 1 = length ((lit "{ " ++ body) ++ lit " ")) as ->.
  { rewrite !length_app. simpl (length (lit _)). lia. }
  assert (slice (lit "{ " ++ body ++ lit " }") 1 (length ((lit "{ " ++ body) ++ lit " ")) = " "%char :: body ++ lit " ") as ->.
  { unfold slice. change (drop 1 (lit "{ " ++ body ++ lit " }")) with (" "%char :: body ++ lit " }").
    replace (length ((lit "{ " ++ body) ++ lit " ") - 1) with (length (" "%char :: body ++ lit " ")).
    - apply (take_at _ _ (lit "}")). cbn [app]. by rewrite <- app_assoc.
    - cbn [length]. rewrite !length_app. simpl (length (lit _)). lia. }
  assert (trim (" "%char :: body ++ lit " ") = body) as -> by (by apply trim_spaced).
  rewrite bool_decide_eq_false_2 by done.
  assert (take (length ((lit "{ " ++ body) ++ lit " ")) (lit "{ " ++ body ++ lit " }") = (lit "{ " ++ body) ++ lit " ") as ->
    by (apply (take_at _ _ (lit "}")); by rewrite <- !app_assoc).
  assert (trim_end ((lit "{ " ++ body) ++ lit " ") = lit "{ " ++ body) as ->.
  { unfold body. rewrite app_comm_cons, app_assoc. by apply trim_end_space. }
  rewrite (take_at (lit "{ " ++ body) _ (lit " }")), (drop_at (lit "{ " ++ body) _ (lit " }")) by (by rewrite <- app_assoc).
  destruct (exists_last Hne) as (es' & e' & ->). rewrite object_split in E.
  assert (lit "{ " ++ body = head_text es' ++ entry_text e') as ->.
  { change (tail_text []) with (lit " }") in E. rewrite app_assoc in E. symmetry. rewrite app_assoc in E. by apply app_inv_tail in E. }
  rewrite object_split, head_text_snoc. change (tail_text []) with (lit " }"). by rewrite <- !app_assoc.
Qed.

Lemma rfind_last c a b : c ∉ b → rfind c (a ++ c :: b) = Some (length a).
Proof.
  intros Hb. assert (∀ s, c ∉ s → rfind c s = None) as Hnone.
  { induction s as [|d s IH]; [done|]. intros [Hd Hs]%not_elem_of_cons. simpl. rewrite IH by done. by rewrite decide_False by congruence. }
  induction a as [|d a IH]; simpl; [by rewrite Hnone, decide_True by done|]. by rewrite IH.
Qed.

Lemma remove_entry_right es1 k v es2 : (0 ≤ v)%Z →
  remove_entry (object_text (es1 ++ (k, v) :: es2)) (length (head_text es1)) (length (head_text es1 ++ entry_text (k, v)))
  = object_text (es1 ++ es2).
Proof.
  intros Hv. rewrite object_split. unfold remove_entry.
  rewrite (take_at (head_text es1) _ (entry_text (k, v) ++ tail_text es2)) by done.
  rewrite (drop_at (head_text es1 ++ entry_text (k, v)) _ (tail_text es2)) by (by rewrite app_assoc).
  destruct es1 as [|e1 es1 _] using rev_ind.
  - change (rfind "," (head_text [])) with (@None nat). cbv iota. destruct es2 as [|e2 es2]; [done|].
    assert (tail_text (e2 :: es2) = ","%char :: " "%char :: entry_text e2 ++ tail_text es2) as ->.
    { unfold tail_text. cbn [mbind list_bind]. by rewrite <- !app_assoc. }
    rewrite ws_len_graphic by done. rewrite drop_0. cbn [drop Nat.add].
    assert (∀ s, starts_with (","%char :: s) (lit ",") = true) as -> by (intros s; apply starts_with_spec; by exists s).
    assert (∃ s, entry_text e2 ++ tail_text es2 = QUOT :: s) as [s Es] by (by eexists).
    rewrite Es, ws_len_space by done. cbn [drop app]. rewrite object_tail, Es. done.
  - rewrite head_text_snoc. 
    assert (head_text es1 ++ entry_text e1 ++ lit ", " = (head_text es1 ++ entry_text e1) ++ ","%char :: lit " ") as ->
      by (by rewrite <- app_assoc).
    rewrite rfind_last by vm_decide.
    assert (slice (((head_text es1 ++ entry_text e1) ++ ","%char :: lit " ") ++ entry_text (k, v) ++ tail_text es2)
              (length (head_text es1 ++ entry_text e1) + 1) (length ((head_text es1 ++ entry_text e1) ++ ","%char :: lit " ")) = lit " ") as ->.
    { unfold slice. rewrite (length_app _ (","%char :: lit " ")). cbn [length].
      replace (length (head_text es1 ++ entry_text e1) + 1) with (length ((head_text es1 ++ entry_text e1) ++ [","%char])) by (rewrite length_app; cbn [length]; lia).
      rewrite (drop_at _ _ (lit " " ++ entry_text (k, v) ++ tail_text es2)) by (by rewrite <- !app_assoc).
      rewrite (length_app _ [","%char]). cbn [length].
      replace (_ + _ - _) with (length (lit " ")) by (simpl (length (lit _)); lia). by rewrite take_app_length. }
    rewrite bool_decide_eq_true_2 by (by vm_compute).
    rewrite (take_at (head_text es1 ++ entry_text e1) _ (lit ", " ++ entry_text (k, v) ++ tail_text es2)) by (by rewrite <- !app_assoc).
    rewrite <- (app_assoc es1). cbn [app]. by rewrite object_split, <- app_assoc.
Qed.

(** Setting or removing a number in the text of an object is setting or
    removing it in the list of its entries. *)
Lemma set_number_right k val es : key_ok k → Forall entry_ok es → (∀ v, val = Some v → (0 ≤ v)%Z) →
  set_number_in_object (object_text es) k val = object_text (set_limit k val es).
Proof.
  intros Hk Hes Hval. unfold set_number_in_object, set_limit. destruct (decide (k ∈ es.*1)) as [Hin|Hno].
  - destruct (first_entry k es Hin) as (es1 & v0 & es2 & -> & Hno). apply Forall_app in Hes as [Hes1 Hes2].
    apply Forall_cons in Hes2 as [[_ Hv0] Hes2]. cbn [fst snd] in Hv0.
    rewrite find_key_entry by done. destruct (tail_text_head es2) as (c & s & Ec & Hc).
    assert (number_span (object_text (es1 ++ (k, v0) :: es2)) (length (head_text es1) + length (quoted k) + 1)
            = (length (head_text es1 ++ quoted k ++ lit ": "), length (head_text es1 ++ entry_text (k, v0)))) as E.
    { rewrite object_split, Ec. by apply number_span_entry. }
    destruct val as [v|]; rewrite E; cbv iota beta.
    + rewrite set_entry_split by done. rewrite !object_split.
      rewrite (take_at _ _ (show_Z v0 ++ tail_text es2)) by (unfold entry_text; cbn [fst snd]; by rewrite <- !app_assoc).
      rewrite (drop_at (head_text es1 ++ entry_text (k, v0)) _ (tail_text es2)) by (by rewrite <- app_assoc).
      unfold entry_text. cbn [fst snd]. by rewrite <- !app_assoc.
    + rewrite drop_entry_split by done. by apply remove_entry_right.
  - rewrite find_key_absent by done. destruct val as [v|]; [|done].
    assert (insert_entry (object_text es) (quoted k ++ lit ": " ++ show_Z v) = object_text (es ++ [(k, v)])) as Hlast
      by (by apply (insert_entry_right es (k, v))).
    destruct (decide (k = lit "input")) as [->|Hne].
    + rewrite bool_decide_eq_true_2 by done. destruct (decide (lit "context" ∈ es.*1)) as [Hin|Hctx].
      * rewrite decide_True by done. destruct (first_entry _ es Hin) as (es1 & v0 & es2 & -> & Hno1).
        apply Forall_app in Hes as [Hes1 Hes2]. apply Forall_cons in Hes2 as [[Hck Hv0] Hes2]. cbn [fst snd] in *.
        rewrite find_key_entry by done. rewrite entry_after_split by done. destruct (tail_text_head es2) as (c & s & Ec & Hc).
        rewrite object_split, Ec, number_span_entry by done. rewrite <- Ec.
        rewrite (take_at (head_text es1 ++ entry_text (lit "context", v0)) _ (tail_text es2)) by (by rewrite <- app_assoc).
        rewrite (drop_at (head_text es1 ++ entry_text (lit "context", v0)) _ (tail_text es2)) by (by rewrite <- app_assoc).
        rewrite object_split. unfold tail_text at 2. cbn [mbind list_bind]. unfold entry_text at 3. cbn [fst snd].
        unfold tail_text. by rewrite <- !app_assoc.
      * rewrite decide_False by tauto. by rewrite find_key_absent by (done || by repeat constructor).
    + rewrite bool_decide_eq_false_2 by done. by rewrite decide_False by tauto.
Qed.

Section Braces.
#[local] Abbreviation closes := (match_close "{"%char "}"%char).

Lemma closes_plain d i s t : Forall (λ c, c ≠ QUOT ∧ c ≠ "{"%char ∧ c ≠ "}"%char) s →
  closes d false false i (s ++ t) = closes d false false (i + length s) t.
Proof.
  intros Hs. revert i. induction Hs as [|c s (H1 & H2 & H3) Hs IH]; intros i; [by rewrite Nat.add_0_r|].
  cbn [app match_close]. rewrite !decide_False by done. rewrite IH. f_equal. cbn [length]. lia.
Qed.

Lemma closes_quoted d i k t : key_ok k → closes d false false i (quoted k ++ t) = closes d false false (i + length (quoted k)) t.
Proof.
  intros Hk. unfold quoted. cbn [app match_close]. rewrite decide_True by done.
  rewrite <- app_assoc. cbn [length]. rewrite Nat.add_succ_r, <- Nat.add_succ_l. generalize (S i). intros i'.
  revert i'. induction Hk as [|c k Hc Hk IH]; intros i'.
  - cbn [app match_close]. rewrite decide_False by done. rewrite bool_decide_eq_true_2 by done. cbn. by rewrite Nat.add_1_r.
  - destruct (alnum_graphic c Hc) as (_ & Hq & _). assert (c ≠ BSLASH) by (by intros ->).
    cbn [app match_close]. rewrite decide_False, bool_decide_eq_false_2 by done. cbn [negb].
    rewrite IH. f_equal. cbn [length]. lia.
Qed.

Lemma digits_plain v : (0 ≤ v)%Z → Forall (λ c, c ≠ QUOT ∧ c ≠ "{"%char ∧ c ≠ "}"%char) (show_Z v).
Proof. intros Hv. eapply Forall_impl; [by apply show_digits|]. intros c Hc. split_and!; by intros ->. Qed.

Lemma closes_entry d i e t : entry_ok e → closes d false false i (entry_text e ++ t) = closes d false false (i + length (entry_text e)) t.
Proof.
  intros [Hk Hv]. destruct e as [k v]. cbn [fst snd] in *. unfold entry_text. cbn [fst snd].
  rewrite <- !app_assoc, closes_quoted, app_assoc, closes_plain; [..|done].
  - f_equal. rewrite !length_app. lia.
  - apply Forall_app. split; [by repeat constructor|by apply digits_plain].
Qed.

Lemma closes_object es t : Forall entry_ok es →
  closes 0 false false 0 (object_text es ++ t) = Some (length (object_text es) - 1).
Proof.
  intros Hes. assert (∀ d i t, closes d false false i (join (lit ", ") (entry_text <$> es) ++ t)
      = closes d false false (i + length (join (lit ", ") (entry_text <$> es))) t) as Hj.
  { clear t. induction Hes as [|e es He Hes IH]; intros d i t; [by rewrite Nat.add_0_r|].
    destruct es as [|e' es]; [by apply closes_entry|].
    change (join (lit ", ") (entry_text <$> e :: e' :: es)) with (entry_text e ++ lit ", " ++ join (lit ", ") (entry_text <$> e' :: es)).
    rewrite <- !app_assoc, closes_entry, closes_plain, IH by (done || by repeat constructor). f_equal. rewrite !length_app. lia. }
  unfold object_text. rewrite <- !app_assoc.
  change (closes 0 false false 0 (lit "{ " ++ ?r)) with (closes 1 false false 2 r). rewrite Hj.
  change (closes 1 false false ?i (lit " }" ++ t)) with (Some (S i)).
  rewrite !length_app. change (length (lit "{ ")) with 2. change (length (lit " }")) with 2. f_equal. lia.
Qed.
End Braces.

(** C33: On a line whose limit object is laid out as the config and the tool write
    it, [{ "key": n, "key": n }] with alphanumeric keys and whole numbers from
    zero on, an edit of a limit is the edit of the list of its entries: the named
    key is set in place, added (an input limit right after the context) or
    removed with its comma, and the rest of the line is untouched.  Other
    layouts and values (a null, a fraction) are not meant. *)
Theorem edit_limit_right pre es post k val :
  let line es := pre ++ quoted (lit "limit") ++ lit ": " ++ object_text es ++ post in
  find_sub (line es) (quoted (lit "limit")) = Some (length pre) →
  key_ok k → Forall entry_ok es → (∀ v, val = Some v → (0 ≤ v)%Z) →
  edit_limit_on_line (line es) k val = line (set_limit k val es).
Proof.
  intros line Hpre Hk Hes Hval. unfold edit_limit_on_line, object_after_key, line in *.
  change (lit ": " ++ ?r) with (lit ":" ++ " "%char :: r) in *.
  rewrite find_key_at by done. cbn [mbind option_bind]. unfold bracket_span.
  assert (∀ x, pre ++ quoted (lit "limit") ++ lit ":" ++ " "%char :: x = (pre ++ quoted (lit "limit") ++ lit ":") ++ " "%char :: x) as Eline
    by (intros x; by rewrite <- !app_assoc).
  replace (length pre + length (quoted (lit "limit")) + 1) with (length (pre ++ quoted (lit "limit") ++ lit ":"))
    by (rewrite !length_app; simpl (length (lit ":")); lia).
  rewrite !Eline. set (p := pre ++ quoted (lit "limit") ++ lit ":"). rewrite drop_app_length.
  assert (∃ b, object_text es = "{"%char :: b) as [b Eb] by (by eexists).
  rewrite Eb. cbn [app]. rewrite ws_len_space by done.
  replace (length p + 1) with (length (p ++ [" "%char])) by (rewrite length_app; done).
  rewrite (drop_at (p ++ [" "%char]) _ ("{"%char :: b ++ post)) by (by rewrite <- app_assoc).
  assert (∀ s, starts_with ("{"%char :: s) ["{"%char] = true) as -> by (intros s; apply starts_with_spec; by exists s).
  rewrite app_comm_cons, <- Eb, closes_object by done. cbn [fmap option_fmap option_map].
  assert (∃ n, length (object_text es) = S n) as [n Hn] by (rewrite Eb; by eexists). rewrite Hn. cbn [Nat.sub].
  unfold splice, span_text, slice. cbn [fst snd]. rewrite Nat.sub_0_r.
  replace (length (p ++ [" "%char]) + n + 1) with (length ((p ++ [" "%char]) ++ object_text es)) by (rewrite !length_app, Hn; lia).
  replace (length ((p ++ [" "%char]) ++ object_text es) - length (p ++ [" "%char])) with (length (object_text es)) by (rewrite length_app; lia).
  rewrite (drop_at (p ++ [" "%char]) _ (object_text es ++ post)) by (by rewrite <- app_assoc). rewrite take_app_length.
  rewrite (take_at (p ++ [" "%char]) _ (object_text es ++ post)) by (by rewrite <- app_assoc).
  rewrite (drop_at _ _ post) by (by rewrite <- !app_assoc).
  rewrite set_number_right by done. by rewrite <- !app_assoc.
Qed.
