(* ===== verification/Switcher.v ===== *)
(** * The model switcher (opencode/helpers/model-switcher/src/config.rs, main.rs)

    The commands as programs over files and the terminal: what is read, what is
    written and when.  A screen is its event loop over the events typed at it;
    what it draws is in [SwitcherDraw], and how it takes the terminal in
    [Terminals]. *)
From S2P Require Import Prelude Numbers Prog Json Utf8 Framing Sse Jsonc JsoncFacts.

Definition OPENCODE_CONFIG_PATH : str := lit "container_data/config/opencode/opencode.jsonc".
Definition AGENTS_DIR : str := lit "container_data/config/opencode/agents".
Definition PRIMARY_AGENT : str := lit "local-mind".

Inductive EditError :=
  | ReadFailed (path : str)
  | ParseFailed (path : str)
  | WouldNotParse (path : str)     (** the write is refused *)
  | WriteFailed (path : str)
  | NoProviders (path : str)
  | NoDefaultModel (path : str)
  | NoModelLine (path : str)
  | BadModelLine (path : str)
  | NoFrontmatterModel (path : str)
  | NoModels
  | TerminalFailed
  | NoLayout
  | Usage.                         (** told on stderr, exit code 1 *)

Inductive Key :=
  | Up | Down | Enter | Esc | Backspace
  | Char (c : str) (ctrl : bool)
  | OtherEvent.

Inductive Screen := SelectScreen | ConfirmScreen.

(** A directory entry is its name; names are UTF-8. *)
Inductive Ed : Type → Type :=
  | ReadFile (path : str) : Ed (option str)
  | WriteFile (path content : str) : Ed bool
  | ReadDir (dir : str) : Ed (option (list (option str)))
  | Exists (path : str) : Ed bool
  | Typed (s : Screen) : Ed (list Key).    (** what the terminal delivers to one screen *)

(** ** [?] in a program *)
Abbreviation tried A := (prog Ed (result EditError A)).
Definition or_fail {A} (e : EditError) (o : option A) : tried A := Ret match o with Some a => Ok a | None => Err e end.

Section Switcher.
Context `{Serde} (to_lowercase : str → str).

(** * config.rs *)
Definition parse_jsonc (src : str) : option Value := from_str (strip_jsonc src).

Definition read (path : str) : tried str := trigger (ReadFile path) ≫= or_fail (ReadFailed path).

Definition read_config (path : str) : tried Value :=
  content ←? read path; or_fail (ParseFailed path) (parse_jsonc content).

Definition write_file (path content : str) : tried unit :=
  ok ← trigger (WriteFile path content); Ret (if ok : bool then Ok () else Err (WriteFailed path)).

Definition write_jsonc_checked (path content : str) : tried unit :=
  match parse_jsonc content with
  | None => Ret (Err (WouldNotParse path))
  | Some _ => write_file path content
  end.

Definition providers (cfg : Value) : option (list (str * Value)) :=
  match get cfg (lit "providers") with Some v => Some v | None => get cfg (lit "provider") end ≫= as_object.

Record ModelInfo := mkModelInfo {
  id : str; context : option Z; input : option Z; output : option Z; image : bool
}.

Definition model_info (pid mid : str) (m : Value) : ModelInfo :=
  let limit k := get m (lit "limit") ≫= λ l, get l (lit k) ≫= as_u64 in
  let inputs :=
    match get m (lit "capabilities") with Some c => Some c | None => get m (lit "modalities") end
    ≫= λ c, get c (lit "input") ≫= as_array in
  mkModelInfo (pid ++ lit "/" ++ mid) (limit "context"%string) (limit "input"%string) (limit "output"%string)
    match inputs with Some a => existsb (λ v, bool_decide (as_str v = Some IMAGE)) a | None => false end.

Definition model_infos (providers : list (str * Value)) : list ModelInfo :=
  providers ≫= λ '(pid, p),
    match get p (lit "models") ≫= as_object with
    | None => []
    | Some models => (λ '(mid, m), model_info pid mid m) <$> models
    end.

Definition read_model_info (path : str) : tried (list ModelInfo) :=
  cfg ←? read_config path;
  ps ←? or_fail (NoProviders path) (providers cfg);
  Ret (Ok (model_infos ps)).

Definition read_models (path : str) : tried (list str) :=
  infos ←? read_model_info path; Ret (Ok (id <$> infos)).

Definition get_default_model (path : str) : tried str :=
  cfg ←? read_config path; or_fail (NoDefaultModel path) (get cfg (lit "model") ≫= as_str).

(** The first line at depth 1 that starts with the key. *)
Definition default_model_line (content : str) : option nat :=
  fst <$> list_find (λ '(d, l), d = 1 ∧ starts_with (trim_start l) (quoted (lit "model")) = true)
            (zip (line_start_depths content) (lines content)).

Definition update_default_model (path model : str) : tried unit :=
  content ←? read path;
  idx ←? or_fail (NoModelLine path) (default_model_line content);
  let edit i l := if decide (i = idx) then default l (replace_string_value l (lit "model") model) else l in
  let failed :=
    match lines content !! idx with
    | Some l => bool_decide (replace_string_value l (lit "model") model = None)
    | None => false
    end in
  if failed then Ret (Err (BadModelLine path)) else write_jsonc_checked path (map_lines content edit).1.

Definition limits_on_line (context input : option Z) (l : str) : str :=
  edit_limit_on_line match context with Some c => edit_limit_on_line l (lit "context") (Some c) | None => l end
    (lit "input") input.

Definition update_limits (path : str) (context input : option Z) : tried nat :=
  content ←? read path;
  let '(new_content, changes) := map_lines content (λ _, limits_on_line context input) in
  write_jsonc_checked path new_content ;;? Ret (Ok changes).

Definition update_image (path : str) (enable : bool) : tried nat :=
  content ←? read path;
  let '(new_content, changes) := map_lines content (λ _ l, set_image_on_line l enable) in
  write_jsonc_checked path new_content ;;? Ret (Ok changes).

(** ** Agents *)
Record Agent := mkAgent { name : str; path : str }.

Definition is_fence (l : str) : bool := bool_decide (trim_end l = lit "---").

Definition frontmatter_end (ls : list str) : option nat :=
  match ls with
  | l :: rest => if is_fence l then (λ p, p.1 + 1) <$> list_find (λ l, is_fence l = true) rest else None
  | [] => None
  end.

Definition MODEL_KEY : str := lit "model:".

Definition model_line_index (ls : list str) : option nat :=
  end_ ← frontmatter_end ls;
  (λ p, p.1 + 1) <$> list_find (λ l, starts_with l MODEL_KEY = true) (slice ls 1 end_).

Definition model_value (l : str) : str :=
  trim_matches (ascii_of_nat 39) (trim_matches QUOT (trim (drop (length MODEL_KEY) l))).

Definition get_current_model (path : str) : tried str :=
  content ←? read path;
  idx ←? or_fail (NoFrontmatterModel path) (model_line_index (lines content));
  Ret (Ok (model_value (lines content !!! idx))).

Definition update_agent_model (path model : str) : tried unit :=
  content ←? read path;
  idx ←? or_fail (NoFrontmatterModel path) (model_line_index (lines content));
  write_file path (map_lines content (λ i l, if decide (i = idx) then lit "model: " ++ model else l)).1.

(** The file name up to and from its last dot, when something is before it. *)
Definition split_extension (file_name : str) : str * option str :=
  match rfind "."%char file_name with
  | Some (S i) => (take (S i) file_name, Some (drop (S (S i)) file_name))
  | _ => (file_name, None)
  end.
Definition is_md (file_name : str) : bool := bool_decide ((split_extension file_name).2 = Some (lit "md")).
Definition join_path (dir file_name : str) : str := dir ++ lit "/" ++ file_name.

(** [entry?] in the loop: a failing entry ends it. *)
Fixpoint pinned_agents (dir : str) (entries : list (option str)) : tried (list Agent) :=
  match entries with
  | [] => Ret (Ok [])
  | None :: _ => Ret (Err (ReadFailed dir))
  | Some n :: entries' =>
      if is_md n then
        let p := join_path dir n in
        r ← get_current_model p;
        rest ←? pinned_agents dir entries';
        Ret (Ok (if is_ok r then mkAgent (split_extension n).1 p :: rest else rest))
      else pinned_agents dir entries'
  end.

(** [(name != PRIMARY_AGENT, name)], compared. *)
Definition agent_le (a b : Agent) : Prop :=
  if decide (name a = PRIMARY_AGENT) then True
  else if decide (name b = PRIMARY_AGENT) then False
  else str_le (name a) (name b).
#[export] Instance agent_le_dec : RelDecision agent_le.
Proof. intros a b. unfold agent_le. repeat case_decide; apply _. Defined.

Definition discover_agents (dir : str) : tried (list Agent) :=
  entries ←? (trigger (ReadDir dir) ≫= or_fail (ReadFailed dir));
  agents ←? pinned_agents dir entries;
  Ret (Ok (merge_sort agent_le agents)).

Fixpoint unpinned_go (dir : str) (entries : list (option str)) : tried (list str) :=
  match entries with
  | [] => Ret (Ok [])
  | None :: _ => Ret (Err (ReadFailed dir))
  | Some n :: entries' =>
      if is_md n then
        r ← get_current_model (join_path dir n);
        rest ←? unpinned_go dir entries';
        Ret (Ok (if is_ok r then rest else (split_extension n).1 :: rest))
      else unpinned_go dir entries'
  end.
Definition unpinned_agents (dir : str) : tried (list str) :=
  entries ←? (trigger (ReadDir dir) ≫= or_fail (ReadFailed dir));
  names ←? unpinned_go dir entries;
  Ret (Ok (merge_sort str_le names)).

Definition check_layout : tried unit :=
  c ← trigger (Exists OPENCODE_CONFIG_PATH);
  if negb c then Ret (Err NoLayout)
  else a ← trigger (Exists AGENTS_DIR); Ret (if a : bool then Ok () else Err NoLayout).

(** * main.rs *)

(** ** A screen *)
Record Selector := mkSelector { filter_text : str; selected : nat; initialized : bool }.

Definition shown (models : list str) (filter_text : str) : list str :=
  filter (λ m, filter_text = [] ∨ contains_sub (to_lowercase m) (to_lowercase filter_text) = true) models.

(** The top of the loop: the list, the clamp, the current model once. *)
Definition settle (models : list str) (current : str) (st : Selector) : list str * Selector :=
  let filtered := shown models (filter_text st) in
  let selected := if length filtered <=? selected st then length filtered - 1 else selected st in
  (filtered,
   if negb (initialized st) && bool_decide (filter_text st = []) then
     mkSelector (filter_text st) (default selected (fst <$> list_find (λ m, m = current) filtered)) true
   else mkSelector (filter_text st) selected (initialized st)).

(** [inl] is what the screen returns. *)
Definition on_key (filtered : list str) (st : Selector) (key : Key) : option str + Selector :=
  let '(mkSelector f sel i) := st in
  match key with
  | Up => inr (mkSelector f (sel - 1) i)
  | Down => inr (mkSelector f (if sel + 1 <? length filtered then sel + 1 else sel) i)
  | Enter => match filtered !! sel with Some m => inl (Some m) | None => inr st end
  | Esc => inl None
  | Char c ctrl =>
      if bool_decide (c = lit "c") && ctrl then inl None else inr (mkSelector (f ++ c) 0 true)
  | Backspace => inr (mkSelector (pop_char f) 0 i)
  | OtherEvent => inr st
  end.

(** When nothing more can be read the screen fails. *)
Fixpoint selector_loop (models : list str) (current : str) (st : Selector) (keys : list Key)
    : result EditError (option str) :=
  let '(filtered, st) := settle models current st in
  match keys with
  | [] => Err TerminalFailed
  | key :: keys' =>
      match on_key filtered st key with
      | inl r => Ok r
      | inr st' => selector_loop models current st' keys'
      end
  end.
Definition run_selector (models : list str) (current : str) (keys : list Key) : result EditError (option str) :=
  selector_loop models current (mkSelector [] 0 false) keys.

(** Two more screens are the same loop over another drawing. *)
Definition run_default_selector (models : list str) (current : str) (keys : list Key) : result EditError (option str) :=
  run_selector models current keys.
Definition run_all_selector (models : list str) (current_default : str) (keys : list Key) : result EditError (option str) :=
  run_selector models current_default keys.

Definition select_model (models : list str) (current : str) : tried (option str) :=
  keys ← trigger (Typed SelectScreen); Ret (run_selector models current keys).
Definition select_default_model (models : list str) (current : str) : tried (option str) :=
  keys ← trigger (Typed SelectScreen); Ret (run_default_selector models current keys).
Definition select_all_model (models : list str) (current_default : str) : tried (option str) :=
  keys ← trigger (Typed SelectScreen); Ret (run_all_selector models current_default keys).

Fixpoint run_confirm (keys : list Key) : result EditError bool :=
  match keys with
  | [] => Err TerminalFailed
  | key :: keys' =>
      match key with
      | Enter => Ok true
      | Esc => Ok false
      | Char c ctrl =>
          if bool_decide (c = lit "y") || bool_decide (c = lit "Y") then Ok true
          else if bool_decide (c = lit "n") || bool_decide (c = lit "N") then Ok false
          else if bool_decide (c = lit "c") && ctrl then Ok false
          else run_confirm keys'
      | _ => run_confirm keys'
      end
  end.
Definition confirm_changes : tried bool := keys ← trigger (Typed ConfirmScreen); Ret (run_confirm keys).

(** ** Commands *)
Definition load_models : tried (list str) :=
  models ←? read_models OPENCODE_CONFIG_PATH;
  Ret (if decide (models = []) then Err NoModels else Ok models).

Definition unknown_or (r : result EditError str) : str := match r with Ok m => m | Err _ => lit "unknown" end.

(** [(path, current, selected)] of each agent; [None] when a screen is left. *)
Fixpoint select_agents (models : list str) (agents : list Agent) : tried (option (list (str * str * str))) :=
  match agents with
  | [] => Ret (Ok (Some []))
  | a :: agents' =>
      current ← get_current_model (path a);
      let current := unknown_or current in
      selected ←? select_model models current;
      match selected with
      | None => Ret (Ok None)
      | Some selected =>
          rest ←? select_agents models agents';
          Ret (Ok (cons (path a, current, selected) <$> rest))
      end
  end.

Fixpoint write_agents (selections : list (str * str * str)) : tried nat :=
  match selections with
  | [] => Ret (Ok 0)
  | (path, current, selected) :: rest =>
      if decide (selected = current) then write_agents rest
      else
        update_agent_model path selected ;;?
        n ←? write_agents rest; Ret (Ok (S n))
  end.

Definition run_agent_mode : tried unit :=
  models ←? load_models;
  agents ←? discover_agents AGENTS_DIR;
  current_default ← get_default_model OPENCODE_CONFIG_PATH;
  let current_default := unknown_or current_default in
  selected ←? select_default_model models current_default;
  match selected with
  | None => Ret (Ok ())
  | Some new =>
      selections ←? select_agents models agents;
      match selections with
      | None => Ret (Ok ())
      | Some selections =>
          yes ←? confirm_changes;
          if yes : bool then
            (if decide (current_default = new) then Ret (Ok ()) else update_default_model OPENCODE_CONFIG_PATH new) ;;?
            write_agents selections ;;?
            Ret (Ok ())
          else Ret (Ok ())
      end
  end.

Fixpoint set_agents (selected : str) (agents : list Agent) : tried unit :=
  match agents with
  | [] => Ret (Ok ())
  | a :: agents' =>
      current ← get_current_model (path a);
      (if decide (unknown_or current = selected) then Ret (Ok ()) else update_agent_model (path a) selected) ;;?
      set_agents selected agents'
  end.

Definition run_all_mode : tried unit :=
  models ←? load_models;
  agents ←? discover_agents AGENTS_DIR;
  current_default ← get_default_model OPENCODE_CONFIG_PATH;
  let current_default := unknown_or current_default in
  (match agents with a :: _ => _ ← get_current_model (path a); Ret (Ok ()) | [] => Ret (Ok ()) end) ;;?
  selected ←? select_all_model models current_default;
  match selected with
  | None => Ret (Ok ())
  | Some selected =>
      (if decide (current_default = selected) then Ret (Ok ()) else update_default_model OPENCODE_CONFIG_PATH selected) ;;?
      set_agents selected agents
  end.

(** The models told on stderr as not updated. *)
Definition unapplied_image (enable : bool) (infos : list ModelInfo) : list str :=
  id <$> filter (λ m, image m ≠ enable) infos.

(** The share of the window the input may fill, rounded; release arithmetic. *)
Definition percent (m : ModelInfo) : option Z :=
  match input m, context m with
  | Some i, Some c => if (0 <? c)%Z then Some (((i * 100) mod u64_modulus + c / 2) mod u64_modulus / c)%Z else None
  | _, _ => None
  end.

(** What [status] tells. *)
Record Status := mkStatus {
  system_default : str; agent_models : list (str * str); inheriting : list str; models : list (ModelInfo * option Z)
}.

Fixpoint agent_rows (agents : list Agent) : tried (list (str * str)) :=
  match agents with
  | [] => Ret (Ok [])
  | a :: agents' =>
      model ←? get_current_model (path a);
      rest ←? agent_rows agents'; Ret (Ok ((name a, model) :: rest))
  end.

Definition run_status : tried Status :=
  d ←? get_default_model OPENCODE_CONFIG_PATH;
  agents ←? discover_agents AGENTS_DIR;
  rows ←? agent_rows agents;
  names ←? unpinned_agents AGENTS_DIR;
  infos ←? read_model_info OPENCODE_CONFIG_PATH;
  Ret (Ok (mkStatus d rows names ((λ m, (m, percent m)) <$> infos))).

Definition run_image (sub : str) : tried (list str) :=
  enable ←? or_fail Usage
    (if decide (sub = lit "on") then Some true else if decide (sub = lit "off") then Some false else None);
  update_image OPENCODE_CONFIG_PATH enable ;;?
  infos ←? read_model_info OPENCODE_CONFIG_PATH;
  Ret (Ok (unapplied_image enable infos)).

Inductive CtxPreset := Safe | Balanced | Aggressive.

(** The double nearest to a percentage. *)
Definition fraction (p : CtxPreset) : f64 :=
  SFdiv 53 1024 (f64_of_Z match p with Safe => 76 | Balanced => 85 | Aggressive => 92 end) (f64_of_Z 100).

Definition input_limit (ctx_size : Z) (preset : CtxPreset) : Z :=
  f64_as_u64 (SFmul 53 1024 (f64_of_Z ctx_size) (fraction preset)).

Definition unapplied_limits (ctx inp : option Z) (infos : list ModelInfo) : list str :=
  id <$> filter (λ m, (is_Some ctx ∧ context m ≠ ctx) ∨ input m ≠ inp) infos.

Definition warn_unapplied_limits (ctx inp : option Z) : tried (list str) :=
  infos ←? read_model_info OPENCODE_CONFIG_PATH; Ret (Ok (unapplied_limits ctx inp infos)).

Definition run_ctx_mode (ctx_size : Z) (preset : CtxPreset) : tried (list str) :=
  let inp := input_limit ctx_size preset in
  update_limits OPENCODE_CONFIG_PATH (Some ctx_size) (Some inp) ;;?
  warn_unapplied_limits (Some ctx_size) (Some inp).

Definition run_ctx_off_mode : tried (list str) :=
  update_limits OPENCODE_CONFIG_PATH None None ;;? warn_unapplied_limits None None.

Definition preset_of (s : str) : option CtxPreset :=
  if decide (s = lit "safe") then Some Safe
  else if decide (s = lit "balanced") then Some Balanced
  else if decide (s = lit "aggressive") then Some Aggressive
  else None.

(** The arguments of [ctx], from the size on. *)
Definition run_ctx (args : list str) : tried unit :=
  match args with
  | size :: rest =>
      if decide (size = lit "off") then run_ctx_off_mode ;;? Ret (Ok ())
      else
        match rest with
        | preset :: rest =>
            ctx_size ←? or_fail Usage (parse_u64 size);
            if decide (ctx_size = 0%Z) then Ret (Err Usage)
            else
              preset ←? or_fail Usage (preset_of preset);
              run_ctx_mode ctx_size preset ;;?
              match rest with
              | c :: rest => if decide (c = lit "image") then run_image (default (lit "on") (head rest)) ;;? Ret (Ok ()) else Ret (Ok ())
              | [] => Ret (Ok ())
              end
        | [] => Ret (Err Usage)
        end
  | [] => Ret (Err Usage)
  end.

(** The arguments after the program's name. *)
Definition main (args : list str) : tried unit :=
  let cmd := default (lit "lm") (head args) in
  let rest := tail args in
  if decide (cmd ∈ [lit "help"; lit "-h"; lit "--help"]) then Ret (Ok ())
  else if decide (cmd ∈ [lit "omo"; lit "oh-my-opencode"; lit "restore-omo-defaults"; lit "vision"]) then Ret (Err Usage)
  else
    check_layout ;;?
    if decide (cmd ∈ [lit "lm"; lit "local-mind"]) then run_agent_mode
    else if decide (cmd = lit "all") then run_all_mode
    else if decide (cmd = lit "status") then run_status ;;? Ret (Ok ())
    else if decide (cmd = lit "image") then run_image (default (lit "on") (head rest)) ;;? Ret (Ok ())
    else if decide (cmd = lit "ctx") then run_ctx rest
    else Ret (Err Usage).
End Switcher.

(** * Facts *)
#[local] Opaque OPENCODE_CONFIG_PATH AGENTS_DIR.

Section Facts.
Context `{Serde} (to_lowercase : str → str).

(** ** What a command may write *)

(** What has been seen of the files and the user. *)
Inductive Seen :=
  | SawDir (dir : str) (names : list str)
  | SawFile (path content : str)
  | SawTyped (s : Screen) (keys : list Key).
Definition saw (X : Type) (e : Ed X) (x : X) (s : list Seen) : list Seen :=
  match e in Ed X return X → list Seen with
  | ReadFile p => λ c, match c with Some c => s ++ [SawFile p c] | None => s end
  | ReadDir d => λ es, match es with Some es => s ++ [SawDir d (omap (λ n, n) es)] | None => s end
  | Typed screen => λ keys, s ++ [SawTyped screen keys]
  | _ => λ _, s
  end x.

(** "Apply these changes? [Y/n] (Enter = Yes)": the first key that answers says yes. *)
Definition says_yes (k : Key) : Prop := k = Enter ∨ ∃ ctrl, k = Char (lit "y") ctrl ∨ k = Char (lit "Y") ctrl.
Definition says_no (k : Key) : Prop :=
  k = Esc ∨ k = Char (lit "c") true ∨ ∃ ctrl, k = Char (lit "n") ctrl ∨ k = Char (lit "N") ctrl.
Definition confirmed (keys : list Key) : Prop :=
  ∃ pre k rest, keys = pre ++ k :: rest ∧ says_yes k ∧ Forall (λ k, ¬ says_yes k ∧ ¬ says_no k) pre.
(** A model is taken with Enter, on a screen not left before. *)
Definition chosen (keys : list Key) : Prop :=
  ∃ pre rest, keys = pre ++ Enter :: rest ∧ Forall (λ k, k ≠ Esc ∧ k ≠ Char (lit "c") true) pre.

(** What the user has to have done before a command writes. *)
Inductive Asking := AsksConfirm | AsksChoice | AsksNothing.
Definition agreed (how : Asking) (s : list Seen) : Prop :=
  match how with
  | AsksConfirm => ∃ keys, SawTyped ConfirmScreen keys ∈ s ∧ confirmed keys
  | AsksChoice => ∃ keys, SawTyped SelectScreen keys ∈ s ∧ chosen keys
  | AsksNothing => True
  end.

(** A frontmatter that pins a model, between the first two fences. *)
Definition pins (content : str) : Prop :=
  ∃ l1 front l2 rest, lines content = l1 :: front ++ l2 :: rest ∧ is_fence l1 = true ∧ is_fence l2 = true ∧
    Forall (λ l, is_fence l = false) front ∧ ∃ l, l ∈ front ∧ starts_with l (lit "model:") = true.
(** An agent: a markdown file the agents' directory was seen to have and whose
    frontmatter was seen to pin a model. *)
Definition agent_file (s : list Seen) (p : str) : Prop :=
  ∃ names stem content, SawDir AGENTS_DIR names ∈ s ∧ stem ++ lit ".md" ∈ names ∧ stem ≠ [] ∧
    p = AGENTS_DIR ++ lit "/" ++ stem ++ lit ".md" ∧ SawFile p content ∈ s ∧ pins content.

(** The config is only written with something that parses, the rest is agents. *)
Definition write_ok (how : Asking) (X : Type) (e : Ed X) (s : list Seen) : Prop :=
  match e with
  | WriteFile p c => agreed how s ∧ (p = OPENCODE_CONFIG_PATH ∧ is_Some (parse_jsonc c) ∨ agent_file s p)
  | _ => True
  end.

Lemma run_confirm_yes keys : run_confirm keys = Ok true → confirmed keys.
Proof using Type.
  clear to_lowercase. induction keys as [|k keys IH]; [done|]. cbn [run_confirm]. intros E.
  assert (says_yes k ∨ (¬ says_yes k ∧ ¬ says_no k) ∧ run_confirm keys = Ok true) as [Hy|[Hk Hr]].
  { unfold says_yes, says_no. destruct k as [| | | | |c ctrl|]; try (right; split; [|exact E]; naive_solver); try (left; by left).
    destruct (decide (c = lit "y")); [left; naive_solver|]. destruct (decide (c = lit "Y")); [left; naive_solver|].
    rewrite !(bool_decide_eq_false_2 (c = lit "y")), !(bool_decide_eq_false_2 (c = lit "Y")) in E by done. cbn [orb] in E.
    destruct (decide (c = lit "n")); [by rewrite bool_decide_eq_true_2 in E|].
    destruct (decide (c = lit "N")); [by rewrite (bool_decide_eq_true_2 (c = lit "N")), orb_true_r in E|].
    rewrite (bool_decide_eq_false_2 (c = lit "n")), (bool_decide_eq_false_2 (c = lit "N")) in E by done. cbn [orb] in E.
    destruct (bool_decide (c = lit "c") && ctrl) eqn:Ec; [done|]. right. split; [|exact E]. split; [naive_solver|].
    intros [?|[[= -> ->]|(? & [[= -> _]|[= -> _]])]]; done. }
  - exists [], k, keys. by split_and!.
  - destruct (IH Hr) as (pre & k' & rest & -> & Hy & Hp). exists (k :: pre), k', rest. split_and!; [done..|by constructor].
Qed.

Lemma selector_chosen models current st keys m :
  selector_loop to_lowercase models current st keys = Ok (Some m) → chosen keys.
Proof using Type.
  revert st. induction keys as [|k keys IH]; intros st; cbn [selector_loop]; destruct (settle _ _ _ _) as [filtered st'] eqn:Es; [done|].
  destruct (on_key filtered st' k) as [r|st''] eqn:Ek.
  - intros [= ->]. destruct st' as [f sel i]. unfold on_key in Ek. destruct k as [| | | | |c ctrl|]; try done.
    + exists [], keys. split; [done|constructor].
    + by destruct (_ && _).
  - intros (pre & rest & -> & Hp)%IH. exists (k :: pre), rest. split; [done|]. constructor; [|done].
    destruct st' as [f sel i]. split; intros ->; cbn in Ek; done.
Qed.

Lemma is_md_stem n : is_md n = true → ∃ stem, stem ≠ [] ∧ n = stem ++ lit ".md".
Proof using Type.
  clear to_lowercase. unfold is_md, split_extension. intros Hmd%bool_decide_eq_true. destruct (rfind "."%char n) as [[|i]|] eqn:E; try done.
  cbn in Hmd. injection Hmd as Hmd. assert (n !! S i = Some "."%char) as Hd.
  { clear Hmd. revert E. generalize (S i). clear. intros i. revert i. induction n as [|d n IH]; intros i E; [done|]. cbn in E.
    destruct (rfind _ n) as [j|]; [injection E as <-; by apply IH|]. case_decide; [by simplify_eq|done]. }
  exists (take (S i) n). split; [by destruct n|]. rewrite <- (take_drop (S i) n) at 1. f_equal.
  rewrite (drop_S _ _ _ Hd). by rewrite Hmd.
Qed.

Lemma model_line_pins content : is_Some (model_line_index (lines content)) → pins content.
Proof using Type.
  intros [i E]. unfold model_line_index in E. apply bind_Some in E as (e & Ee & E). apply fmap_Some in E as ([j l] & Hl & _).
  unfold frontmatter_end in Ee. destruct (lines content) as [|l1 ls] eqn:El; [done|]. destruct (is_fence l1) eqn:Ef; [|done].
  apply fmap_Some in Ee as ([k l2] & Hk & ->). cbn in Hl. apply list_find_Some in Hk as (Hk & Hf2 & Hb).
  apply list_find_Some in Hl as (Hl & Hs & _).
  exists l1, (take k ls), l2, (drop (S k) ls). unfold pins. rewrite El. split_and!; try done.
  - f_equal. rewrite <- (take_drop k ls) at 1. f_equal. by apply drop_S.
  - apply Forall_lookup. intros n x Hx. apply lookup_take_Some in Hx as [Hx Hn]. specialize (Hb n x Hx Hn). by destruct (is_fence x).
  - exists l. split; [|done]. unfold slice in Hl. rewrite drop_0 in Hl. replace (k + 1 - 1) with k in Hl by lia. by eapply list_elem_of_lookup_2.
Qed.

Lemma in_snoc {A} (s : list A) x : x ∈ s ++ [x].
Proof using Type. apply elem_of_app. right. by apply list_elem_of_singleton. Qed.
Lemma sub_snoc {A} (s : list A) x : s ⊆ s ++ [x].
Proof using Type. intros y Hy. apply elem_of_app. by left. Qed.
Hint Resolve in_snoc sub_snoc : core.

Section Safe.
Context (how : Asking).

Definition ok_with {A} (R : A → Prop) (r : result EditError A) : Prop := match r with Ok a => R a | Err _ => True end.

(** Safe; and answers what [R] says, of what has been seen by then. *)
Definition does {A} (s : list Seen) (p : tried A) (R : list Seen → A → Prop) : Prop :=
  swp saw (write_ok how) p (λ r s', s ⊆ s' ∧ ok_with (R s') r) s.
Abbreviation fine s p := (does s p (λ _ _, True)).

Lemma does_bind {A B} s (p : tried A) (f : A → tried B) R R' :
  does s p R → (∀ a s', s ⊆ s' → R s' a → does s' (f a) R') → does s (tbind p f) R'.
Proof using Type.
  intros Hp Hf. apply swp_bind. eapply swp_mono; [exact Hp|]. intros [a|e] s' [Hs Ha]; [|done].
  eapply swp_mono; [by apply Hf|]. intros r s'' [Hs' Hr]. split; [by etrans|done].
Qed.
Lemma does_result {A B} s (p : tried A) (f : result EditError A → tried B) R R' :
  does s p R → (∀ r s', s ⊆ s' → ok_with (R s') r → does s' (f r) R') → does s (p ≫= f) R'.
Proof using Type.
  intros Hp Hf. apply swp_bind. eapply swp_mono; [exact Hp|]. intros r s' [Hs Ha].
  eapply swp_mono; [by apply Hf|]. intros r' s'' [Hs' Hr]. split; [by etrans|done].
Qed.
Lemma does_weaken {A} s (p : tried A) (R R' : list Seen → A → Prop) : does s p R → (∀ s' a, R s' a → R' s' a) → does s p R'.
Proof using Type. intros Hp HR. eapply swp_mono; [exact Hp|]. intros [a|e] s' [Hs Ha]; simpl in *; auto. Qed.
Lemma does_fine {A} s (p : tried A) R : does s p R → fine s p.
Proof using Type. intros Hp. by eapply does_weaken. Qed.
Lemma does_ret {A} s (r : result EditError A) (R : list Seen → A → Prop) : ok_with (R s) r → does s (Ret r) R.
Proof using Type. done. Qed.
Lemma fine_or_fail {A} s e (o : option A) : fine s (or_fail e o).
Proof using Type. by destruct o. Qed.
Hint Resolve fine_or_fail : switch.

Lemma agreed_mono s s' : s ⊆ s' → agreed how s → agreed how s'.
Proof using Type. unfold agreed. destruct how; set_solver. Qed.
Lemma agent_file_mono s s' p : s ⊆ s' → agent_file s p → agent_file s' p.
Proof using Type. intros Hs (ns & stem & c & ? & ? & ? & ? & ? & ?). exists ns, stem, c. split_and!; try done; by apply Hs. Qed.
Hint Resolve agreed_mono agent_file_mono : switch.

(** A program that only reads: its binds, its tests and its results. *)
Ltac quiet :=
  repeat first
    [ progress intros
    | apply does_ret; by repeat case_match
    | solve [eauto with switch]
    | eapply does_bind; [solve [eauto with switch]|]
    | match goal with
      | |- does _ (if decide ?P then _ else _) _ => destruct (decide P)
      | |- does _ (match ?x with _ => _ end) _ => destruct x
      end ].

Lemma does_read s p : does s (read p) (λ s' c, SawFile p c ∈ s').
Proof using Type. split; [done|]. by intros [c|]; cbn; split. Qed.
Lemma fine_read s p : fine s (read p).
Proof using Type. eapply does_fine, does_read. Qed.
Hint Resolve fine_read : switch.
Lemma fine_read_config s p : fine s (read_config p).
Proof using Type. unfold read_config. quiet. Qed.
Hint Resolve fine_read_config : switch.
Lemma fine_read_model_info s p : fine s (read_model_info p).
Proof using Type. unfold read_model_info. quiet. Qed.
Hint Resolve fine_read_model_info : switch.
Lemma fine_read_models s p : fine s (read_models p).
Proof using Type. unfold read_models. quiet. Qed.
Hint Resolve fine_read_models : switch.
Lemma fine_get_default_model s p : fine s (get_default_model p).
Proof using Type. unfold get_default_model. quiet. Qed.
Lemma does_get_current_model s p : does s (get_current_model p) (λ s' _, ∃ c, SawFile p c ∈ s' ∧ pins c).
Proof using Type.
  unfold get_current_model. eapply does_bind; [apply does_read|]. intros c s' _ Hc. unfold or_fail.
  destruct (model_line_index (lines c)) as [i|] eqn:E; [|done]. apply does_ret. exists c. split; [done|].
  apply model_line_pins. by eexists.
Qed.
Lemma fine_get_current_model s p : fine s (get_current_model p).
Proof using Type. eapply does_fine, does_get_current_model. Qed.
Hint Resolve fine_get_default_model fine_get_current_model : switch.

Lemma fine_write_config s c : agreed how s → fine s (write_jsonc_checked OPENCODE_CONFIG_PATH c).
Proof using Type.
  intros Ha. unfold write_jsonc_checked. destruct (parse_jsonc c) eqn:E; [|done].
  split; [by split; [|left; rewrite E]|]. by intros [].
Qed.
Hint Resolve fine_write_config : switch.

Lemma fine_update_default s m : agreed how s → fine s (update_default_model OPENCODE_CONFIG_PATH m).
Proof using Type. unfold update_default_model. quiet. Qed.
Lemma fine_update_limits s c i : agreed how s → fine s (update_limits OPENCODE_CONFIG_PATH c i).
Proof using Type. unfold update_limits. quiet. Qed.
Lemma fine_update_image s b : agreed how s → fine s (update_image OPENCODE_CONFIG_PATH b).
Proof using Type. unfold update_image. quiet. Qed.
Hint Resolve fine_update_default fine_update_limits fine_update_image : switch.

Lemma fine_update_agent s p m : agreed how s → agent_file s p → fine s (update_agent_model p m).
Proof using Type.
  intros Ha Hp. unfold update_agent_model. eapply does_bind; [by auto with switch|]. intros c s1 H1 _.
  eapply does_bind; [by auto with switch|]. intros i s2 H2 _.
  split; [|by intros []]. split; [by eauto with switch|right; by eauto with switch].
Qed.

Definition discovered (s : list Seen) (agents : list Agent) : Prop := Forall (λ a, agent_file s (path a)) agents.
Lemma discovered_mono s s' agents : s ⊆ s' → discovered s agents → discovered s' agents.
Proof using Type. intros Hs Ha. eapply Forall_impl; [exact Ha|]. intros a. by apply agent_file_mono. Qed.
Hint Resolve fine_update_agent discovered_mono : switch.

Lemma does_pinned_agents s names entries : SawDir AGENTS_DIR names ∈ s → omap (λ n, n) entries ⊆ names →
  does s (pinned_agents AGENTS_DIR entries) discovered.
Proof using Type.
  clear to_lowercase. revert s. induction entries as [|[n|] entries IH]; intros s Hn He; cbn [pinned_agents]; [by apply does_ret; constructor| |by apply does_ret].
  cbn in He. destruct (is_md n) eqn:Em; [|apply IH; [done|set_solver]].
  eapply does_result; [apply does_get_current_model|]. intros r s1 H1 Hr.
  eapply does_bind; [apply IH; [by apply H1|set_solver]|]. intros rest s2 H2 Hrest. apply does_ret. cbn.
  destruct r as [m|e]; [|done]. constructor; [|done]. destruct Hr as (c & Hc & Hp). destruct (is_md_stem n Em) as (stem & Hs & ->).
  exists names, stem, c. split_and!; try done; [by apply H2, H1|set_solver|by apply H2].
Qed.
Lemma does_discover_agents s : does s (discover_agents AGENTS_DIR) discovered.
Proof using Type.
  unfold discover_agents. eapply (does_bind _ _ _ (λ s' es, SawDir AGENTS_DIR (omap (λ n, n) es) ∈ s')).
  { split; [done|]. by intros [es|]; cbn; split. }
  intros es s1 _ Hes. eapply does_bind; [by eapply does_pinned_agents|]. intros agents s2 _ Ha. apply does_ret. cbn. unfold discovered.
  by rewrite merge_sort_Permutation.
Qed.
Lemma fine_unpinned_agents s dir : fine s (unpinned_agents dir).
Proof using Type.
  unfold unpinned_agents. eapply (does_bind _ _ _ (λ _ _, True)).
  { split; [done|]. by intros [es|]; cbn; split. }
  intros es s1 _ _. eapply (does_bind _ _ _ (λ _ _, True)); [|quiet]. revert s1.
  induction es as [|[n|] es IH]; intros s1; cbn [unpinned_go]; [by apply does_ret| |by apply does_ret].
  destruct (is_md n); [|apply IH]. eapply does_result; [apply fine_get_current_model|]. intros r s2 _ _.
  eapply does_bind; [apply IH|]. quiet.
Qed.

Lemma fine_load_models s : fine s load_models.
Proof using Type. unfold load_models. quiet. Qed.
(** A screen that answers with a model has taken one. *)
Lemma does_select_model s ms c :
  does s (select_model to_lowercase ms c) (λ s' r, is_Some r → ∃ keys, SawTyped SelectScreen keys ∈ s' ∧ chosen keys).
Proof using Type.
  split; [done|]. intros keys. split; [cbn; done|]. destruct run_selector as [[m|]|] eqn:E; cbn; [|by intros []|done].
  intros _. exists keys. split; [done|by eapply selector_chosen].
Qed.
Hint Resolve does_discover_agents fine_unpinned_agents fine_load_models : switch.

Lemma does_select_agents s ms agents : discovered s agents →
  does s (select_agents to_lowercase ms agents)
    (λ s' r, match r with Some sels => Forall (λ t, agent_file s' t.1.1) sels | None => True end).
Proof using Type.
  revert s. induction agents as [|a agents IH]; intros s; cbn [select_agents]; [by intros _; apply does_ret; constructor|].
  intros [Ha Has]%Forall_cons. eapply does_result; [apply fine_get_current_model|]. intros r s1 H1 _.
  eapply does_bind; [apply does_select_model|]. intros [m|] s2 H2 _; [|by apply does_ret].
  assert (s ⊆ s2) as H02 by by etrans. eapply does_bind; [apply IH; by eapply discovered_mono|].
  intros [sels|] s3 H3 Hs; apply does_ret; [|done]. cbn. constructor; [|done]. eapply agent_file_mono; [|exact Ha]. by etrans.
Qed.

Lemma fine_write_agents s sels : agreed how s → Forall (λ t : str * str * str, agent_file s t.1.1) sels → fine s (write_agents sels).
Proof using Type.
  revert s. induction sels as [|[[p c] m] sels IH]; intros s Hg; cbn [write_agents]; [quiet|]. intros [Hp Hs]%Forall_cons.
  destruct (decide (m = c)); [by apply IH|]. eapply does_bind; [by apply fine_update_agent|]. intros _ s1 H1 _.
  eapply does_bind; [apply IH; [by eapply agreed_mono|eapply Forall_impl; [exact Hs|]; intros t; by apply agent_file_mono]|]. quiet.
Qed.
Lemma fine_set_agents s m agents : agreed how s → discovered s agents → fine s (set_agents m agents).
Proof using Type.
  revert s. induction agents as [|a agents IH]; intros s Hg; cbn [set_agents]; [quiet|]. intros [Ha Has]%Forall_cons.
  eapply does_result; [apply fine_get_current_model|]. intros r s1 H1 _. eapply (does_bind _ _ _ (λ _ _, True)).
  - destruct (decide _); [done|]. apply fine_update_agent; eauto with switch.
  - intros _ s2 H2 _. assert (s ⊆ s2) as H02 by by etrans. apply IH; [by eapply agreed_mono|by eapply discovered_mono].
Qed.

Lemma fine_image s sub : agreed how s → fine s (run_image sub).
Proof using Type. unfold run_image. quiet. Qed.
Lemma fine_agent_rows s agents : fine s (agent_rows agents).
Proof using Type. revert s. induction agents; intros s; simpl; quiet. Qed.
Hint Resolve fine_image fine_agent_rows : switch.
Lemma fine_status s : fine s run_status.
Proof using Type. unfold run_status. quiet. Qed.
Lemma fine_check_layout s : fine s check_layout.
Proof using Type. split; [done|]. intros []; [|done]. split; [done|]. by intros []. Qed.
End Safe.
Abbreviation fine how s p := (does how s p (λ _ _, True)).

Lemma fine_agent_mode s : fine AsksConfirm s (run_agent_mode to_lowercase).
Proof using Type.
  unfold run_agent_mode. eapply does_bind; [apply fine_load_models|]. intros ms s1 _ _.
  eapply does_bind; [apply does_discover_agents|]. intros agents s2 _ Ha.
  eapply does_result; [apply fine_get_default_model|]. intros r s3 H3 _.
  eapply does_bind; [apply does_select_model|]. intros [new|] s4 H4 _; [|by apply does_ret].
  eapply does_bind; [apply does_select_agents; eapply discovered_mono; [|exact Ha]; by etrans|]. intros [sels|] s5 H5 Hs; [|by apply does_ret].
  eapply (does_bind _ _ _ _ (λ s' yes, yes = true → agreed AsksConfirm s')).
  { split; [done|]. intros keys. split; [cbn; done|]. destruct (run_confirm keys) as [[]|] eqn:E; cbn; try done.
    intros _. exists keys. split; [done|by apply run_confirm_yes]. }
  intros [] s6 H6 Hy; [|by apply does_ret]. specialize (Hy eq_refl).
  eapply (does_bind _ _ _ _ (λ _ _, True)); [destruct (decide _); [done|by apply fine_update_default]|].
  intros _ s7 H7 _. eapply does_bind; [apply fine_write_agents; [by eapply agreed_mono|]|by intros; apply does_ret].
  eapply Forall_impl; [exact Hs|]. intros t. apply agent_file_mono. by etrans.
Qed.

Lemma fine_all_mode s : fine AsksChoice s (run_all_mode to_lowercase).
Proof using Type.
  unfold run_all_mode. eapply does_bind; [apply fine_load_models|]. intros ms s1 _ _.
  eapply does_bind; [apply does_discover_agents|]. intros agents s2 _ Ha.
  eapply does_result; [apply fine_get_default_model|]. intros r s3 H3 _.
  eapply (does_bind _ _ _ _ (λ _ _, True)).
  { destruct agents; [done|]. eapply does_result; [apply fine_get_current_model|]. intros; by apply does_ret. }
  intros _ s4 H4 _. eapply does_bind; [apply does_select_model|]. intros [m|] s5 H5 Hc; [|by apply does_ret].
  specialize (Hc ltac:(by eexists)). change (agreed AsksChoice s5) in Hc.
  eapply (does_bind _ _ _ _ (λ _ _, True)); [destruct (decide _); [done|by apply fine_update_default]|].
  intros _ s6 H6 _. apply fine_set_agents; [by eapply agreed_mono|]. eapply discovered_mono; [|exact Ha]. by do 3 (etrans; [eassumption|]).
Qed.

Lemma fine_ctx args s : fine AsksNothing s (run_ctx args).
Proof using Type.
  assert (∀ s c i, fine AsksNothing s (update_limits OPENCODE_CONFIG_PATH c i)) as Hu by (intros; by apply fine_update_limits).
  assert (∀ s n p, fine AsksNothing s (run_ctx_mode n p)) as Hm.
  { intros. unfold run_ctx_mode, warn_unapplied_limits. eapply does_bind; [apply Hu|]. intros _ s1 _ _.
    eapply does_bind; [apply fine_read_model_info|]. by intros; apply does_ret. }
  assert (∀ s, fine AsksNothing s run_ctx_off_mode) as Ho.
  { intros. unfold run_ctx_off_mode, warn_unapplied_limits. eapply does_bind; [apply Hu|]. intros _ s1 _ _.
    eapply does_bind; [apply fine_read_model_info|]. by intros; apply does_ret. }
  unfold run_ctx. destruct args as [|size rest]; [done|]. destruct (decide _).
  { eapply does_bind; [apply Ho|]. by intros; apply does_ret. }
  destruct rest as [|preset rest]; [done|]. eapply does_bind; [apply fine_or_fail|]. intros sz s1 _ _. destruct (decide _); [by apply does_ret|].
  eapply does_bind; [apply fine_or_fail|]. intros p s2 _ _. eapply does_bind; [apply Hm|]. intros w s3 _ _.
  destruct rest as [|c rest]; [by apply does_ret|]. destruct (decide _); [|by apply does_ret].
  eapply does_bind; [by apply fine_image|]. by intros; apply does_ret.
Qed.

(** What each command asks of the user before it writes. *)
Definition asking_of (args : list str) : Asking :=
  let cmd := default (lit "lm") (head args) in
  if decide (cmd ∈ [lit "lm"; lit "local-mind"]) then AsksConfirm
  else if decide (cmd = lit "all") then AsksChoice else AsksNothing.

(** C27: Whatever the files hold and the user types, no command writes a config that
    does not parse, or a file that is neither the config nor an agent: a markdown
    file its directory lists, whose frontmatter was read to pin a model.  The
    default command writes nothing before the user has answered the confirmation
    with yes; [all], which has no confirmation, nothing before the user has taken
    a model on its screen. *)
Theorem switcher_safe args : safe saw (write_ok (asking_of args)) (main to_lowercase args) [].
Proof using Type.
  assert (fine (asking_of args) [] (main to_lowercase args)) as Hf; [|by apply (swp_safe _ _ _ _ _ Hf)].
  unfold main, asking_of. set (cmd := default _ _). cbv zeta.
  destruct (decide (cmd ∈ [lit "help"; _; _])); [by apply does_ret|]. destruct (decide (cmd ∈ [lit "omo"; _; _; _])); [by apply does_ret|].
  eapply does_bind; [apply fine_check_layout|]. intros _ s _ _.
  destruct (decide (cmd ∈ [lit "lm"; lit "local-mind"])) as [Hc|Hc]; [apply fine_agent_mode|].
  destruct (decide (cmd = lit "all")); [apply fine_all_mode|].
  destruct (decide (cmd = lit "status")); [eapply does_bind; [apply fine_status|by intros; apply does_ret]|].
  destruct (decide (cmd = lit "image")); [eapply does_bind; [by apply fine_image|by intros; apply does_ret]|].
  destruct (decide (cmd = lit "ctx")); [apply fine_ctx|done].
Qed.
(** ** On a disk *)
Definition disk_answer (X : Type) (σ : gmap str str) (e : Ed X) : X :=
  match e in Ed X return X with
  | ReadFile p => σ !! p
  | WriteFile _ _ => true
  | ReadDir _ => None
  | Exists p => bool_decide (is_Some (σ !! p))
  | Typed _ => []
  end.
Definition disk_after (X : Type) (e : Ed X) (x : X) (σ : gmap str str) : gmap str str :=
  match e with WriteFile p c => <[p := c]> σ | _ => σ end.
Definition on_disk {A} (p : tried A) (σ : gmap str str) : result EditError A * gmap str str :=
  run disk_after disk_answer p σ.

Lemma trim_end_prefix s : trim_end s `prefix_of` s.
Proof using Type.
  unfold trim_end. destruct (drop_while_suffix is_whitespace (reverse (chars s))) as [k Hk].
  exists (concat (reverse k)). by rewrite <- concat_app, <- reverse_app, <- Hk, reverse_involutive, concat_chars.
Qed.

Lemma model_line_no_fence l : starts_with l MODEL_KEY = true → is_fence l = false.
Proof using Type.
  intros [r ->]%starts_with_spec. apply bool_decide_eq_false_2. intros E.
  destruct (trim_end_prefix (MODEL_KEY ++ r)) as [k Hk]. by rewrite E in Hk.
Qed.

(** Replacing a line that is not looked for by one that is not either. *)
Lemma list_find_insert_other {A} (P : A → Prop) `{∀ x, Decision (P x)} (l : list A) k x y :
  l !! k = Some x → ¬ P x → ¬ P y → fst <$> list_find P (<[k := y]> l) = fst <$> list_find P l.
Proof using Type.
  intros Hk Hx Hy. revert k Hk. induction l as [|z l IH]; intros k Hk; [done|].
  destruct k as [|k]; simplify_eq/=; [by rewrite !decide_False by done|].
  destruct (decide (P z)); [done|]. specialize (IH _ Hk).
  destruct (list_find P (<[k := y]> l)) as [[] |], (list_find P l) as [[] |]; simpl in *; congruence.
Qed.

Lemma list_find_insert_same {A} (P : A → Prop) `{∀ x, Decision (P x)} (l : list A) k x y :
  list_find P l = Some (k, x) → P y → list_find P (<[k := y]> l) = Some (k, y).
Proof using Type.
  intros (Hk & _ & Hbefore)%list_find_Some Hy. apply list_find_Some. split_and!; [|done|].
  - apply list_lookup_insert_eq. by eapply lookup_lt_Some.
  - intros j z Hj Hlt. rewrite list_lookup_insert_ne in Hj by lia. eauto.
Qed.

Lemma model_line_index_Some ls i : model_line_index ls = Some i →
  ∃ l, ls !! i = Some l ∧ starts_with l MODEL_KEY = true ∧ 1 ≤ i.
Proof using Type.
  unfold model_line_index. intros (e & _ & Hi)%bind_Some. apply fmap_Some in Hi as ([j l] & Hj & ->). simpl.
  apply list_find_Some in Hj as (Hj & Hl & _). exists l. split_and!; [|done|lia].
  unfold slice in Hj. apply lookup_take_Some in Hj as [Hj _]. rewrite lookup_drop in Hj. by rewrite Nat.add_comm.
Qed.

Lemma model_line_index_insert ls i y : model_line_index ls = Some i → starts_with y MODEL_KEY = true →
  model_line_index (<[i := y]> ls) = Some i.
Proof using Type.
  intros Hi Hy. destruct (model_line_index_Some _ _ Hi) as (l & Hl & Hkey & H1).
  destruct ls as [|h rest]; [done|]. destruct i as [|i]; [lia|]. simpl in Hl.
  change (<[S i := y]> (h :: rest)) with (h :: <[i := y]> rest). unfold model_line_index in *.
  apply bind_Some in Hi as (e & He & Hfind). apply bind_Some. exists e. split.
  - cbn [frontmatter_end] in *. destruct (is_fence h); [|done].
    pose proof (list_find_insert_other (λ l, is_fence l = true) rest i l y Hl) as Ho.
    cbv beta in Ho. rewrite !model_line_no_fence in Ho by done. specialize (Ho ltac:(done) ltac:(done)).
    destruct (list_find _ rest) as [[]|], (list_find _ (<[i := y]> rest)) as [[]|]; simpl in *; congruence.
  - unfold slice in *. cbn [drop] in *. apply fmap_Some in Hfind as ([j x] & Hj & E). simpl in E.
    assert (j = i) as -> by lia. assert (i < e - 1) as Hlt.
    { apply list_find_Some in Hj as (Hj & _). by apply lookup_take_Some in Hj as [_ ?]. }
    rewrite drop_0 in Hj |- *. rewrite take_insert_lt by done.
    rewrite (list_find_insert_same _ _ _ _ _ Hj) by done. simpl. by rewrite Nat.add_1_r.
Qed.

(** A model written as the config's ids are. *)
Definition plain_model (m : str) : Prop := Forall (λ c, graphic c = true ∧ c ≠ QUOT ∧ c ≠ ascii_of_nat 39) m.

Lemma trim_matches_plain c m : c ∉ m → trim_matches c m = m.
Proof using Type.
  intros Hc. unfold trim_matches, trim_end_matches.
  assert (∀ s, c ∉ s → drop_while (λ d, bool_decide (d = c)) s = s) as Hd.
  { intros [|d s] Hs; [done|]. apply not_elem_of_cons in Hs as [? _]. simpl. by rewrite bool_decide_eq_false_2. }
  rewrite (Hd m), Hd by (by rewrite ?elem_of_reverse). apply reverse_involutive.
Qed.

Lemma model_value_written m : plain_model m → model_value (lit "model: " ++ m) = m.
Proof using Type.
  intros Hm. unfold model_value. change (drop (length MODEL_KEY) (lit "model: " ++ m)) with (" "%char :: m).
  assert (trim (" "%char :: m) = m) as ->.
  { assert (Forall (λ c, graphic c = true) m) as Hg by (eapply Forall_impl; [done|by intros ? []]).
    rewrite <- (trim_graphic_all m) at 2 by done. unfold trim. rewrite chars_cons_start; [done|].
    destruct Hg; [done|]. by apply graphic_not_cont. }
  assert (∀ c, c = QUOT ∨ c = ascii_of_nat 39 → c ∉ m) as Hno.
  { intros c Hc Hin. destruct (proj1 (Forall_forall _ _) Hm _ Hin) as (_ & ? & ?). by destruct Hc. }
  rewrite (trim_matches_plain QUOT m) by auto. auto using trim_matches_plain.
Qed.

Lemma model_line_ok m : plain_model m → line_ok (lit "model: " ++ m).
Proof using Type.
  intros Hm. assert (Forall (λ c, c ≠ LF ∧ c ≠ CR) (lit "model: " ++ m)) as Hall.
  { apply Forall_app. split; [by repeat constructor|]. eapply Forall_impl; [exact Hm|]. intros c (Hg & _). by split; intros ->. }
  split; [intros Hin; by destruct (proj1 (Forall_forall _ _) Hall _ Hin)|].
  apply not_true_iff_false. intros [k Hk]%ends_with_spec. rewrite Hk in Hall.
  apply Forall_app in Hall as [_ Hall]. by apply Forall_inv in Hall as [_ ?].
Qed.

(** Setting an agent's model on a disk: reading it back gives the model set,
    the line of the frontmatter that pins it is the only one that changed, and
    no other file did. *)
Theorem agent_model_roundtrip σ p m content i :
  σ !! p = Some content → model_line_index (lines content) = Some i →
  Forall line_ok (lines content) → plain_model m →
  ∃ content',
    on_disk (update_agent_model p m) σ = (Ok (), <[p := content']> σ) ∧
    lines content' = <[i := lit "model: " ++ m]> (lines content) ∧
    on_disk (get_current_model p) (<[p := content']> σ) = (Ok m, <[p := content']> σ).
Proof using Type.
  intros Hp Hi Hok Hm. set (f j l := if decide (j = i) then lit "model: " ++ m else l).
  assert (lines (map_lines content f).1 = <[i := lit "model: " ++ m]> (lines content)) as Hlines.
  { rewrite lines_map_lines.
    - apply list_eq. intros j. rewrite list_lookup_imap. unfold f. destruct (decide (j = i)) as [->|Hj].
      + destruct (model_line_index_Some _ _ Hi) as (l & Hl & _). rewrite Hl.
        by rewrite list_lookup_insert_eq by (by eapply lookup_lt_Some).
      + rewrite list_lookup_insert_ne by done. by destruct (lines content !! j).
    - intros j l Hj. unfold f. destruct (decide (j = i)); [split; [by apply model_line_ok|done]|].
      split; [by eapply Forall_lookup in Hok|done]. }
  exists (map_lines content f).1. split_and!; [|done|].
  - unfold on_disk, update_agent_model, read. cbn [run tbind mbind prog_bind bind trigger disk_answer disk_after].
    rewrite Hp. cbn. rewrite Hi. done.
  - revert Hlines. generalize (map_lines content f).1. intros content' Hlines.
    unfold on_disk, get_current_model, read. cbn [run tbind mbind prog_bind bind trigger disk_answer disk_after].
    rewrite lookup_insert_eq. cbn. rewrite Hlines, model_line_index_insert by done. cbn.
    assert (i < length (lines content)) as Hlt by (destruct (model_line_index_Some _ _ Hi) as (l & Hl & _); by eapply lookup_lt_Some).
    rewrite list_lookup_total_insert_eq by done. by rewrite model_value_written.
Qed.

(** ** Screens *)
Lemma shown_subset models f m : m ∈ shown to_lowercase models f → m ∈ models.
Proof using Type. unfold shown. rewrite list_elem_of_filter. tauto. Qed.

Lemma settle_in_range models current st : let '(filtered, st') := settle to_lowercase models current st in
  filtered = shown to_lowercase models (filter_text st) ∧ (filtered = [] ∨ selected st' < length filtered).
Proof using Type.
  unfold settle. split; [done|]. set (filtered := shown _ _ _). destruct (decide (filtered = [])) as [|Hne]; [by left|right].
  assert (0 < length filtered) by (destruct filtered; [done|simpl; lia]).
  assert ((if length filtered <=? selected st then length filtered - 1 else selected st) < length filtered) as Hclamp
    by (destruct (Nat.leb_spec (length filtered) (selected st)); lia).
  destruct (negb _ && _); [|exact Hclamp]. cbn [selected].
  destruct (list_find (λ m, m = current) filtered) as [[i x]|] eqn:E; [|exact Hclamp]. simpl.
  apply list_find_Some in E as (Hi & _). by eapply lookup_lt_Some.
Qed.

Lemma selector_loop_right models current keys st m :
  selector_loop to_lowercase models current st keys = Ok (Some m) → m ∈ models.
Proof using Type.
  revert st. induction keys as [|key keys IH]; intros st; cbn [selector_loop]; [by destruct (settle _ _ _ _)|].
  pose proof (settle_in_range models current st) as Hs. destruct (settle _ _ _ _) as [filtered [f sel i]].
  destruct Hs as [-> _]. destruct key; cbn [on_key]; try apply IH.
  - destruct (shown to_lowercase models (filter_text st) !! sel) as [m'|] eqn:E; [|apply IH].
    intros [= ->]. by eapply shown_subset, list_elem_of_lookup_2.
  - done.
  - destruct (_ && _); [done|apply IH].
Qed.

(** A screen answers a model of the list it was given, and the current one when
    it is accepted as it is. *)
Theorem selector_right models current :
  (∀ keys m, run_selector to_lowercase models current keys = Ok (Some m) → m ∈ models) ∧
  (current ∈ models → ∀ keys, run_selector to_lowercase models current (Enter :: keys) = Ok (Some current)).
Proof using Type.
  split; [intros keys m; apply selector_loop_right|]. intros Hin keys. unfold run_selector. cbn [selector_loop].
  unfold settle. cbn [filter_text selected initialized negb andb].
  assert (shown to_lowercase models [] = models) as ->.
  { unfold shown. clear. induction models as [|x l IH]; [done|]. rewrite filter_cons_True by (by left). by rewrite IH. }
  rewrite bool_decide_eq_true_2 by done.
  destruct (list_find_elem_of (λ m, m = current) models current Hin eq_refl) as [[i x] E]. rewrite E. cbn [fmap option_fmap option_map default fst].
  apply list_find_Some in E as (Hi & -> & _). cbn [on_key]. unfold default. cbn. by rewrite Hi.
Qed.

(** The ids of a config, in the order they are listed, are not sorted although
    its keys are: a provider comes before one its name is a prefix of. *)
Definition two_providers : list (str * Value) :=
  let p := VObject [kv "models" (VObject [kv "m" VNull])] in [kv "a" p; kv "a-b" p].
Lemma ids_not_sorted : sort_by_key two_providers = two_providers ∧
  merge_sort str_le (id <$> model_infos two_providers) ≠ (id <$> model_infos two_providers).
Proof using Type. split; [by vm_compute|]. vm_decide. Qed.
End Facts.
