(* ===== verification/StreamPass.v ===== *)
(** * The pass-through stream (llama-proxy/src/proxy/streaming.rs)

    The backend is a script of what its byte stream yields: chunks, then
    possibly an error, then the end.  [poll] is one turn of the loop of
    [advance_stream]; [drive] polls the unfolded stream to its end. *)
From S2P Require Import Prelude Framing Sse.

Definition Item : Type := result str str.

(** ** [FusedStream] *)
Record FusedStream := mkFused {
  inner : list Item;
  done_ : bool;
}.

Definition poll_next (s : FusedStream) : option Item * FusedStream :=
  if done_ s then (None, s)
  else
    match inner s with
    | [] => (None, mkFused [] true)
    | item :: rest => (Some item, mkFused rest (negb (is_ok item)))
    end.

(** ** [StreamPassState]

    [activity] counts the activity signals, [sse_events] what the stream adds
    to the global event counter.  The permit and the busy guard only live as
    long as the stream and have no part in a step. *)
Record StreamPassState := mkPass {
  underlying : FusedStream;
  framing : FramingState;
  accumulated : option str;
  completion_tx : Completion;
  activity : nat;
  pending_error : option str;
  completion_signaled : bool;
  sse_events : nat;
}.

Definition with_underlying (u : FusedStream) (st : StreamPassState) : StreamPassState :=
  mkPass u (framing st) (accumulated st) (completion_tx st) (activity st) (pending_error st)
    (completion_signaled st) (sse_events st).
Definition with_framing (f : FramingState) (st : StreamPassState) : StreamPassState :=
  mkPass (underlying st) f (accumulated st) (completion_tx st) (activity st) (pending_error st)
    (completion_signaled st) (sse_events st).
Definition with_error (e : option str) (st : StreamPassState) : StreamPassState :=
  mkPass (underlying st) (framing st) (accumulated st) (completion_tx st) (activity st) e
    (completion_signaled st) (sse_events st).
Definition signal_activity (st : StreamPassState) : StreamPassState :=
  mkPass (underlying st) (framing st) (accumulated st) (completion_tx st) (S (activity st))
    (pending_error st) (completion_signaled st) (sse_events st).
Definition with_end (reason : StreamEnd) (st : StreamPassState) : StreamPassState :=
  mkPass (underlying st) (framing st) (accumulated st) (signal_end (completion_tx st) reason)
    (activity st) (pending_error st) (completion_signaled st) (sse_events st).
(** Counted only where the accumulation is analyzed. *)
Definition count_events (n : nat) (st : StreamPassState) : StreamPassState :=
  mkPass (underlying st) (framing st) (accumulated st) (completion_tx st) (activity st)
    (pending_error st) (completion_signaled st)
    (match accumulated st with Some _ => sse_events st + n | None => sse_events st end).

(** Accumulate, detect completion, signal activity. *)
Definition deliver (out : str) (st : StreamPassState) : StreamPassState :=
  let '(fired, tx) := detect_and_signal_completion out (completion_tx st) in
  mkPass (underlying st) (framing st) ((λ acc, acc ++ out) <$> accumulated st) tx
    (S (activity st)) (pending_error st) (completion_signaled st || fired) (sse_events st).

Definition emit_block (out : str) (st : StreamPassState) : Item * StreamPassState :=
  (Ok out, deliver out st).

Inductive DrainError :=
  | NoError (st : StreamPassState)
  | Emit (item : Item) (st : StreamPassState)
  | EndNow (st : StreamPassState).

Definition drain_error (st : StreamPassState) : DrainError :=
  match pending_error st with
  | None => NoError st
  | Some err =>
      let this := with_error None st in
      match finish (framing this) with
      | (Some tail, f) => Emit (Ok tail) (with_error (Some err) (deliver tail (with_framing f this)))
      | (None, f) =>
          let this := with_framing f this in
          if completion_signaled this then EndNow this
          else Emit (Err err) (with_end BackendError this)
      end
  end.

(** One turn of the loop: a result of the poll, or [continue]. *)
Inductive Turn :=
  | Return (item : option Item) (st : StreamPassState)
  | Continue (st : StreamPassState).

Definition advance_turn (st : StreamPassState) : Turn :=
  match take_framed (framing st) with
  | (Events out events, f) =>
      let '(item, st) := emit_block out (count_events events (with_framing f st)) in Return (Some item) st
  | (ForceFlush out, f) =>
      let '(item, st) := emit_block out (count_events 1 (with_framing f st)) in Return (Some item) st
  | (Nothing, f) =>
      match drain_error (with_framing f st) with
      | Emit item st => Return (Some item) st
      | EndNow st => Return None st
      | NoError st =>
          match poll_next (underlying st) with
          | (None, u) =>
              match finish (framing st) with
              | (Some tail, f) =>
                  let '(item, st) := emit_block tail (with_framing f (with_underlying u st)) in
                  Return (Some item) st
              | (None, f) =>
                  Return None (signal_activity (with_end BackendClosed (with_framing f (with_underlying u st))))
              end
          | (Some (Err e), u) => Continue (with_error (Some e) (with_underlying u st))
          | (Some (Ok chunk), u) =>
              let st := signal_activity (with_underlying u st) in
              if bool_decide (chunk = []) then Return (Some (Ok chunk)) st
              else Continue (with_framing (push (framing st) chunk) st)
          end
      end
  end.

(** [futures::stream::unfold]: poll until the stream ends. *)
Fixpoint drive (fuel : nat) (st : StreamPassState) : option (list Item * StreamPassState) :=
  match fuel with
  | 0 => None
  | S fuel' =>
      match advance_turn st with
      | Continue st' => drive fuel' st'
      | Return None st' => Some ([], st')
      | Return (Some item) st' => '(items, st'') ← drive fuel' st'; Some (item :: items, st'')
      end
  end.

Definition pass_new (script : list Item) (analyzed : bool) : StreamPassState :=
  mkPass (mkFused script false) framing_new (if analyzed then Some [] else None) Unsent 0 None false 0.

(** What the client receives. *)
Fixpoint sent (items : list Item) : str :=
  match items with
  | [] => []
  | Ok out :: items' => out ++ sent items'
  | Err _ :: items' => sent items'
  end.
Fixpoint error_of (items : list Item) : option str :=
  match items with
  | [] => None
  | Err e :: _ => Some e
  | Ok _ :: items' => error_of items'
  end.

(** What the backend sends before its end or its first error. *)
Fixpoint until_error (script : list Item) : str :=
  match script with
  | Ok c :: script' => c ++ until_error script'
  | Err _ :: _ => []
  | [] => []
  end.

(** A stretch of the stream ends in more than the framer may hold of an event
    that is not over. *)
Definition oversized (piece : str) : Prop :=
  ∃ es p rest, lf_normalize piece = concat es ++ p ++ rest ∧ Forall is_event es ∧
    find_double_newline p = None ∧ (PENDING_HIGH_WATER < N.of_nat (length p))%N.
(** What goes out of a stream: its bytes with their line breaks normalized, but
    where an event grew over the limit: it is cut there by a blank line, and
    what follows starts afresh. *)
Definition cut_off (piece : str) : str := lf_normalize piece ++ [LF; LF].
Definition delivered (total out : str) : Prop :=
  ∃ pieces last, total = concat pieces ++ last ∧ Forall oversized pieces ∧
    out = concat (cut_off <$> pieces) ++ lf_normalize last.

(** A stretch of what went out is events that complete the response. *)
Definition marks_end (out : str) : Prop := ∃ before o after, out = before ++ o ++ after ∧ completes o = true.

#[export] Instance StreamEnd_eq_dec : EqDecision StreamEnd.
Proof. solve_decision. Defined.
#[export] Instance Completion_eq_dec : EqDecision Completion.
Proof. solve_decision. Defined.

(** * Facts *)

(** What is still to come, and the error it still ends with. *)
Definition to_come (st : StreamPassState) : str :=
  if done_ (underlying st) then [] else until_error (inner (underlying st)).
Definition error_to_come (st : StreamPassState) : option str :=
  match pending_error st with
  | Some e => Some e
  | None => if done_ (underlying st) then None else error_of (inner (underlying st))
  end.

(** The bytes sent, held and to come always make up the whole text: [pieces] have
    been cut off, [seg] has come in since and [own] gone out of it.  Once the
    last of it has been handed over nothing is held or to come. *)
Definition text_at (total out : str) (f : FramingState) (rest : str) (pieces : list str) (seg own : str) : Prop :=
  total = concat pieces ++ seg ++ rest ∧ Forall oversized pieces ∧ out = concat (cut_off <$> pieces) ++ own ∧
  ((∃ es, own = concat es ∧ Forall is_event es) ∧
     (∀ b, own ++ pending f ++ continue (cr_held f) b = lf_normalize (seg ++ b)) ∨
   pending f = [] ∧ cr_held f = false ∧ rest = [] ∧ own = lf_normalize seg).
Definition text_ok (total out : str) (f : FramingState) (rest : str) : Prop :=
  ∃ pieces seg own, text_at total out f rest pieces seg own.

Record pass_inv (an : bool) (total out : str) (st : StreamPassState) : Prop := {
  pi_text : text_ok total out (framing st) (to_come st);
  pi_fed : fed (framing st);
  pi_acc : accumulated st = if an then Some out else None;
  pi_err : is_Some (pending_error st) → done_ (underlying st) = true;
  pi_tx : completion_signaled st = bool_decide (completion_tx st = Sent Completed);
}.

Lemma detect_cases bytes tx :
  detect_and_signal_completion bytes tx = (false, tx) ∨
  tx = Unsent ∧ detect_and_signal_completion bytes tx = (true, Sent Completed).
Proof.
  unfold detect_and_signal_completion. destruct tx; [|auto].
  destruct (negb _); [auto|]. destruct (completes bytes); auto.
Qed.


(** With events that fit, nothing is cut off. *)
Lemma oversized_never a b : oversized a → ¬ events_fit (lf_normalize (a ++ b)).
Proof.
  intros (es1 & p & rest & E & F1 & Hp & Hw) (es & tail & (P1 & P2 & P3) & Hfit).
  assert (∃ r, lf_normalize (a ++ b) = lf_normalize a ++ r) as [r Er].
  { rewrite push_loop_app. pose proof (push_loop_app a []) as Ea. rewrite app_nil_r in Ea. rewrite Ea.
    destruct (push_loop a) as [o []]; cbn; [|exists (lf_normalize b); by rewrite app_nil_r].
    exists (lf_normalize (strip_lf b)). by rewrite <- app_assoc. }
  rewrite P1, E, <- !app_assoc in Er.
  pose proof (held_event_bound (λ e, (N.of_nat (length e) ≤ PENDING_HIGH_WATER)%N) es1 es p (rest ++ r) tail
    ltac:(simpl; lia) F1 P2 Hp P3 (eq_sym Er) Hfit). simpl in *. lia.
Qed.
Lemma delivered_fits total out : events_fit (lf_normalize total) → delivered total out → out = lf_normalize total.
Proof.
  intros Hfit (pieces & last & -> & F & ->). destruct F as [|a pieces Ha _]; [done|]. exfalso.
  simpl in Hfit. rewrite <- app_assoc in Hfit. by eapply oversized_never.
Qed.

Lemma deliver_inv an total out o st f :
  pass_inv an total out st → fed f → text_ok total (out ++ o) f (to_come st) →
  pass_inv an total (out ++ o) (deliver o (with_framing f st)).
Proof.
  intros [Hb Hf Hacc Herr Htx] Hf' E. unfold deliver. simpl.
  destruct (detect_and_signal_completion o (completion_tx st)) as [fired tx] eqn:Ed.
  split; simpl; try done.
  - rewrite Hacc. by destruct an.
  - destruct (detect_cases o (completion_tx st)) as [E1|[E1 E2]]; rewrite Ed in *; simplify_eq.
    + by rewrite orb_false_r.
    + by rewrite orb_true_r.
Qed.

Lemma count_events_inv an total out n st : pass_inv an total out st → pass_inv an total out (count_events n st).
Proof. by intros []. Qed.

Lemma deliver_tx o st :
  completion_tx (deliver o st) = completion_tx st ∨
  completion_tx st = Unsent ∧ completion_tx (deliver o st) = Sent Completed.
Proof.
  unfold deliver. destruct (detect_cases o (completion_tx st)) as [E|[E1 E2]]; rewrite ?E, ?E2; simpl; auto.
Qed.

Lemma deliver_same o st :
  underlying (deliver o st) = underlying st ∧ pending_error (deliver o st) = pending_error st ∧
  framing (deliver o st) = framing st.
Proof. unfold deliver. by destruct (detect_and_signal_completion _ _). Qed.

Lemma finish_spec f : (finish f).2 = framing_new ∧ default [] (finish f).1 = pending f ++ held_lf f.
Proof.
  unfold finish, held_lf. simpl. split; [done|].
  case_bool_decide as Hp; destruct (cr_held f); simpl in *; rewrite ?app_nil_r; congruence.
Qed.

Lemma framing_new_fed : fed framing_new.
Proof. apply at_rest_fed, settled_new. Qed.

(** ** One turn *)
Definition turn_ok (an : bool) (total out : str) (st : StreamPassState) (t : Turn) : Prop :=
  match t with
  | Return (Some (Ok o)) st' =>
      pass_inv an total (out ++ o) st' ∧ error_to_come st' = error_to_come st ∧
      (completion_tx st' = completion_tx st ∨ completion_tx st = Unsent ∧ completion_tx st' = Sent Completed)
  | Return (Some (Err e)) st' =>
      pass_inv an total out st' ∧ error_to_come st = Some e ∧ error_to_come st' = None ∧
      completion_tx st ≠ Sent Completed ∧ completion_tx st' = signal_end (completion_tx st) BackendError
  | Return None st' =>
      delivered total out ∧ accumulated st' = (if an then Some out else None) ∧
      (error_to_come st = None ∧ completion_tx st' = signal_end (completion_tx st) BackendClosed ∨
       completion_tx st = Sent Completed ∧ completion_tx st' = Sent Completed)
  | Continue st' =>
      pass_inv an total out st' ∧ error_to_come st' = error_to_come st ∧ completion_tx st' = completion_tx st
  end.

(** Handing over a tail at the end of the backend's bytes. *)
Lemma tail_inv an total out st tail :
  pass_inv an total out st → to_come st = [] → (finish (framing st)).1 = Some tail →
  pass_inv an total (out ++ tail) (deliver tail (with_framing framing_new st)).
Proof.
  intros Hi Hc Ht. destruct (finish_spec (framing st)) as [_ Hd]. rewrite Ht in Hd. simpl in Hd.
  apply deliver_inv; [done|apply framing_new_fed|].
  destruct (pi_text _ _ _ _ Hi) as (pieces & seg & own & Et & F & -> & [[_ Hb]|(Hp & Hh & _)]).
  - exists pieces, seg, (own ++ tail). split_and!; [done..|by rewrite <- app_assoc|]. right. split_and!; [done..|].
    specialize (Hb []). rewrite app_nil_r in Hb. rewrite <- Hb, Hd. unfold held_lf, continue.
    by destruct (cr_held (framing st)).
  - unfold finish in Ht. rewrite Hh, Hp in Ht. done.
Qed.

Lemma done_inv an total out st :
  pass_inv an total out st → to_come st = [] → (finish (framing st)).1 = None → delivered total out.
Proof.
  intros Hi Hc Ht. destruct (finish_spec (framing st)) as [_ Hd]. rewrite Ht in Hd. simpl in Hd.
  destruct (pi_text _ _ _ _ Hi) as (pieces & seg & own & Et & F & -> & Hown).
  exists pieces, seg. rewrite Hc, app_nil_r in Et. split_and!; [done..|]. f_equal.
  destruct Hown as [[_ Hb]|(_ & _ & _ & ->)]; [|done]. symmetry in Hd. apply app_nil in Hd as [Hp Hh].
  specialize (Hb []). rewrite Hp, app_nil_r in Hb. unfold held_lf in Hh.
  destruct (cr_held (framing st)); [done|]. simpl in Hb. by rewrite app_nil_r in Hb.
Qed.

Lemma error_to_come_done st e : pending_error st = Some e → error_to_come st = Some e.
Proof. unfold error_to_come. by intros ->. Qed.

(** Delivering a block of complete events. *)
Lemma events_turn an total out st o n f :
  pass_inv an total out st → take_framed (framing st) = (Events o n, f) →
  turn_ok an total out st (advance_turn st).
Proof.
  intros Hi E. unfold advance_turn. rewrite E. simpl.
  pose proof (take_framed_spec _ (pi_fed _ _ _ _ Hi)) as Hs. rewrite E in Hs.
  destruct Hs as (es & Hne & _ & -> & (P1 & P2 & P3) & Hr & Hh).
  assert (pass_inv an total (out ++ concat es) (deliver (concat es) (with_framing f (count_events n st)))) as Hi'.
  { apply deliver_inv; [by apply count_events_inv|by apply at_rest_fed|].
    change (to_come (count_events n st)) with (to_come st).
    destruct (pi_text _ _ _ _ Hi) as (pieces & seg & own & Et & F & -> & [[(es0 & -> & F0) Hb]|(Hp & _)]).
    - exists pieces, seg, (concat es0 ++ concat es). split_and!; [done..|by rewrite <- app_assoc|]. left. split.
      + exists (es0 ++ es). rewrite concat_app. split; [done|]. by apply Forall_app.
      + intros b. rewrite <- Hb, Hh, P1. by rewrite <- !app_assoc.
    - rewrite Hp in P1. symmetry in P1. apply app_nil in P1 as [P1 _].
      destruct P2 as [|e es (b & -> & _) _]; [done|]. simpl in P1. by destruct b. }
  split; [exact Hi'|]. destruct (deliver_same (concat es) (count_events n (with_framing f st))) as (D1 & D2 & _).
  split; [unfold error_to_come; by rewrite D1, D2|].
  exact (deliver_tx (concat es) (count_events n (with_framing f st))).
Qed.

(** Cutting off an event that is over the limit. *)
Lemma flush_turn an total out st o f :
  pass_inv an total out st → take_framed (framing st) = (ForceFlush o, f) →
  turn_ok an total out st (advance_turn st).
Proof.
  intros Hi E. unfold advance_turn. rewrite E. simpl.
  pose proof (take_framed_spec _ (pi_fed _ _ _ _ Hi)) as Hs. rewrite E in Hs. destruct Hs as (Hw & Hn & -> & ->).
  set (o := pending (framing st) ++ held_lf (framing st) ++ [LF; LF]).
  assert (pass_inv an total (out ++ o) (deliver o (with_framing framing_new (count_events 1 st)))) as Hi'.
  { apply deliver_inv; [by apply count_events_inv|apply framing_new_fed|].
    change (to_come (count_events 1 st)) with (to_come st).
    destruct (pi_text _ _ _ _ Hi) as (pieces & seg & own & Et & F & -> & [[(es0 & -> & F0) Hb]|(Hp & _)]);
      [|by rewrite Hp in Hw].
    assert (lf_normalize seg = concat es0 ++ pending (framing st) ++ held_lf (framing st)) as Hseg.
    { specialize (Hb []). rewrite app_nil_r in Hb. rewrite <- Hb. unfold held_lf. by destruct (cr_held (framing st)). }
    exists (pieces ++ [seg]), [], []. split_and!.
    - rewrite Et, concat_app. simpl. by rewrite app_nil_r, <- app_assoc.
    - apply Forall_app. split; [done|]. apply Forall_singleton. by exists es0, (pending (framing st)), (held_lf (framing st)).
    - rewrite fmap_app, concat_app. simpl. assert (cut_off seg = concat es0 ++ o) as ->.
      { unfold cut_off, o. rewrite Hseg. by rewrite <- !app_assoc. }
      by rewrite !app_nil_r, <- !app_assoc.
    - left. split; [by exists []|done]. }
  split; [exact Hi'|]. destruct (deliver_same o (count_events 1 (with_framing framing_new st))) as (D1 & D2 & _).
  split; [unfold error_to_come; by rewrite D1, D2|].
  exact (deliver_tx o (count_events 1 (with_framing framing_new st))).
Qed.

Lemma with_framing_id st : with_framing (framing st) st = st.
Proof. by destruct st. Qed.

Lemma drain_error_Some st e :
  pending_error st = Some e →
  drain_error st =
    match (finish (framing st)).1 with
    | Some tail => Emit (Ok tail) (deliver tail (with_framing framing_new st))
    | None =>
        if completion_signaled st then EndNow (with_error None (with_framing framing_new st))
        else Emit (Err e) (with_end BackendError (with_error None (with_framing framing_new st)))
    end.
Proof.
  intros He. unfold drain_error. rewrite He. cbv zeta. change (framing (with_error None st)) with (framing st).
  pose proof (finish_spec (framing st)) as [Hn _].
  destruct (finish (framing st)) as [[tail|] f]; simpl in Hn; subst f; [|done].
  simpl fst. cbv iota. f_equal. unfold deliver. simpl. destruct (detect_and_signal_completion _ _).
  unfold with_error. simpl. by rewrite He.
Qed.

(** Draining a backend error: the tail first, then the error. *)
Lemma drain_turn an total out st e :
  pass_inv an total out st → pending_error st = Some e → take_framed (framing st) = (Nothing, framing st) →
  turn_ok an total out st (advance_turn st).
Proof.
  intros Hi He E. unfold advance_turn. rewrite E, with_framing_id, (drain_error_Some st e He).
  assert (to_come st = []) as Hc.
  { unfold to_come. by rewrite (pi_err _ _ _ _ Hi) by by rewrite He. }
  destruct (finish (framing st)).1 as [tail|] eqn:Ef.
  - pose proof (tail_inv an total out st tail Hi Hc Ef) as Hi'.
    destruct (deliver_same tail (with_framing framing_new st)) as (D1 & D2 & _).
    split; [exact Hi'|]. split; [unfold error_to_come; by rewrite D1, D2|].
    exact (deliver_tx tail (with_framing framing_new st)).
  - pose proof (done_inv an total out st Hi Hc Ef) as Hout.
    pose proof (pi_tx _ _ _ _ Hi) as Htx. destruct (completion_signaled st) eqn:Hcs.
    + symmetry in Htx. apply bool_decide_eq_true in Htx.
      split; [done|]. split; [apply Hi|]. by right.
    + symmetry in Htx. apply bool_decide_eq_false in Htx.
      split_and!; try done; [|by apply error_to_come_done|].
      * split; simpl; try done.
        -- change (to_come (with_end _ _)) with (to_come st). destruct Hout as (pieces & last & -> & F & ->).
           exists pieces, last, (lf_normalize last). unfold text_at. rewrite Hc, app_nil_r. split_and!; [done..|]. by right.
        -- apply framing_new_fed.
        -- apply Hi.
        -- rewrite Hcs. symmetry. apply bool_decide_eq_false. by destruct (completion_tx st) as [|[]].
      * unfold error_to_come. simpl. rewrite (pi_err _ _ _ _ Hi); [done|by rewrite He].
Qed.

(** Going back to the backend. *)
Lemma poll_turn an total out st :
  pass_inv an total out st → settled (framing st) → pending_error st = None →
  take_framed (framing st) = (Nothing, framing st) →
  turn_ok an total out st (advance_turn st).
Proof.
  intros Hi Hs He E. unfold advance_turn. rewrite E, with_framing_id. unfold drain_error. rewrite He.
  destruct (underlying st) as [script dn] eqn:Eu. unfold poll_next. simpl done_. simpl inner.
  assert (dn = true ∨ dn = false ∧ script = [] → to_come st = []) as Hend.
  { unfold to_come. rewrite Eu. by intros [-> |[-> ->]]. }
  assert (dn = true ∨ dn = false ∧ script = [] → error_to_come st = None) as Hend'.
  { unfold error_to_come. rewrite He, Eu. by intros [-> |[-> ->]]. }
  assert (∀ u, dn = true ∨ dn = false ∧ script = [] → done_ u = true →
    turn_ok an total out st
      match finish (framing st) with
      | (Some tail, f) =>
          let '(item, st') := emit_block tail (with_framing f (with_underlying u st)) in Return (Some item) st'
      | (None, f) =>
          Return None (signal_activity (with_end BackendClosed (with_framing f (with_underlying u st))))
      end) as Hclose.
  { intros u Hd Hu. pose proof (finish_spec (framing st)) as [Hn _].
    specialize (Hend Hd). specialize (Hend' Hd).
    assert (pass_inv an total out (with_underlying u st)) as Hi'.
    { destruct Hi as [Hb Hf Hacc Herr Htx]. split; simpl; try done.
      unfold to_come in *. simpl. by rewrite Hu, <- Hend. }
    assert (to_come (with_underlying u st) = []) as Hc by (unfold to_come; simpl; by rewrite Hu).
    destruct (finish (framing st)) as [[tail|] f] eqn:Ef; simpl in Hn; subst f.
    - pose proof (tail_inv an total out _ tail Hi' Hc ltac:(change (framing (with_underlying u st)) with (framing st); by rewrite Ef)) as Hi''.
      destruct (deliver_same tail (with_framing framing_new (with_underlying u st))) as (D1 & D2 & _).
      split; [exact Hi''|]. split; [|exact (deliver_tx tail (with_framing framing_new (with_underlying u st)))].
      rewrite Hend'. unfold error_to_come. rewrite D1, D2. simpl. by rewrite He, Hu.
    - split; [|split; [apply Hi|by left]].
      apply (done_inv an total out _ Hi' Hc). change (framing (with_underlying u st)) with (framing st).
      by rewrite Ef. }
  destruct dn; [by apply Hclose; [left|]|].
  destruct script as [|[chunk|e] script]; [by apply Hclose; [right|]| |].
  - simpl negb. case_bool_decide as Hne.
    + subst chunk. split; [|split; [|by left]].
      * rewrite app_nil_r. destruct Hi as [Hb Hf Hacc Herr Htx]. split; simpl; try done;
          unfold to_come in *; rewrite Eu in *; done.
      * unfold error_to_come. simpl. by rewrite He, Eu.
    + split; [|split; [|done]].
      * destruct Hi as [(pieces & seg & own & Et & F & Eo & Hown) Hf Hacc Herr Htx]. split; simpl; try done.
        -- unfold to_come in *. rewrite Eu in Et, Hown. simpl in *. exists pieces, (seg ++ chunk), own.
           split_and!; [by rewrite <- app_assoc|done..|]. left.
           destruct Hown as [[Hes Hb]|(_ & _ & Hc & _)]; [|by apply app_nil in Hc as [-> _]].
           split; [done|]. intros b. by rewrite <- continue_push, <- app_assoc by done.
        -- by apply push_fed, Hs.
        -- rewrite He. by intros [].
      * unfold error_to_come. simpl. by rewrite He, Eu.
  - simpl negb. split; [|split; [|done]].
    + destruct Hi as [Hb Hf Hacc Herr Htx]. split; simpl; try done;
        unfold to_come in *; rewrite Eu in *; done.
    + unfold error_to_come. simpl. by rewrite He, Eu.
Qed.

(** The invariant is kept by every turn. *)
Lemma advance_turn_ok an total out st :
  pass_inv an total out st → turn_ok an total out st (advance_turn st).
Proof.
  intros Hi. pose proof (take_framed_spec _ (pi_fed _ _ _ _ Hi)) as Hs.
  destruct (take_framed (framing st)) as [[o n|o|] f] eqn:E; [by eapply events_turn|by eapply flush_turn|].
  assert (settled f) as Hset by (eapply take_framed_nothing; [apply Hi|done]).
  destruct Hs as (_ & Hp & Hh & _).
  assert (take_framed f = (Nothing, f)) as Ef.
  { destruct (take_framed_rest f (proj1 Hset)) as [[? _]|[o Eo]]; [done|].
    pose proof (take_framed_spec f (at_rest_fed _ (proj1 Hset))) as H. rewrite Eo in H.
    destruct H as [H _]. destruct Hset. lia. }
  assert (advance_turn st = advance_turn (with_framing f st)) as ->.
  { unfold advance_turn. rewrite E. change (framing (with_framing f st)) with f. by rewrite Ef. }
  assert (pass_inv an total out (with_framing f st)) as Hi'.
  { destruct Hi as [Hb Hf Hacc Herr Htx]. split; simpl; try done.
    - unfold text_ok, text_at in *. simpl. by rewrite Hp, Hh.
    - by apply at_rest_fed, Hset. }
  change (turn_ok an total out (with_framing f st) (advance_turn (with_framing f st))).
  destruct (pending_error st) as [e|] eqn:He; [by eapply drain_turn|by apply poll_turn].
Qed.

(** ** The whole stream *)
Lemma drive_delivers an total fuel out st items st' :
  pass_inv an total out st → drive fuel st = Some (items, st') →
  delivered total (out ++ sent items) ∧
  accumulated st' = (if an then Some (out ++ sent items) else None) ∧
  match error_to_come st with
  | None =>
      error_of items = None ∧
      match completion_tx st with
      | Sent _ => completion_tx st' = completion_tx st
      | Unsent => completion_tx st' = Sent Completed ∨ completion_tx st' = Sent BackendClosed
      end
  | Some e =>
      completion_tx st = Unsent ∨ completion_tx st = Sent Completed →
      error_of items = Some e ∧ completion_tx st' = Sent BackendError ∨
      error_of items = None ∧ completion_tx st' = Sent Completed
  end.
Proof.
  revert out st items st'. induction fuel as [|fuel IH]; intros out st items st' Hi E; [done|].
  pose proof (advance_turn_ok an total out st Hi) as Ht. cbn [drive] in E.
  destruct (advance_turn st) as [[[o|e]|] st1|st1]; simpl in Ht.
  - apply bind_Some in E as ([its st2] & Ed & E). simplify_eq. destruct Ht as (Hi1 & Ee & Etx).
    destruct (IH _ _ _ _ Hi1 Ed) as (Hb & Ha & Hm). simpl. rewrite app_assoc. split; [done|]. split; [done|].
    rewrite <- Ee. destruct (error_to_come st1) as [e|].
    + intros Hpre. apply Hm. destruct Etx as [-> |[_ ->]]; auto.
    + destruct Hm as [? Hm]. split; [done|]. destruct Etx as [<-|[-> Htx]]; [done|]. rewrite Htx in Hm. by left.
  - apply bind_Some in E as ([its st2] & Ed & E). simplify_eq. destruct Ht as (Hi1 & Ee & Ee1 & Hnc & Htx).
    destruct (IH _ _ _ _ Hi1 Ed) as (Hb & Ha & Hm). simpl. split; [done|]. split; [done|].
    rewrite Ee. rewrite Ee1 in Hm. intros [Hu|Hu]; [|done]. left. split; [done|].
    rewrite Htx, Hu in Hm. simpl in Hm. by destruct Hm.
  - simplify_eq. destruct Ht as (Hd & Ha & Hm). simpl. rewrite app_nil_r. split; [done|]. split; [done|].
    destruct Hm as [[-> Htx]|[Hc Htx]].
    + split; [done|]. rewrite Htx. destruct (completion_tx st); [by right|done].
    + destruct (error_to_come st); [by right|]. by rewrite Hc, Htx.
  - destruct Ht as (Hi1 & <- & <-). by eapply IH.
Qed.

(** The response counts as complete only after a block that completes it. *)
Lemma deliver_marked o st :
  completion_tx (deliver o st) = Sent Completed → completion_tx st = Sent Completed ∨ completes o = true.
Proof.
  unfold deliver, detect_and_signal_completion. destruct (completion_tx st); [|by left].
  destruct (negb _); [done|]. destruct (completes o); [by right|done].
Qed.

Lemma signal_end_completed tx e : e ≠ Completed → signal_end tx e = Sent Completed → tx = Sent Completed.
Proof. intros He. destruct tx; simpl; [by intros [= ->]|done]. Qed.

Lemma advance_turn_marked st :
  match advance_turn st with
  | Return (Some (Ok o)) st' => completion_tx st' = Sent Completed → completion_tx st = Sent Completed ∨ completes o = true
  | Return _ st' | Continue st' => completion_tx st' = Sent Completed → completion_tx st = Sent Completed
  end.
Proof.
  unfold advance_turn, emit_block. destruct (take_framed _) as [[o n|o|] f]; [exact (deliver_marked o (count_events n (with_framing f st)))|
    exact (deliver_marked o (count_events 1 (with_framing f st)))|].
  unfold drain_error. change (pending_error (with_framing f st)) with (pending_error st).
  destruct (pending_error st) as [e|].
  - destruct (finish _) as [[tail|] f'].
    + exact (deliver_marked tail (with_framing f' (with_error None (with_framing f st)))).
    + destruct (completion_signaled _); [done|]. by apply signal_end_completed.
  - destruct (poll_next _) as [[[chunk|e]|] u]; [by case_bool_decide; [left|]|done|].
    destruct (finish _) as [[tail|] f'].
    + exact (deliver_marked tail (with_framing f' (with_underlying u (with_framing f st)))).
    + by apply signal_end_completed.
Qed.

Lemma drive_marked fuel st items st' :
  drive fuel st = Some (items, st') → completion_tx st' = Sent Completed →
  completion_tx st = Sent Completed ∨ marks_end (sent items).
Proof.
  revert st items. induction fuel as [|fuel IH]; intros st items E Hc; [done|]. cbn [drive] in E.
  pose proof (advance_turn_marked st) as Ht.
  destruct (advance_turn st) as [[[o|e]|] st1|st1]; [| |simplify_eq; by auto|].
  - apply bind_Some in E as ([its st2] & Ed & E). simplify_eq. cbn [sent].
    destruct (IH _ _ Ed Hc) as [Hs|(a & o' & b & -> & Ho)]; [destruct (Ht Hs) as [|Ho]; [by left|]|]; right.
    + by exists [], o, (sent its).
    + exists (o ++ a), o', b. by rewrite <- app_assoc.
  - apply bind_Some in E as ([its st2] & Ed & E). simplify_eq. cbn [sent].
    destruct (IH _ _ Ed Hc) as [Hs|]; [left|right]; auto.
  - destruct (IH _ _ E Hc) as [Hs|]; [left|right]; auto.
Qed.

Lemma pass_new_inv script an : pass_inv an (until_error script) [] (pass_new script an).
Proof.
  split; try done; [|apply framing_new_fed|by intros []]. exists [], [], []. split_and!; [done..|]. left.
  split; [by exists []|done].
Qed.

(** ** The stream ends *)
Definition taken (f : FramingState) : nat := length (take_all 3 f).1.
Definition holds (f : FramingState) : nat := if (finish f).1 is Some _ then 1 else 0.
Definition turns_left (st : StreamPassState) : nat :=
  4 * (if done_ (underlying st) then 0 else length (inner (underlying st)))
  + 2 * (if pending_error st is Some _ then 1 else 0) + holds (framing st) + taken (framing st).

Lemma taken_settled f : settled f → taken f = 0.
Proof. intros Hs. unfold taken. by rewrite take_all_settled. Qed.

Lemma holds_pending f : pending f ≠ [] → holds f = 1.
Proof.
  intros Hp. unfold holds. destruct (finish_spec f) as [_ Hd]. destruct (finish f).1; [done|].
  simpl in Hd. symmetry in Hd. by apply app_nil in Hd as [? _].
Qed.

Lemma taken_cases f :
  fed f →
  match take_framed f with
  | (Nothing, f') => taken f = 0 ∧ settled f' ∧ holds f' = holds f
  | (ForceFlush _, f') => 1 ≤ taken f ∧ f' = framing_new
  | (Events _ _, f') => taken f = S (taken f') ∧ at_rest f' ∧ holds f' ≤ holds f
  end ∧ taken f ≤ 2.
Proof.
  intros Hf. destruct (take_all_cases f 0 Hf) as (fs & f2 & _ & E & Hs & Hc). 
  assert (taken f = length fs) as Ht by (unfold taken; by rewrite E). rewrite Ht.
  pose proof (take_framed_spec f Hf) as Hspec. simpl.
  destruct (take_framed f) as [[o n|o|] f1] eqn:Ef.
  - destruct Hspec as (es & Hne & _ & _ & (P1 & P2 & _) & Hr & Hh).
    assert (holds f = 1) as ->.
    { apply holds_pending. rewrite P1. pose proof (parses_last es P2 Hne) as Hl.
      intros [Hp _]%app_nil. rewrite Hp in Hl. simpl in Hl. lia. }
    assert (holds f1 ≤ 1) by (unfold holds; destruct (finish f1).1; lia).
    destruct Hc as [[-> ->]|(o' & E1 & -> & ->)]; simpl.
    + rewrite (taken_settled f1 Hs). split_and!; try done; lia.
    + assert (taken f1 = 1) as ->; [|split_and!; try done; lia].
      unfold taken. cbn [take_all]. by rewrite E1.
  - destruct Hc as [-> ->], Hspec as (_ & _ & _ & ->). simpl. split; [split; [lia|done]|lia].
  - destruct Hc as [-> ->]. destruct Hspec as (_ & Hp & Hh & _). simpl. split; [|lia]. split_and!; try done.
    unfold holds, finish. by rewrite Hp, Hh.
Qed.

Definition turn_decreases (st : StreamPassState) (t : Turn) : Prop :=
  match t with
  | Return None _ => True
  | Return (Some _) st' | Continue st' => fed (framing st') ∧ turns_left st' < turns_left st
  end.

Lemma holds_le f : holds f ≤ 1.
Proof. unfold holds. destruct (finish f).1; lia. Qed.

Lemma quiet_turn_decreases st :
  settled (framing st) → taken (framing st) = 0 →
  take_framed (framing st) = (Nothing, framing st) →
  turn_decreases st (advance_turn st).
Proof.
  intros Hs Ht E. unfold advance_turn. rewrite E, with_framing_id.
  destruct (pending_error st) as [e|] eqn:He.
  - rewrite (drain_error_Some st e He). destruct (finish (framing st)).1 as [tail|] eqn:Ef.
    + destruct (deliver_same tail (with_framing framing_new st)) as (D1 & D2 & D3). split.
      * rewrite D3. apply framing_new_fed.
      * unfold turns_left. rewrite D1, D2, D3. simpl. unfold holds at 2. rewrite Ef.
        change (holds framing_new) with 0. change (taken framing_new) with 0. lia.
    + destruct (completion_signaled st); [done|]. split; [apply framing_new_fed|].
      unfold turns_left. simpl. rewrite He. change (holds framing_new) with 0. change (taken framing_new) with 0. lia.
  - unfold drain_error. rewrite He. unfold poll_next.
    assert (∀ u, (if done_ u then 0 else length (inner u)) = 0 →
      turn_decreases st
        match finish (framing st) with
        | (Some tail, f) =>
            let '(item, st') := emit_block tail (with_framing f (with_underlying u st)) in Return (Some item) st'
        | (None, f) =>
            Return None (signal_activity (with_end BackendClosed (with_framing f (with_underlying u st))))
        end) as Hclose.
    { intros u Hu. pose proof (finish_spec (framing st)) as [Hn _].
      destruct (finish (framing st)) as [[tail|] f] eqn:Ef; simpl in Hn; subst f; [|done].
      destruct (deliver_same tail (with_framing framing_new (with_underlying u st))) as (D1 & D2 & D3).
      cbn [emit_block]. split; [rewrite D3; apply framing_new_fed|].
      unfold turns_left. rewrite D1, D2, D3. simpl. rewrite Hu. unfold holds at 2. rewrite Ef. cbn [fst].
      change (holds framing_new) with 0. change (taken framing_new) with 0. lia. }
    destruct (done_ (underlying st)) eqn:Hd; [apply Hclose; by rewrite Hd|].
    destruct (inner (underlying st)) as [|[chunk|e] script] eqn:Ei; [by apply Hclose| |].
    + case_bool_decide.
      * split; [by apply at_rest_fed, Hs|]. unfold turns_left. simpl. rewrite Hd, Ei. simpl. lia.
      * pose proof (push_fed (framing st) chunk (proj1 Hs)) as Hf'. split; [exact Hf'|].
        unfold turns_left. simpl. rewrite Hd, Ei. simpl. pose proof (holds_le (push (framing st) chunk)).
        destruct (taken_cases _ Hf') as [_ ?]. lia.
    + split; [by apply at_rest_fed, Hs|]. unfold turns_left. simpl. rewrite Hd, Ei, He. simpl. lia.
Qed.

Lemma advance_turn_decreases st : fed (framing st) → turn_decreases st (advance_turn st).
Proof.
  intros Hf. destruct (taken_cases _ Hf) as [Hc _].
  destruct (take_framed (framing st)) as [[o n|o|] f] eqn:E.
  - unfold advance_turn. rewrite E. destruct Hc as (Ht & Hr & Hh). cbn [emit_block].
    destruct (deliver_same o (count_events n (with_framing f st))) as (D1 & D2 & D3).
    split; [rewrite D3; by apply at_rest_fed|]. unfold turns_left. rewrite D1, D2, D3. simpl. lia.
  - unfold advance_turn. rewrite E. destruct Hc as (Ht & ->). cbn [emit_block].
    destruct (deliver_same o (count_events 1 (with_framing framing_new st))) as (D1 & D2 & D3).
    split; [rewrite D3; apply framing_new_fed|]. unfold turns_left. rewrite D1, D2, D3. simpl.
    change (holds framing_new) with 0. change (taken framing_new) with 0. lia.
  - destruct Hc as (Ht & Hs & Hh).
    assert (take_framed f = (Nothing, f)) as Ef.
    { destruct (take_framed_rest f (proj1 Hs)) as [[? _]|[o Eo]]; [done|].
      pose proof (take_framed_spec f (at_rest_fed _ (proj1 Hs))) as H. rewrite Eo in H.
      destruct H as [H _]. destruct Hs. lia. }
    assert (advance_turn st = advance_turn (with_framing f st)) as ->.
    { unfold advance_turn. rewrite E. change (framing (with_framing f st)) with f. by rewrite Ef. }
    assert (turns_left (with_framing f st) = turns_left st) as Hl.
    { unfold turns_left. simpl. by rewrite Hh, Ht, (taken_settled f Hs). }
    pose proof (quiet_turn_decreases (with_framing f st) Hs (taken_settled f Hs) Ef) as H.
    unfold turn_decreases in *. by rewrite Hl in H.
Qed.

Lemma drive_ends fuel st : fed (framing st) → turns_left st < fuel → is_Some (drive fuel st).
Proof.
  revert st. induction fuel as [|fuel IH]; intros st Hf Hl; [lia|]. cbn [drive].
  pose proof (advance_turn_decreases st Hf) as Hd.
  destruct (advance_turn st) as [[item|] st1|st1]; simpl in Hd; [| |destruct Hd; apply IH; [done|lia]].
  - destruct Hd as [Hf1 Hl1]. destruct (IH st1 Hf1 ltac:(lia)) as [[its st2] ->]. by eexists.
  - by eexists.
Qed.

Lemma pass_new_ends script an : is_Some (drive (4 * length script + 1) (pass_new script an)).
Proof.
  apply drive_ends; [apply framing_new_fed|]. unfold turns_left. simpl done_. simpl inner.
  simpl pending_error. change (holds (framing (pass_new script an))) with 0.
  change (taken (framing (pass_new script an))) with 0. cbv iota. lia.
Qed.

Lemma drive_mono fuel fuel' st r : fuel ≤ fuel' → drive fuel st = Some r → drive fuel' st = Some r.
Proof.
  revert fuel' st r. induction fuel as [|fuel IH]; intros fuel' st r Hl E; [done|].
  destruct fuel' as [|fuel']; [lia|]. cbn [drive] in *. destruct (advance_turn st) as [[item|] st1|st1].
  - apply bind_Some in E as ([its st2] & Ed & E). by rewrite (IH fuel' _ _ ltac:(lia) Ed).
  - done.
  - apply IH; [lia|done].
Qed.

(** ** Nothing follows an error *)
Lemma error_turn st e st' :
  (is_Some (pending_error st) → done_ (underlying st) = true) → advance_turn st = Return (Some (Err e)) st' →
  framing st' = framing_new ∧ done_ (underlying st') = true ∧ pending_error st' = None.
Proof.
  intros Hd E. unfold advance_turn, emit_block in E. destruct (take_framed (framing st)) as [[o n|o|] f]; [done..|].
  unfold drain_error in E. cbn [pending_error with_framing] in E. destruct (pending_error st) as [err|] eqn:Hp.
  - cbn [framing with_error with_framing] in E. pose proof (finish_spec f) as [Hn _].
    destruct (finish f) as [[tail|] f']; [done|]. cbn [snd] in Hn. subst f'. cbn [completion_signaled with_error with_framing] in E.
    destruct (completion_signaled st); [done|]. injection E as _ <-. cbn. split_and!; [done|by apply Hd|done].
  - cbn [underlying with_framing] in E. destruct (poll_next (underlying st)) as [[[chunk|e']|] u]; [case_bool_decide; done|done|].
    cbn [framing with_framing] in E. by destruct (finish f) as [[tail|] f'].
Qed.

Lemma drive_ended fuel st items st' :
  framing st = framing_new → done_ (underlying st) = true → pending_error st = None →
  drive fuel st = Some (items, st') → items = [].
Proof.
  intros Hf Hu Hp E. destruct fuel as [|fuel]; [done|]. cbn [drive] in E.
  assert (∃ st1, advance_turn st = Return None st1) as [st1 Ea].
  { unfold advance_turn. rewrite Hf. change (take_framed framing_new) with (Nothing, framing_new). cbv iota beta zeta.
    unfold drain_error. cbn [pending_error with_framing]. rewrite Hp. unfold poll_next. cbn [underlying with_framing]. rewrite Hu.
    by eexists. }
  rewrite Ea in E. by injection E as <- _.
Qed.

Lemma drive_error_last an total fuel out st items st' :
  pass_inv an total out st → drive fuel st = Some (items, st') → until_error items = sent items.
Proof.
  revert out st items st'. induction fuel as [|fuel IH]; intros out st items st' Hi E; [done|].
  pose proof (advance_turn_ok an total out st Hi) as Ht. cbn [drive] in E.
  destruct (advance_turn st) as [[[o|e]|] st1|st1] eqn:Ea; cbn [turn_ok] in Ht.
  - apply bind_Some in E as ([its st2] & Ed & E). injection E as <- <-. cbn. f_equal. destruct Ht as [Hi1 _]. by eapply IH.
  - apply bind_Some in E as ([its st2] & Ed & E). injection E as <- <-. cbn.
    destruct (error_turn st e st1 (pi_err _ _ _ _ Hi) Ea) as (Hf & Hu & Hp).
    by rewrite (drive_ended fuel st1 its st2 Hf Hu Hp Ed).
  - by injection E as <- _.
  - destruct Ht as [Hi1 _]. by eapply IH.
Qed.

(** The stream ends: four turns per item of the backend's script are enough,
    whatever the script, and more of them change nothing. *)
Theorem pass_through_ends script an :
  ∃ r, ∀ fuel, 4 * length script + 1 ≤ fuel → drive fuel (pass_new script an) = Some r.
Proof.
  destruct (pass_new_ends script an) as [r E]. exists r. intros fuel Hf. by eapply drive_mono.
Qed.

(** C4: Whatever a backend sends, in whatever chunks, the stream ends and what goes
    out is its bytes, once, in order and with line breaks normalized; nothing
    is added but a blank line where an event has grown over 1 MiB unfinished,
    and if no event does, nothing at all.  The observer sees the same bytes, and
    the stream ends the way the backend did: a backend error reaches the client
    unless the response was already complete, which it is only where what went
    out holds events that complete it. *)
Theorem pass_through_delivers script an :
  ∃ items st', drive (4 * length script + 1) (pass_new script an) = Some (items, st') ∧
  delivered (until_error script) (sent items) ∧
  (events_fit (lf_normalize (until_error script)) → sent items = lf_normalize (until_error script)) ∧
  accumulated st' = (if an then Some (sent items) else None) ∧
  match error_of script with
  | None => error_of items = None ∧ (completion_tx st' = Sent Completed ∨ completion_tx st' = Sent BackendClosed)
  | Some e =>
      error_of items = Some e ∧ completion_tx st' = Sent BackendError ∨
      error_of items = None ∧ completion_tx st' = Sent Completed
  end ∧ (completion_tx st' = Sent Completed → marks_end (sent items)).
Proof.
  destruct (pass_new_ends script an) as [[items st'] E]. exists items, st'. split; [done|].
  destruct (drive_delivers an _ _ [] _ _ _ (pass_new_inv script an) E) as (Hb & Ha & Hm).
  simpl in Hb, Ha. split; [done|]. split; [intros Hfit; by apply delivered_fits|]. split; [done|].
  change (error_to_come (pass_new script an)) with (error_of script) in Hm.
  split; [destruct (error_of script); [|done]; apply Hm; by left|].
  intros Hc. by destruct (drive_marked _ _ _ _ E Hc).
Qed.
