(* ===== verification/Merge.v ===== *)
(** * Merging a stream back into one response
    (llama-proxy/src/proxy/streaming.rs; [merge_stream_stats] of stats/collector.rs)

    [None] is a panic: a string-keyed write into a value that is neither an
    object nor null. *)
From S2P Require Import Prelude Json Sse.

Definition MAX_TRACKED_BLOCK_INDEX : Z := 100.

(** ** Formats and events *)
Inductive StreamFormat := OpenAI | Anthropic | Unknown.

Definition is_anthropic_event (name : str) : bool :=
  existsb (λ n, bool_decide (name = lit n))
    ["message_start"; "content_block_start"; "content_block_delta"; "content_block_stop";
     "message_delta"; "message_stop"; "ping"; "error"]%string.

Record SseEvent := mkEvent {
  event_type : option str;
  data : Value;
}.

Section Parse.
Context `{Serde}.

(** What one line decides, if anything. *)
Definition detect_line (line : str) : option StreamFormat :=
  let by_event :=
    match strip_field line (lit "event:") with
    | Some e =>
        if bool_decide (e = lit "message_start") || bool_decide (e = lit "content_block_delta")
        then Some Anthropic else None
    | None => None
    end in
  match by_event with
  | Some f => Some f
  | None =>
      json ← strip_field line (lit "data:") ≫= from_str;
      match get json (lit "choices") with
      | Some _ => Some OpenAI
      | None =>
          match get json (lit "type") ≫= as_str with
          | Some t => if is_anthropic_event t then Some Anthropic else None
          | None => None
          end
      end
  end.

Fixpoint detect_lines (ls : list str) : StreamFormat :=
  match ls with
  | [] => Unknown
  | l :: ls' => match detect_line l with Some f => f | None => detect_lines ls' end
  end.
Definition detect_format (data : str) : StreamFormat := detect_lines (lines data).

Fixpoint parse_lines (ls : list str) (current : option str) : list SseEvent :=
  match ls with
  | [] => []
  | line :: ls' =>
      if bool_decide (line = []) then parse_lines ls' None
      else
        match strip_field line (lit "event:") with
        | Some v => parse_lines ls' (Some v)
        | None =>
            match strip_field line (lit "data:") with
            | Some json_str =>
                if bool_decide (trim json_str = DONE) then parse_lines ls' current
                else
                  match from_str json_str with
                  | Some json => mkEvent current json :: parse_lines ls' current
                  | None => parse_lines ls' current
                  end
            | None => parse_lines ls' current
            end
        end
  end.
Definition parse_sse_events (data : str) : list SseEvent := parse_lines (lines data) None.
End Parse.

(** ** OpenAI chunks *)
Definition seed_message : Value :=
  VObject [(lit "role", vstr "assistant"); (lit "content", VNull); (lit "tool_calls", VNull)].

Definition seed_choice (choice : Value) : Value :=
  match choice with
  | VObject obj =>
      match map_get (lit "delta") obj, map_get (lit "message") obj with
      | None, Some _ => VObject obj
      | _, _ => VObject (map_insert (lit "message") seed_message (map_remove (lit "delta") obj))
      end
  | _ => choice
  end.

(** A string-valued key that grows: appended to, or (re)created. *)
Definition append_str (obj : list (str * Value)) (k s : str) : list (str * Value) :=
  match map_get k obj with
  | Some (VString existing) => map_insert k (VString (existing ++ s)) obj
  | _ => map_insert k (VString s) obj
  end.

(** The name and argument fragments of a continuation. *)
Definition merge_name (obj : list (str * Value)) (name : str) : list (str * Value) :=
  match map_get (lit "name") obj with
  | Some (VString existing) =>
      if bool_decide (existing = []) then map_insert (lit "name") (VString name) obj
      else if bool_decide (existing ≠ name) then map_insert (lit "name") (VString (existing ++ name)) obj
      else obj
  | _ => map_insert (lit "name") (VString name) obj
  end.

Definition merge_tool_call_slot (slot new_call : Value) : option Value :=
  match get new_call (lit "function") with
  | None => Some slot
  | Some new_func =>
      match get slot (lit "function") with
      | None => index_set slot (lit "function") new_func
      | Some (VObject acc_func) =>
          let acc_func :=
            match get new_func (lit "name") ≫= as_str with
            | Some name => if bool_decide (name = []) then acc_func else merge_name acc_func name
            | None => acc_func
            end in
          let acc_func :=
            match get new_func (lit "arguments") ≫= as_str with
            | Some args => append_str acc_func (lit "arguments") args
            | None => acc_func
            end in
          Some (set_key slot (lit "function") (VObject acc_func))
      | Some _ => Some slot
      end
  end.

(** [while arr.len() <= idx { arr.push(Null) }] *)
Definition grow (arr : list Value) (idx : nat) : list Value :=
  arr ++ replicate (S idx - length arr) VNull.

(** Position of the last entry that is not null. *)
Fixpoint last_non_null (arr : list Value) : option nat :=
  match arr with
  | [] => None
  | v :: arr' =>
      match last_non_null arr' with
      | Some i => Some (S i)
      | None => if is_null v then None else Some 0
      end
  end.

Definition merge_tool_call (acc_arr : list Value) (new_call : Value) : option (list Value) :=
  match get new_call (lit "index") ≫= as_u64 with
  | Some idx =>
      if (MAX_TRACKED_BLOCK_INDEX <? idx)%Z then Some acc_arr
      else
        let i := Z.to_nat idx in
        let acc_arr := grow acc_arr i in
        match acc_arr !! i with
        | Some VNull => Some (<[i := new_call]> acc_arr)
        | Some slot => slot' ← merge_tool_call_slot slot new_call; Some (<[i := slot']> acc_arr)
        | None => None
        end
  | None =>
      match last_non_null acc_arr with
      | Some i =>
          match acc_arr !! i with
          | Some slot => slot' ← merge_tool_call_slot slot new_call; Some (<[i := slot']> acc_arr)
          | None => None
          end
      | None => Some (acc_arr ++ [new_call])
      end
  end.

Fixpoint merge_tool_calls (acc_arr : list Value) (new_arr : list Value) : option (list Value) :=
  match new_arr with
  | [] => Some acc_arr
  | c :: new_arr' => acc_arr' ← merge_tool_call acc_arr c; merge_tool_calls acc_arr' new_arr'
  end.

(** [if let Some(m) = acc_choice.get_mut("message") { .. }] *)
Definition with_message (acc_choice : Value) (f : Value → option Value) : option Value :=
  match get acc_choice (lit "message") with
  | Some m => m' ← f m; Some (set_key acc_choice (lit "message") m')
  | None => Some acc_choice
  end.

(** [match m.get_mut(k) { Some(String(e)) => e.push_str(s), _ => m[k] = s }] *)
Definition push_text (k s : str) (m : Value) : option Value :=
  match get m k with
  | Some (VString existing) => Some (set_key m k (VString (existing ++ s)))
  | _ => index_set m k (VString s)
  end.

Definition merge_message_tools (tool_calls : Value) (m : Value) : option Value :=
  match get m (lit "tool_calls") with
  | Some VNull => Some (set_key m (lit "tool_calls") tool_calls)
  | Some (VArray acc_arr) =>
      match tool_calls with
      | VArray new_arr =>
          acc_arr' ← merge_tool_calls acc_arr new_arr;
          Some (set_key m (lit "tool_calls") (VArray acc_arr'))
      | _ => Some m
      end
  | _ => Some m
  end.

(** One optional field of the delta. *)
Definition on_field {A} (x : option A) (f : A → Value → option Value) (acc_choice : Value) : option Value :=
  match x with Some a => with_message acc_choice (f a) | None => Some acc_choice end.

Definition merge_delta (acc_choice delta : Value) : option Value :=
  c1 ← on_field (match get delta (lit "role") with Some r => if is_string r then Some r else None | None => None end)
         (λ role m, index_set m (lit "role") role) acc_choice;
  c2 ← on_field (get delta (lit "content") ≫= as_str) (push_text (lit "content")) c1;
  c3 ← on_field (get delta (lit "reasoning_text") ≫= as_str) (push_text (lit "reasoning_text")) c2;
  c4 ← on_field (get delta (lit "reasoning_opaque")) (λ o m, index_set m (lit "reasoning_opaque") o) c3;
  on_field (get delta (lit "tool_calls")) merge_message_tools c4.

Definition merge_choice (acc_choice choice : Value) : option Value :=
  c ← match get choice (lit "delta") with Some delta => merge_delta acc_choice delta | None => Some acc_choice end;
  match get choice (lit "finish_reason") with
  | Some finish => if is_null finish then Some c else index_set c (lit "finish_reason") finish
  | None => Some c
  end.

(** The loop over the chunk's choices, [i] of them done. *)
Fixpoint merge_choices (i : nat) (acc_choices chunk_choices : list Value) : option (list Value) :=
  match chunk_choices with
  | [] => Some acc_choices
  | choice :: rest =>
      let acc_choices := if length acc_choices =? i then acc_choices ++ [seed_choice choice] else acc_choices in
      acc_choices' ←
        match acc_choices !! i with
        | Some acc_choice => c ← merge_choice acc_choice choice; Some (<[i := c]> acc_choices)
        | None => Some acc_choices
        end;
      merge_choices (S i) acc_choices' rest
  end.

(** [if let Some(v) = chunk.get(k) { acc[k] = v }], with a filter on [v]. *)
Definition copy_stat (k : str) (keep : Value → bool) (chunk acc : Value) : option Value :=
  match get chunk k with
  | Some v => if keep v then index_set acc k v else Some acc
  | None => Some acc
  end.

Definition merge_stream_stats (acc chunk : Value) : option Value :=
  a1 ← copy_stat (lit "usage") (λ _, true) chunk acc;
  a2 ← copy_stat (lit "model") (λ v, negb (is_null v)) chunk a1;
  a3 ← copy_stat (lit "timings") (λ _, true) chunk a2;
  copy_stat (lit "metrics") (λ v, negb (is_null v)) chunk a3.

Definition merge_into (acc chunk : Value) : option Value :=
  acc' ←
    match get acc (lit "choices"), get chunk (lit "choices") with
    | Some (VArray acc_choices), Some (VArray chunk_choices) =>
        cs ← merge_choices 0 acc_choices chunk_choices;
        Some (set_key acc (lit "choices") (VArray cs))
    | _, _ => Some acc
    end;
  merge_stream_stats acc' chunk.

Definition envelope_of (chunk : Value) : option Value :=
  match get chunk (lit "choices") with
  | Some (VArray _) => Some (set_key chunk (lit "choices") (VArray []))
  | _ => index_set chunk (lit "choices") (VArray [])
  end.

Definition merge_chunk (acc : option Value) (chunk : Value) : option Value :=
  match acc with
  | None => envelope ← envelope_of chunk; merge_into envelope chunk
  | Some acc => merge_into acc chunk
  end.

Fixpoint merge_openai (combined : option Value) (events : list Value) : option (option Value) :=
  match events with
  | [] => Some combined
  | e :: events' => c ← merge_chunk combined e; merge_openai (Some c) events'
  end.

(** ** Anthropic events *)
Definition event_index (e : Value) : Z := default 0%Z (get e (lit "index") ≫= as_u64).

(** Runs [f] on the content array; anything else is left alone. *)
Definition with_content (message : Value) (f : list Value → list Value) : Value :=
  match get message (lit "content") with
  | Some (VArray content) => set_key message (lit "content") (VArray (f content))
  | _ => message
  end.

Definition block_type_of (delta : Value) : str :=
  let delta_type := default (lit "text_delta") (get delta (lit "type") ≫= as_str) in
  if bool_decide (delta_type = lit "thinking_delta") then lit "thinking"
  else if bool_decide (delta_type = lit "input_json_delta") then lit "tool_use"
  else lit "text".

Definition append_field (delta : Value) (from to : str) (obj : list (str * Value)) : list (str * Value) :=
  match get delta from ≫= as_str with
  | Some s => append_str obj to s
  | None => obj
  end.

Definition apply_block_delta (delta : Value) (idx : nat) (content : list Value) : list Value :=
  let content := grow content idx in
  match content !! idx with
  | Some slot =>
      let block := if is_null slot then VObject [(lit "type", VString (block_type_of delta))] else slot in
      let block :=
        match block with
        | VObject obj =>
            VObject (append_field delta (lit "partial_json") (lit "input")
                       (append_field delta (lit "thinking") (lit "thinking")
                          (append_field delta (lit "text") (lit "text") obj)))
        | _ => block
        end in
      <[idx := block]> content
  | None => content
  end.

Definition anthropic_event_type (e : SseEvent) : str :=
  match event_type e with
  | Some t => t
  | None => default [] (get (data e) (lit "type") ≫= as_str)
  end.

Definition merge_message_delta (message ev : Value) : option Value :=
  m1 ← match (d ← get ev (lit "delta"); get d (lit "stop_reason") ≫= as_str) with
       | Some stop => index_set message (lit "stop_reason") (VString stop)
       | None => Some message
       end;
  match get ev (lit "usage") with
  | None => Some m1
  | Some usage =>
      match get m1 (lit "usage") with
      | Some (VObject obj) =>
          match get usage (lit "output_tokens") with
          | Some t => Some (set_key m1 (lit "usage") (VObject (map_insert (lit "output_tokens") t obj)))
          | None => Some m1
          end
      | Some _ => Some m1
      | None => index_set m1 (lit "usage") usage
      end
  end.

Definition merge_anthropic_event (message : Value) (e : SseEvent) : option Value :=
  let ev := data e in
  let t := anthropic_event_type e in
  if bool_decide (t = lit "message_start") then
    match get ev (lit "message") with
    | Some msg =>
        match get msg (lit "content") with
        | None => index_set msg (lit "content") (VArray [])
        | Some _ => Some msg
        end
    | None => Some message
    end
  else if bool_decide (t = lit "content_block_start") then
    let idx := event_index ev in
    if (MAX_TRACKED_BLOCK_INDEX <? idx)%Z then Some message
    else
      Some (match get ev (lit "content_block") with
            | Some block => with_content message (λ content, <[Z.to_nat idx := block]> (grow content (Z.to_nat idx)))
            | None => message
            end)
  else if bool_decide (t = lit "content_block_delta") then
    let idx := event_index ev in
    if (MAX_TRACKED_BLOCK_INDEX <? idx)%Z then Some message
    else
      Some (match get ev (lit "delta") with
            | Some delta => with_content message (apply_block_delta delta (Z.to_nat idx))
            | None => message
            end)
  else if bool_decide (t = lit "message_delta") then merge_message_delta message ev
  else Some message.

Fixpoint merge_anthropic_go (message : Value) (events : list SseEvent) : option Value :=
  match events with
  | [] => Some message
  | e :: events' => m ← merge_anthropic_event message e; merge_anthropic_go m events'
  end.
Definition merge_anthropic_events (events : list SseEvent) : option Value :=
  merge_anthropic_go (VObject [(lit "content", VArray [])]) events.

(** The merged response, if any; the outer [None] is a panic. *)
Definition parse_accumulated_sse `{Serde} (text : str) : option (option Value) :=
  match detect_format text with
  | Anthropic => Some <$> merge_anthropic_events (parse_sse_events text)
  | OpenAI => merge_openai None (data <$> parse_sse_events text)
  | Unknown => Some None
  end.

(** * Facts *)

(** ** Tool-call fragments *)
Definition is_obj (v : Value) : Prop := is_Some (as_object v).
Definition args_of (call : Value) : str :=
  default [] (f ← get call (lit "function"); get f (lit "arguments") ≫= as_str).
Definition args_at (arr : list Value) (i : nat) : str :=
  match arr !! i with Some v => args_of v | None => [] end.

(** A recorded slot: empty, or an object whose function, if any, is an object. *)
Definition slot_ok (v : Value) : Prop :=
  v = VNull ∨ is_obj v ∧ match get v (lit "function") with Some f => is_obj f | None => True end.

(** A fragment of the call at [i], any index there is. *)
Definition fragment (i : nat) (v : Value) : Prop :=
  v ≠ VNull ∧ slot_ok v ∧ get v (lit "index") = Some (vnat i) ∧ (Z.of_nat i < 2 ^ 64)%Z.

Lemma get_object v k x : get v k = Some x → is_obj v.
Proof. destruct v; try done. by eexists. Qed.

Lemma append_str_get obj k s k' :
  map_get k' (append_str obj k s) =
    if decide (k = k') then Some (VString (default [] (map_get k obj ≫= as_str) ++ s)) else map_get k' obj.
Proof.
  unfold append_str. destruct (map_get k obj) as [[]|] eqn:E; rewrite map_get_insert; by case_decide.
Qed.

Lemma merge_name_get obj name k :
  k ≠ lit "name" → map_get k (merge_name obj name) = map_get k obj.
Proof.
  intros Hk. unfold merge_name. destruct (map_get (lit "name") obj) as [[]|]; try case_bool_decide;
    try case_bool_decide; rewrite ?map_get_insert; try by rewrite decide_False by congruence. done.
Qed.

Lemma merge_slot_ok slot frag :
  slot ≠ VNull → slot_ok slot → frag ≠ VNull → slot_ok frag →
  ∃ slot', merge_tool_call_slot slot frag = Some slot' ∧ slot' ≠ VNull ∧ slot_ok slot' ∧
    args_of slot' = args_of slot ++ args_of frag.
Proof.
  intros Hn [?|[[obj Ho] Hf]] Hn' [?|[[obj' Ho'] Hf']]; try done.
  destruct slot as [| | | | |so]; try done. destruct frag as [| | | | |fo]; try done.
  unfold merge_tool_call_slot, args_of. simpl get at 1. simpl in Hf, Hf'.
  destruct (map_get (lit "function") fo) as [nf|] eqn:Ef'.
  2:{ exists (VObject so). simpl. rewrite Ef'. simpl. rewrite app_nil_r. split_and!; try done.
      right. split; [by eexists|]. simpl. exact Hf. }
  destruct Hf' as [nfo Hnf]. destruct nf as [| | | | |nfo']; try done. clear nfo Hnf.
  simpl get at 1. destruct (map_get (lit "function") so) as [af|] eqn:Ef.
  2:{ exists (VObject (map_insert (lit "function") (VObject nfo') so)). simpl.
      rewrite map_get_insert, decide_True, Ef, Ef' by done. simpl. split_and!; try done.
      right. split; [by eexists|]. simpl. rewrite map_get_insert, decide_True by done. by eexists. }
  destruct Hf as [afo Haf]. destruct af as [| | | | |afo']; try done. clear afo Haf. cbv zeta.
  set (afo1 := match get (VObject nfo') (lit "name") ≫= as_str with Some n => _ | None => _ end).
  assert (map_get (lit "arguments") afo1 = map_get (lit "arguments") afo') as Ha1.
  { unfold afo1. destruct (get (VObject nfo') (lit "name") ≫= as_str); [|done]. case_bool_decide; [done|].
    by rewrite merge_name_get. }
  eexists. split; [done|]. simpl. rewrite Ef. simpl. rewrite map_get_insert, decide_True, Ef' by done. simpl.
  split_and!; [done| |].
  - right. split; [by eexists|]. simpl. rewrite map_get_insert, decide_True by done. by eexists.
  - destruct (map_get (lit "arguments") nfo' ≫= as_str) as [args|]; simpl.
    + rewrite append_str_get, decide_True, Ha1 by done. done.
    + by rewrite Ha1, app_nil_r.
Qed.

Lemma grow_lookup arr idx i :
  grow arr idx !! i = match arr !! i with Some v => Some v | None => if decide (i ≤ idx) then Some VNull else None end.
Proof.
  unfold grow. destruct (arr !! i) as [v|] eqn:E; [by apply lookup_app_l_Some|].
  apply lookup_ge_None in E. rewrite lookup_app_r by done. case_decide.
  - apply lookup_replicate_2. lia.
  - apply lookup_ge_None. rewrite length_replicate. lia.
Qed.

Lemma length_grow arr idx : length (grow arr idx) = length arr `max` S idx.
Proof. unfold grow. rewrite length_app, length_replicate. lia. Qed.

Lemma args_at_grow arr idx i : args_at (grow arr idx) i = args_at arr i.
Proof. unfold args_at. rewrite grow_lookup. destruct (arr !! i); [done|]. by case_decide. Qed.

Lemma grow_ok arr idx : Forall slot_ok arr → Forall slot_ok (grow arr idx).
Proof. intros H. apply Forall_app. split; [done|]. apply Forall_replicate. by left. Qed.

Lemma args_at_insert arr i v j :
  i < length arr → args_at (<[i := v]> arr) j = if decide (i = j) then args_of v else args_at arr j.
Proof.
  intros Hi. unfold args_at. case_decide; subst.
  - by rewrite list_lookup_insert_eq.
  - by rewrite list_lookup_insert_ne.
Qed.

Lemma merge_fragment arr i frag :
  Forall slot_ok arr → fragment i frag →
  ∃ arr', merge_tool_call arr frag = Some arr' ∧ Forall slot_ok arr' ∧
    length arr' = length arr `max` (if decide (i ≤ 100) then S i else 0) ∧
    ∀ j, args_at arr' j = args_at arr j ++ (if decide (i = j ∧ i ≤ 100) then args_of frag else []).
Proof.
  intros Ha (Hn & Hf & Hi & Hw). unfold merge_tool_call. rewrite Hi. cbn [mbind option_bind vnat as_u64].
  rewrite (proj2 (Z.leb_le 0 (Z.of_nat i))) by lia. rewrite (proj2 (Z.ltb_lt (Z.of_nat i) _)) by lia. cbn [andb].
  unfold MAX_TRACKED_BLOCK_INDEX. destruct (decide (i ≤ 100)) as [Hle|Hgt].
  2: { rewrite (proj2 (Z.ltb_lt 100 (Z.of_nat i))) by lia. exists arr. split_and!; [done..|lia|].
       intros j. rewrite decide_False by tauto. by rewrite app_nil_r. }
  rewrite (proj2 (Z.ltb_ge 100 (Z.of_nat i))) by lia. rewrite Nat2Z.id.
  assert (i < length (grow arr i)) as Hlt by (rewrite length_grow; lia).
  destruct (lookup_lt_is_Some_2 _ _ Hlt) as [slot Hs]. cbv zeta. rewrite Hs.
  pose proof (Forall_lookup_1 _ _ _ _ (grow_ok arr i Ha) Hs) as Hslot.
  assert (args_at arr i = args_of slot) as Hargs by (rewrite <- (args_at_grow arr i); unfold args_at; by rewrite Hs).
  assert (∀ slot', args_of slot' = args_of slot ++ args_of frag → ∀ j,
    args_at (<[i:=slot']> (grow arr i)) j = args_at arr j ++ (if decide (i = j ∧ i ≤ 100) then args_of frag else [])) as Hat.
  { intros slot' Hs' j. rewrite args_at_insert, args_at_grow by done. destruct (decide (i = j)) as [->|Hne].
    - by rewrite decide_True, Hs', Hargs by done.
    - rewrite decide_False by tauto. by rewrite app_nil_r. }
  assert (∀ slot' : Value, length (<[i:=slot']> (grow arr i)) = length arr `max` S i) as Hlen by (intros; by rewrite length_insert, length_grow).
  assert (slot = VNull ∨ slot ≠ VNull) as [->|Hns] by (destruct slot; auto).
  - exists (<[i:=frag]> (grow arr i)). split_and!; [done|by apply Forall_insert; [apply grow_ok|]|apply Hlen|by apply Hat].
  - destruct (merge_slot_ok slot frag Hns Hslot Hn Hf) as (slot' & E & Hns' & Hok & Hargs').
    exists (<[i:=slot']> (grow arr i)). split_and!; [destruct slot; try done; by rewrite E| |apply Hlen|by apply Hat].
    by apply Forall_insert; [apply grow_ok|].
Qed.

(** The fragments of one call, in order; those over the cap are of none. *)
Definition args_for (j : nat) (frags : list (nat * Value)) : str :=
  concat ((λ f, args_of f.2) <$> filter (λ f, f.1 = j ∧ f.1 ≤ 100) frags).
Lemma args_for_app j fs fs' : args_for j (fs ++ fs') = args_for j fs ++ args_for j fs'.
Proof. unfold args_for. by rewrite filter_app, fmap_app, concat_app. Qed.

Lemma merge_fragments arr frags :
  Forall slot_ok arr → Forall (λ f, fragment f.1 f.2) frags →
  ∃ arr', merge_tool_calls arr frags.*2 = Some arr' ∧ Forall slot_ok arr' ∧
    (∀ j, args_at arr' j = args_at arr j ++ args_for j frags) ∧ length arr' ≤ length arr `max` 101.
Proof.
  intros Ha Hf. revert arr Ha. induction Hf as [|[i frag] frags Hfrag _ IH]; intros arr Ha.
  - exists arr. split_and!; [done..|intros j; by rewrite app_nil_r|lia].
  - simpl in Hfrag. destruct (merge_fragment arr i frag Ha Hfrag) as (arr1 & E1 & Ha1 & Hl1 & Hj1).
    destruct (IH arr1 Ha1) as (arr' & E & Ha' & Hj & Hl). exists arr'. simpl. rewrite E1. split; [done|]. split; [done|].
    split; [|case_decide; lia].
    intros j. rewrite Hj, Hj1, <- app_assoc. f_equal. unfold args_for. rewrite filter_cons. simpl. repeat case_decide; simpl in *; first [done|tauto].
Qed.

(** A message over the tool calls of all the deltas of its stream. *)
Fixpoint merge_all_tools (m : Value) (deltas : list Value) : option Value :=
  match deltas with
  | [] => Some m
  | tc :: deltas => m' ← merge_message_tools tc m; merge_all_tools m' deltas
  end.

Lemma merge_later_tools m arr deltas :
  get m (lit "tool_calls") = Some (VArray arr) → Forall slot_ok arr → Forall (Forall (λ f, fragment f.1 f.2)) deltas →
  ∃ m' arr', merge_all_tools m ((λ d : list (nat * Value), VArray d.*2) <$> deltas) = Some m' ∧
    get m' (lit "tool_calls") = Some (VArray arr') ∧ (∀ k, k ≠ lit "tool_calls" → get m' k = get m k) ∧
    (∀ j, args_at arr' j = args_at arr j ++ args_for j (concat deltas)) ∧ length arr' ≤ length arr `max` 101.
Proof.
  intros Hm Ha Hd. revert m arr Hm Ha. induction Hd as [|d deltas Hd _ IH]; intros m arr Hm Ha.
  - exists m, arr. split_and!; [done..|intros j; by rewrite app_nil_r|lia].
  - destruct (merge_fragments arr d Ha Hd) as (arr1 & E1 & Ha1 & Hj1 & Hl1). cbn [fmap list_fmap merge_all_tools].
    unfold merge_message_tools at 1. rewrite Hm, E1. cbn [mbind option_bind].
    destruct (IH (set_key m (lit "tool_calls") (VArray arr1)) arr1) as (m' & arr' & E & Hm' & Hk & Hj & Hl); [|done|].
    { by rewrite get_set_key, decide_True, Hm by done. }
    exists m', arr'. split_and!; [exact E|done| | |lia].
    + intros k Hne. rewrite Hk, get_set_key by done. by rewrite decide_False.
    + intros j. by rewrite Hj, Hj1, <- app_assoc, <- args_for_app.
Qed.

(** C28: Interleaved fragments reassemble.  The tool calls of a message are null
    until its first delta that has any, which is taken as it is, by position;
    from then on, whatever order the fragments of the calls come in, those of the
    call numbered [j] go, in order, after the arguments at position [j], those
    over the index cap are dropped, the rest of the message is untouched, nothing
    panics and the array never outgrows the cap (but for what came first). *)
Theorem tool_calls_reassemble m first deltas :
  get m (lit "tool_calls") = Some VNull → Forall slot_ok first → Forall (Forall (λ f, fragment f.1 f.2)) deltas →
  ∃ m' arr, merge_all_tools m (VArray first :: ((λ d : list (nat * Value), VArray d.*2) <$> deltas)) = Some m' ∧
    get m' (lit "tool_calls") = Some (VArray arr) ∧ (∀ k, k ≠ lit "tool_calls" → get m' k = get m k) ∧
    (∀ j, args_at arr j = args_at first j ++ args_for j (concat deltas)) ∧ length arr ≤ length first `max` 101.
Proof.
  intros Hm Hf Hd. cbn [merge_all_tools]. unfold merge_message_tools at 1. rewrite Hm. cbn [mbind option_bind].
  assert (get (set_key m (lit "tool_calls") (VArray first)) (lit "tool_calls") = Some (VArray first)) as Hm1
    by (by rewrite get_set_key, decide_True, Hm by done).
  destruct (merge_later_tools _ first deltas Hm1 Hf Hd) as (m' & arr & E & Hm' & Hk & Hj & Hl).
  exists m', arr. split_and!; try done. intros k Hne. rewrite Hk, get_set_key by done. by rewrite decide_False.
Qed.

(** A call whose first delta is not at its own position ends up in two slots. *)
Example first_delta_by_position :
  let call i args := VObject [kv "index" (vnat i); kv "function" (VObject [kv "arguments" (VString (lit args))])] in
  ∃ arr, (m ← merge_all_tools seed_message [VArray [call 1 "ab"%string]; VArray [call 1 "cd"%string]]; get m (lit "tool_calls"))
    = Some (VArray arr) ∧ args_of <$> arr = [lit "ab"; lit "cd"].
Proof. eexists. split; [vm_compute; reflexivity|reflexivity]. Qed.

(** ** Text deltas *)
Definition text_at (k : str) (m : Value) : str := default [] (get m k ≫= as_str).

(** Keys of a message that carry streamed text. *)
Definition text_key (k : str) : Prop := k = lit "content" ∨ k = lit "reasoning_text".

(** A message whose tool calls, if any, are null or an array of slots. *)
Definition tools_ok (m : Value) : Prop :=
  match get m (lit "tool_calls") with
  | Some (VArray l) => Forall slot_ok l
  | _ => True
  end.
Definition msg_ok (m : Value) : Prop := is_obj m ∧ tools_ok m.

(** A chunk's delta: its tool calls, if any, are null or an array of
    fragments. *)
Definition delta_ok (delta : Value) : Prop :=
  match get delta (lit "tool_calls") with
  | Some (VArray l) => Forall (λ c, ∃ i, fragment i c) l
  | Some VNull | None => True
  | Some _ => False
  end.

Definition choice_ok (c : Value) : Prop := ∃ m, get c (lit "message") = Some m ∧ msg_ok m.
Definition msg_text (k : str) (c : Value) : str :=
  match get c (lit "message") with Some m => text_at k m | None => [] end.

Lemma index_set_obj v k x :
  is_obj v → ∃ v', index_set v k x = Some v' ∧ is_obj v' ∧
    ∀ k', get v' k' = if decide (k = k') then Some x else get v k'.
Proof.
  intros [m Hm]. destruct v as [| | | | |m']; try done. exists (VObject (map_insert k x m')).
  split; [done|]. split; [by eexists|]. intros k'. apply map_get_insert.
Qed.

Lemma set_key_obj v k x : is_obj v → is_obj (set_key v k x).
Proof. intros [m Hm]. destruct v as [| | | | |m']; try done. simpl. destruct (map_get k m'); by eexists. Qed.

(** A message update that appends [s] to the text under [k0], for the text
    keys it knows. *)
Definition appends (f : Value → option Value) (s : str → str) : Prop :=
  ∀ m, msg_ok m → ∃ m', f m = Some m' ∧ msg_ok m' ∧ ∀ k, text_key k → text_at k m' = text_at k m ++ s k.

Lemma with_message_appends c f s :
  choice_ok c → appends f s →
  ∃ c', with_message c f = Some c' ∧ choice_ok c' ∧ ∀ k, text_key k → msg_text k c' = msg_text k c ++ s k.
Proof.
  intros (m & Hm & Hok) Hf. destruct (Hf m Hok) as (m' & E & Hok' & Ht). unfold with_message. rewrite Hm, E. simpl.
  eexists. split; [done|].
  assert (get (set_key c (lit "message") m') (lit "message") = Some m') as Hg
    by (rewrite get_set_key, decide_True, Hm by done; done).
  split; [by exists m'|]. intros k Hk. unfold msg_text. rewrite Hg, Hm. by apply Ht.
Qed.

Lemma on_field_appends {A} (x : option A) f (s : A → str → str) c :
  choice_ok c → (∀ a, x = Some a → appends (f a) (s a)) →
  ∃ c', on_field x f c = Some c' ∧ choice_ok c' ∧
    ∀ k, text_key k → msg_text k c' = msg_text k c ++ match x with Some a => s a k | None => [] end.
Proof.
  intros Hc Hf. unfold on_field. destruct x as [a|].
  - apply with_message_appends; auto.
  - exists c. split; [done|]. split; [done|]. intros. by rewrite app_nil_r.
Qed.

Lemma text_key_ne k k' : text_key k → k' ≠ lit "content" → k' ≠ lit "reasoning_text" → k' ≠ k.
Proof. intros [-> | ->]; done. Qed.

Lemma index_set_appends k0 x :
  k0 ≠ lit "content" → k0 ≠ lit "reasoning_text" → k0 ≠ lit "tool_calls" →
  appends (λ m, index_set m k0 x) (λ _, []).
Proof.
  intros H1 H2 H3 m [Ho Ht]. destruct (index_set_obj m k0 x Ho) as (m' & E & Ho' & Hg).
  exists m'. split; [done|]. split.
  - split; [done|]. unfold tools_ok in *. rewrite Hg. by rewrite decide_False.
  - intros k Hk. unfold text_at. rewrite Hg, decide_False by by apply text_key_ne. by rewrite app_nil_r.
Qed.

Lemma push_text_appends k0 s :
  text_key k0 → appends (push_text k0 s) (λ k, if decide (k0 = k) then s else []).
Proof.
  intros Hk0 m [Ho Ht]. assert (∃ m', (match get m k0 with Some (VString e) => Some (set_key m k0 (VString (e ++ s)))
    | _ => index_set m k0 (VString s) end) = Some m' ∧ is_obj m' ∧
    ∀ k, get m' k = if decide (k0 = k) then Some (VString (text_at k0 m ++ s)) else get m k) as (m' & E & Ho' & Hg).
  { destruct (index_set_obj m k0 (VString s) Ho) as (m1 & E1 & Ho1 & Hg1). unfold text_at.
    destruct (get m k0) as [[]|] eqn:Eg; try (by exists m1).
    eexists. split; [done|]. split; [by apply set_key_obj|]. intros k. rewrite get_set_key, Eg. done. }
  exists m'. split; [exact E|]. split.
  - split; [done|]. unfold tools_ok in *. rewrite Hg. rewrite decide_False; [done|].
    by destruct Hk0 as [-> | ->].
  - intros k Hk. unfold text_at at 1. rewrite Hg. case_decide; subst; [done|]. by rewrite app_nil_r.
Qed.

Lemma fragments_choose l : Forall (λ c, ∃ i, fragment i c) l → ∃ frags, frags.*2 = l ∧ Forall (λ f, fragment f.1 f.2) frags.
Proof.
  induction 1 as [|c l [i Hi] _ (frags & <- & IH)]; [by exists []|]. exists ((i, c) :: frags). split; [done|].
  by constructor.
Qed.

Lemma merge_fragments_ok arr l :
  Forall slot_ok arr → Forall (λ c, ∃ i, fragment i c) l →
  ∃ arr', merge_tool_calls arr l = Some arr' ∧ Forall slot_ok arr'.
Proof.
  intros Ha Hl. revert arr Ha. induction Hl as [|c l [i Hi] _ IH]; intros arr Ha; [by exists arr|].
  destruct (merge_fragment arr i c Ha Hi) as (arr1 & E1 & Ha1 & _). simpl. rewrite E1. by apply IH.
Qed.

Lemma merge_tools_appends tc :
  match tc with VArray l => Forall (λ c, ∃ i, fragment i c) l | VNull => True | _ => False end →
  appends (merge_message_tools tc) (λ _, []).
Proof.
  intros Htc m [Ho Ht]. unfold merge_message_tools, tools_ok in *.
  assert (∀ x, match x with VArray l => Forall slot_ok l | _ => True end →
    ∃ m', Some (set_key m (lit "tool_calls") x) = Some m' ∧ msg_ok m' ∧
      ∀ k, text_key k → text_at k m' = text_at k m ++ []) as Hset.
  { intros x Hx. eexists. split; [done|]. split.
    - split; [by apply set_key_obj|]. unfold tools_ok. rewrite get_set_key, decide_True by done.
      by destruct (get m (lit "tool_calls")).
    - intros k Hk. unfold text_at. rewrite get_set_key, app_nil_r, decide_False; [done|]. by destruct Hk as [-> | ->]. }
  assert (∃ m', Some m = Some m' ∧ msg_ok m' ∧ ∀ k, text_key k → text_at k m' = text_at k m ++ []) as Hid
    by (exists m; split_and!; try done; intros; by rewrite app_nil_r).
  destruct (get m (lit "tool_calls")) as [[| | | |arr|]|] eqn:Eg; try done.
  - apply Hset. destruct tc; try done. eapply Forall_impl; [done|]. by intros c (i & _ & ? & _).
  - destruct tc as [| | | |l|]; try done.
    destruct (merge_fragments_ok arr l Ht Htc) as (arr' & E & Harr'). rewrite E. simpl. by apply Hset.
Qed.

Lemma merge_delta_ok c delta :
  choice_ok c → delta_ok delta →
  ∃ c', merge_delta c delta = Some c' ∧ choice_ok c' ∧
    ∀ k, text_key k → msg_text k c' = msg_text k c ++ text_at k delta.
Proof.
  intros Hc Hd. unfold merge_delta.
  destruct (on_field_appends (match get delta (lit "role") with Some r => if is_string r then Some r else None | None => None end)
    (λ role m, index_set m (lit "role") role) (λ _ _, []) c Hc) as (c1 & -> & Hc1 & T1);
    [intros; by apply index_set_appends|].
  destruct (on_field_appends (get delta (lit "content") ≫= as_str) (push_text (lit "content"))
    (λ s k, if decide (lit "content" = k) then s else []) c1 Hc1) as (c2 & E2 & Hc2 & T2);
    [intros; apply push_text_appends; by left|]. cbn [mbind option_bind]. rewrite E2.
  destruct (on_field_appends (get delta (lit "reasoning_text") ≫= as_str) (push_text (lit "reasoning_text"))
    (λ s k, if decide (lit "reasoning_text" = k) then s else []) c2 Hc2) as (c3 & E3 & Hc3 & T3);
    [intros; apply push_text_appends; by right|]. cbn [mbind option_bind]. rewrite E3.
  destruct (on_field_appends (get delta (lit "reasoning_opaque")) (λ o m, index_set m (lit "reasoning_opaque") o)
    (λ _ _, []) c3 Hc3) as (c4 & E4 & Hc4 & T4); [intros; by apply index_set_appends|].
  cbn [mbind option_bind]. rewrite E4.
  destruct (on_field_appends (get delta (lit "tool_calls")) merge_message_tools (λ _ _, []) c4 Hc4)
    as (c5 & E5 & Hc5 & T5).
  { intros tc Etc. apply merge_tools_appends. unfold delta_ok in Hd. rewrite Etc in Hd. by destruct tc. }
  cbn [mbind option_bind]. rewrite E5. exists c5. split; [done|]. split; [done|]. intros k Hk.
  rewrite T5, T4, T3, T2, T1 by done. unfold text_at.
  assert (∀ {A} (x : option A), match x with Some _ => @nil ascii | None => [] end = []) as Hnil by by intros A [].
  rewrite !Hnil, !app_nil_r. rewrite <- app_assoc. f_equal. destruct Hk as [-> | ->];
   destruct (get delta (lit "content") ≫= as_str), (get delta (lit "reasoning_text") ≫= as_str);
    cbn [default from_option];
    rewrite ?(decide_True (P := lit "content" = lit "content")),
      ?(decide_True (P := lit "reasoning_text" = lit "reasoning_text")),
      ?(decide_False (P := lit "content" = lit "reasoning_text")),
      ?(decide_False (P := lit "reasoning_text" = lit "content")) by done; by rewrite ?app_nil_r.
Qed.

(** ** Whole chunks *)
Definition delta_choice (choice : Value) : Prop :=
  is_obj choice ∧ ∃ delta, get choice (lit "delta") = Some delta ∧ delta_ok delta.

(** A chunk of a single-choice stream; the usage-only chunk has no choice. *)
Definition chunk_ok (chunk : Value) : Prop :=
  is_obj chunk ∧ ∃ l, get chunk (lit "choices") = Some (VArray l) ∧
    (l = [] ∨ ∃ choice, l = [choice] ∧ delta_choice choice).

(** The text a chunk adds under [k], and the text of a merged response. *)
Definition delta_text (k : str) (chunk : Value) : str :=
  match get chunk (lit "choices") with
  | Some (VArray (choice :: _)) =>
      match get choice (lit "delta") with Some delta => text_at k delta | None => [] end
  | _ => []
  end.
Definition choices_text (k : str) (cs : list Value) : str :=
  match cs with c :: _ => msg_text k c | [] => [] end.
Definition response_text (k : str) (v : Value) : str :=
  match get v (lit "choices") with Some (VArray cs) => choices_text k cs | _ => [] end.

Definition acc_choices_ok (cs : list Value) : Prop := cs = [] ∨ ∃ c, cs = [c] ∧ choice_ok c.
Definition acc_ok (v : Value) : Prop :=
  is_obj v ∧ ∃ cs, get v (lit "choices") = Some (VArray cs) ∧ acc_choices_ok cs.

Lemma choice_ok_obj c : choice_ok c → is_obj c.
Proof. intros (m & Hm & _). by eapply get_object. Qed.

Lemma merge_choice_ok c choice :
  choice_ok c → delta_choice choice →
  ∃ c', merge_choice c choice = Some c' ∧ choice_ok c' ∧
    ∀ k, text_key k → msg_text k c' = msg_text k c ++
      match get choice (lit "delta") with Some delta => text_at k delta | None => [] end.
Proof.
  intros Hc (_ & delta & Hd & Hok). unfold merge_choice. rewrite Hd.
  destruct (merge_delta_ok c delta Hc Hok) as (c1 & -> & Hc1 & T1). simpl.
  assert (∀ x, ∃ c', index_set c1 (lit "finish_reason") x = Some c' ∧ choice_ok c' ∧
    ∀ k, text_key k → msg_text k c' = msg_text k c ++ text_at k delta) as Hfin.
  { intros x. destruct (index_set_obj c1 (lit "finish_reason") x (choice_ok_obj _ Hc1)) as (c2 & -> & _ & Hg).
    exists c2. split; [done|]. destruct Hc1 as (m & Hm & Hmok).
    assert (get c2 (lit "message") = Some m) as Hm2 by (by rewrite Hg, decide_False).
    split; [by exists m|]. intros k Hk. rewrite <- T1 by done. unfold msg_text. by rewrite Hm, Hm2. }
  destruct (get choice (lit "finish_reason")) as [fr|]; [|by exists c1].
  destruct (is_null fr); [by exists c1|apply Hfin].
Qed.

Lemma seed_choice_ok choice :
  delta_choice choice → choice_ok (seed_choice choice) ∧ ∀ k, text_key k → msg_text k (seed_choice choice) = [].
Proof.
  intros ([o Ho] & delta & Hd & _). destruct choice as [| | | | |obj]; try done. simpl in Hd. unfold seed_choice.
  rewrite Hd.
  assert (∀ obj', get (VObject (map_insert (lit "message") seed_message obj')) (lit "message") = Some seed_message) as Hg
    by (intros obj'; simpl; by rewrite map_get_insert, decide_True).
  assert (∀ obj', choice_ok (VObject (map_insert (lit "message") seed_message obj')) ∧ ∀ k, text_key k →
    msg_text k (VObject (map_insert (lit "message") seed_message obj')) = []) as H.
  { intros obj'. split.
    - exists seed_message. split; [apply Hg|]. split; [by eexists|done].
    - intros k Hk. unfold msg_text. rewrite Hg. by destruct Hk as [-> | ->]. }
  by destruct (map_get (lit "message") obj).
Qed.

Lemma merge_choices_ok cs l :
  acc_choices_ok cs → (l = [] ∨ ∃ choice, l = [choice] ∧ delta_choice choice) →
  ∃ cs', merge_choices 0 cs l = Some cs' ∧ acc_choices_ok cs' ∧
    ∀ k, text_key k → choices_text k cs' = choices_text k cs ++
      match l with choice :: _ => match get choice (lit "delta") with Some d => text_at k d | None => [] end | [] => [] end.
Proof.
  intros Hcs [->|(choice & -> & Hch)].
  { exists cs. split; [done|]. split; [done|]. intros. by rewrite app_nil_r. }
  destruct Hcs as [->|(c & -> & Hc)]; simpl.
  - destruct (seed_choice_ok choice Hch) as [Hs Ht].
    destruct (merge_choice_ok _ choice Hs Hch) as (c' & -> & Hc' & T). exists [c']. split; [done|].
    split; [right; by exists c'|]. intros k Hk. simpl. by rewrite T, Ht.
  - destruct (merge_choice_ok c choice Hc Hch) as (c' & -> & Hc' & T). exists [c']. split; [done|].
    split; [right; by exists c'|]. intros k Hk. simpl. by rewrite T.
Qed.

Lemma copy_stat_ok k keep chunk acc :
  k ≠ lit "choices" → is_obj acc →
  ∃ acc', copy_stat k keep chunk acc = Some acc' ∧ is_obj acc' ∧ get acc' (lit "choices") = get acc (lit "choices").
Proof.
  intros Hk Ho. unfold copy_stat. destruct (get chunk k) as [v|]; [|by exists acc].
  destruct (keep v); [|by exists acc]. destruct (index_set_obj acc k v Ho) as (acc' & E & Ho' & Hg).
  exists acc'. split; [done|]. split; [done|]. by rewrite Hg, decide_False.
Qed.

Lemma merge_stats_ok acc chunk :
  is_obj acc →
  ∃ acc', merge_stream_stats acc chunk = Some acc' ∧ is_obj acc' ∧ get acc' (lit "choices") = get acc (lit "choices").
Proof.
  intros Ho. unfold merge_stream_stats.
  destruct (copy_stat_ok (lit "usage") (λ _, true) chunk acc ltac:(done) Ho) as (a1 & -> & Ho1 & G1).
  cbn [mbind option_bind].
  destruct (copy_stat_ok (lit "model") (λ v, negb (is_null v)) chunk a1 ltac:(done) Ho1) as (a2 & -> & Ho2 & G2).
  cbn [mbind option_bind].
  destruct (copy_stat_ok (lit "timings") (λ _, true) chunk a2 ltac:(done) Ho2) as (a3 & -> & Ho3 & G3).
  cbn [mbind option_bind].
  destruct (copy_stat_ok (lit "metrics") (λ v, negb (is_null v)) chunk a3 ltac:(done) Ho3) as (a4 & E & Ho4 & G4).
  exists a4. by rewrite G4, G3, G2, G1.
Qed.

Lemma merge_into_ok acc chunk :
  acc_ok acc → chunk_ok chunk →
  ∃ acc', merge_into acc chunk = Some acc' ∧ acc_ok acc' ∧
    ∀ k, text_key k → response_text k acc' = response_text k acc ++ delta_text k chunk.
Proof.
  intros (Ho & cs & Hg & Hcs) (_ & l & Hl & Hch). unfold merge_into. rewrite Hg, Hl.
  destruct (merge_choices_ok cs l Hcs Hch) as (cs' & -> & Hcs' & T). cbn [mbind option_bind].
  destruct (merge_stats_ok (set_key acc (lit "choices") (VArray cs')) chunk (set_key_obj _ _ _ Ho))
    as (acc' & E & Ho' & G).
  rewrite get_set_key, decide_True, Hg in G by done. simpl in G.
  exists acc'. split; [done|]. split; [split; [done|by exists cs']|].
  intros k Hk. unfold response_text, delta_text. rewrite G, Hg, Hl, T by done.
  by destruct l.
Qed.

Lemma merge_openai_text chunks :
  chunks ≠ [] → Forall chunk_ok chunks →
  ∃ v, merge_openai None chunks = Some (Some v) ∧
    ∀ k, text_key k → response_text k v = concat (delta_text k <$> chunks).
Proof.
  destruct chunks as [|c chunks]; [done|]. intros _ [Hc Hcs]%Forall_cons.
  assert (∀ acc, acc_ok acc → ∃ v, merge_openai (Some acc) chunks = Some (Some v) ∧
    ∀ k, text_key k → response_text k v = response_text k acc ++ concat (delta_text k <$> chunks)) as Hgo.
  { revert Hcs. clear Hc c. induction chunks as [|c chunks IH]; intros Hcs acc Ha.
    - exists acc. split; [done|]. intros. simpl. by rewrite app_nil_r.
    - apply Forall_cons in Hcs as [Hc Hcs]. destruct (merge_into_ok acc c Ha Hc) as (acc1 & E & Ha1 & T1).
      destruct (IH Hcs acc1 Ha1) as (v & Ev & T). exists v. simpl. rewrite E. simpl. split; [done|].
      intros k Hk. by rewrite T, T1, <- app_assoc. }
  assert (∃ env, envelope_of c = Some env ∧ acc_ok env ∧ ∀ k, response_text k env = []) as (env & Ee & Hae & Te).
  { destruct Hc as (Ho & l & Hl & _). unfold envelope_of. rewrite Hl. eexists. split; [done|].
    assert (get (set_key c (lit "choices") (VArray [])) (lit "choices") = Some (VArray [])) as Hg
      by (by rewrite get_set_key, decide_True, Hl).
    split; [split; [by apply set_key_obj|]; exists []; split; [done|by left]|].
    intros k. unfold response_text. by rewrite Hg. }
  destruct (merge_into_ok env c Hae Hc) as (acc1 & E1 & Ha1 & T1).
  destruct (Hgo acc1 Ha1) as (v & Ev & T). exists v. simpl. rewrite Ee. simpl. rewrite E1. simpl. split; [done|].
  intros k Hk. by rewrite T, T1, Te.
Qed.

(** A single-choice stream of any length merges without a panic, and its
    message carries exactly the concatenated text deltas. *)
Theorem stream_text_reassembles chunks :
  chunks ≠ [] → Forall chunk_ok chunks →
  ∃ v, merge_openai None chunks = Some (Some v) ∧
    ∀ k, text_key k → response_text k v = concat (delta_text k <$> chunks).
Proof. apply merge_openai_text. Qed.

(** A scalar first payload makes the merge panic. *)
Lemma merge_chunk_panics n chunk : merge_openai None (VNumber n :: chunk) = None.
Proof. done. Qed.
