(* ===== verification/Observer.v ===== *)
(** * What is recorded of a response (llama-proxy/src/proxy/streaming.rs, proxy/handler.rs)

    The observer of a pass-through stream: the race that decides how the stream
    ended, as a machine over the channels to the body, and the analysis of the
    accumulated bytes, as a program over its shared accesses.  With it the
    sample of a buffered response ([emit_metrics]). *)
From S2P Require Import Prelude Numbers Prog Json Metrics Export FixTypes Framing Sse Merge StreamPass.

(** ** How the stream ended *)

(** The body's ends of the two channels: the oneshot with the end reason, and
    the watch that says there was activity.  [unseen]: activity since the last
    look.  The sender of the oneshot is dropped before that of the watch (the
    order of the fields of [StreamPassState]). *)
Record BodyEnds := mkEnds {
  completion : Completion;
  completion_closed : bool;
  unseen : bool;
  activity_closed : bool;
}.

Inductive BodyStep : BodyEnds → BodyEnds → Prop :=
  | body_active c u : BodyStep (mkEnds c false u false) (mkEnds c false true false)
  | body_signals c u reason : BodyStep (mkEnds c false u false) (mkEnds (signal_end c reason) false u false)
  | body_drops_completion c u : BodyStep (mkEnds c false u false) (mkEnds c true u false)
  | body_drops_activity c u : BodyStep (mkEnds c true u false) (mkEnds c true u true).

Inductive Awaiting :=
  | Selecting                      (** in [select!] *)
  | Resolving (end_reason : StreamEnd)
  | Decided (end_reason : StreamEnd).

(** A turn of [await_end]: any branch of [select!] that is ready, among them the
    timer at any time. *)
Inductive AwaitStep : Awaiting * BodyEnds → Awaiting * BodyEnds → Prop :=
  | await_reason reason cl u a :
      AwaitStep (Selecting, mkEnds (Sent reason) cl u a) (Resolving reason, mkEnds (Sent reason) cl u a)
  | await_gone u a :
      AwaitStep (Selecting, mkEnds Unsent true u a) (Resolving ClientGone, mkEnds Unsent true u a)
  | await_activity c cl a : AwaitStep (Selecting, mkEnds c cl true a) (Selecting, mkEnds c cl false a)
  | await_no_activity c cl :
      AwaitStep (Selecting, mkEnds c cl false true) (Resolving ClientGone, mkEnds c cl false true)
  | await_timeout b : AwaitStep (Selecting, b) (Resolving Stalled, b)
  | await_resolve r b :
      AwaitStep (Resolving r, b) (Decided (resolve_end_reason r (completion b) (completion_closed b)), b).

(** ** The counters of the ends *)
Inductive EndCounter := StreamTruncated | StreamStalled | StreamClientGone.
Definition tally_end (e : StreamEnd) : list EndCounter :=
  match e with
  | Completed => []
  | BackendClosed | BackendError => [StreamTruncated]
  | Stalled => [StreamStalled]
  | ClientGone => [StreamClientGone]
  end.
Definition stream_incomplete_of (e : StreamEnd) : bool :=
  match e with Completed | ClientGone => false | BackendClosed | BackendError | Stalled => true end.

(** ** The accesses of an analysis *)
Inductive Obs : Type → Type :=
  | Bump (c : EndCounter) : Obs unit
  | AddUnparsed (n : nat) : Obs unit
  | AddUnrepaired (names : list str) : Obs Z                   (** the total before *)
  | WarnUnrepaired (names : list str) : Obs unit
  | SpawnDump (final_event : Value) : Obs unit
  | Stamp : Obs (str * Z)                                      (** a fresh id and the time *)
  | Elapsed : Obs Z                                            (** milliseconds since the request came *)
  | FetchContext (url : str) (api_key model_name : option str) : Obs (option Z)
  | FetchContextCapped (url : str) (api_key model_name : option str) : Obs (option (option Z))
  | NoteProbeTimeout : Obs unit
  | WarnContextOnce (url model_name : str) : Obs unit
  | ReadGauge : Obs Z
  | Gate (m : RequestMetrics) : Obs GateState                  (** the counters as the gate finds them *)
  | GateLines (lines : list GateLog) : Obs unit
  | Exporting (m : RequestMetrics) : Obs unit.                 (** [export_all], here or in a task *)

Abbreviation obs A := (prog Obs A).

(** ** Fields set on a sample *)
Definition with_stream (group : option str) (concurrent : Z) (incomplete : bool) (end_ : str) (m : RequestMetrics)
    : RequestMetrics :=
  mkMetrics (request_id m) (timestamp m) (model m) group (client_id m) (conversation_id m) (usage m) (timing m)
    (total_tps m) (decode_tps_min m) (has_timing_split m) (context_total m) (context_percent m) (lengths m)
    (streaming m) incomplete (Some end_) (duration_ms m) (Some concurrent).
Definition with_group (group : option str) (m : RequestMetrics) : RequestMetrics :=
  mkMetrics (request_id m) (timestamp m) (model m) group (client_id m) (conversation_id m) (usage m) (timing m)
    (total_tps m) (decode_tps_min m) (has_timing_split m) (context_total m) (context_percent m) (lengths m)
    (streaming m) (stream_incomplete m) (stream_end m) (duration_ms m) (concurrent_requests m).
Definition with_concurrent (n : Z) (m : RequestMetrics) : RequestMetrics :=
  mkMetrics (request_id m) (timestamp m) (model m) (group_name m) (client_id m) (conversation_id m) (usage m)
    (timing m) (total_tps m) (decode_tps_min m) (has_timing_split m) (context_total m) (context_percent m)
    (lengths m) (streaming m) (stream_incomplete m) (stream_end m) (duration_ms m) (Some n).
(** A context window found: the total, and the share used. *)
Definition with_context (ctx_total : option Z) (m : RequestMetrics) : RequestMetrics :=
  match ctx_total with
  | Some v => calculate_context_percent (set_context (Some v) (context_percent m) m)
  | None => m
  end.

(** ** The gate: the line, the canary and the decision *)
Definition log_and_export (max_plausible_prefill_tps : f64) (m : RequestMetrics) : obs unit :=
  g ← trigger (Gate m);
  let '(should_export, lines, _) := log_sample_and_should_export m max_plausible_prefill_tps g in
  _ ← trigger (GateLines lines);
  if should_export then trigger (Exporting m) else Ret tt.

(** ** A pass-through stream *)
Record StreamObserver := mkObserver {
  ob_registry : FixRegistry;
  ob_request_json : option Value;
  ob_stats_enabled : bool;
  ob_max_plausible_prefill_tps : f64;
  ob_group_name : option str;
  ob_concurrent_requests : Z;
  ob_backend_url : str;
  ob_api_key : option str;
  ob_dumps : bool;                 (** a dump was asked for and has all its inputs *)
}.

(** First, then every hundredth by the count of this stream's first detection. *)
Definition warns_unrepaired (n : Z) : bool := (n =? 1)%Z || (n mod 100 =? 0)%Z.

Section Observer.
Context `{Serde} (self : StreamObserver).

Definition unparsed_event (raw_event : str) : bool := 0 <? count_unparsed_payloads (split_event raw_event).2.

Definition scan_unparsed_events (acc_text : str) : obs unit :=
  let unparsed_events := length (filter (λ e, unparsed_event e = true) (split_events acc_text)) in
  if 0 <? unparsed_events then trigger (AddUnparsed unparsed_events) else Ret tt.

(** [None]: a fixer panics. *)
Definition note_unrepaired_fixes (final_event : Value) : obs (option unit) :=
  match detect_fixes (ob_registry self) final_event (ob_request_json self) with
  | None => Ret None
  | Some [] => Ret (Some tt)
  | Some detected =>
      before ← trigger (AddUnrepaired detected);
      _ ← (if warns_unrepaired (before + 1) then trigger (WarnUnrepaired detected) else Ret tt);
      Ret (Some tt)
  end.

Definition publish_stats (final_event : Value) (stream_incomplete : bool) (end_ : str) : obs unit :=
  match ob_request_json self with
  | None => Ret tt
  | Some req_json =>
      elapsed ← trigger Elapsed;
      '(id, now) ← trigger Stamp;
      let metrics := with_stream (ob_group_name self) (ob_concurrent_requests self) stream_incomplete end_
                       (from_response id now final_event req_json true (f64_of_Z elapsed)) in
      metrics ← (if has_throughput_signal metrics then
                   ctx ← trigger (FetchContext (ob_backend_url self) (ob_api_key self)
                                    (get req_json (lit "model") ≫= as_str));
                   match ctx with
                   | Some _ => Ret (with_context ctx metrics)
                   | None => _ ← trigger (WarnContextOnce (ob_backend_url self) (model metrics)); Ret metrics
                   end
                 else Ret metrics);
      log_and_export (ob_max_plausible_prefill_tps self) metrics
  end.

Fixpoint bump_all (cs : list EndCounter) : obs unit :=
  match cs with [] => Ret tt | c :: cs' => _ ← trigger (Bump c); bump_all cs' end.

(** [run] from the end of the stream on; [acc] is what was accumulated.
    [None]: the task panics. *)
Definition analyze (end_ : StreamEnd) (acc : str) : obs (option unit) :=
  _ ← bump_all (tally_end end_);
  if bool_decide (acc = []) then Ret (Some tt)
  else
    let acc_text := from_utf8_lossy acc in
    _ ← scan_unparsed_events acc_text;
    match parse_accumulated_sse acc_text with
    | None => Ret None
    | Some None => Ret (Some tt)
    | Some (Some final_event) =>
        noted ← note_unrepaired_fixes final_event;
        match noted with
        | None => Ret None
        | Some _ =>
            _ ← (if ob_dumps self then trigger (SpawnDump final_event) else Ret tt);
            _ ← (if ob_stats_enabled self
                 then publish_stats final_event (stream_incomplete_of end_) (end_as_str end_) else Ret tt);
            Ret (Some tt)
        end
    end.
End Observer.

(** ** A buffered response *)
Record BufferedCall := mkCall {
  bc_stats_enabled : bool;
  bc_max_plausible_prefill_tps : f64;
  bc_request_json : option Value;
  bc_group_name : option str;
  bc_base_url : str;
  bc_api_key : option str;
  bc_model : option str;
}.

Definition probe_window (c : BufferedCall) (m : RequestMetrics) : obs RequestMetrics :=
  if has_throughput_signal m then
    probe ← trigger (FetchContextCapped (bc_base_url c) (bc_api_key c) (bc_model c));
    match probe with
    | Some (Some ctx_total) => Ret (with_context (Some ctx_total) m)
    | Some None => _ ← trigger (WarnContextOnce (bc_base_url c) (model m)); Ret m
    | None => _ ← trigger NoteProbeTimeout; _ ← trigger (WarnContextOnce (bc_base_url c) (model m)); Ret m
    end
  else Ret m.

Definition emit_metrics (c : BufferedCall) (json : option Value) : obs unit :=
  match json, bc_request_json c with
  | Some json, Some req_json =>
      if bc_stats_enabled c then
        elapsed ← trigger Elapsed;
        '(id, now) ← trigger Stamp;
        m ← probe_window c (with_group (bc_group_name c)
              (from_response id now json req_json false (f64_of_Z elapsed)));
        n ← trigger ReadGauge;
        log_and_export (bc_max_plausible_prefill_tps c) (with_concurrent n m)
      else Ret tt
  | _, _ => Ret tt
  end.

(** * Facts *)

(** ** The verdict *)

(** What is true of a stream when the verdict falls. *)
Definition truth (b : BodyEnds) : StreamEnd :=
  match completion b with
  | Sent reason => reason
  | Unsent => if completion_closed b then ClientGone else Stalled
  end.

Inductive ObservedStep : Awaiting * BodyEnds → Awaiting * BodyEnds → Prop :=
  | step_body p b b' : BodyStep b b' → ObservedStep (p, b) (p, b')
  | step_await s s' : AwaitStep s s' → ObservedStep s s'.

Definition listening : Awaiting * BodyEnds := (Selecting, mkEnds Unsent false false false).

(** What the observer is about to say is never ahead of the body; the watch
    closes after the oneshot; the body reports neither a stall nor a
    departure. *)
Definition await_ok (s : Awaiting * BodyEnds) : Prop :=
  let '(p, b) := s in
  (activity_closed b = true → completion_closed b = true) ∧
  match p with
  | Selecting => True
  | Resolving r => completion b = Sent r ∨ r = Stalled ∨ r = ClientGone ∧ completion_closed b = true
  | Decided _ => True
  end.

Lemma observed_step_ok s s' : ObservedStep s s' → await_ok s → await_ok s'.
Proof.
  intros [p b b' Hb|t t' Ht] Hok.
  - destruct Hok as [Ha Hp]. split.
    + destruct Hb; simpl in *; auto.
    + destruct p; [done| |done]. destruct Hp as [Hs|[->|[-> Hc]]]; [left|by right; left|].
      * destruct Hb; simpl in *; try done. by rewrite Hs.
      * right; right. split; [done|]. by destruct Hb; simpl in *.
  - destruct Ht; destruct Hok as [Ha Hp]; simpl in *; (split; [done|]); auto.
Qed.

(** The verdict on a stream is the truth at the moment it falls, whichever
    ready branch each [select!] took: the reason the body gave when it gave one,
    a client that left when the body was dropped without one, a stall only when
    neither has happened. *)
Theorem verdict_true s s' r :
  rtc ObservedStep listening s → AwaitStep s s' → s'.1 = Decided r → r = truth s.2 ∧ s'.2 = s.2.
Proof.
  intros Hr Hs Hd.
  assert (await_ok s) as Hok.
  { assert (await_ok listening) as H0 by done. clear -Hr H0. induction Hr; eauto using observed_step_ok. }
  destruct Hs as [| | | | |r0 b]; try done. injection Hd as <-. split; [|done]. unfold truth. simpl.
  destruct Hok as [_ Hp], b as [[|reason] cl u a]; simpl in *; [|done].
  destruct Hp as [Hp|[->|[-> ->]]]; [done| |done]. by destruct cl.
Qed.

(** ** What an analysis does *)
Record Book := mkBook {
  tallied : list EndCounter;
  noted : list (list str);
  dumped : list Value;
  probed : nat;
  gated : list RequestMetrics;
  exported : list RequestMetrics;
}.
Definition book_new : Book := mkBook [] [] [] 0 [] [].

Definition obs_note (X : Type) (e : Obs X) : X → Book → Book :=
  match e in Obs X return X → Book → Book with
  | Bump c => λ _ '(mkBook t n d p g ex), mkBook (t ++ [c]) n d p g ex
  | AddUnrepaired names => λ _ '(mkBook t n d p g ex), mkBook t (n ++ [names]) d p g ex
  | SpawnDump v => λ _ '(mkBook t n d p g ex), mkBook t n (d ++ [v]) p g ex
  | FetchContext _ _ _ => λ _ '(mkBook t n d p g ex), mkBook t n d (S p) g ex
  | FetchContextCapped _ _ _ => λ _ '(mkBook t n d p g ex), mkBook t n d (S p) g ex
  | Gate m => λ _ '(mkBook t n d p g ex), mkBook t n d p (g ++ [m]) ex
  | Exporting m => λ _ '(mkBook t n d p g ex), mkBook t n d p g (ex ++ [m])
  | _ => λ _ b, b
  end.

Lemma gate_decides m threshold g : (log_sample_and_should_export m threshold g).1.1 = has_throughput_signal m.
Proof. unfold log_sample_and_should_export. by repeat case_match. Qed.

Lemma signal_with_context ctx m : has_throughput_signal (with_context ctx m) = has_throughput_signal m.
Proof. destruct ctx; [|done]. unfold with_context, calculate_context_percent. simpl. by repeat case_match. Qed.

(** The books after the gate has had [m]. *)
Definition gated_one (m : RequestMetrics) (probes : nat) (b : Book) : Book :=
  let '(mkBook t n d p g ex) := b in
  mkBook t n d (probes + p) (g ++ [m]) (if has_throughput_signal m then ex ++ [m] else ex).

Ltac obs_steps := wp_steps; repeat match goal with u : unit |- _ => destruct u end; cbn [obs_note].

Lemma log_and_export_spec threshold m Q b :
  Q tt (gated_one m 0 b) → wp obs_note (log_and_export threshold m) Q b.
Proof.
  intros HQ. unfold log_and_export. wp_steps. pose proof (gate_decides m threshold x) as Hd.
  destruct (log_sample_and_should_export m threshold x) as [[ok lines] g'] eqn:E. simpl in Hd. subst ok.
  destruct b. simpl in HQ. obs_steps. by destruct (has_throughput_signal m); obs_steps.
Qed.

(** The window is asked for exactly when the sample has a throughput signal. *)
Definition probes_of (m : RequestMetrics) : nat := if has_throughput_signal m then 1 else 0.

Section Reports.
Context `{Serde} (self : StreamObserver).

(** The sample of a stream that ended with [e] and merges to [final]. *)
Definition stream_sample (e : StreamEnd) (final req : Value) (id : str) (now ms : Z) (ctx : option Z) : RequestMetrics :=
  with_context ctx (with_stream (ob_group_name self) (ob_concurrent_requests self) (stream_incomplete_of e)
    (end_as_str e) (from_response id now final req true (f64_of_Z ms))).

Lemma publish_stats_spec final e Q b :
  match ob_request_json self with
  | None => Q tt b
  | Some req => ∀ id now ms ctx, (ctx = None ∨ has_throughput_signal (stream_sample e final req id now ms ctx) = true) →
      let m := stream_sample e final req id now ms ctx in Q tt (gated_one m (probes_of m) b)
  end →
  wp obs_note (publish_stats self final (stream_incomplete_of e) (end_as_str e)) Q b.
Proof.
  unfold publish_stats. destruct (ob_request_json self) as [req|]; [|done]. intros HQ. obs_steps.
  destruct x0 as [id now]. specialize (HQ id now x). unfold stream_sample in HQ.
  set (m := with_stream _ _ _ _ _) in *. apply wp_bind.
  destruct (has_throughput_signal m) eqn:Hs; obs_steps.
  - destruct x0 as [v|]; obs_steps; apply log_and_export_spec.
    + specialize (HQ (Some v)). cbv zeta in HQ. unfold probes_of in HQ. rewrite signal_with_context, Hs in HQ.
      destruct b. apply HQ. by right.
    + specialize (HQ None (or_introl eq_refl)). cbv zeta in HQ. unfold probes_of in HQ. cbn [with_context] in HQ.
      rewrite Hs in HQ. by destruct b.
  - apply log_and_export_spec. specialize (HQ None (or_introl eq_refl)). cbv zeta in HQ. unfold probes_of in HQ.
    cbn [with_context] in HQ. by rewrite Hs in HQ.
Qed.

Lemma bump_all_spec cs Q b :
  (let '(mkBook t n d p g ex) := b in Q tt (mkBook (t ++ cs) n d p g ex)) → wp obs_note (bump_all cs) Q b.
Proof.
  revert b. induction cs as [|c cs IH]; intros [t n d p g ex] HQ; simpl; [by rewrite app_nil_r in HQ|].
  intros _. apply IH. by rewrite <- app_assoc.
Qed.

Definition quiet (b : Book) : Prop := noted b = [] ∧ dumped b = [] ∧ probed b = 0 ∧ gated b = [].

(** What is on the books after the analysis of the bytes [acc]. *)
Definition reported (e : StreamEnd) (acc : str) (r : option unit) (b : Book) : Prop :=
  match parse_accumulated_sse (from_utf8_lossy acc) with
  | None => r = None ∧ quiet b
  | Some None => r = Some tt ∧ quiet b
  | Some (Some final) =>
      match detect_fixes (ob_registry self) final (ob_request_json self) with
      | None => r = None ∧ quiet b
      | Some names =>
          r = Some tt ∧ noted b = (if bool_decide (names = []) then [] else [names]) ∧
          dumped b = (if ob_dumps self then [final] else []) ∧
          match ob_request_json self, ob_stats_enabled self with
          | Some req, true => ∃ id now ms ctx, let m := stream_sample e final req id now ms ctx in
              gated b = [m] ∧ probed b = probes_of m ∧ (ctx = None ∨ has_throughput_signal m = true)
          | _, _ => gated b = [] ∧ probed b = 0
          end
      end
  end.

Lemma note_unrepaired_spec final Q b :
  match detect_fixes (ob_registry self) final (ob_request_json self) with
  | None => Q None b
  | Some names => let '(mkBook t n d p g ex) := b in
      Q (Some tt) (mkBook t (n ++ if bool_decide (names = []) then [] else [names]) d p g ex)
  end →
  wp obs_note (note_unrepaired_fixes self final) Q b.
Proof.
  unfold note_unrepaired_fixes. destruct (detect_fixes _ _ _) as [[|name names]|]; [|destruct b|done]; intros HQ.
  - destruct b. simpl in HQ. by rewrite app_nil_r in HQ.
  - obs_steps. destruct (warns_unrepaired _); obs_steps; done.
Qed.

Definition analyzed (e : StreamEnd) (acc : str) (r : option unit) (b : Book) : Prop :=
  tallied b = tally_end e ∧ exported b = filter (λ m, has_throughput_signal m = true) (gated b) ∧
  if bool_decide (acc = []) then r = Some tt ∧ quiet b else reported e acc r b.

Lemma analyze_spec e acc : wp obs_note (analyze self e acc) (analyzed e acc) book_new.
Proof.
  unfold analyze, analyzed. apply wp_bind, bump_all_spec. cbn [book_new app].
  destruct (bool_decide (acc = [])); [by repeat split|]. apply wp_bind.
  assert (∀ Q b, Q tt b → wp obs_note (scan_unparsed_events (from_utf8_lossy acc)) Q b) as Hscan.
  { intros Q b HQ. unfold scan_unparsed_events. destruct (_ <? _); obs_steps; done. }
  apply Hscan. unfold reported. destruct (parse_accumulated_sse _) as [[final|]|]; [|by repeat split..].
  apply wp_bind, note_unrepaired_spec. destruct (detect_fixes _ _ _) as [names|]; [|by repeat split].
  cbn [app]. apply wp_bind.
  assert (∀ Q t n, Q tt (mkBook t n (if ob_dumps self then [final] else []) 0 [] []) →
    wp obs_note (if ob_dumps self then trigger (SpawnDump final) else Ret tt) Q (mkBook t n [] 0 [] [])) as Hdump.
  { intros Q t n HQ. destruct (ob_dumps self); by obs_steps. }
  apply Hdump. apply wp_bind. destruct (ob_stats_enabled self).
  - apply publish_stats_spec. destruct (ob_request_json self) as [req|]; [|by repeat split].
    intros id now ms ctx Hctx. cbn [gated_one app]. cbv zeta. simpl.
    split; [done|]. split; [by destruct (has_throughput_signal _) eqn:E; [rewrite filter_cons_True|rewrite filter_cons_False by congruence]|].
    split_and!; try done. exists id, now, ms, ctx. by rewrite Nat.add_0_r.
  - destruct (ob_request_json self); by repeat split.
Qed.

(** C5: A pass-through stream from the backend to the books.  What the client gets
    is the backend's bytes (and a blank line after 1 MiB of an unfinished
    event, nothing else); the observer analyzes exactly what the client got,
    with the end reason the stream signalled: the end is tallied once; a stream
    that forwarded nothing, does not parse or makes a fix panic leaves no
    sample; of any other the fixes it would have needed are noted once, and
    with statistics on and a request that parsed exactly one sample reaches the
    gate - that of the merged response, marked with how the stream ended - and
    the exporters exactly when it has a throughput signal.  The backend is asked
    for its window only then. *)
Theorem stream_reported script :
  ∃ items st' e, drive (4 * length script + 1) (pass_new script true) = Some (items, st') ∧
    delivered (until_error script) (sent items) ∧
    (events_fit (lf_normalize (until_error script)) → sent items = lf_normalize (until_error script)) ∧
    completion_tx st' = Sent e ∧ (error_of items = None ↔ e ≠ BackendError) ∧
    wp obs_note (analyze self e (default [] (accumulated st'))) (analyzed e (sent items)) book_new.
Proof.
  destruct (pass_new_ends script true) as [[items st'] E].
  destruct (drive_delivers true _ _ [] _ _ _ (pass_new_inv script true) E) as (Hb & Ha & Hm).
  simpl in Hb, Ha. change (error_to_come (pass_new script true)) with (error_of script) in Hm.
  assert (∃ e, completion_tx st' = Sent e ∧ (error_of items = None ↔ e ≠ BackendError)) as (e & He & Hn).
  { destruct (error_of script).
    - destruct (Hm ltac:(by left)) as [[He Hc]|[He Hc]]; rewrite Hc, He; by eexists.
    - destruct Hm as [He [Hc|Hc]]; rewrite Hc, He; by eexists. }
  exists items, st', e. split_and!; [done..| |done|done|]; [intros Hfit; by apply delivered_fits|]. rewrite Ha. apply analyze_spec.
Qed.
End Reports.

(** ** A buffered response *)
Definition buffered_sample (c : BufferedCall) (json req : Value) (id : str) (now ms n : Z) (ctx : option Z) : RequestMetrics :=
  with_concurrent n (with_context ctx (with_group (bc_group_name c) (from_response id now json req false (f64_of_Z ms)))).

(** A buffered response leaves at most one sample, and one exactly when there is
    a response, a parsed request and statistics are on: that of the response as
    the client gets it, exported exactly when it has a throughput signal.  A
    probe of the window that fails or takes too long changes nothing else. *)
Theorem buffered_reported c json :
  wp obs_note (emit_metrics c json)
    (λ _ b, exported b = filter (λ m, has_throughput_signal m = true) (gated b) ∧
       match json, bc_request_json c, bc_stats_enabled c with
       | Some json, Some req, true => ∃ id now ms n ctx, let m := buffered_sample c json req id now ms n ctx in
           gated b = [m] ∧ probed b = probes_of m
       | _, _, _ => b = book_new
       end) book_new.
Proof.
  unfold emit_metrics. destruct json as [json|]; [|done]. destruct (bc_request_json c) as [req|]; [|done].
  destruct (bc_stats_enabled c); [|done]. obs_steps. destruct x0 as [id now].
  assert (∀ ctx n p, p = probes_of (buffered_sample c json req id now x n ctx) →
    let m := buffered_sample c json req id now x n ctx in
    let b := gated_one m 0 (mkBook [] [] [] p [] []) in
    exported b = filter (λ m, has_throughput_signal m = true) (gated b) ∧
    ∃ id now ms n ctx, let m := buffered_sample c json req id now ms n ctx in gated b = [m] ∧ probed b = probes_of m) as Hb.
  { intros ctx n p ->. cbv zeta. simpl. split; [|by eexists _, _, _, _, _].
    destruct (has_throughput_signal _) eqn:E; [by rewrite filter_cons_True|by rewrite filter_cons_False by congruence]. }
  apply wp_bind. unfold probe_window.
  set (m := with_group _ _) in *.
  assert (∀ ctx n, probes_of (buffered_sample c json req id now x n ctx) = if has_throughput_signal m then 1 else 0) as Hp.
  { intros ctx n. unfold probes_of. by rewrite <- (signal_with_context ctx m). }
  destruct (has_throughput_signal m); obs_steps; [destruct x0 as [[v|]|]; obs_steps|];
    apply log_and_export_spec; (apply (Hb (Some v)) || apply (Hb None)); by rewrite Hp.
Qed.

(** The sampled warning can fall silent: with two fixes detected per stream the
    count a stream finds is even, and no hundredth ever comes up. *)
Lemma unrepaired_falls_silent k : (0 < k)%Z → warns_unrepaired (2 * k + 1) = false.
Proof.
  intros Hk. unfold warns_unrepaired. apply orb_false_iff. split; [apply Z.eqb_neq; lia|].
  apply Z.eqb_neq. intros Hm. apply Z.mod_divide in Hm as [q Hq]; lia.
Qed.
