(* ===== verification/Synthesis.v ===== *)
(** * Streams synthesized from a complete response (llama-proxy/src/proxy/synthesis.rs)

    The wall clock ([now]) and fresh identifiers ([uuid], one per block) are
    parameters.  Pacing and the SSE transport are not modelled: a stream is
    the list of its events. *)
From S2P Require Import Prelude Utf8 Json Merge.

(** [json!({ "k": v, .. })]. *)
Definition obj (kvs : list (str * Value)) : Value := VObject kvs.

(** ** Cutting text *)
Fixpoint last_index {A} (f : A → bool) (l : list A) : option nat :=
  match l with
  | [] => None
  | x :: l' => match last_index f l' with Some i => Some (S i) | None => if f x then Some 0 else None end
  end.

(** Where the chunk ends, in chars: after the last whitespace of the window,
    or at its end. *)
Definition cut_at (rest : list str) (max_size : nat) : nat :=
  let window := Nat.min (Nat.max max_size 1) (length rest) in
  if window <? length rest then
    match last_index is_whitespace (take window rest) with Some i => S i | None => window end
  else window.

Fixpoint split_go (fuel : nat) (rest : list str) (max_size : nat) : list str :=
  match fuel, rest with
  | S fuel', _ :: _ =>
      let cut := cut_at rest max_size in
      concat (take cut rest) :: split_go fuel' (drop cut rest) max_size
  | _, _ => []
  end.

Definition split_chars (text : str) (max_size : nat) : list str :=
  let cs := chars text in
  if length cs <=? max_size then [text] else split_go (length cs) cs max_size.

(** ** The validated view of a completion *)
Record StreamMeta := mkMeta {
  m_id : str;
  created : Z;
  model : str;
  extras : list (str * Value);
}.

Record RawCompletion := mkRaw {
  meta : StreamMeta;
  choices : list Value;
  usage : option Value;
  timings : option Value;
}.

Definition known_field (k : str) : bool :=
  existsb (λ n, bool_decide (k = lit n))
    ["id"; "object"; "created"; "model"; "choices"; "usage"; "timings"]%string.

Definition ok_or {A} (o : option A) (e : String.string) : result str A :=
  match o with Some a => Ok a | None => Err (lit e) end.

Definition check_choice (c : Value) : result str unit :=
  co ← ok_or (as_object c) "choices[] entry is not an object";
  _ ← ok_or (map_get (lit "message") co ≫= as_object) "choices[] entry has no message object";
  if match map_get (lit "index") co with Some i => negb (bool_decide (is_Some (as_u64 i))) | None => false end
  then Err (lit "choices[].index is present but not a non-negative integer")
  else if match map_get (lit "finish_reason") co with
          | Some f => negb (is_null f) && negb (is_string f) | None => false end
  then Err (lit "choices[].finish_reason is present but not a string or null")
  else Ok ().

Definition collect_extras (o : list (str * Value)) : list (str * Value) :=
  foldl (λ ex e, if known_field e.1 then ex else map_insert e.1 e.2 ex) [] o.

Definition as_i64 (v : Value) : option Z :=
  match v with
  | VNumber (NInt z) => if ((- 2 ^ 63 <=? z) && (z <? 2 ^ 63))%Z then Some z else None
  | _ => None
  end.

Definition object_field (o : list (str * Value)) (k : str) : option Value :=
  match map_get k o with Some (VObject m) => Some (VObject m) | _ => None end.

Definition parse_raw_completion (now : Z) (raw : Value) : result str RawCompletion :=
  o ← ok_or (as_object raw) "response is not a JSON object";
  id ← ok_or (map_get (lit "id") o ≫= as_str) "response has no string id";
  model ← ok_or (map_get (lit "model") o ≫= as_str) "response has no string model";
  let created := default now (map_get (lit "created") o ≫= as_i64) in
  choices ← ok_or (map_get (lit "choices") o ≫= as_array) "response has no choices array";
  if bool_decide (length choices = 0) then Err (lit "response has an empty choices array")
  else
    _ ← try_for check_choice choices;
    Ok (mkRaw (mkMeta id created model (collect_extras o)) choices
          (object_field o (lit "usage")) (object_field o (lit "timings"))).

(** ** OpenAI chunks *)
Definition FINISH_EVENT : str := lit "finish_reason".

Definition put_all (ex : list (str * Value)) (m : list (str * Value)) : list (str * Value) :=
  foldl (λ m e, map_insert e.1 e.2 m) m ex.

Definition sse_envelope (meta : StreamMeta) (event : str) (data : Value) (idx : Z) : list (str * Value) :=
  let '(delta, finish_reason) :=
    if bool_decide (event = FINISH_EVENT) then (VObject [], data) else (VObject [(event, data)], VNull) in
  put_all (extras meta)
    [(lit "id", VString (m_id meta)); (lit "object", vstr "chat.completion.chunk");
     (lit "created", VNumber (NInt (created meta))); (lit "model", VString (model meta));
     (lit "choices", VArray [obj [kv "index" (VNumber (NInt idx)); kv "delta" (delta);
                                  kv "finish_reason" (finish_reason)]])].

(** An event of the synthesized OpenAI stream. *)
Inductive Chunk := ChunkJson (v : Value) | ChunkDone.

Definition opt_chunk {A} (x : option A) (f : A → Value) : list Value :=
  match x with Some a => [f a] | None => [] end.

Definition content_chunks (meta : StreamMeta) (content : option Value) (idx : Z) (chunk_size : nat) : list Value :=
  match content with
  | Some (VString text) =>
      if bool_decide (text = []) then []
      else (λ p, VObject (sse_envelope meta (lit "content") (VString p) idx)) <$> split_chars text chunk_size
  | Some VNull | None => []
  | Some other => [VObject (sse_envelope meta (lit "content") other idx)]
  end.

Definition nonempty_tools (message : list (str * Value)) : option (list Value) :=
  match map_get (lit "tool_calls") message with
  | Some (VArray (t :: ts)) => Some (t :: ts)
  | _ => None
  end.

Definition finish_of (choice : Value) (tools : option (list Value)) : str :=
  match get choice (lit "finish_reason") ≫= as_str with
  | Some f => f
  | None => match tools with Some _ => lit "tool_calls" | None => lit "stop" end
  end.

Definition opt_insert (k : str) (v : option Value) (m : list (str * Value)) : list (str * Value) :=
  match v with Some x => map_insert k x m | None => m end.

Definition synthesize_choice_chunks (meta : StreamMeta) (choice : Value) (idx : Z)
    (usage timings : option Value) (chunk_size : nat) : list Value :=
  match get choice (lit "message") ≫= as_object with
  | None => []
  | Some message =>
      let env event data := VObject (sse_envelope meta event data idx) in
      let tools := nonempty_tools message in
      opt_chunk (map_get (lit "role") message ≫= as_str) (λ r, env (lit "role") (VString r))
      ++ opt_chunk (map_get (lit "reasoning_text") message ≫= as_str) (λ r, env (lit "reasoning_text") (VString r))
      ++ opt_chunk (map_get (lit "reasoning_opaque") message ≫= as_str) (λ r, env (lit "reasoning_opaque") (VString r))
      ++ content_chunks meta (map_get (lit "content") message) idx chunk_size
      ++ opt_chunk tools (λ ts, env (lit "tool_calls") (VArray ts))
      ++ [VObject (opt_insert (lit "timings") timings
                     (opt_insert (lit "usage") usage
                        (sse_envelope meta FINISH_EVENT (VString (finish_of choice tools)) idx)))]
  end.

Fixpoint synthesize_choices (pos : nat) (parsed : RawCompletion) (cs : list Value) (chunk_size : nat) : list Value :=
  match cs with
  | [] => []
  | choice :: cs' =>
      let idx := default (Z.of_nat pos) (get choice (lit "index") ≫= as_u64) in
      let is_last := pos =? length (choices parsed) - 1 in
      synthesize_choice_chunks (meta parsed) choice idx
        (if is_last then usage parsed else None) (if is_last then timings parsed else None) chunk_size
      ++ synthesize_choices (S pos) parsed cs' chunk_size
  end.

Definition synthesize_openai_chunks (parsed : RawCompletion) (chunk_size : nat) : list Chunk :=
  (ChunkJson <$> synthesize_choices 0 parsed (choices parsed) chunk_size) ++ [ChunkDone].

Definition synthesize_streaming_response (now : Z) (raw : Value) (chunk_size : nat) : result str (list Chunk) :=
  parsed ← parse_raw_completion now raw;
  Ok (synthesize_openai_chunks parsed chunk_size).

(** ** Anthropic frames *)
Definition map_openai_finish_to_stop (finish : str) : str :=
  if bool_decide (finish = lit "stop") then lit "end_turn"
  else if bool_decide (finish = lit "length") then lit "max_tokens"
  else if bool_decide (finish = lit "tool_calls") then lit "tool_use"
  else finish.

Record SseFrame := mkFrame {
  f_event : str;
  f_data : Value;
}.
Definition frame (event : String.string) (data : Value) : SseFrame := mkFrame (lit event) data.
Arguments frame event%_string data.

Definition block_start (index : nat) (block : Value) : Value :=
  obj [kv "type" (vstr "content_block_start"); kv "index" (vnat index); kv "content_block" (block)].
Definition block_delta (index : nat) (delta : Value) : Value :=
  obj [kv "type" (vstr "content_block_delta"); kv "index" (vnat index); kv "delta" (delta)].

Definition build_content_block_start_event (index : nat) (block_type : String.string) : Value :=
  block_start index (obj [kv "type" (vstr block_type); kv "text" (vstr "")]).
Arguments build_content_block_start_event index block_type%_string.
Definition build_thinking_block_start_event (index : nat) (signature : option str) : Value :=
  block_start index
    (VObject (opt_insert (lit "signature") (VString <$> signature)
       [(lit "type", vstr "thinking"); (lit "thinking", vstr "")])).
Definition build_signature_delta_event (index : nat) (signature : str) : Value :=
  block_delta index (obj [kv "type" (vstr "signature_delta"); kv "signature" (VString signature)]).
Definition build_content_block_delta_event (index : nat) (delta_type : String.string) (text : str) : Value :=
  block_delta index (obj [kv "type" (vstr delta_type); kv "text" (VString text)]).
Arguments build_content_block_delta_event index delta_type%_string text.
Definition build_thinking_block_delta_event (index : nat) (thinking : str) : Value :=
  block_delta index (obj [kv "type" (vstr "thinking_delta"); kv "thinking" (VString thinking)]).
Definition build_content_block_stop_event (index : nat) : Value :=
  obj [kv "type" (vstr "content_block_stop"); kv "index" (vnat index)].
Definition build_message_stop_event : Value := obj [kv "type" (vstr "message_stop")].
Definition build_tool_use_block_start_event (index : nat) (id name : str) : Value :=
  block_start index
    (obj [kv "type" (vstr "tool_use"); kv "id" (VString id); kv "name" (VString name); kv "input" (VObject [])]).
Definition build_tool_use_block_delta_event (index : nat) (partial_json : str) : Value :=
  block_delta index (obj [kv "type" (vstr "input_json_delta"); kv "partial_json" (VString partial_json)]).

(** A block: its start, its deltas, its stop. *)
Definition block_frames (index : nat) (start : Value) (deltas : list Value) : list SseFrame :=
  frame "content_block_start" start :: (frame "content_block_delta" <$> deltas)
  ++ [frame "content_block_stop" (build_content_block_stop_event index)].

Section Convert.
Context (uuid : nat → str).

Definition reasoning_block (message : list (str * Value)) (idx chunk_size : nat) : list (list SseFrame) :=
  match map_get (lit "reasoning_text") message ≫= as_str with
  | Some reasoning =>
      if bool_decide (reasoning = []) then []
      else [block_frames idx (build_thinking_block_start_event idx None)
              (build_thinking_block_delta_event idx <$> split_chars reasoning chunk_size)]
  | None => []
  end.

Definition content_block (message : list (str * Value)) (idx chunk_size : nat) : list (list SseFrame) :=
  match map_get (lit "content") message with
  | Some (VString text) =>
      if bool_decide (text = []) then []
      else [block_frames idx (build_content_block_start_event idx "text")
              (build_content_block_delta_event idx "text_delta" <$> split_chars text chunk_size)]
  | Some VNull | None => []
  | Some other => [block_frames idx (block_start idx other) []]
  end.

Definition tool_block (idx : nat) (tc : Value) : list SseFrame :=
  let id := default (lit "toolu_" ++ filter (.≠ "-"%char) (uuid idx)) (get tc (lit "id") ≫= as_str) in
  let name := default [] (f ← get tc (lit "function"); get f (lit "name") ≫= as_str) in
  let args := default [] (f ← get tc (lit "function"); get f (lit "arguments") ≫= as_str) in
  block_frames idx (build_tool_use_block_start_event idx id name)
    [build_tool_use_block_delta_event idx args].

Fixpoint tool_blocks (idx : nat) (tools : list Value) : list (list SseFrame) :=
  match tools with
  | [] => []
  | tc :: tools' => tool_block idx tc :: tool_blocks (S idx) tools'
  end.

(** The blocks of one choice, the first one at [idx]; at least one. *)
Definition choice_blocks (idx : nat) (message : list (str * Value)) (chunk_size : nat) : list (list SseFrame) :=
  let b1 := reasoning_block message idx chunk_size in
  let b2 := content_block message (idx + length b1) chunk_size in
  let tools := default [] (map_get (lit "tool_calls") message ≫= as_array) in
  let b3 := tool_blocks (idx + length b1 + length b2) tools in
  let bs := b1 ++ b2 ++ b3 in
  if bool_decide (bs = []) then [block_frames idx (build_content_block_start_event idx "text") []] else bs.

Definition has_tools (message : list (str * Value)) : bool :=
  match map_get (lit "tool_calls") message with Some (VArray (_ :: _)) => true | _ => false end.

Fixpoint all_blocks (idx : nat) (cs : list Value) (chunk_size : nat) : option (list (list SseFrame) * bool) :=
  match cs with
  | [] => Some ([], false)
  | choice :: cs' =>
      message ← get choice (lit "message") ≫= as_object;
      let bs := choice_blocks idx message chunk_size in
      '(rest, tool) ← all_blocks (idx + length bs) cs' chunk_size;
      Some (bs ++ rest, has_tools message || tool)
  end.

(** The usage object with the Anthropic names added. *)
Definition claude_usage (u : option Value) : Value :=
  match u with
  | Some (VObject m) =>
      VObject (opt_insert (lit "output_tokens") (map_get (lit "completion_tokens") m)
                 (opt_insert (lit "input_tokens") (map_get (lit "prompt_tokens") m) m))
  | _ => obj [kv "input_tokens" (vnat 0); kv "output_tokens" (vnat 0)]
  end.

Definition start_message (parsed : RawCompletion) (role : str) : Value :=
  VObject (put_all (extras (meta parsed))
    [(lit "id", VString (m_id (meta parsed))); (lit "type", vstr "message"); (lit "role", VString role);
     (lit "model", VString (model (meta parsed))); (lit "content", VArray []);
     (lit "stop_reason", VNull); (lit "stop_sequence", VNull); (lit "usage", claude_usage (usage parsed))]).

Definition message_delta (stop_reason : str) (u : Value) : Value :=
  obj [kv "type" (vstr "message_delta");
       kv "delta" (obj [kv "stop_reason" (VString stop_reason); kv "stop_sequence" (VNull)]);
       kv "usage" (u)].

Definition convert_openai_to_claude_sse (now : Z) (raw : Value) (chunk_size : nat) : list SseFrame :=
  match parse_raw_completion now raw with
  | Err _ => []
  | Ok parsed =>
      match (c ← head (choices parsed); get c (lit "message")) with
      | None => []
      | Some first_msg =>
          let role := default (lit "assistant") (get first_msg (lit "role") ≫= as_str) in
          match all_blocks 0 (choices parsed) chunk_size with
          | None => []
          | Some (blocks, has_tool_use) =>
              let stop_reason :=
                match (c ← last (choices parsed); get c (lit "finish_reason") ≫= as_str) with
                | Some f => map_openai_finish_to_stop f
                | None => if has_tool_use then lit "tool_use" else lit "end_turn"
                end in
              frame "message_start" (obj [kv "type" (vstr "message_start"); kv "message" (start_message parsed role)])
              :: concat blocks
              ++ [frame "message_delta" (message_delta stop_reason (claude_usage (usage parsed)));
                  frame "message_stop" build_message_stop_event]
          end
      end
  end.
End Convert.

(** ** What a well-formed Anthropic stream is *)

(** Blocks numbered without a gap from [i] to [j]. *)
Inductive numbered : nat → list (list SseFrame) → nat → Prop :=
  | numbered_nil i : numbered i [] i
  | numbered_cons i start deltas bs j :
      get start (lit "index") = Some (vnat i) →
      Forall (λ d, get d (lit "index") = Some (vnat i)) deltas →
      numbered (S i) bs j → numbered i (block_frames i start deltas :: bs) j.

(** * Facts *)

(** ** Cutting text loses nothing *)
Lemma last_index_lt {A} (f : A → bool) l i : last_index f l = Some i → i < length l.
Proof.
  revert i. induction l as [|x l IH]; intros i; simpl; [done|].
  destruct (last_index f l) as [j|]; [intros [= <-]; specialize (IH j eq_refl); lia|].
  destruct (f x); [intros [= <-]; lia|done].
Qed.

Lemma cut_at_bounds rest max_size :
  rest ≠ [] → 1 ≤ cut_at rest max_size ≤ Nat.max max_size 1 ∧ cut_at rest max_size ≤ length rest.
Proof.
  intros Hne. assert (length rest ≠ 0) by by destruct rest. unfold cut_at. cbv zeta.
  set (w := Nat.min (Nat.max max_size 1) (length rest)).
  assert (1 ≤ w ∧ w ≤ Nat.max max_size 1 ∧ w ≤ length rest) by lia.
  destruct (w <? length rest); [|lia].
  destruct (last_index is_whitespace (take w rest)) as [i|] eqn:E; [|lia].
  apply last_index_lt in E. rewrite length_take in E. lia.
Qed.

Lemma grouped_take_nonempty n gs : grouped gs → gs ≠ [] → n ≠ 0 → concat (take n gs) ≠ [].
Proof.
  intros [Hg _] Hne Hn. destruct gs as [|g gs]; [done|]. destruct n; [done|]. simpl.
  apply Forall_cons in Hg as [Hg _]. by destruct g.
Qed.

Lemma split_go_spec fuel rest max_size :
  grouped rest → length rest ≤ fuel →
  concat (split_go fuel rest max_size) = concat rest ∧
  Forall (λ p, p ≠ [] ∧ length (chars p) ≤ Nat.max max_size 1) (split_go fuel rest max_size).
Proof.
  revert rest. induction fuel as [|fuel IH]; intros rest Hg Hl.
  { destruct rest; [done|simpl in Hl; lia]. }
  destruct rest as [|c rest]; [done|]. cbn [split_go]. cbv zeta.
  destruct (cut_at_bounds (c :: rest) max_size) as [Hb Hb']; [done|].
  set (cut := cut_at (c :: rest) max_size) in *.
  destruct (IH (drop cut (c :: rest))) as [E F]; [by apply grouped_drop|rewrite length_drop; lia|].
  split.
  - cbn [concat]. rewrite E, <- concat_app. by rewrite take_drop.
  - constructor; [|done]. split; [apply grouped_take_nonempty; [done..|lia]|].
    rewrite chars_concat by (by apply grouped_take). rewrite length_take. lia.
Qed.

Lemma split_chars_concat text max_size : concat (split_chars text max_size) = text.
Proof.
  unfold split_chars. cbv zeta. destruct (_ <=? _); [simpl; by rewrite app_nil_r|].
  destruct (split_go_spec (length (chars text)) (chars text) max_size (chars_grouped text) ltac:(done)) as [-> _].
  apply concat_chars.
Qed.

(** The pieces of a text make it up again, none is empty, and none exceeds the
    configured number of chars (one at least). *)
Theorem split_chars_lossless text max_size :
  concat (split_chars text max_size) = text ∧
  Forall (λ p, length (chars p) ≤ Nat.max max_size 1) (split_chars text max_size) ∧
  (text ≠ [] → Forall (.≠ []) (split_chars text max_size)).
Proof.
  split; [apply split_chars_concat|]. unfold split_chars. cbv zeta.
  destruct (Nat.leb_spec (length (chars text)) max_size).
  - split; [repeat constructor; lia|]. intros. by repeat constructor.
  - destruct (split_go_spec (length (chars text)) (chars text) max_size (chars_grouped text) ltac:(done)) as [_ F].
    split; [|intros _]; eapply Forall_impl; [exact F| |exact F|]; by intros ? [].
Qed.

(** ** Envelopes *)
Lemma put_all_get ex m k :
  k ∉ ex.*1 → map_get k (put_all ex m) = map_get k m.
Proof.
  unfold put_all. revert m. induction ex as [|e ex IH]; intros m Hk; [done|]. simpl in *.
  apply not_elem_of_cons in Hk as [Hk1 Hk2]. rewrite IH by done. by rewrite map_get_insert, decide_False.
Qed.

Lemma collect_extras_unknown o : Forall (λ k, known_field k = false) (collect_extras o).*1.
Proof.
  unfold collect_extras. assert (∀ ex, Forall (λ k, known_field k = false) ex.*1 →
    Forall (λ k, known_field k = false) (foldl (λ ex e, if known_field e.1 then ex else map_insert e.1 e.2 ex) ex o).*1) as H;
    [|by apply H; constructor].
  induction o as [|[k v] o IH]; intros ex Hex; [done|]. simpl. apply IH.
  destruct (known_field k) eqn:Hk; [done|]. clear IH. induction ex as [|[k' v'] ex IH]; simpl.
  - by repeat constructor.
  - apply Forall_cons in Hex as [H1 H2]. case_decide; constructor; auto.
Qed.

Lemma envelope_choices meta event data idx :
  lit "choices" ∉ (extras meta).*1 →
  map_get (lit "choices") (sse_envelope meta event data idx) =
    Some (VArray [obj [kv "index" (VNumber (NInt idx));
      kv "delta" (if bool_decide (event = FINISH_EVENT) then VObject [] else VObject [(event, data)]);
      kv "finish_reason" (if bool_decide (event = FINISH_EVENT) then data else VNull)]]).
Proof. intros Hx. unfold sse_envelope. case_bool_decide; rewrite put_all_get by done; done. Qed.

(** ** Synthesizing and merging back *)
Lemma opt_insert_get k x m k' : k ≠ k' → map_get k' (opt_insert k x m) = map_get k' m.
Proof. intros Hk. destruct x; simpl; [|done]. by rewrite map_get_insert, decide_False. Qed.

(** A chunk with the choices of an envelope. *)
Definition enveloped (meta : StreamMeta) (event : str) (data : Value) (idx : Z) (c : Value) : Prop :=
  ∃ m, c = VObject m ∧ map_get (lit "choices") m = map_get (lit "choices") (sse_envelope meta event data idx).

Definition data_ok (event : str) (data : Value) : Prop :=
  event = lit "tool_calls" → ∃ ts, data = VArray ts ∧ Forall (λ c, ∃ i, fragment i c) ts.

Lemma enveloped_chunk meta event data idx c :
  lit "choices" ∉ (extras meta).*1 → enveloped meta event data idx c → data_ok event data →
  chunk_ok c ∧
  ∀ k, text_key k → delta_text k c = if decide (event = k) then default [] (as_str data) else [].
Proof.
  intros Hx (m & -> & Hm) Hd. rewrite envelope_choices in Hm by done. split.
  - split; [by eexists|]. eexists. split; [exact Hm|]. right. eexists. split; [done|].
    split; [by eexists|]. eexists. split; [done|]. unfold delta_ok. case_bool_decide; [done|]. simpl.
    case_decide as He; [|done]. destruct (Hd He) as (ts & -> & Hts). exact Hts.
  - intros k Hk. unfold delta_text. simpl get at 1. rewrite Hm. simpl get at 1. unfold text_at.
    case_bool_decide as Hf.
    + rewrite decide_False; [done|]. subst. by destruct Hk as [-> | ->].
    + simpl. by case_decide.
Qed.

(** Lists of such chunks: well formed, with a given text under each key. *)
Definition carries (t : str → str) (l : list Value) : Prop :=
  Forall chunk_ok l ∧ ∀ k, text_key k → concat (delta_text k <$> l) = t k.

Lemma carries_app t1 t2 l1 l2 : carries t1 l1 → carries t2 l2 → carries (λ k, t1 k ++ t2 k) (l1 ++ l2).
Proof.
  intros [F1 T1] [F2 T2]. split; [by apply Forall_app|]. intros k Hk.
  by rewrite fmap_app, concat_app, T1, T2.
Qed.

Lemma carries_one meta event data idx c :
  lit "choices" ∉ (extras meta).*1 → enveloped meta event data idx c → data_ok event data →
  carries (λ k, if decide (event = k) then default [] (as_str data) else []) [c].
Proof.
  intros Hx He Hd. destruct (enveloped_chunk meta event data idx c Hx He Hd) as [Ho Ht].
  split; [by constructor|]. intros k Hk. simpl. rewrite app_nil_r. by apply Ht.
Qed.

Lemma carries_env meta event data idx :
  lit "choices" ∉ (extras meta).*1 → data_ok event data →
  carries (λ k, if decide (event = k) then default [] (as_str data) else [])
    [VObject (sse_envelope meta event data idx)].
Proof. intros Hx Hd. eapply carries_one; [done| |done]. by eexists. Qed.

Lemma carries_nil : carries (λ _, []) [].
Proof. by split. Qed.

Lemma carries_ext t t' l : (∀ k, text_key k → t k = t' k) → carries t l → carries t' l.
Proof. intros Ht [F T]. split; [done|]. intros k Hk. by rewrite T, Ht. Qed.

Lemma carries_content meta content idx n :
  lit "choices" ∉ (extras meta).*1 →
  carries (λ k, if decide (lit "content" = k) then default [] (content ≫= as_str) else [])
    (content_chunks meta content idx n).
Proof.
  intros Hx. unfold content_chunks.
  assert (∀ v, as_str v = None → carries (λ k, if decide (lit "content" = k) then [] else [])
    [VObject (sse_envelope meta (lit "content") v idx)]) as Hother.
  { intros v Hv. eapply carries_ext; [|by apply carries_env]. intros k Hk. simpl. rewrite Hv. done. }
  assert (carries (λ k, if decide (lit "content" = k) then [] else []) []) as Hnil
    by (eapply carries_ext; [|apply carries_nil]; intros; by case_decide).
  destruct content as [[| | |text| |]|]; try done; try by apply Hother.
  case_bool_decide as Ht; [by subst|]. simpl.
  assert (∀ ps, carries (λ k, if decide (lit "content" = k) then concat ps else [])
    ((λ p, VObject (sse_envelope meta (lit "content") (VString p) idx)) <$> ps)) as Hps.
  { intros ps. induction ps as [|p ps IH]; [done|].
    eapply carries_ext; [|apply (carries_app _ _ [_] _ (carries_env meta (lit "content") (VString p) idx Hx ltac:(done)) IH)].
    intros k Hk. simpl. by case_decide. }
  specialize (Hps (split_chars text n)). by rewrite split_chars_concat in Hps.
Qed.

Lemma carries_opt meta event (x : option str) idx :
  lit "choices" ∉ (extras meta).*1 → event ≠ lit "tool_calls" →
  carries (λ k, if decide (event = k) then default [] x else [])
    (opt_chunk x (λ r, VObject (sse_envelope meta event (VString r) idx))).
Proof.
  intros Hx He. destruct x as [r|]; simpl.
  - eapply carries_ext; [|apply carries_env; [done|by intros ?]]. done.
  - eapply carries_ext; [|apply carries_nil]. intros. by case_decide.
Qed.

(** The text a message holds under a key. *)
Lemma choice_chunks_carry meta choice idx u t n message :
  lit "choices" ∉ (extras meta).*1 → get choice (lit "message") ≫= as_object = Some message →
  (∀ ts, nonempty_tools message = Some ts → Forall (λ c, ∃ i, fragment i c) ts) →
  carries (λ k, text_at k (VObject message)) (synthesize_choice_chunks meta choice idx u t n) ∧
  synthesize_choice_chunks meta choice idx u t n ≠ [].
Proof.
  intros Hx Hm Htools. unfold synthesize_choice_chunks. rewrite Hm. cbv zeta. split.
  2:{ rewrite !app_assoc. by intros [_ ?]%app_nil. }
  eapply carries_ext.
  2:{ apply carries_app; [by apply (carries_opt meta (lit "role"))|].
      apply carries_app; [by apply (carries_opt meta (lit "reasoning_text"))|].
      apply carries_app; [by apply (carries_opt meta (lit "reasoning_opaque"))|].
      apply carries_app; [by apply carries_content|].
      apply (carries_app (λ _, []) (λ _, [])).
      - destruct (nonempty_tools message) as [ts|] eqn:Et; simpl; [|apply carries_nil].
        eapply carries_ext; [|apply (carries_env meta (lit "tool_calls") (VArray ts)); [done|]].
        + intros k Hk. simpl. by case_decide.
        + intros _. exists ts. split; [done|]. by apply Htools.
      - eapply carries_ext; [|eapply (carries_one meta FINISH_EVENT (VString (finish_of choice _))); [done| |done]].
        + intros k Hk. cbv beta. rewrite decide_False; [done|]. by destruct Hk as [-> | ->].
        + eexists. split; [done|]. by rewrite !opt_insert_get. }
  intros k Hk. cbv beta. rewrite !app_nil_r. unfold text_at. destruct Hk as [-> | ->].
  - rewrite !(decide_False (P := _ = lit "content")), (decide_True (P := lit "content" = _)) by done. done.
  - rewrite (decide_False (P := lit "role" = _)), (decide_True (P := lit "reasoning_text" = _)),
      !(decide_False (P := _ = lit "reasoning_text")) by done. by rewrite !app_nil_r.
Qed.

Lemma parse_raw_extras now raw parsed :
  parse_raw_completion now raw = Ok parsed → lit "choices" ∉ (extras (meta parsed)).*1.
Proof.
  intros E. unfold parse_raw_completion in E. inv_result. cbv zeta in E. inv_result.
  case_bool_decide; [done|]. inv_result. subst. simpl. intros Hin.
  pose proof (collect_extras_unknown a) as H0. rewrite Forall_forall in H0. by apply H0 in Hin.
Qed.

(** The chunks of a completion of one choice carry the texts of its message. *)
Lemma synthesized_carry now raw n parsed choice message :
  parse_raw_completion now raw = Ok parsed → choices parsed = [choice] →
  get choice (lit "message") ≫= as_object = Some message →
  (∀ ts, nonempty_tools message = Some ts → Forall (λ c, ∃ i, fragment i c) ts) →
  carries (λ k, text_at k (VObject message)) (synthesize_choices 0 parsed (choices parsed) n) ∧
  synthesize_choices 0 parsed (choices parsed) n ≠ [].
Proof.
  intros Hp Hc Hm Htools. rewrite Hc. simpl. rewrite app_nil_r.
  exact (choice_chunks_carry (meta parsed) choice
    (default 0%Z (get choice (lit "index") ≫= as_u64))
    (if 0 =? length (choices parsed) - 1 then usage parsed else None)
    (if 0 =? length (choices parsed) - 1 then timings parsed else None) n message
    (parse_raw_extras now raw parsed Hp) Hm Htools).
Qed.

(** A response that is synthesized into a stream and merged back keeps the
    text of its message, content and reasoning, whatever the chunk size. *)
Theorem synthesis_merges_back now raw n parsed choice message :
  parse_raw_completion now raw = Ok parsed → choices parsed = [choice] →
  get choice (lit "message") ≫= as_object = Some message →
  (∀ ts, nonempty_tools message = Some ts → Forall (λ c, ∃ i, fragment i c) ts) →
  ∃ v, merge_openai None (synthesize_choices 0 parsed (choices parsed) n) = Some (Some v) ∧
    ∀ k, text_key k → response_text k v = text_at k (VObject message).
Proof.
  intros Hp Hc Hm Htools. destruct (synthesized_carry now raw n parsed choice message Hp Hc Hm Htools) as [[F T] Hne].
  destruct (merge_openai_text _ Hne F) as (v & E & Tv). exists v. split; [exact E|].
  intros k Hk. by rewrite Tv, T.
Qed.

(** ** Anthropic frames *)
Lemma numbered_app i bs j bs' k : numbered i bs j → numbered j bs' k → numbered i (bs ++ bs') k.
Proof. induction 1 as [|i start deltas bs j Hs Hd _ IH]; intros H; [done|]. constructor; auto. Qed.

Lemma numbered_one i start deltas :
  get start (lit "index") = Some (vnat i) → Forall (λ d, get d (lit "index") = Some (vnat i)) deltas →
  numbered i [block_frames i start deltas] (i + 1).
Proof. intros. rewrite Nat.add_1_r. constructor; [done..|constructor]. Qed.

Lemma numbered_nil_at i : numbered i [] (i + 0).
Proof. rewrite Nat.add_0_r. constructor. Qed.

Lemma block_delta_index i d : get (block_delta i d) (lit "index") = Some (vnat i).
Proof. done. Qed.

Lemma reasoning_block_numbered message i n :
  numbered i (reasoning_block message i n) (i + length (reasoning_block message i n)).
Proof.
  unfold reasoning_block. destruct (_ ≫= as_str); [|apply numbered_nil_at].
  case_bool_decide; [apply numbered_nil_at|]. apply numbered_one; [done|].
  apply Forall_fmap, Forall_true. done.
Qed.

Lemma content_block_numbered message i n :
  numbered i (content_block message i n) (i + length (content_block message i n)).
Proof.
  unfold content_block. destruct (map_get (lit "content") message) as [[| | |text| |]|];
    try apply numbered_nil_at; try (by apply numbered_one).
  case_bool_decide; [apply numbered_nil_at|]. apply numbered_one; [done|].
  apply Forall_fmap, Forall_true. done.
Qed.

Section ConvertFacts.
Context (uuid : nat → str).

Lemma tool_blocks_numbered tools i : numbered i (tool_blocks uuid i tools) (i + length (tool_blocks uuid i tools)).
Proof.
  revert i. induction tools as [|tc tools IH]; intros i; simpl; [apply numbered_nil_at|].
  rewrite <- plus_n_Sm. constructor; [done|by repeat constructor|apply IH].
Qed.

Lemma choice_blocks_numbered message i n :
  numbered i (choice_blocks uuid i message n) (i + length (choice_blocks uuid i message n)) ∧
  1 ≤ length (choice_blocks uuid i message n).
Proof.
  unfold choice_blocks. cbv zeta. case_bool_decide as Hb.
  - split; [by apply numbered_one|simpl; lia].
  - split; [|destruct (reasoning_block _ _ _ ++ _); [done|simpl; lia]].
    rewrite !length_app. eapply numbered_app; [apply reasoning_block_numbered|].
    eapply numbered_app; [apply content_block_numbered|].
    rewrite !Nat.add_assoc. apply tool_blocks_numbered.
Qed.

Lemma all_blocks_numbered cs i n bs tool :
  all_blocks uuid i cs n = Some (bs, tool) → numbered i bs (i + length bs) ∧ length cs ≤ length bs.
Proof.
  revert i bs tool. induction cs as [|c cs IH]; intros i bs tool E; cbn [all_blocks] in E.
  - simplify_eq. split; [apply numbered_nil_at|done].
  - apply bind_Some in E as (message & _ & E). cbv zeta in E.
    apply bind_Some in E as ([rest tool'] & E1 & E). simplify_eq.
    destruct (choice_blocks_numbered message i n) as [H1 H2]. destruct (IH _ _ _ E1) as [H3 H4].
    rewrite length_app. split; [|simpl; lia]. rewrite Nat.add_assoc. by eapply numbered_app.
Qed.

Lemma ok_or_Ok {A} (o : option A) e a : ok_or o e = Ok a ↔ o = Some a.
Proof using. destruct o; simpl; naive_solver. Qed.

Lemma check_choice_message c : check_choice c = Ok () → is_Some (get c (lit "message") ≫= as_object).
Proof using.
  unfold check_choice. intros H. inv_result. rewrite !ok_or_Ok in *.
  destruct c as [| | | | |co]; try done. simpl in *. simplify_eq. by eexists.
Qed.

Lemma all_blocks_total cs i n :
  Forall (λ c, check_choice c = Ok ()) cs → is_Some (all_blocks uuid i cs n).
Proof.
  intros H. revert i. induction H as [|c cs Hc _ IH]; intros i; [by eexists|]. cbn [all_blocks].
  destruct (check_choice_message c Hc) as [m ->]. cbn [mbind option_bind]. cbv zeta.
  destruct (IH (i + length (choice_blocks uuid i m n))) as [[rest tool] ->]. by eexists.
Qed.

(** A response the validation accepts is converted: its start, the blocks of all
    its choices, the stop reason and the stop. *)
Definition stop_of (cs : list Value) (tool : bool) : str :=
  match (c ← last cs; get c (lit "finish_reason") ≫= as_str) with
  | Some f => map_openai_finish_to_stop f
  | None => if tool then lit "tool_use" else lit "end_turn"
  end.
Definition any_tools (cs : list Value) : bool :=
  existsb (λ c, has_tools (default [] (get c (lit "message") ≫= as_object))) cs.
Lemma all_blocks_tools cs i n bs tool : all_blocks uuid i cs n = Some (bs, tool) → tool = any_tools cs.
Proof using.
  revert i bs tool. induction cs as [|c cs IH]; intros i bs tool E; cbn [all_blocks] in E; [by simplify_eq|].
  apply bind_Some in E as (message & Hm & E). cbv zeta in E. apply bind_Some in E as ([rest tool'] & E1 & E). simplify_eq.
  unfold any_tools. cbn [existsb]. rewrite Hm, (IH _ _ _ E1). reflexivity.
Qed.
Lemma converted_frames now raw n parsed : parse_raw_completion now raw = Ok parsed →
  ∃ role bs tool, all_blocks uuid 0 (choices parsed) n = Some (bs, tool) ∧ tool = any_tools (choices parsed) ∧ length (choices parsed) ≤ length bs ∧
    convert_openai_to_claude_sse uuid now raw n =
      frame "message_start" (obj [kv "type" (vstr "message_start"); kv "message" (start_message parsed role)]) :: concat bs
      ++ [frame "message_delta" (message_delta (stop_of (choices parsed) tool) (claude_usage (usage parsed)));
          frame "message_stop" build_message_stop_event].
Proof.
  unfold convert_openai_to_claude_sse. intros Ep. rewrite Ep.
  assert (Forall (λ c, check_choice c = Ok ()) (choices parsed) ∧ choices parsed ≠ []) as [Hck Hne].
  { unfold parse_raw_completion in Ep. inv_result. cbv zeta in Ep. inv_result.
    case_bool_decide as Hl; [done|]. inv_result. subst. simpl. split; [by apply try_for_Ok|].
    by intros ->. }
  assert (is_Some (c ← head (choices parsed); get c (lit "message"))) as [m0 ->].
  { destruct (choices parsed) as [|c0 cs]; [done|]. cbn. apply Forall_cons in Hck as [Hc _].
    destruct (check_choice_message c0 Hc) as [m Hm]. destruct (get c0 (lit "message")); [by eexists|done]. }
  destruct (all_blocks_total _ 0 n Hck) as [[bs tool] Eb]. rewrite Eb.
  eexists _, bs, tool. split; [done|]. split; [by eapply all_blocks_tools|]. split; [by eapply all_blocks_numbered|reflexivity].
Qed.

Lemma parsed_extras now raw parsed k : parse_raw_completion now raw = Ok parsed →
  get raw k = None ∨ known_field k = true → k ∉ (extras (meta parsed)).*1.
Proof using.
  unfold parse_raw_completion. intros E. inv_result. cbv zeta in E. inv_result. case_bool_decide; [done|]. inv_result. subst. simpl.
  match goal with H : ok_or (as_object raw) _ = Ok ?o |- _ => rewrite ok_or_Ok in H; destruct raw; simplify_eq/=; rename o into m end.
  intros [Hn|Hk] Hin.
  - assert (∀ l ex, map_get k l = None → k ∉ ex.*1 →
      k ∉ (foldl (λ ex e, if known_field e.1 then ex else map_insert e.1 e.2 ex) ex l).*1) as Hfold; [|by apply (Hfold m [] Hn (not_elem_of_nil _)) in Hin].
    clear. induction l as [|[k0 v0] l IH]; intros ex Hl Hex; [done|]. simpl in *. case_decide; [done|].
    apply IH; [done|]. destruct (known_field k0); [done|]. rewrite map_insert_all_keys. case_decide; set_solver.
  - pose proof (collect_extras_unknown m) as F. rewrite Forall_forall in F. specialize (F k Hin). congruence.
Qed.
End ConvertFacts.
