(* ===== verification/PromptCache.v ===== *)
(** * The mtime-checked prompt file cache (llama-proxy/src/prompt_cache.rs)

    The file system is what a refresh sees of one file: its [stat] (with the
    modification time, where the platform has one) and its [read].  A refresh
    is one step; the process-wide store maps paths to cache entries. *)
From S2P Require Import Prelude.

Abbreviation SystemTime := Z (only parsing).

(** One look at a file. *)
Record FileView := mkView {
  stat : result str (option SystemTime);
  read_file : result str str;
}.

Inductive Refresh :=
  | Reloaded (text : str) (mtime : option SystemTime)
  | Unchanged
  | Empty
  | Failed (e : str).

Record PromptFileCache := mkCache {
  text : str;
  mtime : option SystemTime;
}.

Definition cache_default : PromptFileCache := mkCache [] None.

Definition read_and_store (f : FileView) (m : option SystemTime) (c : PromptFileCache)
    : Refresh * PromptFileCache :=
  match read_file f with
  | Ok t => if bool_decide (trim t = []) then (Empty, c) else (Reloaded t m, mkCache t m)
  | Err e => (Failed e, c)
  end.

Definition refresh (f : FileView) (c : PromptFileCache) : Refresh * PromptFileCache :=
  match stat f with
  | Err e => (Failed e, c)
  | Ok (Some current) =>
      if bool_decide (mtime c = Some current) then (Unchanged, c) else read_and_store f (Some current) c
  | Ok None => read_and_store f None c
  end.

(** [SHARED], and the entry for a path, made on first use. *)
Abbreviation Store := (gmap str PromptFileCache) (only parsing).
Definition shared (path : str) (store : Store) : PromptFileCache * Store :=
  match store !! path with
  | Some hit => (hit, store)
  | None => (cache_default, <[path := cache_default]> store)
  end.

(** * Facts *)

(** A file whose text is determined by its modification time, and readable. *)
Definition content_by_mtime (content : SystemTime → str) (f : FileView) : Prop :=
  ∃ t, stat f = Ok (Some t) ∧ read_file f = Ok (content t) ∧ trim (content t) ≠ [].

(** A cache entry that holds what the file held at the time it remembers. *)
Definition coherent (content : SystemTime → str) (c : PromptFileCache) : Prop :=
  match mtime c with Some t => text c = content t | None => True end.

Lemma refresh_current content f c t :
  content_by_mtime content f → stat f = Ok (Some t) → coherent content c →
  text (refresh f c).2 = content t ∧ mtime (refresh f c).2 = Some t ∧
  ((refresh f c).1 = Unchanged ∧ mtime c = Some t ∨ (refresh f c).1 = Reloaded (content t) (Some t)).
Proof.
  intros (t' & Hs & Hr & Hn) Ht Hc. rewrite Hs in Ht. injection Ht as ->. unfold refresh. rewrite Hs.
  case_bool_decide as E.
  - unfold coherent in Hc. rewrite E in Hc. auto.
  - unfold read_and_store. rewrite Hr, bool_decide_eq_false_2 by done. auto.
Qed.

(** Whatever the file system answers, a refresh never loses the text it has:
    the entry changes on [Reloaded] only, and then to non-blank text. *)
Lemma refresh_keeps f c :
  match refresh f c with
  | (Reloaded t m, c') => c' = mkCache t m ∧ trim t ≠ []
  | (_, c') => c' = c
  end.
Proof.
  unfold refresh, read_and_store. destruct (stat f) as [[t|]|]; [case_bool_decide; [done|]| |done];
    (destruct (read_file f); [case_bool_decide; done|done]).
Qed.
