(* ===== verification/Reprompt.v ===== *)
(** * The reprompt engine (llama-proxy/src/proxy/reprompt.rs)

    A premature stop is answered with follow-up requests until the backend
    continues, says it is done, fails, or runs out of rounds or time.  The
    backend is what each round's request is answered with ([send], by round and
    request) and the clock is what each round reads; [None] is a panic, a
    string-keyed write into a value that is neither an object nor null. *)
From S2P Require Import Prelude Json Node Balancer Config PromptCache.

Definition MAX_BUDGET_CAP : Duration := 24 * 60 * 60 * ns_per_sec.

Record RepromptEngine := mkEngine {
  prompt : str;
  prompt_file : option str;
  dynamic_prompt : bool;
  max_retries : nat;
  max_total_ms : Z;
  done_sentinels : list str;
  log_stop_responses : bool;
  skip_read_only_requests : bool;
}.

(** The process-wide outcome counters. *)
Record RepromptTotals := mkTotals {
  skipped_read_only : Z;
  triggered : Z;
  exhausted : Z;
}.

Definition MUTATING_TOOL_NAMES : list str :=
  lit <$> ["apply_patch"; "applypatch"; "bash"; "edit"; "multiedit"; "notebookedit"; "patch";
           "run_command"; "shell"; "str_replace_editor"; "task"; "todowrite"; "write"]%string.

(** ** Construction *)
Definition engine_from_config (read : str → result str str) (config : RepromptConfig)
    : result str RepromptEngine :=
  '(p, file) ←
    match rp_prompt_file config, rp_prompt config with
    | Some path, _ =>
        match read path with
        | Ok t => Ok (t, Some path)
        | Err e => Err (lit "reprompt: failed to read prompt_file '" ++ path ++ lit "': " ++ e)
        end
    | None, Some inline => Ok (inline, None)
    | None, None => Err (lit "reprompt: neither prompt_file nor prompt is configured")
    end;
  if bool_decide (trim p = []) then Err (lit "reprompt: prompt text is empty")
  else Ok (mkEngine p file (rp_dynamic_prompt config) (Z.to_nat (rp_max_retries config))
             (rp_max_total_ms config) (rp_done_sentinels config) (rp_log_stop_responses config)
             (rp_skip_read_only_requests config)).

Definition set_prompt (p : str) (e : RepromptEngine) : RepromptEngine :=
  mkEngine p (prompt_file e) (dynamic_prompt e) (max_retries e) (max_total_ms e) (done_sentinels e)
    (log_stop_responses e) (skip_read_only_requests e).

(** The prompt to use, the engine with its prompt cell and the shared store. *)
Definition resolve_prompt (view : str → FileView) (e : RepromptEngine) (store : Store)
    : str * RepromptEngine * Store :=
  match dynamic_prompt e, prompt_file e with
  | false, _ | true, None => (prompt e, e, store)
  | true, Some path =>
      let '(entry, store) := shared path store in
      let '(outcome, entry') := refresh (view path) entry in
      let store := <[path := entry']> store in
      match outcome with
      | Reloaded t _ => (t, set_prompt t e, store)
      | Unchanged | Empty | Failed _ => (prompt e, e, store)
      end
  end.

(** ** Reading responses and requests *)
Definition first_choice (response : Value) : option Value :=
  match get response (lit "choices") with Some (VArray (c :: _)) => Some c | _ => None end.

Definition has_tool_calls (first : Value) : bool :=
  match (m ← get first (lit "message"); get m (lit "tool_calls")) with
  | Some (VArray (_ :: _)) => true
  | _ => false
  end.

Definition should_trigger (response : Value) : bool :=
  match first_choice response with
  | None => false
  | Some first =>
      let finish := default [] (get first (lit "finish_reason") ≫= as_str) in
      if negb (bool_decide (finish = lit "stop")) then false else negb (has_tool_calls first)
  end.

Definition has_continuation (response : Value) : bool :=
  match first_choice response with
  | None => false
  | Some first =>
      if has_tool_calls first then true
      else negb (bool_decide (default (lit "stop") (get first (lit "finish_reason") ≫= as_str) = lit "stop"))
  end.

Definition tool_name (tool : Value) : str :=
  default []
    (name ← match (f ← get tool (lit "function"); get f (lit "name")) with
            | Some n => Some n
            | None => get tool (lit "name")
            end;
     as_str name).

Definition request_is_read_only (request : Value) : bool :=
  match get request (lit "tools") with
  | Some (VArray (t :: ts)) =>
      negb (existsb (λ tool,
        let name := to_ascii_lowercase (tool_name tool) in
        existsb (λ keyword, contains_sub name keyword) MUTATING_TOOL_NAMES) (t :: ts))
  | _ => false
  end.

Definition part_texts (parts : list Value) : list str :=
  omap (λ p, get p (lit "text") ≫= as_str) parts.

Definition extract_assistant_text (response : Value) : str :=
  match (ch ← first_choice response; get ch (lit "message")) with
  | None => []
  | Some message =>
      let from_content :=
        match get message (lit "content") with
        | Some (VString s) => s
        | Some (VArray parts) => concat (part_texts parts)
        | _ => []
        end in
      if negb (bool_decide (trim from_content = [])) then from_content
      else
        default []
          (r ← match get message (lit "reasoning_content") with
               | Some r => Some r
               | None => get message (lit "reasoning_text")
               end;
           as_str r)
  end.

(** ** Writing the text back *)

(** [choices[0]] replaced. *)
Definition set_first_choice (response : Value) (c : Value) : Value :=
  match get response (lit "choices") with
  | Some (VArray (_ :: cs)) => set_key response (lit "choices") (VArray (c :: cs))
  | _ => response
  end.

(** [None]: nowhere to write, the response is left alone. *)
Definition set_assistant_text (response : Value) (t : str) : option Value :=
  ch ← first_choice response;
  message ← get ch (lit "message");
  message' ← (match message with
              | VObject _ | VNull => index_set message (lit "content") (VString t)
              | _ => None
              end);
  Some (set_first_choice response (set_key ch (lit "message") message')).

Definition assistant_message (t : str) : Value :=
  VObject [kv "role" (vstr "assistant"); kv "content" (VString t)].

Definition force_assistant_text (response : Value) (t : str) : option Value :=
  let response := match response with VObject _ => response | _ => VObject [] end in
  match first_choice response with
  | Some ch =>
      ch' ← index_set ch (lit "message") (assistant_message t);
      Some (set_first_choice response ch')
  | None =>
      index_set response (lit "choices")
        (VArray [VObject [kv "finish_reason" (vstr "stop"); kv "message" (assistant_message t)]])
  end.

Definition has_assistant_message (response : Value) : bool :=
  match (ch ← first_choice response; get ch (lit "message")) with
  | Some (VObject _) => true
  | _ => false
  end.

Definition push_text (collected : list str) (t : str) : list str :=
  if bool_decide (trim t = []) then collected else collected ++ [t].

(** [collected.join("\n\n")] *)
Fixpoint join_blank (ts : list str) : str :=
  match ts with
  | [] => []
  | [t] => t
  | t :: ts' => t ++ [ascii_of_nat 10; ascii_of_nat 10] ++ join_blank ts'
  end.

Definition finish (clean_stop : Value) (collected : list str) : option Value :=
  let t := join_blank collected in
  if negb (bool_decide (t = [])) then
    match set_assistant_text clean_stop t with
    | Some r => Some r
    | None => force_assistant_text clean_stop t
    end
  else if negb (has_assistant_message clean_stop) then force_assistant_text clean_stop []
  else Some clean_stop.

(** ** The follow-up request *)
(** The outer [None] is a panic, the inner one an unusable conversation. *)
Definition build_follow_up (p : str) (original_req stopped_resp : Value) (backend : BackendNode)
    : option (option Value) :=
  req ← index_set original_req (lit "stream") (VBool false);
  let req := match req with VObject m => VObject (map_remove (lit "stream_options") m) | _ => req end in
  req ← match model backend with
        | Some m => index_set req (lit "model") (VString m)
        | None => Some req
        end;
  req ← match temperature backend with
        | Some t => index_set req (lit "temperature") (value_of_f64 t)
        | None => Some req
        end;
  let assistant_msg := assistant_message (extract_assistant_text stopped_resp) in
  let user_msg := VObject [kv "role" (vstr "user"); kv "content" (VString p)] in
  match get req (lit "messages") with
  | Some (VArray (m :: ms)) =>
      Some (Some (set_key req (lit "messages") (VArray ((m :: ms) ++ [assistant_msg; user_msg]))))
  | _ => Some None
  end.

Definition anthropic_has_continuation (t sentinel : str) : bool := negb (contains_sub t sentinel).

(** ** The loop *)
Inductive FollowUp :=
  | Answer (response : Value)
  | RequestFailed              (** transport error, bad status, unparseable body *)
  | Elapsed.                   (** the round's timeout *)

Section Loop.
(** What round [attempt] reads off the clock and gets back for a request. *)
Context (clock : nat → Instant) (send : nat → Value → FollowUp).
Context (e : RepromptEngine) (p : str) (original_request : Value) (node : NodeRef) (deadline : Instant).

(** The follow-up holds a claim on the node while it is in flight. *)
Definition send_follow_up (attempt : nat) (req : Value) (h : heap) : FollowUp * heap :=
  let '(guard, h1) := guard_new node h in
  (send attempt req, busy_drop guard h1).

(** The response handed back, whether the rounds ran out, and the node store. *)
Fixpoint rounds (left attempt : nat) (clean_stop current : Value) (collected : list str) (h : heap)
    : option (Value * bool * heap) :=
  match left with
  | 0 => r ← finish clean_stop collected; Some (r, true, h)
  | S left' =>
      if (deadline <=? clock attempt)%Z then r ← finish clean_stop collected; Some (r, false, h)
      else
        follow_up ← build_follow_up p original_request current (h !!! node);
        match follow_up with
        | None => r ← finish clean_stop collected; Some (r, false, h)
        | Some req =>
            match send_follow_up attempt req h with
            | (RequestFailed, h') | (Elapsed, h') =>
                r ← finish clean_stop collected; Some (r, false, h')
            | (Answer new_resp, h') =>
                let new_text := extract_assistant_text new_resp in
                let collected' := push_text collected new_text in
                if has_continuation new_resp then
                  match set_assistant_text new_resp (join_blank collected') with
                  | Some merged => Some (merged, false, h')
                  | None => r ← finish clean_stop collected'; Some (r, false, h')
                  end
                else if existsb (λ s, negb (anthropic_has_continuation new_text s)) (done_sentinels e)
                then r ← finish clean_stop collected'; Some (r, false, h')
                else rounds left' (S attempt) clean_stop new_resp collected' h'
            end
        end
  end.
End Loop.

Definition deadline_of (now : Instant) (e : RepromptEngine) : Instant :=
  default now (instant_checked_add now (Z.min (max_total_ms e * 1000000) MAX_BUDGET_CAP)).

Definition add_u64 (z : Z) : Z := ((z + 1) mod u64_modulus)%Z.

(** The response for the client, the engine, the prompt store, the counters
    and the node store. *)
Definition maybe_reprompt (view : str → FileView) (now : Instant) (clock : nat → Instant)
    (send : nat → Value → FollowUp) (e : RepromptEngine) (original_response original_request : Value)
    (node : NodeRef) (store : Store) (totals : RepromptTotals) (h : heap)
    : option (Value * RepromptEngine * Store * RepromptTotals * heap) :=
  if negb (should_trigger original_response) then Some (original_response, e, store, totals, h)
  else if skip_read_only_requests e && request_is_read_only original_request then
    Some (original_response, e, store,
          mkTotals (add_u64 (skipped_read_only totals)) (triggered totals) (exhausted totals), h)
  else
    let totals := mkTotals (skipped_read_only totals) (add_u64 (triggered totals)) (exhausted totals) in
    let '(p, e, store) := resolve_prompt view e store in
    let collected := push_text [] (extract_assistant_text original_response) in
    '(r, out_of_rounds, h') ←
      rounds clock send e p original_request node (deadline_of now e) (max_retries e) 0
        original_response original_response collected h;
    let totals :=
      if (out_of_rounds : bool)
      then mkTotals (skipped_read_only totals) (triggered totals) (add_u64 (exhausted totals))
      else totals in
    Some (r, e, store, totals, h').

(** ** The reference: the conversation a trigger leads to *)
Section Conversation.
Context (clock : nat → Instant) (send : nat → Value → FollowUp).
Context (e : RepromptEngine) (p : str) (original_request : Value) (backend : BackendNode) (deadline : Instant).

Definition says_done (response : Value) : bool :=
  existsb (λ s, contains_sub (extract_assistant_text response) s) (done_sentinels e).

(** The answers received, in order: each answers the previous turn's follow-up
    and is the last one if it continues or says it is done. *)
Fixpoint conversation (left attempt : nat) (current : Value) : list Value :=
  match left with
  | 0 => []
  | S left' =>
      if (deadline <=? clock attempt)%Z then []
      else
        match build_follow_up p original_request current backend with
        | Some (Some req) =>
            match send attempt req with
            | Answer v =>
                v :: (if has_continuation v || says_done v then [] else conversation left' (S attempt) v)
            | _ => []
            end
        | _ => []
        end
  end.
End Conversation.

(** The texts of a list of turns, blank ones left out. *)
Definition texts_of (turns : list Value) : list str :=
  filter (λ t, trim t ≠ []) (extract_assistant_text <$> turns).

(** The turn whose shape the client gets: the continuation, if there is one
    the text can be written into, else the original stop. *)
Definition final_turn (original : Value) (answers : list Value) : Value :=
  match last answers with
  | Some v =>
      match set_assistant_text v [] with
      | Some _ => if has_continuation v then v else original
      | None => original
      end
  | None => original
  end.

Definition content_of (response : Value) : option Value :=
  ch ← first_choice response; m ← get ch (lit "message"); get m (lit "content").
Definition message_field (ch : Value) (k : str) : option Value := m ← get ch (lit "message"); get m k.
Definition message_object (ch : Value) : Prop := is_Some (get ch (lit "message") ≫= as_object).

(** [r] is [base] with nothing but the text of its first message changed: every
    other field of the response, of the choice and of the message is what it
    was, but for the role of a message that has been made up. *)
Definition rewritten (base r : Value) : Prop :=
  (∀ k, k ≠ lit "choices" → get r k = get base k) ∧
  ∃ ch ch' cs, get base (lit "choices") = Some (VArray (ch :: cs)) ∧
    get r (lit "choices") = Some (VArray (ch' :: cs)) ∧
    (∀ k, k ≠ lit "message" → get ch' k = get ch k) ∧
    ∀ k, k ≠ lit "content" → k ≠ lit "role" ∨ message_object ch → message_field ch' k = message_field ch k.

(** * Facts *)
Lemma first_choice_Some response ch :
  first_choice response = Some ch ↔ ∃ cs, get response (lit "choices") = Some (VArray (ch :: cs)).
Proof.
  unfold first_choice. destruct (get response (lit "choices")) as [[| | | |[|c cs]|]|]; naive_solver.
Qed.

Lemma set_first_choice_spec base ch cs ch' :
  get base (lit "choices") = Some (VArray (ch :: cs)) →
  get (set_first_choice base ch') (lit "choices") = Some (VArray (ch' :: cs)) ∧
  ∀ k, k ≠ lit "choices" → get (set_first_choice base ch') k = get base k.
Proof.
  intros E. unfold set_first_choice. rewrite E. split; [|intros k Hk]; rewrite get_set_key.
  - by rewrite decide_True, E.
  - by rewrite decide_False.
Qed.

Lemma rewritten_refl base ch : first_choice base = Some ch → rewritten base base.
Proof. intros [cs E]%first_choice_Some. split; [done|]. by exists ch, ch, cs. Qed.

Lemma set_assistant_text_spec base t r :
  set_assistant_text base t = Some r → content_of r = Some (VString t) ∧ rewritten base r.
Proof.
  unfold set_assistant_text. intros E. apply bind_Some in E as (ch & Hch & E).
  apply bind_Some in E as (m & Hm & E). apply bind_Some in E as (m' & Hm' & E). injection E as <-.
  assert (get m' (lit "content") = Some (VString t) ∧ ∀ k, k ≠ lit "content" → get m' k = get m k) as [Hc Ht].
  { destruct m as [| | | | |o]; try done; injection Hm' as <-; simpl; (split; [|intros k Hk]).
    - done.
    - by rewrite decide_False.
    - by rewrite !map_get_insert, decide_True.
    - by rewrite !map_get_insert, decide_False. }
  apply first_choice_Some in Hch as [cs Hcs].
  destruct (set_first_choice_spec base ch cs (set_key ch (lit "message") m') Hcs) as [Hr Hk].
  unfold content_of, first_choice. rewrite Hr. split.
  - simpl. by rewrite get_set_key, decide_True, Hm.
  - split; [done|]. exists ch, (set_key ch (lit "message") m'), cs. split_and!; [done|done| |].
    + intros k Hne. by rewrite get_set_key, decide_False.
    + intros k Hne _. unfold message_field. rewrite get_set_key, decide_True, Hm by done. by apply Ht.
Qed.

(** Whether it can be written does not depend on the text. *)
Lemma set_assistant_text_total base t t' :
  is_Some (set_assistant_text base t) → is_Some (set_assistant_text base t').
Proof.
  unfold set_assistant_text. destruct (first_choice base) as [ch|]; [|done]. simpl.
  destruct (get ch (lit "message")) as [[| | | | |o]|]; try done; intros _; by eexists.
Qed.

(** A refused write on a triggering response: its message is not an object. *)
Lemma force_assistant_text_spec base t ch :
  first_choice base = Some ch → is_Some (as_object ch) →
  (∀ m, get ch (lit "message") = Some m → as_object m = None) →
  ∃ r, force_assistant_text base t = Some r ∧ content_of r = Some (VString t) ∧ rewritten base r.
Proof.
  intros Hf [o Ho] Hm. destruct ch as [| | | | |o']; try done. clear Ho o.
  assert ((match base with VObject _ => base | _ => VObject [] end) = base) as Hb.
  { apply first_choice_Some in Hf as [cs E]. by destruct base. }
  unfold force_assistant_text. rewrite Hb, Hf. eexists. split; [done|]. simpl.
  apply first_choice_Some in Hf as [cs Hcs].
  destruct (set_first_choice_spec base (VObject o') cs
    (VObject (map_insert (lit "message") (assistant_message t) o')) Hcs) as [Hr Hk].
  unfold content_of, first_choice. rewrite Hr. split.
  - simpl. by rewrite map_get_insert, decide_True.
  - split; [done|]. eexists _, _, cs. split_and!; [done|done| |].
    + intros k Hne. simpl. by rewrite map_get_insert, decide_False.
    + intros k Hne Hr'. unfold message_field, message_object in *. cbn [get]. rewrite map_get_insert, decide_True by done.
      cbn [mbind option_bind]. cbn [get] in Hm, Hr'. assert (k ≠ lit "role") as Hrole.
      { destruct Hr' as [?|[o Ho]]; [done|]. apply bind_Some in Ho as (m & Hmm & Ho). by rewrite (Hm m Hmm) in Ho. }
      transitivity (@None Value).
      * unfold assistant_message. simpl. by rewrite !decide_False.
      * destruct (map_get (lit "message") o') as [m|]; [|done]. specialize (Hm m eq_refl). by destruct m.
Qed.

Lemma set_assistant_text_refused base t ch :
  first_choice base = Some ch → set_assistant_text base t = None →
  ∀ m, get ch (lit "message") = Some m → as_object m = None.
Proof.
  unfold set_assistant_text. intros -> E m Hm. simpl in E. rewrite Hm in E. by destruct m.
Qed.

Lemma should_trigger_first response :
  should_trigger response = true → ∃ ch, first_choice response = Some ch ∧ is_Some (as_object ch).
Proof.
  unfold should_trigger. destruct (first_choice response) as [ch|]; [|done]. intros H. exists ch.
  split; [done|]. by destruct ch.
Qed.

Lemma finish_text_spec clean collected :
  should_trigger clean = true →
  ∃ r, finish clean collected = Some r ∧ rewritten clean r ∧
    (join_blank collected ≠ [] → content_of r = Some (VString (join_blank collected))).
Proof.
  intros Ht. destruct (should_trigger_first clean Ht) as (ch & Hf & Ho). unfold finish. cbv zeta.
  destruct (bool_decide (join_blank collected = [])) eqn:Hj; simpl.
  - apply bool_decide_eq_true in Hj. destruct (has_assistant_message clean) eqn:Ha; simpl.
    + exists clean. split_and!; [done|by eapply rewritten_refl|done].
    + destruct (force_assistant_text_spec clean [] ch Hf Ho) as (r & -> & _ & Hr).
      { intros m Hm. unfold has_assistant_message in Ha. rewrite Hf in Ha. simpl in Ha. rewrite Hm in Ha.
        by destruct m. }
      exists r. by split_and!.
  - destruct (set_assistant_text clean (join_blank collected)) as [r|] eqn:Hs.
    + apply set_assistant_text_spec in Hs as [Hc Hr]. exists r. by split_and!.
    + pose proof (set_assistant_text_refused clean _ ch Hf Hs) as Hm.
      destruct (force_assistant_text_spec clean (join_blank collected) ch Hf Ho Hm) as (r & -> & Hc & Hr).
      exists r. by split_and!.
Qed.

Lemma join_blank_nonempty ts : Forall (λ t, trim t ≠ []) ts → ts ≠ [] → join_blank ts ≠ [].
Proof.
  intros [|t ts' Ht _] Hne; [done|]. assert (t ≠ []) by (intros ->; done).
  destruct ts'; simpl; [done|]. by destruct t.
Qed.

Lemma texts_of_nonblank turns : Forall (λ t, trim t ≠ []) (texts_of turns).
Proof. apply Forall_forall. intros t Ht. by apply list_elem_of_filter in Ht as [? _]. Qed.

Lemma push_text_spec turns v :
  push_text (texts_of turns) (extract_assistant_text v) = texts_of (turns ++ [v]).
Proof.
  unfold push_text, texts_of. rewrite fmap_app, filter_app. simpl. rewrite filter_cons, filter_nil.
  case_bool_decide as H; [rewrite decide_False by auto; by rewrite app_nil_r|by rewrite decide_True].
Qed.

(** A follow-up's claim is released again. *)
Lemma send_follow_up_heap send node attempt req h :
  node < length h → counters_ok h → send_follow_up send node attempt req h = (send attempt req, h).
Proof.
  intros Hn Hc. unfold send_follow_up, guard_new, busy_drop. simpl. f_equal.
  pose proof (Forall_lookup_total_1 _ _ _ Hc Hn) as Ha. simpl in Ha.
  rewrite lookup_total_bump by done. rewrite decide_True by done. simpl.
  rewrite wrap_usize_small by lia. destruct (Z.eqb_spec (active_requests (h !!! node) + 1) 0); [lia|].
  by apply (bump_cancel 1), counters_ok_usize.
Qed.

Lemma build_follow_up_total p req stopped backend :
  is_Some (as_object req) → is_Some (build_follow_up p req stopped backend).
Proof.
  intros [o Ho]. destruct req as [| | | | |m]; try done. unfold build_follow_up. simpl.
  destruct (model backend), (temperature backend); simpl; repeat case_match; by eexists.
Qed.

Section RoundsFacts.
Context (clock : nat → Instant) (send : nat → Value → FollowUp).
Context (e : RepromptEngine) (p : str) (original_request : Value) (node : NodeRef) (deadline : Instant).
Context (h : list BackendNode).
Hypothesis Hreq : is_Some (as_object original_request).
Hypothesis Hnode : node < length h.
Hypothesis Hcnt : counters_ok h.

(** What the client gets for a list of turns: all of their text. *)
Definition carries_turns (base r : Value) (turns : list Value) : Prop :=
  rewritten base r ∧ (texts_of turns ≠ [] → content_of r = Some (VString (join_blank (texts_of turns)))).

Lemma finish_turns clean turns :
  should_trigger clean = true →
  ∃ r, finish clean (texts_of turns) = Some r ∧ carries_turns clean r turns.
Proof using.
  intros Ht. destruct (finish_text_spec clean (texts_of turns) Ht) as (r & E & Hr & Hc).
  exists r. split; [done|]. split; [done|]. intros Hne. apply Hc, join_blank_nonempty; [|done].
  apply texts_of_nonblank.
Qed.

Lemma rounds_spec left attempt clean current turns :
  should_trigger clean = true →
  let answers := conversation clock send e p original_request (h !!! node) deadline left attempt current in
  ∃ r b, rounds clock send e p original_request node deadline left attempt clean current (texts_of turns) h
         = Some (r, b, h) ∧
    carries_turns (final_turn clean answers) r (turns ++ answers).
Proof using Hreq Hnode Hcnt.
  intros Ht. revert attempt current turns. induction left as [|left IH]; intros attempt current turns; cbv zeta.
  { cbn [rounds conversation]. destruct (finish_turns clean turns Ht) as (r & -> & Hr).
    exists r, true. rewrite app_nil_r. split; [done|exact Hr]. }
  assert (∃ r b, (r ← finish clean (texts_of turns); Some (r, false, h)) = Some (r, b, h) ∧
    carries_turns clean r (turns ++ [])) as Hfin.
  { destruct (finish_turns clean turns Ht) as (r & -> & Hr). exists r, false. rewrite app_nil_r. split; [done|exact Hr]. }
  cbn [rounds conversation]. destruct (deadline <=? clock attempt)%Z; [exact Hfin|].
  destruct (build_follow_up_total p original_request current (h !!! node) Hreq) as [fu ->].
  cbn [mbind option_bind]. destruct fu as [req|]; [|exact Hfin]. rewrite send_follow_up_heap by done.
  destruct (send attempt req) as [v| |]; [|exact Hfin..]. cbv zeta. rewrite push_text_spec.
  destruct (has_continuation v) eqn:Hcont; cbn [orb].
  - unfold final_turn. cbn [last]. rewrite Hcont.
    destruct (set_assistant_text v (join_blank (texts_of (turns ++ [v])))) as [r|] eqn:Hs.
    + destruct (set_assistant_text_total v _ [] (mk_is_Some _ _ Hs)) as [w ->].
      apply set_assistant_text_spec in Hs as [Hc Hr]. exists r, false. split; [done|]. split; [exact Hr|done].
    + destruct (set_assistant_text v []) eqn:H0.
      { destruct (set_assistant_text_total v _ (join_blank (texts_of (turns ++ [v]))) (mk_is_Some _ _ H0)) as [? ?].
        congruence. }
      destruct (finish_turns clean (turns ++ [v]) Ht) as (r & -> & Hr). exists r, false. split; [done|exact Hr].
  - change (existsb (λ s, negb (anthropic_has_continuation (extract_assistant_text v) s)) (done_sentinels e))
      with (existsb (λ s, negb (negb (contains_sub (extract_assistant_text v) s))) (done_sentinels e)).
    assert (existsb (λ s, negb (negb (contains_sub (extract_assistant_text v) s))) (done_sentinels e)
      = says_done e v) as ->.
    { unfold says_done. induction (done_sentinels e) as [|s ss IHs]; [done|]. simpl. by rewrite negb_involutive, IHs. }
    destruct (says_done e v).
    + assert (final_turn clean [v] = clean) as ->
        by (unfold final_turn; simpl; rewrite Hcont; by destruct (set_assistant_text v [])).
      destruct (finish_turns clean (turns ++ [v]) Ht) as (r & -> & Hr). exists r, false. split; [done|exact Hr].
    + destruct (IH (S attempt) v (turns ++ [v])) as (r & b & -> & Hr). exists r, b. split; [done|].
      rewrite <- app_assoc in Hr. revert Hr. simpl.
      destruct (conversation _ _ _ _ _ _ _ left (S attempt) v) as [|a l] eqn:Ec.
      * assert (final_turn clean [v] = clean) as ->
          by (unfold final_turn; simpl; rewrite Hcont; by destruct (set_assistant_text v [])). done.
      * done.
Qed.
End RoundsFacts.

Lemma conversation_bounded clock send e p request backend deadline left attempt current :
  length (conversation clock send e p request backend deadline left attempt current) ≤ left.
Proof.
  revert attempt current. induction left as [|left IH]; intros attempt current; [done|]. cbn [conversation].
  destruct (_ <=? _)%Z; [simpl; lia|]. destruct (build_follow_up _ _ _ _) as [[req|]|]; [|simpl; lia..].
  destruct (send attempt req) as [v| |]; [|simpl; lia..]. simpl. destruct (_ || _); [simpl; lia|].
  specialize (IH (S attempt) v). lia.
Qed.

Lemma resolve_prompt_params view e store :
  let e' := (resolve_prompt view e store).1.2 in
  done_sentinels e' = done_sentinels e ∧ max_retries e' = max_retries e ∧ max_total_ms e' = max_total_ms e.
Proof.
  unfold resolve_prompt. destruct (dynamic_prompt e), (prompt_file e); simpl; try done.
  destruct (shared _ store) as [c st]. destruct (refresh _ c) as [[] c']; done.
Qed.

(** C7: No assistant text is lost: for every behaviour of the backend, the clock
    and the prompt file, a triggered reprompt of a request that is an object
    ends without a panic, after as many answers as it has retries at most; the
    client's response carries the text of the stopped turn and of every answer
    received, oldest first; of the turn it is built on nothing else changes, in
    the response, the choice or the message (one that has no message gets one);
    and the node's request counter is back where it was. *)
Theorem reprompt_keeps_text view now clock send e response request node store totals h :
  should_trigger response = true →
  skip_read_only_requests e && request_is_read_only request = false →
  is_Some (as_object request) → node < length h → counters_ok h →
  let '(p, e', store') := resolve_prompt view e store in
  let answers := conversation clock send e p request (h !!! node) (deadline_of now e) (max_retries e) 0 response in
  let texts := texts_of (response :: answers) in
  length answers ≤ max_retries e ∧
  ∃ r totals', maybe_reprompt view now clock send e response request node store totals h
               = Some (r, e', store', totals', h) ∧
    rewritten (final_turn response answers) r ∧
    (texts ≠ [] → content_of r = Some (VString (join_blank texts))).
Proof.
  intros Ht Hsk Hreq Hn Hc. pose proof (resolve_prompt_params view e store) as (Hd & Hm & Hms).
  unfold maybe_reprompt. rewrite Ht, Hsk. cbn [negb]. cbv zeta.
  destruct (resolve_prompt view e store) as [[p e'] store']. simpl in Hd, Hm, Hms.
  change (push_text [] (extract_assistant_text response)) with (push_text (texts_of []) (extract_assistant_text response)).
  rewrite push_text_spec. simpl app.
  destruct (rounds_spec clock send e' p request node (deadline_of now e') h Hreq Hn Hc (max_retries e') 0
    response response [response] Ht) as (r & b & -> & Hr).
  assert (deadline_of now e' = deadline_of now e) as Hdl by (unfold deadline_of; by rewrite Hms).
  assert (∀ l a v, conversation clock send e' p request (h !!! node) (deadline_of now e') l a v
    = conversation clock send e p request (h !!! node) (deadline_of now e) l a v) as Hconv.
  { rewrite Hdl. induction l as [|l IH]; intros a v; [done|]. simpl. unfold says_done. rewrite Hd.
    repeat case_match; try done. f_equal. apply IH. }
  rewrite Hconv, Hm in Hr. simpl. split; [apply conversation_bounded|]. eexists r, _. split; [reflexivity|exact Hr].
Qed.

(** ** What a follow-up asks *)
Definition overridden (backend : BackendNode) (k : str) : Prop :=
  k = lit "stream" ∨ k = lit "stream_options" ∨ k = lit "messages" ∨
  (k = lit "model" ∧ is_Some (model backend)) ∨ (k = lit "temperature" ∧ is_Some (temperature backend)).

(** The fields of a follow-up before its conversation is extended. *)
Definition follow_up_map (backend : BackendNode) (m : list (str * Value)) : list (str * Value) :=
  let m := map_remove (lit "stream_options") (map_insert (lit "stream") (VBool false) m) in
  let m := match model backend with Some x => map_insert (lit "model") (VString x) m | None => m end in
  match temperature backend with Some t => map_insert (lit "temperature") (value_of_f64 t) m | None => m end.

Lemma build_follow_up_object p m stopped backend :
  build_follow_up p (VObject m) stopped backend =
  match map_get (lit "messages") (follow_up_map backend m) with
  | Some (VArray (first :: rest)) =>
      Some (Some (set_key (VObject (follow_up_map backend m)) (lit "messages")
        (VArray (first :: rest ++ [assistant_message (extract_assistant_text stopped);
                                   VObject [kv "role" (vstr "user"); kv "content" (VString p)]]))))
  | _ => Some None
  end.
Proof. unfold build_follow_up, follow_up_map. by destruct (model backend), (temperature backend). Qed.

Lemma follow_up_map_get backend m k :
  NoDup m.*1 →
  map_get k (follow_up_map backend m) =
    match temperature backend, decide (lit "temperature" = k) with
    | Some t, left _ => Some (value_of_f64 t)
    | _, _ =>
        match model backend, decide (lit "model" = k) with
        | Some x, left _ => Some (VString x)
        | _, _ => if decide (lit "stream_options" = k) then None
                  else if decide (lit "stream" = k) then Some (VBool false) else map_get k m
        end
    end.
Proof.
  intros Hnd. unfold follow_up_map. cbv zeta.
  destruct (temperature backend), (model backend);
    rewrite ?map_get_insert, ?map_get_remove, ?map_get_insert by (by apply map_insert_NoDup);
    repeat case_decide; done.
Qed.

Lemma follow_up_map_messages backend m :
  NoDup m.*1 → map_get (lit "messages") (follow_up_map backend m) = map_get (lit "messages") m.
Proof. intros. rewrite follow_up_map_get by done. by destruct (temperature backend), (model backend). Qed.

(** A follow-up is the client's own request, not streamed, with the node's
    overrides, its conversation continued by exactly two turns: the text of the
    turn that stopped and the prompt.  There is none exactly when the request
    has no conversation to continue. *)
Theorem follow_up_extends p m stopped backend :
  NoDup m.*1 →
  match map_get (lit "messages") m with
  | Some (VArray (first :: rest)) =>
      ∃ f, build_follow_up p (VObject m) stopped backend = Some (Some f) ∧
        get f (lit "messages") =
          Some (VArray (first :: rest ++ [assistant_message (extract_assistant_text stopped);
                                          VObject [kv "role" (vstr "user"); kv "content" (VString p)]])) ∧
        get f (lit "stream") = Some (VBool false) ∧ get f (lit "stream_options") = None ∧
        (∀ x, model backend = Some x → get f (lit "model") = Some (VString x)) ∧
        (∀ t, temperature backend = Some t → get f (lit "temperature") = Some (value_of_f64 t)) ∧
        ∀ k, ¬ overridden backend k → get f k = map_get k m
  | _ => build_follow_up p (VObject m) stopped backend = Some None
  end.
Proof.
  intros Hnd. rewrite build_follow_up_object, follow_up_map_messages by done.
  destruct (map_get (lit "messages") m) as [[| | | |[|first rest]|]|] eqn:Em; try done.
  eexists. split; [reflexivity|].
  assert (∀ k, k ≠ lit "messages" → ∀ x,
    get (set_key (VObject (follow_up_map backend m)) (lit "messages") x) k = map_get k (follow_up_map backend m)) as Hg
    by (intros k Hk x; by rewrite get_set_key, decide_False).
  split; [rewrite get_set_key, decide_True by done; cbn [get]; by rewrite follow_up_map_messages, Em by done|].
  split_and!; intros; rewrite ?(Hg (lit "stream")), ?(Hg (lit "stream_options")), ?(Hg (lit "model")),
    ?(Hg (lit "temperature")), ?follow_up_map_get by done;
    try by destruct (temperature backend), (model backend).
  - by simplify_option_eq; destruct (temperature backend).
  - by simplify_option_eq.
  - unfold overridden in *. rewrite Hg by tauto. rewrite follow_up_map_get by done.
    destruct (temperature backend), (model backend); repeat case_decide; try done; exfalso; naive_solver.
Qed.

(** ** The prompt *)

(** The engine's prompt cell holds what the shared cache entry remembers, as it
    does while the engine is the entry's only reader. *)
Definition in_sync (e : RepromptEngine) (c : PromptFileCache) : Prop :=
  is_Some (mtime c) → text c = prompt e.

(** While nobody else reads the prompt file through the shared cache, a dynamic
    prompt is the file's current text, and stays in step. *)
Theorem resolve_prompt_current content view e store path t :
  dynamic_prompt e = true → prompt_file e = Some path →
  content_by_mtime content (view path) → stat (view path) = Ok (Some t) →
  coherent content (shared path store).1 → in_sync e (shared path store).1 →
  let '(p, e', store') := resolve_prompt view e store in
  p = content t ∧ prompt e' = content t ∧
  coherent content (shared path store').1 ∧ in_sync e' (shared path store').1.
Proof.
  intros Hd Hf Hv Ht Hc Hs. unfold resolve_prompt. rewrite Hd, Hf.
  destruct (shared path store) as [c st]. simpl in Hc, Hs.
  destruct (refresh_current content _ c t Hv Ht Hc) as (Htx & Hm & Hcase).
  destruct (refresh (view path) c) as [o c']. simpl in Htx, Hm, Hcase.
  assert (∀ e', prompt e' = content t →
    coherent content (shared path (<[path:=c']> st)).1 ∧ in_sync e' (shared path (<[path:=c']> st)).1) as Hend.
  { intros e' He. unfold shared. rewrite lookup_insert_eq. simpl. unfold coherent, in_sync. by rewrite Hm, Htx. }
  destruct Hcase as [[-> Hmc]| ->]; [|by split; [done|split; [done|apply Hend]]].
  assert (prompt e = content t) as He.
  { unfold in_sync, coherent in *. rewrite Hmc in *. by rewrite <- Hs. }
  split; [done|]. split; [done|]. by apply Hend.
Qed.

(** A second reader of the same file takes the reload away: the engine then
    pairs its old text with the new modification time. *)
Example second_reader_goes_stale :
  let view := λ _, mkView (Ok (Some 2%Z)) (Ok (lit "new")) in
  let e := mkEngine (lit "old") (Some (lit "p")) true 3 1000 [] false true in
  let store := {[ lit "p" := mkCache (lit "old") (Some 1%Z) ]} in
  let '(entry, store) := shared (lit "p") store in
  let store := <[lit "p" := (refresh (view (lit "p")) entry).2]> store in
  (resolve_prompt view e store).1.1 = lit "old".
Proof. reflexivity. Qed.
