(* ===== verification/Http.v ===== *)
(** * Headers, responses and the error envelopes (llama-proxy/src/proxy/handler.rs)

    A header map is the list of its fields in the order it yields them, names
    in lower case; a field may occur more than once.  Whether a value is
    readable as text is the HTTP crate's, a parameter. *)
From S2P Require Import Prelude Json.

Abbreviation HeaderMap := (list (str * str)) (only parsing).

(** [HeaderMap::get]: the first value of a field. *)
Fixpoint header_get (name : str) (hs : list (str * str)) : option str :=
  match hs with
  | [] => None
  | (n, v) :: hs' => if decide (n = name) then Some v else header_get name hs'
  end.

(** [HeaderMap::insert]: the field ends up with this value only. *)
Definition header_insert (name v : str) (hs : list (str * str)) : list (str * str) :=
  filter (λ f, f.1 ≠ name) hs ++ [(name, v)].

Class HeaderText := {
  to_str : str → option str;   (** [HeaderValue::to_str] *)
}.

(** ** Status codes *)
Abbreviation StatusCode := Z (only parsing).
Definition is_success (s : StatusCode) : bool := ((200 <=? s) && (s <? 300))%Z.
Definition is_server_error (s : StatusCode) : bool := ((500 <=? s) && (s <? 600))%Z.

Record Response := mkResponse {
  status : StatusCode;
  headers : list (str * str);
  body : str;
}.

Section Envelopes.
Context `{Serde}.

(** [(status, Json(v)).into_response()]. *)
Definition json_response (s : StatusCode) (v : Value) : Response :=
  mkResponse s [(lit "content-type", lit "application/json")] (to_string v).

Definition err_envelope (kind msg : str) : Value :=
  VObject [kv "error" (VObject [kv "type" (VString kind); kv "message" (VString msg)])].

Definition is_length_limit_error (e : str) : bool := bool_decide (e = lit "length limit exceeded").

Definition body_read_error (e cap_label : str) : Response :=
  if is_length_limit_error e then
    json_response 413 (err_envelope (lit "request_body_too_large")
      (lit "Request body exceeds the " ++ cap_label ++ lit " limit"))
  else
    json_response 400 (err_envelope (lit "invalid_request_json")
      (lit "Failed to read request body: " ++ e)).

Definition at_capacity_response (max : Z) : Response :=
  mkResponse 429 [(lit "content-type", lit "application/json"); (lit "retry-after", lit "5")]
    (to_string (VObject [kv "error" (VObject
      [kv "type" (vstr "too_many_requests");
       kv "message" (VString (lit "Server at capacity (" ++ show_Z max ++
         lit " concurrent requests). Increase max_concurrent_requests in config.yaml or scale with additional backend nodes"));
       kv "retry_after" (vnat 5)])])).

Definition anthropic_sse_error_response : Response :=
  mkResponse 200 [(lit "content-type", lit "text/event-stream")]
    (lit "event: error" ++ [ascii_of_nat 10] ++
     qlit "data: {'type':'error','error':{'type':'api_error','message':'The proxy failed to convert the backend response into an Anthropic streaming response'}}"
     ++ [ascii_of_nat 10; ascii_of_nat 10] ++
     lit "data: [DONE]" ++ [ascii_of_nat 10; ascii_of_nat 10]).
End Envelopes.

(** ** Forwarding a response *)
Definition is_hop_by_hop_header (name : str) : bool :=
  existsb (λ n, bool_decide (name = n))
    (lit <$> ["connection"; "proxy-authenticate"; "proxy-authorization"; "te"; "trailer"; "upgrade"]%string).

Definition forwards_to_client (body_was_decoded : bool) (name : str) : bool :=
  if bool_decide (name = lit "content-length") || bool_decide (name = lit "transfer-encoding")
     || is_hop_by_hop_header name then false
  else negb (body_was_decoded && bool_decide (name = lit "content-encoding")).

Definition forward_response (s : StatusCode) (hs : HeaderMap) (b : str) (body_was_decoded : bool) : Response :=
  mkResponse s (filter (λ f, forwards_to_client body_was_decoded f.1 = true) hs) b.

(** ** Classifying a request or response *)
Definition split_once_semicolon (s : str) : str :=
  match split_char ";"%char s with media :: _ :: _ => media | _ => s end.

Definition is_json_content_type (content_type : str) : bool :=
  let media_type := to_ascii_lowercase (trim (split_once_semicolon content_type)) in
  bool_decide (media_type = lit "application/json") || ends_with media_type (lit "+json").

Definition OPTIONAL_CLIENT_ENDPOINTS : list str := [lit "/api/models/vram-estimate"].

Definition is_optional_client_404 (path : str) (s : StatusCode) : bool :=
  if negb (s =? 404)%Z then false
  else existsb (λ p, bool_decide (default path (strip_suffix path (lit "/")) = p)) OPTIONAL_CLIENT_ENDPOINTS.

(** * Facts *)
Lemma header_get_Some name v hs : header_get name hs = Some v → (name, v) ∈ hs.
Proof.
  induction hs as [|[n w] hs IH]; simpl; [done|]. case_decide; [|set_solver].
  intros [= ->]. subst. set_solver.
Qed.

Lemma header_get_filter (P : str → bool) name hs :
  P name = true → header_get name (filter (λ f, P f.1 = true) hs) = header_get name hs.
Proof.
  intros HP. induction hs as [|[n v] hs IH]; [done|]. rewrite filter_cons. cbn [fst].
  destruct (decide (P n = true)) as [Hn|Hn]; simpl; case_decide; try done.
  subst. congruence.
Qed.

Lemma header_get_filtered (P : str → bool) name hs :
  P name = false → header_get name (filter (λ f, P f.1 = true) hs) = None.
Proof.
  intros HP. destruct (header_get _ _) as [v|] eqn:E; [|done].
  apply header_get_Some, list_elem_of_filter in E as [E _]. simpl in E. congruence.
Qed.

(** What a client is told about a body is true of the body it gets: the
    encoding header survives exactly on a body still carrying the encoding, and
    no framing header of the backend connection survives. *)
Lemma forward_response_headers s hs b decoded :
  let r := forward_response s hs b decoded in
  header_get (lit "content-encoding") (headers r) =
    (if decoded then None else header_get (lit "content-encoding") hs) ∧
  header_get (lit "content-type") (headers r) = header_get (lit "content-type") hs ∧
  header_get (lit "content-length") (headers r) = None ∧
  header_get (lit "transfer-encoding") (headers r) = None.
Proof.
  cbv zeta. unfold forward_response. cbn [headers].
  destruct decoded; split_and!; (by apply (header_get_filter (forwards_to_client _))) ||
    by apply (header_get_filtered (forwards_to_client _)).
Qed.
