(* ===== verification/Preflight.v ===== *)
(** * Start-up discovery (llama-proxy/src/backends/preflight.rs)

    One probe per node: its model list, its context window into the cache, and
    its model when it serves exactly one and none was configured.  The probes run
    at once; what they found is applied after the last one is done. *)
From S2P Require Import Prelude Prog Node Config Json Http Context.

Definition PREFLIGHT_TIMEOUT_CAP_SECS : Z := 10.
Definition MODELS_MAX_BYTES : Z := 2 * 1024 * 1024.

Record NodeProbeOutcome := mkOutcome { group : str; node_idx : nat; auto_model : option str }.
Record ModelsResult := mkModels { model_ids : list str; models_max_len : option Z; models_llama_cpp : bool }.

(** The errors are only ever logged. *)
Inductive ModelsError :=
  | Transport (e : str)
  | BadStatus (s : Z)
  | TooLarge (n : Z)
  | NotJson.

Section Preflight.
Context `{Serde} `{HeaderText} (build_node_client : Z → option TlsConfig → result str unit).

Definition build_preflight_client (timeout_seconds : Z) (tls : option TlsConfig) : result str unit :=
  build_node_client (Z.min timeout_seconds PREFLIGHT_TIMEOUT_CAP_SECS) tls.

Definition detects_llama_cpp (hs : list (str * str)) : bool :=
  match header_get (lit "server") hs ≫= to_str with
  | Some s => contains_sub s (lit "llama.cpp")
  | None => false
  end.

Definition read_models (model_name : option str) (a : result str Answer) : result ModelsError ModelsResult :=
  match a with
  | Err e => Err (Transport e)
  | Ok (mkAnswer status headers body) =>
      if negb (is_success status) then Err (BadStatus status)
      else
        match body with
        | Err e => Err (Transport e)
        | Ok bytes =>
            if (MODELS_MAX_BYTES <? Z.of_nat (length bytes))%Z then Err (TooLarge (Z.of_nat (length bytes)))
            else
              match from_str bytes with
              | None => Err NotJson
              | Some body =>
                  let is_llama_cpp := detects_llama_cpp headers in
                  Ok match get body (lit "data") ≫= as_array with
                     | Some arr => mkModels (omap (λ m, get m (lit "id") ≫= as_str) arr)
                                     (select_max_model_len arr model_name) is_llama_cpp
                     | None => mkModels [] None is_llama_cpp
                     end
              end
        end
  end.

Definition fetch_models (url : str) (api_key model_name : option str) : prog Shared (result ModelsError ModelsResult) :=
  a ← trigger (HttpGet url api_key); Ret (read_models model_name a).

Definition pick_auto_model (ids : list str) (configured : option str) : option str :=
  match ids, configured with
  | [id], None => Some id
  | _, _ => None
  end.

Definition probe_node (group : str) (node_idx : nat) (cfg : BackendNodeConfig) : prog Shared (option NodeProbeOutcome) :=
  let base_url := trim_end_matches "/"%char (nc_url cfg) in
  let models_url := node_url base_url (lit "/v1/models") (nc_strip_path_prefix cfg) in
  match build_preflight_client (nc_timeout_seconds cfg) (nc_tls cfg) with
  | Err _ => Ret None
  | Ok _ =>
      models ← fetch_models models_url (nc_api_key cfg) (nc_model cfg);
      match models with
      | Err _ => Ret None
      | Ok m =>
          _ ← cache_context_from_preflight
                (mkProbe base_url (models_llama_cpp m) (models_max_len m) (nc_api_key cfg));
          Ret (Some (mkOutcome group node_idx (pick_auto_model (model_ids m) (nc_model cfg))))
      end
  end.

Definition run_preflight_single (backend : BackendConfig) : prog Shared unit :=
  let base_url := trim_end_matches "/"%char (bc_url backend) in
  let models_url := node_url base_url (lit "/v1/models") (bc_strip_path_prefix backend) in
  match build_preflight_client (bc_timeout_seconds backend) (bc_tls backend) with
  | Err _ => Ret tt
  | Ok _ =>
      models ← fetch_models models_url (bc_api_key backend) (bc_model backend);
      let '(llama, len) := match models with
                           | Ok m => (models_llama_cpp m, models_max_len m)
                           | Err _ => (false, None)
                           end in
      _ ← cache_context_from_preflight (mkProbe base_url llama len (bc_api_key backend));
      Ret tt
  end.

(** Phase 1: the probes that run at once, one per node in configuration order. *)
Definition probes (backends : BackendsConfig) : list (str * nat * BackendNodeConfig) :=
  backends ≫= λ '(name, g), imap (λ i cfg, (name, i, cfg)) (gc_nodes g).

(** Phase 2. *)
Definition set_model (m : str) (n : BackendNodeConfig) : BackendNodeConfig :=
  mkNodeConfig (nc_url n) (nc_timeout_seconds n) (nc_tls n) (Some m) (nc_api_key n)
    (nc_strip_path_prefix n) (nc_temperature n).
Definition set_nodes (ns : list BackendNodeConfig) (g : BackendGroupConfig) : BackendGroupConfig :=
  mkGroupConfig (gc_mappings g) (gc_strategy g) (gc_failure_cooldown_secs g) (gc_exclusive g) ns.

(** [group.nodes[i].model = ..]: [None] is the index panic. *)
Fixpoint set_group_model (group : str) (i : nat) (m : str) (backends : BackendsConfig) : option BackendsConfig :=
  match backends with
  | [] => Some []
  | (name, g) :: rest =>
      if decide (name = group) then
        n ← gc_nodes g !! i;
        Some ((name, set_nodes (<[i := set_model m n]> (gc_nodes g)) g) :: rest)
      else cons (name, g) <$> set_group_model group i m rest
  end.

Fixpoint apply_outcomes (outcomes : list (option NodeProbeOutcome)) (backends : BackendsConfig) : option BackendsConfig :=
  match outcomes with
  | [] => Some backends
  | Some (mkOutcome group i (Some discovered)) :: rest =>
      b ← set_group_model group i discovered backends; apply_outcomes rest b
  | _ :: rest => apply_outcomes rest backends
  end.
End Preflight.

(** ** What phase 2 is meant to do: the outcome of a node's own probe, applied to
    that node *)
Definition fill_node (cfg : BackendNodeConfig) (o : option NodeProbeOutcome) : BackendNodeConfig :=
  match o with Some (mkOutcome _ _ (Some m)) => set_model m cfg | _ => cfg end.
Fixpoint fill (backends : BackendsConfig) (outcomes : list (option NodeProbeOutcome)) : BackendsConfig :=
  match backends with
  | [] => []
  | (name, g) :: rest =>
      (name, set_nodes (zip_with fill_node (gc_nodes g) outcomes) g) :: fill rest (drop (length (gc_nodes g)) outcomes)
  end.

(** Some execution of [p] ends with [r]. *)
Definition returns {A} (p : prog Shared A) (r : A) : Prop := ∃ answer s, (run note answer p s).1 = r.

(** * Facts *)
Section Facts.
Context `{Serde} `{HeaderText} (build_node_client : Z → option TlsConfig → result str unit).

Lemma wp_always {A} (Q : A → list Seen → Prop) (p : prog Shared A) s : (∀ a s', Q a s') → wp note p Q s.
Proof. intros HQ. revert s. induction p as [a|X e k IH]; intros s; simpl; auto. Qed.

(** A probe speaks for its own node, and names a model only where none was
    configured. *)
Definition outcome_of (name : str) (i : nat) (cfg : BackendNodeConfig) (o : option NodeProbeOutcome) : Prop :=
  match o with
  | None => True
  | Some (mkOutcome g j m) => g = name ∧ j = i ∧ (is_Some m → nc_model cfg = None)
  end.

Lemma probe_node_outcome name i cfg o :
  returns (probe_node build_node_client name i cfg) o → outcome_of name i cfg o.
Proof.
  intros (answer & s & <-). apply (wp_run note answer _ (λ o _, outcome_of name i cfg o)).
  unfold probe_node, fetch_models. destruct (build_preflight_client _ _ _) as [[]|e]; [|done].
  intros a. cbn [mbind prog_bind bind trigger].
  destruct (read_models (nc_model cfg) a) as [m|e]; [|done].
  apply wp_bind, wp_always. intros w s'. simpl. split_and!; [done..|].
  unfold pick_auto_model. intros [x Hx]. repeat case_match; done.
Qed.

Lemma set_group_model_skip group i m bs1 name g bs2 :
  group ∉ bs1.*1 → name = group →
  set_group_model group i m (bs1 ++ (name, g) :: bs2) =
    n ← gc_nodes g !! i; Some (bs1 ++ (name, set_nodes (<[i := set_model m n]> (gc_nodes g)) g) :: bs2).
Proof.
  intros Hn ->. induction bs1 as [|[n0 g0] bs1 IH]; simpl.
  - rewrite decide_True by done. by destruct (gc_nodes g !! i).
  - simpl in Hn. rewrite decide_False by set_solver. rewrite IH by set_solver. by destruct (gc_nodes g !! i).
Qed.

Lemma zip_with_app_r {A B C} (f : A → B → C) l k k' :
  length l = length k → zip_with f l (k ++ k') = zip_with f l k.
Proof. revert k. induction l as [|x l IH]; intros [|y k] Hl; simplify_eq/=; [done..|]. f_equal. by apply IH. Qed.

(** Applying the outcomes of one group's probes, from node [k] on. *)
Lemma apply_group name g bs1 bs2 rest pre nodes outs :
  name ∉ bs1.*1 →
  Forall2 (λ '(name, i, cfg) o, outcome_of name i cfg o) (imap (λ i cfg, (name, length pre + i, cfg)) nodes) outs →
  apply_outcomes (outs ++ rest) (bs1 ++ (name, set_nodes (pre ++ nodes) g) :: bs2) =
    apply_outcomes rest (bs1 ++ (name, set_nodes (pre ++ zip_with fill_node nodes outs) g) :: bs2).
Proof.
  intros Hn. revert pre outs. induction nodes as [|cfg nodes IH]; intros pre outs HF.
  { simpl in HF. by inversion HF. }
  rewrite imap_cons in HF. apply Forall2_cons_inv_l in HF as (o & outs' & Ho & HF & ->).
  rewrite Nat.add_0_r in Ho.
  assert (∀ n', Forall2 (λ '(name, i, cfg) o, outcome_of name i cfg o)
    (imap (λ i cfg, (name, length (pre ++ [n']) + i, cfg)) nodes) outs') as HF'.
  { intros n'. erewrite imap_ext; [exact HF|]. intros j x _. simpl. rewrite length_app. simpl. do 2 f_equal. lia. }
  assert (∀ n' x, pre ++ n' :: x = (pre ++ [n']) ++ x) as Hpre by (intros; by rewrite <- app_assoc).
  destruct o as [[g' j [m|]]|]; cbn [app apply_outcomes zip_with fill_node].
  - destruct Ho as (-> & -> & _). rewrite set_group_model_skip by done. cbn [gc_nodes set_nodes].
    rewrite list_lookup_middle by done. cbn [mbind option_bind].
    rewrite insert_app_r_alt, Nat.sub_diag by done. cbn [list_insert insert].
    change (set_nodes ?a (set_nodes ?b g)) with (set_nodes a g).
    rewrite (Hpre (set_model m cfg)), (Hpre (set_model m cfg) (zip_with _ _ _)). by apply IH.
  - rewrite (Hpre cfg), (Hpre cfg (zip_with _ _ _)). by apply IH.
  - rewrite (Hpre cfg), (Hpre cfg (zip_with _ _ _)). by apply IH.
Qed.

Lemma preflight_fills backends outcomes :
  NoDup backends.*1 →
  Forall2 (λ '(name, i, cfg) o, returns (probe_node build_node_client name i cfg) o) (probes backends) outcomes →
  apply_outcomes outcomes backends = Some (fill backends outcomes) ∧
  Forall2 (λ p o, is_Some (nc_model p.2) → fill_node p.2 o = p.2) (probes backends) outcomes.
Proof.
  intros Hnd HF.
  assert (Forall2 (λ '(name, i, cfg) o, outcome_of name i cfg o) (probes backends) outcomes) as HF'.
  { eapply Forall2_impl; [exact HF|]. intros [[name i] cfg] o. apply probe_node_outcome. }
  clear HF. split.
  - enough (∀ bs1, NoDup (bs1 ++ backends).*1 →
      apply_outcomes outcomes (bs1 ++ backends) = Some (bs1 ++ fill backends outcomes)) as Hgo by by apply (Hgo []).
    revert outcomes HF' Hnd. induction backends as [|[name g] bs IH]; intros outcomes HF Hnd bs1 Hnd1.
    { inversion HF; subst. simpl. by rewrite app_nil_r. }
    cbn [probes mbind list_bind] in HF. fold (probes bs) in HF.
    apply Forall2_app_inv_l in HF as (o1 & o2 & Ho1 & Ho2 & ->).
    pose proof (Forall2_length _ _ _ Ho1) as Hlen. rewrite length_imap in Hlen.
    rewrite fmap_app in Hnd1. cbn [fmap list_fmap fst] in Hnd1.
    pose proof (apply_group name g bs1 bs o2 [] (gc_nodes g) o1) as Hg. cbn [app] in Hg.
    assert (set_nodes (gc_nodes g) g = g) as Eg by by destruct g. rewrite Eg in Hg.
    rewrite Hg; clear Hg.
    + cbn [fill]. rewrite zip_with_app_r, drop_app_length' by done.
      assert (∀ x l, bs1 ++ x :: l = (bs1 ++ [x]) ++ l) as Hmid by (intros; by rewrite <- app_assoc).
      rewrite (Hmid _ bs), (Hmid _ (fill bs o2)).
      apply IH; [done|by inversion Hnd|]. by rewrite <- app_assoc, fmap_app.
    + apply NoDup_app in Hnd1 as (_ & Hn & _). intros Hin. apply (Hn name Hin). by left.
    + done.
  - eapply Forall2_impl; [exact HF'|]. intros [[name i] cfg] [[g' j [m|]]|]; simpl; try done.
    intros (_ & _ & Hm) [x Hx]. rewrite Hm in Hx by done. done.
Qed.

(** Whatever the probes answer and in whatever order they finish, applying what
    they found never panics, gives each node the outcome of its own probe, and
    touches only nodes without a configured model. *)
Theorem preflight_fills_models backends outcomes :
  NoDup backends.*1 →
  Forall2 (λ '(name, i, cfg) o, returns (probe_node build_node_client name i cfg) o) (probes backends) outcomes →
  apply_outcomes outcomes backends = Some (fill backends outcomes) ∧
  Forall2 (λ p o, is_Some (nc_model p.2) → fill_node p.2 o = p.2) (probes backends) outcomes.
Proof. apply preflight_fills. Qed.

(** ** All of them at once *)

(** What runs against the cache: requests and shims that want a window, the
    start-up probes, evictions of failed backends, and warnings. *)
Inductive cache_job : prog Shared unit → list Seen → Prop :=
  | job_fetch base key name : cache_job (_ ← fetch_context_total base key name; Ret tt) []
  | job_probe group i cfg : cache_job (_ ← probe_node build_node_client group i cfg; Ret tt) []
  | job_single backend : cache_job (run_preflight_single build_node_client backend) []
  | job_invalidate base : cache_job (_ ← invalidate_context_cache base; Ret tt) []
  | job_warn base : cache_job (_ ← warn_context_fetch_failed_once base; Ret tt) [].

(** A program offers to the cache only what the backend told it. *)
Definition told (X : Type) (e : Shared X) (s : list Seen) : Prop :=
  match e with TryWriteContext u v => ∃ x, x ∈ s ∧ advertises u v x | _ => True end.

Lemma safe_probes base key name s0 :
  safe note told
    (n_ctx ← fetch_from_props base key;
     match n_ctx with
     | Some v => _ ← cache_result base v; Ret (Some v)
     | None =>
         len ← fetch_from_models base key name;
         match len with Some v => _ ← cache_result base v; Ret (Some v) | None => Ret None end
     end) s0.
Proof.
  split; [done|]. intros a. cbn. destruct (props_window a) as [v|] eqn:Ep.
  - split; [|done]. eexists. split; [apply elem_of_app; right; by left|]. left. done.
  - split; [done|]. intros b. destruct (models_window name b) as [v|] eqn:Em; [|done].
    split; [|done]. eexists. split; [apply elem_of_app; right; by left|]. right. by exists None, name.
Qed.

Lemma safe_fetch base key name s0 : safe note told (fetch_context_total base key name) s0.
Proof.
  split; [done|]. intros [e|].
  - split; [done|]. intros now. cbn. destruct (entry_is_fresh _ _ _); [done|]. apply (safe_probes base key name).
  - apply (safe_probes base key name).
Qed.

Lemma safe_preflight p s0 :
  (∀ v, max_model_len p = Some v → ∃ x, x ∈ s0 ∧ advertises (probe_base_url p) v x) →
  safe note told (cache_context_from_preflight p) s0.
Proof.
  intros Hp. split; [done|]. intros [e|]; [done|]. cbn. destruct (is_llama_cpp p).
  - split; [done|]. intros a. cbn. destruct (props_window a) as [v|] eqn:Ea; [|done].
    split; [|done]. eexists. split; [apply elem_of_app; right; by left|]. left. done.
  - destruct (max_model_len p) as [v|]; [|done]. split; [|done].
    destruct (Hp v) as (x & ? & ?); [done|]. exists x. split; [|done]. apply elem_of_app. by left.
Qed.

Lemma read_models_window name a m v :
  read_models name a = Ok m → models_max_len m = Some v → models_window name a = Some v.
Proof.
  unfold read_models, models_window, answer_json. intros E Hv.
  destruct a as [[st hs [t|e]]|e]; [|by destruct (negb _) in E|done].
  destruct (negb _); [done|]. destruct (_ <? _)%Z; [done|].
  destruct (from_str t) as [body|]; [|done]. cbn [mbind option_bind] in *.
  destruct (get body (lit "data") ≫= as_array) as [arr|]; injection E as <-; done.
Qed.

Lemma safe_job p s : cache_job p s → safe note told p s.
Proof.
  assert (∀ A (p : prog Shared A) s, safe note told p s → safe note told (_ ← p; Ret tt) s) as Hthen.
  { intros A q s' Hq. apply safe_bind; [done|]. by apply wp_always. }
  destruct 1 as [base key name|group i cfg|backend|base|base].
  - apply Hthen, safe_fetch.
  - apply Hthen. unfold probe_node, fetch_models.
    destruct (build_preflight_client _ _ _) as [[]|e]; [|done]. split; [done|]. intros a.
    cbn [mbind prog_bind bind trigger]. destruct (read_models (nc_model cfg) a) as [m|e] eqn:Em; [|done].
    apply safe_bind; [|by apply wp_always]. apply safe_preflight. intros v Hv. eexists. split; [by left|].
    right. eexists _, _. split; [done|]. by eapply read_models_window.
  - unfold run_preflight_single, fetch_models.
    destruct (build_preflight_client _ _ _) as [[]|e]; [|done]. split; [done|]. intros a.
    cbn [mbind prog_bind bind trigger].
    destruct (read_models (bc_model backend) a) as [m|e] eqn:Em;
      (apply safe_bind; [|by apply wp_always]); apply safe_preflight; [|done].
    intros v Hv. eexists. split; [by left|].
    right. eexists _, _. split; [done|]. by eapply read_models_window.
  - by apply Hthen.
  - apply Hthen. unfold warn_context_fetch_failed_once. split; [done|]. by intros [].
Qed.

End Facts.

Section Honesty.
Context `{Serde} `{HeaderText}.

(** What a thread remembers hearing, a backend said by now. *)
Definition heard (s : list Seen) (w : Process) : Prop :=
  ∀ u k a, Got u k a ∈ s → ∃ t, (Got u k a, t) ∈ served w ∧ (t ≤ clock w)%Z.

Definition honest (w : Process) : Prop :=
  ∀ u e, context_cache w !! u = Some e →
    ∃ x t, (x, t) ∈ served w ∧ advertises u (value e) x ∧ (t ≤ fetched_at e ≤ clock w)%Z.

(** Nothing said is forgotten and the clock does not go back. *)
Definition later (w w' : Process) : Prop := served w ⊆ served w' ∧ (clock w ≤ clock w')%Z.

Lemma heard_later s w w' : later w w' → heard s w → heard s w'.
Proof. intros [Hs Hc] Hh u k a Hin. destruct (Hh u k a Hin) as (t & ? & ?). exists t. split; [set_solver|lia]. Qed.

Lemma honest_later w w' :
  later w w' → (∀ u e, context_cache w' !! u = Some e → context_cache w !! u = Some e) → honest w → honest w'.
Proof.
  intros [Hs Hc] Hsub Hh u e He. destruct (Hh u e (Hsub _ _ He)) as (x & t & ? & ? & ?).
  exists x, t. split_and!; [set_solver|done|lia|lia].
Qed.

Lemma effect_later X (e : Shared X) x w w' : effect X e x w w' → later w w'.
Proof.
  destruct w as [c t sk ev wn wl sv], e; simpl; intros He; destruct_and?; destruct_and?; subst; try done.
  - destruct He as (t' & ? & ->). split; [set_solver|done].
  - destruct He as (t' & ? & ->). by destruct x.
  - by destruct x.
Qed.

Lemma heard_note X (e : Shared X) x s w w' : effect X e x w w' → heard s w → heard (note X e x s) w'.
Proof.
  intros He Hh. pose proof (heard_later s w w' (effect_later _ _ _ _ _ He) Hh) as Hh'.
  destruct w as [c t sk ev wn wl sv]. destruct e; simpl in *; try done;
    intros u' k' a' [Hin|Hin%list_elem_of_singleton]%elem_of_app; try (by apply Hh'); try discriminate.
  destruct He as (t' & ? & ->). injection Hin as -> -> ->. exists t'. simpl. split; [by left|done].
Qed.

Lemma honest_effect X (e : Shared X) x s w w' :
  effect X e x w w' → told X e s → heard s w → honest w → honest w'.
Proof.
  intros He Hpre Hh HI. pose proof (effect_later _ _ _ _ _ He) as Hl.
  destruct w as [c t sk ev wn wl sv]. destruct e; simpl in He; try (destruct_and?; subst; done).
  - destruct He as (t' & ? & ->). by eapply honest_later.
  - destruct He as (? & ->). by eapply honest_later.
  - destruct He as (t' & ? & ->). destruct x; [|by eapply honest_later].
    intros u e He. simpl in He. destruct (decide (u = url)) as [->|Hne].
    + rewrite lookup_insert_eq in He. injection He as <-. destruct Hpre as (y & Hy & Hadv).
      destruct y as [u k a| | |]; try done. destruct (Hh u k a Hy) as (t0 & ? & ?). simpl in *.
      exists (Got u k a), t0. split_and!; [done..|lia|lia].
    + rewrite lookup_insert_ne in He by done. destruct (HI u e He) as (y & t0 & ? & ? & ? & ?). simpl in *.
      exists y, t0. split_and!; [done..|lia].
  - destruct He as (Hx & ->). destruct x; (eapply honest_later; [done| |done]); [|done].
    intros u e He. simpl in He. by apply lookup_delete_Some in He as [_ ?].
Qed.

(** C37: However many fetches, start-up probes and evictions interleave, and wherever
    they are cut off: every cached window is one its own backend stated, before
    the entry's time stamp, which is never in the future. *)
Theorem context_cache_honest build_node_client now sys :
  reaches note effect (cache_job build_node_client) (mkSystem [] (booted now)) sys → honest (sys_world sys).
Proof.
  intros Hr. eapply (interleaving_invariant note effect (cache_job build_node_client) told honest heard) in Hr;
    [by destruct Hr|..]; clear.
  - intros p s w Hp _. split; [by eapply safe_job|]. destruct Hp; intros ? ? ? []%elem_of_nil.
  - intros X e x s w w' HI HT Hpre He. split_and!.
    + by eapply honest_effect.
    + by eapply heard_note.
    + intros s'. apply heard_later. by eapply effect_later.
  - intros u e He. unfold booted in He. simpl in He. by rewrite lookup_empty in He.
Qed.
End Honesty.
