(* ===== verification/Compat.v ===== *)
(** * The vram-estimate shim (llama-proxy/src/proxy/compat.rs)

    The path it owns, the body it answers with, the scan of a backend's
    [/metrics] stream for the cache gauge and the process-wide memory of what
    the scans found, as programs over their shared accesses. *)
From S2P Require Import Prelude Prog Node Json Framing Sse KvLabels Http.

(** ** Path and body *)
Definition is_vram_estimate_path (path : str) : bool :=
  bool_decide (default path (strip_suffix path (lit "/")) = lit "/api/models/vram-estimate").

Definition MEMORY_LABELS : list str :=
  lit <$> ["num_gpu_blocks"; "block_size"; "kv_cache_size_tokens"; "kv_cache_max_concurrency";
           "gpu_memory_utilization"; "cache_dtype"; "enable_prefix_caching"]%string.

Definition build_vram_estimate_body (model : str) (context_length : Z) (kv_info : option KvCacheInfo) : Value :=
  VObject ([kv "model" (VString model); kv "context_length" (VNumber (NInt context_length));
            kv "model_max_context" (VNumber (NInt context_length));
            kv "context_note" (vstr "reported by llama-proxy from the backend's own advertised context window")] ++
    match kv_info with
    | Some labels =>
        [kv "vllm" (VObject (omap (λ label, (λ v, (label, VString v)) <$> labels !! label) MEMORY_LABELS))]
    | None => []
    end).

(** ** Scanning the stream *)
Definition KV_SCAN_CEILING_BYTES : Z := 16 * 1024 * 1024.

Inductive Scrape :=
  | Found (info : KvCacheInfo)
  | Absent
  | Failed (reason : str).

(** [pending.drain(..=newline)]. *)
Fixpoint next_line (pending : str) : option (str * str) :=
  match pending with
  | [] => None
  | c :: rest => if decide (c = LF) then Some ([c], rest) else (λ p, (c :: p.1, p.2)) <$> next_line rest
  end.

Definition line_info (line : str) : option KvCacheInfo := parse_cache_config_info (from_utf8_lossy line).

(** The line loop; every turn drains a byte, so [length pending] turns suffice. *)
Fixpoint drain_lines (fuel : nat) (pending : str) : KvCacheInfo + str :=
  match fuel with
  | 0 => inr pending
  | S fuel' =>
      match next_line pending with
      | None => inr pending
      | Some (line, rest) =>
          match line_info line with
          | Some info => inl info
          | None => drain_lines fuel' rest
          end
      end
  end.

Record ScanState := mkScan { pending : str; scanned : Z }.

Definition scan_chunk (chunk : str) (st : ScanState) : Scrape + ScanState :=
  let scanned' := Z.min usize_max (scanned st + Z.of_nat (length chunk)) in
  if (KV_SCAN_CEILING_BYTES <? scanned')%Z then inl (Failed (lit "scan ceiling exceeded"))
  else
    let pending' := pending st ++ chunk in
    match drain_lines (length pending') pending' with
    | inl info => inl (Found info)
    | inr rest => inr (mkScan rest scanned')
    end.

(** The stream: chunks, then its end or an error. *)
Fixpoint scan_stream (stream : list (result str str)) (st : ScanState) : Scrape :=
  match stream with
  | [] => Absent
  | Err _ :: _ => Failed (lit "stream error")
  | Ok chunk :: stream' =>
      match scan_chunk chunk st with
      | inl scrape => scrape
      | inr st' => scan_stream stream' st'
      end
  end.

Definition scrape_kv_stream (response : result str (Z * list (result str str))) : Scrape :=
  match response with
  | Err _ => Failed (lit "transport error")
  | Ok (status, stream) =>
      if negb (is_success status) then Failed (lit "non-2xx response") else scan_stream stream (mkScan [] 0)
  end.

(** Under the 2 s cap; [None] is a timeout. *)
Definition scrape_kv_cache_info (outcome : option (result str (Z * list (result str str)))) : Scrape :=
  match outcome with
  | None => Failed (lit "timeout")
  | Some response => scrape_kv_stream response
  end.

(** ** The memory of scrapes *)
Definition KV_RETRY_BACKOFF : Duration := 30 * ns_per_sec.

Inductive KvLookup :=
  | Known (info : option KvCacheInfo)
  | FailedAt (last_attempt : Instant).

Inductive Kv : Type → Type :=
  | ReadKv (url : str) : Kv (option KvLookup)
  | KvNow : Kv Instant
  | GetMetrics (url : str) (api_key : option str) : Kv (option (result str (Z * list (result str str))))
  | WarnKv (url : str) : Kv bool                              (** [HashSet::insert] under the write lock *)
  | WriteKv (url : str) (lookup : KvLookup) : Kv unit.

Definition known_info (lookup : KvLookup) : option KvCacheInfo :=
  match lookup with Known info => info | FailedAt _ => None end.

(** [Instant::checked_duration_since(..).unwrap_or(ZERO)]. *)
Definition waited (now last_attempt : Instant) : Duration := Z.max 0 (now - last_attempt).

Definition kv_scrape (base_url : str) (api_key : option str) : prog Kv (option KvCacheInfo) :=
  outcome ← trigger (GetMetrics (node_url base_url (lit "/metrics") None) api_key);
  lookup ← match scrape_kv_cache_info outcome with
           | Found info => Ret (Known (Some info))
           | Absent => Ret (Known None)
           | Failed _ => _ ← trigger (WarnKv base_url); now ← trigger KvNow; Ret (FailedAt now)
           end;
  _ ← trigger (WriteKv base_url lookup);
  Ret (known_info lookup).

Definition kv_cache_info (base_url : str) (api_key : option str) : prog Kv (option KvCacheInfo) :=
  entry ← trigger (ReadKv base_url);
  match entry with
  | Some (Known info) => Ret info
  | Some (FailedAt last_attempt) =>
      now ← trigger KvNow;
      if (waited now last_attempt <? KV_RETRY_BACKOFF)%Z then Ret None else kv_scrape base_url api_key
  | None => kv_scrape base_url api_key
  end.

(** ** What a scan of a stream is meant to find *)

(** The lines a text completes, each with its line break, and what follows the
    last of them. *)
Definition complete_lines (s : str) : list str := (λ l, l ++ [LF]) <$> removelast (split_char LF s).
Definition unfinished (s : str) : str := default [] (last (split_char LF s)).
Definition first_info (s : str) : option KvCacheInfo := head (omap line_info (complete_lines s)).

(** The chunks that are looked at, and what stops the scan after them. *)
Fixpoint admitted (total : Z) (stream : list (result str str)) : list str * Scrape :=
  match stream with
  | [] => ([], Absent)
  | Err _ :: _ => ([], Failed (lit "stream error"))
  | Ok chunk :: stream' =>
      let total' := (total + Z.of_nat (length chunk))%Z in
      if (KV_SCAN_CEILING_BYTES <? total')%Z then ([], Failed (lit "scan ceiling exceeded"))
      else let '(chunks, stop) := admitted total' stream' in (chunk :: chunks, stop)
  end.

(** The scan states after some chunks. *)
Fixpoint scan_chunks (chunks : list str) (st : ScanState) : Scrape + ScanState :=
  match chunks with
  | [] => inr st
  | c :: chunks' => match scan_chunk c st with inl r => inl r | inr st' => scan_chunks chunks' st' end
  end.

(** What the transport gave: [None] is the time limit passing. *)
Notation Outcome := (option (result str (Z * list (result str str)))).

(** How a stream that was not read to a clean end begins: what came before
    names no gauge, and then the body broke off or passed the ceiling. *)
Definition broken_off (stream : list (result str str)) : Prop :=
  ∃ before rest, stream = (Ok <$> before) ++ rest ∧ first_info (concat before) = None ∧
    ((∃ e r, rest = Err e :: r) ∨
     ∃ c r, rest = Ok c :: r ∧ (KV_SCAN_CEILING_BYTES < Z.of_nat (length (concat (before ++ [c]))))%Z).

(** What an answer of the backend is evidence of, said of the answer alone: a
    gauge is the first one some beginning of a successful answer holds; its
    absence is a successful answer read whole, no larger than the ceiling, no
    complete line of which is the gauge; and a failure is a time limit, a
    transport error, a refusing status or an answer that broke off. *)
Definition shown (o : Outcome) (lookup : KvLookup) : Prop :=
  match lookup with
  | Known (Some info) => ∃ status before rest, o = Some (Ok (status, (Ok <$> before) ++ rest)) ∧
      is_success status = true ∧ (Z.of_nat (length (concat before)) ≤ KV_SCAN_CEILING_BYTES)%Z ∧
      first_info (concat before) = Some info
  | Known None => ∃ status chunks, o = Some (Ok (status, Ok <$> chunks)) ∧
      is_success status = true ∧ (Z.of_nat (length (concat chunks)) ≤ KV_SCAN_CEILING_BYTES)%Z ∧
      first_info (concat chunks) = None
  | FailedAt _ =>
      match o with
      | None | Some (Err _) => True
      | Some (Ok (status, stream)) => is_success status = false ∨ broken_off stream
      end
  end.

(** ** The process: what the backends answered, and what is remembered of it *)
Inductive KvSeen :=
  | SawEntry (url : str) (e : option KvLookup)
  | SawClock (t : Instant)
  | Scraped (url : str) (api_key : option str) (o : Outcome)
  | Warned (url : str)
  | Installed (url : str) (lookup : KvLookup).

Definition kv_note (X : Type) (e : Kv X) : X → list KvSeen → list KvSeen :=
  match e in Kv X return X → list KvSeen → list KvSeen with
  | ReadKv u => λ r s, s ++ [SawEntry u r]
  | KvNow => λ t s, s ++ [SawClock t]
  | GetMetrics u k => λ o s, s ++ [Scraped u k o]
  | WarnKv u => λ _ s, s ++ [Warned u]
  | WriteKv u l => λ _ s, s ++ [Installed u l]
  end.

Record KvProcess := mkKvProcess {
  kv_info : gmap str KvLookup;
  kv_clock : Instant;
  kv_warned : gset str;
  kv_warn_lines : list str;
  scrapes : list (str * Outcome);
}.
Definition kv_booted (now : Instant) : KvProcess := mkKvProcess ∅ now ∅ [] [].

Definition kv_effect (X : Type) (e : Kv X) : X → KvProcess → KvProcess → Prop :=
  match e in Kv X return X → KvProcess → KvProcess → Prop with
  | ReadKv u => λ r w w', r = kv_info w !! u ∧ w' = w
  | KvNow => λ now '(mkKvProcess c t wn wl sc) w', (t ≤ now)%Z ∧ w' = mkKvProcess c now wn wl sc
  | GetMetrics u _ => λ o '(mkKvProcess c t wn wl sc) w',
      w' = mkKvProcess c t wn wl ((u, o) :: sc)
  | WarnKv u => λ fresh '(mkKvProcess c t wn wl sc) w',
      fresh = bool_decide (u ∉ wn) ∧
      w' = mkKvProcess c t ({[u]} ∪ wn) (if fresh : bool then u :: wl else wl) sc
  | WriteKv u l => λ _ '(mkKvProcess c t wn wl sc) w', w' = mkKvProcess (<[u := l]> c) t wn wl sc
  end.

(** Any number of shim requests. *)
Definition kv_job (p : prog Kv (option KvCacheInfo)) (s : list KvSeen) : Prop :=
  ∃ base key, p = kv_cache_info base key ∧ s = [].

Definition metrics_url (base : str) : str := node_url base (lit "/metrics") None.

(** An entry is what some answer of its own backend is evidence of. *)
Definition backed (base : str) (lookup : KvLookup) (scrapes : list (str * Outcome)) : Prop :=
  ∃ o, (metrics_url base, o) ∈ scrapes ∧ shown o lookup.

(** * Facts *)

(** ** Lines *)
Lemma split_char_nonempty c s : split_char c s ≠ [].
Proof. destruct s as [|d s]; simpl; [done|]. case_decide; [done|]. by destruct (split_char c s). Qed.

Lemma split_char_last c s : ∃ ls r, split_char c s = ls ++ [r] ∧ c ∉ r ∧ length r ≤ length s.
Proof.
  induction s as [|d s (ls & r & E & Hr & Hl)]; simpl.
  - exists [], []. split_and!; [done|set_solver|done].
  - rewrite E. case_decide as Hd.
    + exists ([] :: ls), r. split_and!; [done|done|lia].
    + destruct ls as [|l ls]; simpl.
      * exists [], (d :: r). split_and!; [done|set_solver|simpl; lia].
      * exists ((d :: l) :: ls), r. split_and!; [done|done|lia].
Qed.

Lemma split_char_extend c s t ls r :
  split_char c s = ls ++ [r] → split_char c (s ++ t) = ls ++ split_char c (r ++ t).
Proof.
  revert ls r. induction s as [|d s IH]; intros ls r; simpl.
  - intros E. destruct ls as [|l ls]; [by injection E as <-|]. destruct ls; discriminate E.
  - destruct (split_char_last c s) as (ls' & r' & E' & _). rewrite E'. case_decide as Hd.
    + intros E. destruct ls as [|l ls]; simpl in E; [by destruct ls'|].
      injection E as <- E. simpl. f_equal. apply (IH ls r). rewrite E'. done.
    + destruct ls' as [|l' ls']; simpl.
      * intros E. destruct ls as [|l ls]; simpl in E; [|by destruct ls]. injection E as <-. simpl.
        rewrite decide_False by done. by rewrite (IH [] r').
      * intros E. destruct ls as [|l ls]; simpl in E; [by destruct ls'|]. injection E as <- E. simpl.
        rewrite (IH (l' :: ls') r' E'). simpl. by apply app_inj_tail in E as [-> ->].
Qed.

Lemma complete_lines_app s t : complete_lines (s ++ t) = complete_lines s ++ complete_lines (unfinished s ++ t).
Proof.
  unfold complete_lines, unfinished. destruct (split_char_last LF s) as (ls & r & E & _).
  rewrite (split_char_extend LF s t ls r E), E, last_snoc. simpl.
  rewrite removelast_last, removelast_app by apply split_char_nonempty. by rewrite fmap_app.
Qed.

Lemma unfinished_app s t : unfinished (s ++ t) = unfinished (unfinished s ++ t).
Proof.
  unfold unfinished. destruct (split_char_last LF s) as (ls & r & E & _).
  rewrite (split_char_extend LF s t ls r E), E, last_snoc. simpl.
  rewrite last_app. destruct (last (split_char LF (r ++ t))) as [x|] eqn:El; [done|].
  apply last_None in El. by apply split_char_nonempty in El.
Qed.

Lemma unfinished_spec s : LF ∉ unfinished s ∧ length (unfinished s) ≤ length s.
Proof.
  unfold unfinished. destruct (split_char_last LF s) as (ls & r & -> & ? & ?). by rewrite last_snoc.
Qed.

Lemma next_line_spec s :
  match next_line s with
  | None => split_char LF s = [s]
  | Some (l, r) => ∃ l0, l = l0 ++ [LF] ∧ split_char LF s = l0 :: split_char LF r ∧ length r < length s
  end.
Proof.
  induction s as [|c s IH]; simpl; [done|]. case_decide as Hc.
  - subst. exists []. split_and!; [done..|lia].
  - destruct (next_line s) as [[l r]|]; simpl.
    + destruct IH as (l0 & -> & E & ?). exists (c :: l0). rewrite E. split_and!; [done..|lia].
    + by rewrite IH.
Qed.

(** The line loop finds the first line that is the gauge, or keeps what follows
    the last line break. *)
Lemma drain_lines_spec fuel s :
  length s ≤ fuel →
  drain_lines fuel s = match first_info s with Some i => inl i | None => inr (unfinished s) end.
Proof.
  revert s. induction fuel as [|fuel IH]; intros s Hl.
  { destruct s; [done|simpl in Hl; lia]. }
  simpl. pose proof (next_line_spec s) as Hn. destruct (next_line s) as [[l r]|].
  - destruct Hn as (l0 & -> & E & Hr). unfold first_info, complete_lines, unfinished. rewrite E.
    destruct (split_char LF r) as [|w ws] eqn:Er; [by apply split_char_nonempty in Er|].
    change (removelast (l0 :: w :: ws)) with (l0 :: removelast (w :: ws)). cbn [fmap list_fmap omap list_omap].
    destruct (line_info (l0 ++ [LF])) as [i|]; [done|]. rewrite IH by lia.
    unfold first_info, complete_lines, unfinished. by rewrite Er.
  - unfold first_info, complete_lines, unfinished. by rewrite Hn.
Qed.

Lemma first_info_app s t :
  first_info (s ++ t) = match first_info s with Some i => Some i | None => first_info (unfinished s ++ t) end.
Proof.
  unfold first_info. rewrite complete_lines_app, omap_app. by destruct (omap line_info (complete_lines s)).
Qed.

Lemma total_fits total (chunk : str) :
  (0 ≤ total ≤ KV_SCAN_CEILING_BYTES)%Z →
  (KV_SCAN_CEILING_BYTES <? Z.min usize_max (total + Z.of_nat (length chunk)))%Z =
    (KV_SCAN_CEILING_BYTES <? total + Z.of_nat (length chunk))%Z.
Proof.
  unfold KV_SCAN_CEILING_BYTES, usize_max. intros Ht.
  destruct (Z.ltb_spec (16 * 1024 * 1024) (total + Z.of_nat (length chunk))).
  - apply Z.ltb_lt. lia.
  - apply Z.ltb_ge. lia.
Qed.

(** The scan of a [/metrics] stream is a function of the bytes it looks at,
    however they are cut into chunks: the first complete line of them that is
    the gauge is the answer, and where none is, what stopped the scan.  A scan
    that runs to the clean end of the stream looks at all of it, up to 16 MiB. *)
Theorem scan_right stream :
  scan_stream stream (mkScan [] 0) =
    let '(chunks, stop) := admitted 0 stream in
    match first_info (concat chunks) with Some info => Found info | None => stop end.
Proof.
  enough (∀ st seen, pending st = unfinished seen → first_info seen = None →
    (0 ≤ scanned st ≤ KV_SCAN_CEILING_BYTES)%Z →
    scan_stream stream st = let '(chunks, stop) := admitted (scanned st) stream in
      match first_info (seen ++ concat chunks) with Some info => Found info | None => stop end) as Hgo.
  { rewrite (Hgo (mkScan [] 0) []) by done. done. }
  induction stream as [|[chunk|e] stream IH]; intros st seen Hp Hn Hs.
  - simpl. by rewrite app_nil_r, Hn.
  - cbn [scan_stream admitted]. unfold scan_chunk. rewrite total_fits by done.
    destruct (Z.ltb_spec KV_SCAN_CEILING_BYTES (scanned st + Z.of_nat (length chunk))) as [Hc|Hc].
    { simpl. by rewrite app_nil_r, Hn. }
    rewrite drain_lines_spec by done. pose proof (first_info_app seen chunk) as Happ. rewrite Hn, <- Hp in Happ.
    destruct (admitted (scanned st + Z.of_nat (length chunk)) stream) as [chunks stop] eqn:Ea.
    cbn [concat]. rewrite app_assoc. destruct (first_info (pending st ++ chunk)) as [i|] eqn:Ei.
    + by rewrite first_info_app, Happ.
    + assert (Z.min usize_max (scanned st + Z.of_nat (length chunk)) = scanned st + Z.of_nat (length chunk))%Z as ->
        by (unfold KV_SCAN_CEILING_BYTES, usize_max in *; lia).
      rewrite (IH _ (seen ++ chunk)); [cbn [scanned]; by rewrite Ea| |done|simpl; lia]. simpl.
      by rewrite Hp, (unfinished_app seen).
  - simpl. by rewrite app_nil_r, Hn.
Qed.

(** What is looked at is a beginning of the stream within the ceiling, and what
    stops the scan is what follows it. *)
Lemma admitted_spec total stream chunks stop :
  admitted total stream = (chunks, stop) → (0 ≤ total ≤ KV_SCAN_CEILING_BYTES)%Z →
  (total + Z.of_nat (length (concat chunks)) ≤ KV_SCAN_CEILING_BYTES)%Z ∧
  ∃ rest, stream = (Ok <$> chunks) ++ rest ∧
    match stop with
    | Absent => rest = []
    | Failed _ => (∃ e r, rest = Err e :: r) ∨
        ∃ c r, rest = Ok c :: r ∧ (KV_SCAN_CEILING_BYTES < total + Z.of_nat (length (concat (chunks ++ [c]))))%Z
    | Found _ => False
    end.
Proof.
  revert total chunks. induction stream as [|[chunk|e] stream IH]; intros total chunks; cbn [admitted].
  - intros [= <- <-] ?. split; [simpl; lia|]. by exists [].
  - destruct (Z.ltb_spec KV_SCAN_CEILING_BYTES (total + Z.of_nat (length chunk))) as [Hc|Hc].
    { intros [= <- <-] ?. split; [simpl; lia|]. eexists. split; [done|]. right. exists chunk, stream.
      split; [done|]. simpl. by rewrite app_nil_r. }
    destruct (admitted _ stream) as [cs st] eqn:Ea. intros [= <- <-] ?.
    destruct (IH _ _ Ea ltac:(lia)) as (Hl & rest & -> & Hst). split; [simpl; rewrite length_app; lia|].
    exists rest. split; [done|]. destruct st as [info| |why]; [done..|].
    destruct Hst as [He|(c & r & -> & Hover)]; [by left|]. right. exists c, r. split; [done|].
    simpl. rewrite length_app. lia.
  - intros [= <- <-] ?. split; [simpl; lia|]. eexists. split; [done|]. left. by exists e, stream.
Qed.

(** A scrape finds what the answer is evidence of. *)
Lemma scrape_shown o :
  match scrape_kv_cache_info o with
  | Found info => shown o (Known (Some info))
  | Absent => shown o (Known None)
  | Failed _ => ∀ t, shown o (FailedAt t)
  end.
Proof.
  destruct o as [[[status stream]|e]|]; cbn [scrape_kv_cache_info scrape_kv_stream]; [|done..].
  destruct (is_success status) eqn:Hs; cbn [negb]; [|by left]. rewrite scan_right.
  destruct (admitted 0 stream) as [chunks stop] eqn:Ea.
  destruct (admitted_spec _ _ _ _ Ea) as (Hl & rest & -> & Hst); [done|].
  destruct (first_info (concat chunks)) as [info|] eqn:Ei; [by exists status, chunks, rest|].
  destruct stop as [info| |why]; [done| |intros t; right; by exists chunks, rest].
  subst. exists status, chunks. by rewrite app_nil_r.
Qed.

(** C40: What a scan holds on to is bounded: no more than the bytes scanned, which
    never pass the ceiling, and never a line break. *)
Theorem scan_memory_bounded chunks st :
  scan_chunks chunks (mkScan [] 0) = inr st →
  (Z.of_nat (length (pending st)) ≤ scanned st ≤ KV_SCAN_CEILING_BYTES)%Z ∧ LF ∉ pending st ∧
  scanned st = Z.of_nat (length (concat chunks)).
Proof.
  enough (∀ st0, (Z.of_nat (length (pending st0)) ≤ scanned st0 ≤ KV_SCAN_CEILING_BYTES)%Z → LF ∉ pending st0 →
    scan_chunks chunks st0 = inr st →
    (Z.of_nat (length (pending st)) ≤ scanned st ≤ KV_SCAN_CEILING_BYTES)%Z ∧ LF ∉ pending st ∧
    scanned st = (scanned st0 + Z.of_nat (length (concat chunks)))%Z) as Hgo.
  { intros H. apply (Hgo (mkScan [] 0)); [done|set_solver|done]. }
  induction chunks as [|c chunks IH]; intros st0 Hb Hl; cbn [scan_chunks].
  { intros [= <-]. split; [done|]. split; [done|simpl; lia]. }
  unfold scan_chunk. rewrite total_fits by lia.
  destruct (Z.ltb_spec KV_SCAN_CEILING_BYTES (scanned st0 + Z.of_nat (length c))) as [Hc|Hc]; [done|].
  rewrite drain_lines_spec by done. destruct (first_info _) as [i|]; [done|].
  destruct (unfinished_spec (pending st0 ++ c)) as [Hu Hlen]. rewrite length_app in Hlen. intros Hst.
  apply IH in Hst; simpl; [|split|done]; [|unfold usize_max, KV_SCAN_CEILING_BYTES in *; lia..].
  destruct Hst as (? & ? & Hsum). split; [done|]. split; [done|]. rewrite Hsum. simpl.
  rewrite length_app. unfold usize_max, KV_SCAN_CEILING_BYTES in *. lia.
Qed.

(** ** One request *)
Definition scraped_once (base : str) (key : option str) (s : list KvSeen) (r : option KvCacheInfo) : Prop :=
  ∃ o, match scrape_kv_cache_info o with
  | Found info => s = [Scraped (metrics_url base) key o; Installed base (Known (Some info))] ∧ r = Some info
  | Absent => s = [Scraped (metrics_url base) key o; Installed base (Known None)] ∧ r = None
  | Failed _ => ∃ t, s = [Scraped (metrics_url base) key o; Warned base; SawClock t; Installed base (FailedAt t)] ∧ r = None
  end.

Lemma kv_scrape_once base key s0 :
  wp kv_note (kv_scrape base key) (λ r s, ∃ s', s = s0 ++ s' ∧ scraped_once base key s' r) s0.
Proof.
  intros o. cbn [mbind prog_bind bind trigger].
  destruct (scrape_kv_cache_info o) as [info| |why] eqn:E; cbn.
  - intros []. rewrite <- app_assoc. eexists. split; [done|]. exists o. by rewrite E.
  - intros []. rewrite <- app_assoc. eexists. split; [done|]. exists o. by rewrite E.
  - intros _ t []. rewrite <- !app_assoc. eexists. split; [done|]. exists o. rewrite E. by exists t.
Qed.

(** A remembered answer is served without touching the backend.  A remembered
    failure is served, as no answer, for 30 s of the clock, and for as long as
    the clock stands before it.  In every other case the backend is scraped
    once, and what the scrape found is what is installed and returned. *)
Theorem kv_cache_info_right base key :
  wp kv_note (kv_cache_info base key)
    (λ r s,
       match s with
       | SawEntry u e :: s' =>
           u = base ∧
           match e with
           | Some (Known info) => s' = [] ∧ r = info
           | Some (FailedAt t0) => ∃ t s'', s' = SawClock t :: s'' ∧
               if (t - t0 <? KV_RETRY_BACKOFF)%Z then s'' = [] ∧ r = None else scraped_once base key s'' r
           | None => scraped_once base key s' r
           end
       | _ => False
       end) [].
Proof.
  intros [[info|t0]|].
  - done.
  - intros t. cbn [mbind prog_bind bind trigger].
    assert ((waited t t0 <? KV_RETRY_BACKOFF) = (t - t0 <? KV_RETRY_BACKOFF))%Z as ->.
    { unfold waited, KV_RETRY_BACKOFF, ns_per_sec.
      destruct (Z.ltb_spec (t - t0) (30 * 1000000000)); [apply Z.ltb_lt|apply Z.ltb_ge]; lia. }
    destruct (t - t0 <? KV_RETRY_BACKOFF)%Z eqn:Eb.
    + split; [done|]. exists t, []. split; [done|]. by rewrite Eb.
    + eapply wp_mono; [apply kv_scrape_once|]. intros r s (s' & -> & Hs). split; [done|].
      exists t, s'. split; [done|]. by rewrite Eb.
  - eapply wp_mono; [apply kv_scrape_once|]. intros r s (s' & -> & Hs). by split.
Qed.

(** ** Any number of them *)

(** An entry installed is one that an answer this request had is evidence of,
    a failure stamped with a time the request read. *)
Definition kv_told (X : Type) (e : Kv X) (s : list KvSeen) : Prop :=
  match e with
  | WriteKv u l => (∃ key o, Scraped (metrics_url u) key o ∈ s ∧ shown o l) ∧
      ∀ t, l = FailedAt t → SawClock t ∈ s
  | _ => True
  end.

Lemma kv_scrape_safe base key s0 : safe kv_note kv_told (kv_scrape base key) s0.
Proof.
  split; [done|]. intros o. cbn [mbind prog_bind bind trigger]. pose proof (scrape_shown o) as Ho.
  destruct (scrape_kv_cache_info o) as [info| |why]; cbn.
  - split; [|done]. split; [|done]. exists key, o. split; [set_solver|done].
  - split; [|done]. split; [|done]. exists key, o. split; [set_solver|done].
  - split; [done|]. intros _. split; [done|]. intros t. split; [|done]. split.
    + exists key, o. split; [set_solver|exact (Ho t)].
    + intros ? [= <-]. set_solver.
Qed.

Lemma kv_job_safe p s : kv_job p s → safe kv_note kv_told p s.
Proof.
  intros (base & key & -> & ->). split; [done|]. intros [[info|t0]|]; [done| |apply kv_scrape_safe].
  split; [done|]. intros t. cbn [mbind prog_bind bind trigger].
  destruct (_ <? _)%Z; [done|apply kv_scrape_safe].
Qed.

Definition kv_heard (s : list KvSeen) (w : KvProcess) : Prop :=
  (∀ u k o, Scraped u k o ∈ s → (u, o) ∈ scrapes w) ∧ ∀ t, SawClock t ∈ s → (t ≤ kv_clock w)%Z.

(** Every entry is backed by an answer of its backend and stamped in the past,
    and no backend has been warned about twice. *)
Definition kv_honest (w : KvProcess) : Prop :=
  (∀ base l, kv_info w !! base = Some l → backed base l (scrapes w) ∧
     ∀ t, l = FailedAt t → (t ≤ kv_clock w)%Z) ∧
  NoDup (kv_warn_lines w) ∧ ∀ u, u ∈ kv_warn_lines w → u ∈ kv_warned w.

Definition kv_later (w w' : KvProcess) : Prop := scrapes w ⊆ scrapes w' ∧ (kv_clock w ≤ kv_clock w')%Z.

Lemma kv_effect_later X (e : Kv X) x w w' : kv_effect X e x w w' → kv_later w w'.
Proof.
  destruct w as [c t wn wl sc], e; simpl; intros He; destruct_and?; subst; try done.
  split; [set_solver|done].
Qed.

Lemma kv_heard_later s w w' : kv_later w w' → kv_heard s w → kv_heard s w'.
Proof. intros [Hs Hc] [H1 H2]. split; [set_solver|]. intros t Ht. specialize (H2 t Ht). lia. Qed.

Lemma kv_heard_note X (e : Kv X) x s w w' : kv_effect X e x w w' → kv_heard s w → kv_heard (kv_note X e x s) w'.
Proof.
  intros He Hh. pose proof (kv_heard_later s w w' (kv_effect_later _ _ _ _ _ He) Hh) as [H1 H2].
  destruct w as [c t wn wl sc]. destruct e; simpl in *; split; intros *;
    rewrite elem_of_app, list_elem_of_singleton; intros [Hin|Hin]; try (by eauto); try discriminate.
  - injection Hin as ->. by destruct He as [_ ->].
  - injection Hin as -> -> ->. subst. by left.
Qed.

Lemma backed_later base l sc sc' : sc ⊆ sc' → backed base l sc → backed base l sc'.
Proof. intros Hs (o & Ho & ?). exists o. split; [by apply Hs|done]. Qed.

Lemma kv_honest_effect X (e : Kv X) x s w w' :
  kv_effect X e x w w' → kv_told X e s → kv_heard s w → kv_honest w → kv_honest w'.
Proof.
  intros He Hpre [Hh1 Hh2] (HI & Hnd & Hwn).
  destruct w as [c t wn wl sc]. destruct e as [u| |u k|u|u l]; simpl in He, Hpre, HI, Hnd, Hwn.
  - by destruct He as [_ ->].
  - destruct He as [Ht ->]. split; [|done]. intros base l Hl. destruct (HI base l Hl) as [? Hc].
    split; [done|]. intros t' ->. specialize (Hc t' eq_refl). simpl in *. lia.
  - subst. split; [|done]. intros base l Hl. destruct (HI base l Hl) as [? Hc].
    split; [|done]. eapply backed_later; [|done]. simpl. set_solver.
  - destruct He as [-> ->]. split; [done|]. simpl. case_bool_decide as Hu; simpl.
    + split; [constructor; [|done]; naive_solver|]. set_solver.
    + split; [done|]. set_solver.
  - subst. split; [|done]. intros base l' Hl. simpl in *. destruct (decide (base = u)) as [->|Hne].
    + rewrite lookup_insert_eq in Hl. injection Hl as <-. destruct Hpre as [(key & o & Ho & Hl) Hclk].
      split; [exists o; split; [by eapply Hh1|done]|]. intros t' Ht. by apply Hh2, Hclk.
    + rewrite lookup_insert_ne in Hl by done. by apply HI.
Qed.

(** C35: However many shim requests interleave, and wherever their clients leave:
    what is remembered of a backend is what an answer of that backend is
    evidence of.  The permanent negative is there only if some successful
    answer was read to its clean end, within the ceiling, and no complete line
    of it is the gauge; a gauge only if it is the first one a beginning of a
    successful answer holds; a failure only if an answer timed out, was refused
    or broke off.  No failure is stamped in the future, and each backend is
    warned about once at most. *)
Theorem kv_memory_honest now sys :
  reaches kv_note kv_effect kv_job (mkSystem [] (kv_booted now)) sys → kv_honest (sys_world sys).
Proof.
  intros Hr. eapply (interleaving_invariant kv_note kv_effect kv_job kv_told kv_honest kv_heard) in Hr;
    [by destruct Hr|..]; clear.
  - intros p s w Hp _. split; [by apply kv_job_safe|]. destruct Hp as (? & ? & _ & ->).
    split; [intros ? ? ? []%elem_of_nil|intros ? []%elem_of_nil].
  - intros X e x s w w' HI HT Hpre He. split_and!.
    + by eapply kv_honest_effect.
    + by eapply kv_heard_note.
    + intros s'. apply kv_heard_later. by eapply kv_effect_later.
  - split; [|split; [constructor|set_solver]]. intros base l Hl. unfold kv_booted in Hl. simpl in Hl.
    by rewrite lookup_empty in Hl.
Qed.

(** ** Where the comments and the code part *)

(** The scrape stops at the first series it reads, so of a deployment with
    several engines the first line printed wins, not the lowest engine label
    that [parse_cache_config_info] documents. *)
Definition two_engines : str :=
  qlit "vllm:cache_config_info{engine='2',num_gpu_blocks='22'} 1" ++ [LF] ++
  qlit "vllm:cache_config_info{engine='1',num_gpu_blocks='11'} 1" ++ [LF].
Definition found_label (k : String.string) (r : option KvCacheInfo) : option str := info ← r; info !! lit k.
Definition found (r : Scrape) : option KvCacheInfo := match r with Found info => Some info | _ => None end.
Lemma first_series_wins :
  found_label "engine" (parse_cache_config_info two_engines) = Some (lit "1") ∧
  found_label "engine" (found (scan_stream [Ok two_engines] (mkScan [] 0))) = Some (lit "2").
Proof. split; vm_compute; reflexivity. Qed.

(** A gauge on a last line without a line break is not seen, and the clean end
    of the stream makes the backend one without a gauge, for good. *)
Lemma unterminated_gauge_missed :
  let body := qlit "vllm:cache_config_info{engine='0'} 1" in
  found_label "engine" (parse_cache_config_info body) = Some (lit "0") ∧
  scan_stream [Ok body] (mkScan [] 0) = Absent.
Proof. split; vm_compute; reflexivity. Qed.

(** An answer already remembered can be overwritten by a failure: two requests
    that both find nothing remembered both scrape, and the one that fails may
    install its failure last. *)
Theorem known_entry_lost base now info stream :
  scan_stream stream (mkScan [] 0) = Found info →
  ∃ sys sys', reaches kv_note kv_effect kv_job (mkSystem [] (kv_booted now)) sys ∧
    kv_info (sys_world sys) !! base = Some (Known (Some info)) ∧
    sys_step kv_note kv_effect kv_job sys sys' ∧
    kv_info (sys_world sys') !! base = Some (FailedAt now).
Proof.
  intros Hf. set (w0 := kv_booted now).
  eexists _, _. split; [|split; [|split]].
  - eapply rtc_l; [apply (sys_spawn _ _ _ (kv_cache_info base None) []); by exists base, None|].
    eapply rtc_l; [apply (sys_spawn _ _ _ (kv_cache_info base None) []); by exists base, None|]. cbn [app].
    eapply rtc_l; [by eapply (sys_event _ _ _ 0 _ (ReadKv base) _ _ None)|]. cbn.
    eapply rtc_l; [by eapply (sys_event _ _ _ 1 _ (ReadKv base) _ _ None)|]. cbn.
    eapply rtc_l; [by eapply (sys_event _ _ _ 1 _ (GetMetrics (metrics_url base) None) _ _ None)|]. cbn.
    eapply rtc_l; [by eapply (sys_event _ _ _ 1 _ (WarnKv base) _ _ true)|]. cbn.
    eapply rtc_l; [by eapply (sys_event _ _ _ 1 _ (KvNow) _ _ now)|]. cbn.
    eapply rtc_l; [by eapply (sys_event _ _ _ 0 _ (GetMetrics (metrics_url base) None) _ _ (Some (Ok (200%Z, stream))))|]. cbn.
    rewrite Hf. cbn.
    eapply rtc_l; [by eapply (sys_event _ _ _ 0 _ (WriteKv base (Known (Some info))) _ _ tt)|]. cbn.
    apply rtc_refl.
  - cbn. by rewrite lookup_insert_eq.
  - by eapply (sys_event _ _ _ 1 _ (WriteKv base (FailedAt now)) _ _ tt).
  - cbn. by rewrite lookup_insert_eq.
Qed.
