(* ===== verification/Decode.v ===== *)
(** * Decoding a backend body (llama-proxy/src/proxy/handler.rs)

    The codecs are third-party readers: what one hands out of a body before it
    ends or fails, with its error.  The zstd reader can already fail when it is
    made. *)
From S2P Require Import Prelude Json Http.

Definition MAX_DECOMPRESSED_BYTES : Z := 64 * 1024 * 1024.

(** The bytes read, and the error that ended the reading, if one did. *)
Definition Read : Type := str * option str.

Class Codecs := {
  gzip : str → Read;
  zlib : str → Read;
  raw_deflate : str → Read;
  brotli : str → Read;
  zstd : str → result str Read;
}.

(** [Read::take(limit)]: past the limit the inner reader is not asked again. *)
Fixpoint take_z {A} (n : Z) (l : list A) : list A :=
  match l with
  | [] => []
  | x :: l' => if (n <=? 0)%Z then [] else x :: take_z (n - 1) l'
  end.

Definition take_read (limit : Z) (r : Read) : Read :=
  if (limit <=? Z.of_nat (length r.1))%Z then (take_z limit r.1, None) else r.

Inductive Decompressed :=
  | Passthrough (b : str)
  | Decoded (b : str).

Inductive DecompressError :=
  | DecodeError (message : str)
  | PayloadTooLarge (limit_bytes : Z).

Definition decompress_error_text (e : DecompressError) : str :=
  match e with
  | DecodeError message => message
  | PayloadTooLarge limit_bytes =>
      lit "decompressed body exceeds the " ++ show_Z limit_bytes ++ lit "-byte cap"
  end.

Definition cap_breached : DecompressError := PayloadTooLarge MAX_DECOMPRESSED_BYTES.

Definition over_cap (b : str) : bool := (MAX_DECOMPRESSED_BYTES <? Z.of_nat (length b))%Z.

Definition decoded_within_cap (decoded : str) : result DecompressError Decompressed :=
  if over_cap decoded then Err cap_breached else Ok (Decoded decoded).

Section Decode.
Context `{Codecs}.

Definition read_limit : Z := MAX_DECOMPRESSED_BYTES + 1.

(** One [match reader.take(read_limit).read_to_end(..)]. *)
Definition decode_with (failed : str) (r : Read) : result DecompressError Decompressed :=
  match take_read read_limit r with
  | (out, None) => decoded_within_cap out
  | (out, Some e) =>
      if over_cap out then Err cap_breached else Err (DecodeError (failed ++ lit " decompression failed: " ++ e))
  end.

Definition decode_deflate (body_bytes : str) : result DecompressError Decompressed :=
  match take_read read_limit (zlib body_bytes) with
  | (out, None) => decoded_within_cap out
  | (out, Some zlib_err) =>
      if over_cap out then Err cap_breached
      else
        match take_read read_limit (raw_deflate body_bytes) with
        | (raw_out, None) => decoded_within_cap raw_out
        | (raw_out, Some raw_err) =>
            if over_cap raw_out then Err cap_breached
            else Err (DecodeError (lit "deflate decompression failed: zlib: " ++ zlib_err
                                   ++ lit "; raw-deflate: " ++ raw_err))
        end
  end.

(** The header value is visible ASCII, where [to_lowercase] is the ASCII one. *)
Definition decode_body_bytes (body_bytes : str) (content_encoding : option str)
    : result DecompressError Decompressed :=
  match content_encoding with
  | None => Ok (Passthrough body_bytes)
  | Some enc =>
      let enc := to_ascii_lowercase enc in
      if bool_decide (enc = lit "gzip") then decode_with (lit "gzip") (gzip body_bytes)
      else if bool_decide (enc = lit "deflate") then decode_deflate body_bytes
      else if bool_decide (enc = lit "br") then decode_with (lit "brotli") (brotli body_bytes)
      else if bool_decide (enc = lit "zstd") then
        match zstd body_bytes with
        | Ok r => decode_with (lit "zstd") r
        | Err e => Err (DecodeError (lit "zstd decompression failed: " ++ e))
        end
      else Ok (Passthrough body_bytes)
  end.

(** The worker task itself may be lost ([worker] is its error). *)
Definition decompress_body (worker : option str) (body_bytes : str) (content_encoding : option str)
    : result DecompressError Decompressed :=
  match worker with
  | Some e => Err (DecodeError (lit "decompression worker task failed: " ++ e))
  | None => decode_body_bytes body_bytes content_encoding
  end.

Definition decompress_error_response `{Serde} (error : DecompressError) : Response :=
  match error with
  | PayloadTooLarge limit_bytes =>
      json_response 413 (err_envelope (lit "backend_payload_too_large")
        (lit "Backend response expands beyond the " ++ show_Z (limit_bytes / (1024 * 1024))
         ++ lit " MiB decompression cap"))
  | DecodeError message =>
      json_response 502 (err_envelope (lit "backend_decompress_error")
        (lit "Failed to decompress response: " ++ message))
  end.

(** ** The reference: what a body stands for *)

(** The readers a body is tried with under a content encoding, in order; none
    for a body handed on as it is. *)
Definition attempts (enc : str) (b : str) : option (list Read) :=
  let enc := to_ascii_lowercase enc in
  if bool_decide (enc = lit "gzip") then Some [gzip b]
  else if bool_decide (enc = lit "deflate") then Some [zlib b; raw_deflate b]
  else if bool_decide (enc = lit "br") then Some [brotli b]
  else if bool_decide (enc = lit "zstd") then
    Some (match zstd b with Ok r => [r] | Err _ => [] end)
  else None.

(** The first attempt that is not a clean failure below the cap decides. *)
Fixpoint first_verdict (rs : list Read) : option (result unit str) :=
  match rs with
  | [] => None
  | (out, e) :: rs' =>
      if over_cap out then Some (Err ())
      else match e with None => Some (Ok out) | Some _ => first_verdict rs' end
  end.
End Decode.

(** * Facts *)
Lemma length_take_z {A} n (l : list A) : (0 ≤ n ≤ Z.of_nat (length l))%Z → Z.of_nat (length (take_z n l)) = n.
Proof.
  revert n. induction l as [|x l IH]; intros n; simpl; [lia|]. intros Hn.
  destruct (Z.leb_spec n 0); simpl; [lia|]. specialize (IH (n - 1)%Z). lia.
Qed.

(** The seam never hides a truncation: what comes out of it is over the cap
    exactly when the body is, and the whole of it otherwise. *)
Lemma take_read_over_cap r : over_cap (take_read read_limit r).1 = over_cap r.1.
Proof.
  unfold take_read, over_cap, read_limit. case_match eqn:E; [|done]. simpl.
  apply Z.leb_le in E. rewrite length_take_z by (unfold MAX_DECOMPRESSED_BYTES in *; lia).
  destruct (Z.ltb_spec MAX_DECOMPRESSED_BYTES (Z.of_nat (length r.1))); [|lia]. apply Z.ltb_lt. lia.
Qed.

Lemma take_read_whole r : over_cap r.1 = false → take_read read_limit r = r.
Proof.
  unfold take_read, over_cap, read_limit. intros E%Z.ltb_ge.
  destruct (Z.leb_spec (MAX_DECOMPRESSED_BYTES + 1) (Z.of_nat (length r.1))); [lia|done].
Qed.

Lemma decoded_over_cap out : over_cap out = true → decoded_within_cap out = Err cap_breached.
Proof. unfold decoded_within_cap. by intros ->. Qed.

(** One decoder behind the seam, in terms of the whole of what it reads. *)
Lemma seam_cases r (k : str → result DecompressError Decompressed) :
  match take_read read_limit r with
  | (out, None) => decoded_within_cap out
  | (out, Some e) => if over_cap out then Err cap_breached else k e
  end =
  if over_cap r.1 then Err cap_breached
  else match r.2 with None => Ok (Decoded r.1) | Some e => k e end.
Proof.
  destruct (over_cap r.1) eqn:E.
  - pose proof (take_read_over_cap r) as Ho. rewrite E in Ho.
    destruct (take_read read_limit r) as [out [e|]]; simpl in Ho; [by rewrite Ho|by apply decoded_over_cap].
  - rewrite take_read_whole by done. destruct r as [out [e|]]; simpl in *; [by rewrite E|].
    unfold decoded_within_cap. by rewrite E.
Qed.

Section DecodeFacts.
Context `{Codecs}.

(** C24: What a completed decode means, for every codec: the client gets the whole
    of what the first decoder that accepts the body makes of it, never a part;
    a body that expands past the cap is refused as too large, and a body no
    decoder accepts as undecodable.  A body without a known encoding is handed
    on as it came. *)
Theorem decode_whole_or_refused b enc :
  match enc ≫= λ e, attempts e b with
  | None => decode_body_bytes b enc = Ok (Passthrough b)
  | Some rs =>
      match first_verdict rs with
      | Some (Ok out) => decode_body_bytes b enc = Ok (Decoded out)
      | Some (Err _) => decode_body_bytes b enc = Err (PayloadTooLarge MAX_DECOMPRESSED_BYTES)
      | None => ∃ message, decode_body_bytes b enc = Err (DecodeError message)
      end
  end.
Proof.
  destruct enc as [enc|]; [|done]. cbn [mbind option_bind]. unfold attempts, decode_body_bytes, decode_with.
  set (e := to_ascii_lowercase enc).
  repeat (case_bool_decide; [|]); try done; unfold decode_deflate; rewrite ?seam_cases.
  - destruct (gzip b) as [out [?|]]; simpl; destruct (over_cap out); eauto.
  - destruct (zlib b) as [out [?|]]; simpl; destruct (over_cap out); simpl; eauto. rewrite seam_cases.
    destruct (raw_deflate b) as [raw [?|]]; simpl; destruct (over_cap raw); eauto.
  - destruct (brotli b) as [out [?|]]; simpl; destruct (over_cap out); eauto.
  - destruct (zstd b) as [[out [?|]]|]; [rewrite seam_cases; simpl; destruct (over_cap out); eauto..|simpl; eauto].
Qed.
End DecodeFacts.
