(* ===== verification/Augment.v ===== *)
(** * The augment backend (llama-proxy/src/augment.rs)

    A fast model is asked about the user's text and its answer is appended to
    the last user message of the request.  The call is answered by the
    environment ([post]); the injection into the typed chat request is in
    [Wire]. *)
From S2P Require Import Prelude Json PromptCache.

Record AugmentBackend := mkAugment {
  aug_url : str;
  aug_model : str;
  aug_prompt_file : str;
  request_prompt_file : str;
}.

Definition newline : str := [ascii_of_nat 10].
Definition blank_line : str := newline ++ newline.

(** ** Reading *)
Definition has_type (block : Value) (name : String.string) : bool :=
  bool_decide (get block (lit "type") ≫= as_str = Some (lit name)).
Arguments has_type block name%_string.

Definition block_text (block : Value) : option str :=
  if has_type block "text" then get block (lit "text") ≫= as_str else None.

Definition clip_error_body (body : str) : str :=
  let cs := chars body in
  concat (take 300 cs) ++ (if 300 <? length cs then lit "..." else []).

Definition extract_response_text `{Serde} (body : Value) : result str str :=
  match
    (cs ← get body (lit "choices") ≫= as_array;
     first ← head cs;
     m ← get first (lit "message");
     get m (lit "content") ≫= as_str) with
  | Some content => Ok content
  | None =>
      let t := join newline (omap block_text (default [] (get body (lit "content") ≫= as_array))) in
      if negb (bool_decide (t = [])) then Ok t
      else Err (lit "Could not extract text from augment backend response: " ++ clip_error_body (to_string body))
  end.

Definition is_user (msg : Value) : bool :=
  bool_decide (get msg (lit "role") ≫= as_str = Some (lit "user")).

Definition content_texts (msg : Value) : list str :=
  match get msg (lit "content") with
  | Some (VString s) => [s]
  | Some (VArray blocks) => omap block_text blocks
  | _ => []
  end.

Definition extract_user_content_from_json (req_json : Value) : str :=
  match get req_json (lit "messages") ≫= as_array with
  | None => []
  | Some messages => join newline (concat (content_texts <$> filter (λ m, is_user m = true) messages))
  end.

(** ** Injecting *)
#[global] Instance Value_inhabited : Inhabited Value := populate VNull.

Definition text_block (t : str) : Value := VObject [kv "type" (vstr "text"); kv "text" (VString t)].

Fixpoint rposition {A} (f : A → bool) (l : list A) : option nat :=
  match l with
  | [] => None
  | x :: l' =>
      match rposition f l' with
      | Some i => Some (S i)
      | None => if f x then Some 0 else None
      end
  end.

Definition append_to_parts (parts : list Value) (block : str) : list Value :=
  match (i ← rposition (λ p, has_type p "text") parts;
         p ← parts !! i;
         match get p (lit "text") with
         | Some (VString t) => Some (<[i := set_key p (lit "text") (VString (t ++ block))]> parts)
         | _ => None
         end) with
  | Some parts' => parts'
  | None => parts ++ [text_block block]
  end.

(** The outer [None] is a panic, the [Err] an unsupported content. *)
Definition append_block_to_message `{Serde} (msg : Value) (block : str) : option (result str Value) :=
  match get msg (lit "content") with
  | None | Some VNull => Ok <$> index_set msg (lit "content") (VString block)
  | Some (VString existing) => Some (Ok (set_key msg (lit "content") (VString (existing ++ block))))
  | Some (VArray parts) => Some (Ok (set_key msg (lit "content") (VArray (append_to_parts parts block))))
  | Some other => Some (Err (lit "augment injection: unsupported message content type: " ++ to_string other))
  end.

Definition block_of (request_prompt augmentation : str) : str :=
  blank_line ++ request_prompt ++ blank_line ++ augmentation.

Definition inject_augmentation_value `{Serde} (request : Value) (request_prompt augmentation : str)
    : option (result str Value) :=
  match request with
  | VObject body =>
      let request :=
        match get request (lit "stop") with
        | Some (VString s) => VObject (map_insert (lit "stop") (VArray [VString s]) body)
        | _ => request
        end in
      let block := block_of request_prompt augmentation in
      match get request (lit "messages") with
      | Some (VArray messages) =>
          match rposition is_user messages with
          | Some idx =>
              r ← append_block_to_message (messages !!! idx) block;
              Some (msg' ← r; Ok (set_key request (lit "messages") (VArray (<[idx := msg']> messages))))
          | None =>
              if bool_decide (messages = []) then Some (Ok request)
              else Some (Ok (set_key request (lit "messages")
                (VArray (messages ++ [VObject [kv "role" (vstr "system"); kv "content" (VString block)]]))))
          end
      | _ => Some (Err (lit "augment injection: request has no messages array"))
      end
  | _ => Some (Err (lit "augment injection: request body is not a JSON object"))
  end.

(** ** The call *)

(** An answer of the augment backend: its status line, success and body. *)
Record AugmentAnswer := mkAnswer {
  answer_ok : bool;
  answer_status : str;
  answer_body : str;
}.

Definition load_backend_prompt (view : str → FileView) (b : AugmentBackend) (store : Store) : str * Store :=
  let '(entry, store) := shared (aug_prompt_file b) store in
  let '(outcome, entry') := refresh (view (aug_prompt_file b)) entry in
  let store := <[aug_prompt_file b := entry']> store in
  (match outcome with
   | Reloaded t _ => t
   | Empty => []
   | Unchanged => text entry'
   | Failed _ => []
   end, store).

Definition augment_request (b : AugmentBackend) (prompt user_content : str) : Value :=
  VObject [kv "model" (VString (aug_model b));
           kv "messages" (VArray [VObject [kv "role" (vstr "user");
             kv "content" (VString (prompt ++ blank_line ++ user_content))]]);
           kv "stream" (VBool false)].

Definition get_augmentation `{Serde} (view : str → FileView) (post : str → Value → result str AugmentAnswer)
    (not_json : str → str) (b : AugmentBackend) (user_content : str) (store : Store) : result str str * Store :=
  let '(prompt, store) := load_backend_prompt view b store in
  (answer ← post (aug_url b ++ lit "/v1/chat/completions") (augment_request b prompt user_content);
   if negb (answer_ok answer) then
     Err (lit "Augment backend returned " ++ answer_status answer ++ lit ": " ++ clip_error_body (answer_body answer))
   else
     match from_str (answer_body answer) with
     | Some v => extract_response_text v
     | None => Err (not_json (answer_body answer))
     end, store).

(** * Facts *)
Lemma rposition_Some {A} (f : A → bool) l i :
  rposition f l = Some i →
  ∃ x, l !! i = Some x ∧ f x = true ∧ ∀ j y, i < j → l !! j = Some y → f y = false.
Proof.
  revert i. induction l as [|x l IH]; intros i; simpl; [done|].
  destruct (rposition f l) as [i'|] eqn:E.
  - intros [= <-]. destruct (IH i' eq_refl) as (y & Hy & Hf & Hlast). exists y. split; [done|]. split; [done|].
    intros [|j] z Hj; [lia|]. simpl. apply Hlast. lia.
  - destruct (f x) eqn:Hx; [|done]. intros [= <-]. exists x. split; [done|]. split; [done|].
    intros [|j] z Hj; [lia|]. simpl. clear IH Hj Hx. revert E j. induction l as [|w l IHl]; [done|]. simpl.
    destruct (rposition f l) eqn:E'; [done|]. destruct (f w) eqn:Hw; [done|]. intros _ [|j]; simpl.
    + by intros [= <-].
    + by apply IHl.
Qed.

(** The text a model reads in a message: its text parts, one after another. *)
Definition message_text (msg : Value) : str := concat (content_texts msg).

Lemma block_text_silent p : has_type p "text" = false → block_text p = None.
Proof. unfold block_text. by intros ->. Qed.

Lemma omap_block_text_silent l :
  (∀ j y, l !! j = Some y → has_type y "text" = false) → omap block_text l = [].
Proof.
  induction l as [|y l IH]; [done|]. intros Hl. simpl.
  rewrite (block_text_silent y) by by apply (Hl 0). apply IH. intros j. by apply (Hl (S j)).
Qed.

Lemma block_text_text_block t : block_text (text_block t) = Some t.
Proof. done. Qed.

Lemma text_before_silence l q r t :
  block_text q = Some t → omap block_text r = [] →
  concat (omap block_text (l ++ q :: r)) = concat (omap block_text l) ++ t.
Proof.
  intros Hq Hr. rewrite omap_app, concat_app. f_equal.
  change (omap block_text (q :: r)) with (match block_text q with
    Some y => y :: omap block_text r | None => omap block_text r end).
  rewrite Hq, Hr. apply app_nil_r.
Qed.

Lemma append_to_parts_text parts block :
  concat (omap block_text (append_to_parts parts block)) = concat (omap block_text parts) ++ block.
Proof.
  unfold append_to_parts. destruct (rposition _ parts) as [i|] eqn:E; cbn [mbind option_bind].
  2: { rewrite omap_app, concat_app. simpl. by rewrite app_nil_r. }
  destruct (rposition_Some _ _ _ E) as (p & Hp & Ht & Hlast). rewrite Hp. cbn [mbind option_bind].
  assert (concat (omap block_text (parts ++ [text_block block])) = concat (omap block_text parts) ++ block) as Hend
    by (rewrite omap_app, concat_app; simpl; by rewrite app_nil_r).
  destruct (get p (lit "text")) as [[| | |t| |]|] eqn:Et; [exact Hend..| |exact Hend|exact Hend|exact Hend].
  assert (block_text p = Some t) as Hbt by (unfold block_text; by rewrite Ht, Et).
  assert (block_text (set_key p (lit "text") (VString (t ++ block))) = Some (t ++ block)) as Hbs.
  { unfold block_text, has_type in *. rewrite !get_set_key, decide_False, decide_True by done.
    by rewrite Ht, Et. }
  assert (omap block_text (drop (S i) parts) = []) as Hrest.
  { apply omap_block_text_silent. intros j y. rewrite lookup_drop. intros Hy. eapply Hlast; [|done]. lia. }
  rewrite insert_take_drop by by eapply lookup_lt_Some.
  rewrite (text_before_silence _ _ _ _ Hbs Hrest), app_assoc. f_equal.
  rewrite <- (text_before_silence _ _ _ _ Hbt Hrest). by rewrite take_drop_middle.
Qed.

Lemma append_block_appends `{Serde} msg block msg' :
  append_block_to_message msg block = Some (Ok msg') →
  message_text msg' = message_text msg ++ block ∧
  ∀ k, k ≠ lit "content" → get msg' k = get msg k.
Proof.
  unfold append_block_to_message, message_text, content_texts.
  assert (∀ v w, get msg (lit "content") = Some v → get (set_key msg (lit "content") w) (lit "content") = Some w)
    as Hset by (intros v w Hv; by rewrite get_set_key, decide_True, Hv).
  assert (∀ w k, k ≠ lit "content" → get (set_key msg (lit "content") w) k = get msg k) as Hne
    by (intros w k Hk; by rewrite get_set_key, decide_False).
  assert (∀ m', index_set msg (lit "content") (VString block) = Some m' →
    get m' (lit "content") = Some (VString block) ∧ ∀ k, k ≠ lit "content" → get m' k = get msg k) as Hidx.
  { intros m'. destruct msg as [| | | | |o]; try done; intros [= <-]; simpl.
    - split; [done|]. intros k Hk. by rewrite decide_False.
    - rewrite map_get_insert, decide_True by done. split; [done|]. intros k Hk.
      by rewrite map_get_insert, decide_False. }
  destruct (get msg (lit "content")) as [[| | |s|parts|]|] eqn:E; try done.
  1, 4: intros Hi; destruct (index_set _ _ _) as [m'|]; [|done]; injection Hi as <-;
    destruct (Hidx m' eq_refl) as [-> ?]; simpl; by rewrite app_nil_r.
  - intros [= <-]. rewrite (Hset _ _ eq_refl). split; [by rewrite !concat_cons, !app_nil_r|]. intros. by apply Hne.
  - intros [= <-]. rewrite (Hset _ _ eq_refl), append_to_parts_text. split; [done|]. intros. by apply Hne.
Qed.

(** Where the block goes, and that nothing else of the request moves. *)
Definition injected (request r : Value) (block : str) : Prop :=
  ∃ ms ms', get request (lit "messages") = Some (VArray ms) ∧ get r (lit "messages") = Some (VArray ms') ∧
    match rposition is_user ms with
    | Some i => ∃ m m', ms !! i = Some m ∧ ms' = <[i := m']> ms ∧
        message_text m' = message_text m ++ block ∧ ∀ k, k ≠ lit "content" → get m' k = get m k
    | None => ms' = (if decide (ms = []) then [] else
        ms ++ [VObject [kv "role" (vstr "system"); kv "content" (VString block)]])
    end.

Definition normalized_stop (request : Value) : option Value :=
  match get request (lit "stop") with Some (VString s) => Some (VArray [VString s]) | x => x end.

(** An injection never panics and, where it succeeds, the last user message
    says what it said followed by the block, or a system message with the block
    is added where no user speaks; a string stop becomes a list and every other
    field, every other message and every other field of the message stays. *)
Theorem inject_appends `{Serde} request request_prompt augmentation :
  ∃ o, inject_augmentation_value request request_prompt augmentation = Some o ∧
    match o with
    | Ok r => injected request r (block_of request_prompt augmentation) ∧
        get r (lit "stop") = normalized_stop request ∧
        ∀ k, k ≠ lit "messages" → k ≠ lit "stop" → get r k = get request k
    | Err _ => True
    end.
Proof.
  unfold inject_augmentation_value. destruct request as [| | | | |body]; try by eexists.
  set (req := match get (VObject body) (lit "stop") with Some (VString s) => _ | _ => VObject body end).
  assert (get req (lit "stop") = normalized_stop (VObject body) ∧
    ∀ k, k ≠ lit "stop" → get req k = get (VObject body) k) as [Hstop Hreq].
  { unfold req, normalized_stop. destruct (get (VObject body) (lit "stop")) as [[]|] eqn:E; try done.
    split; [|intros k Hk]; simpl; rewrite map_get_insert; by case_decide. }
  cbv zeta. set (block := block_of request_prompt augmentation).
  destruct (get req (lit "messages")) as [[| | | |ms|]|] eqn:Em; try by eexists.
  pose proof Em as Em'. rewrite Hreq in Em' by done.
  assert (∀ x, get (set_key req (lit "messages") x) (lit "messages") = Some x ∧
    get (set_key req (lit "messages") x) (lit "stop") = normalized_stop (VObject body) ∧
    ∀ k, k ≠ lit "messages" → k ≠ lit "stop" → get (set_key req (lit "messages") x) k = get (VObject body) k) as Hset.
  { intros x. split; [by rewrite get_set_key, decide_True, Em|].
    split; [by rewrite get_set_key, decide_False|]. intros k Hk Hk'. rewrite get_set_key, decide_False by done. by apply Hreq. }
  destruct (rposition is_user ms) as [i|] eqn:Ei.
  - destruct (rposition_Some _ _ _ Ei) as (m & Hm & Hu & _). rewrite (list_lookup_total_correct _ _ _ Hm).
    assert (∃ r, append_block_to_message m block = Some r) as [r Hr].
    { unfold append_block_to_message. unfold is_user in Hu. destruct m; try done.
      repeat case_match; eauto; simpl; eauto. }
    rewrite Hr. simpl. eexists. split; [reflexivity|]. destruct r as [m'|]; [|done]. simpl.
    destruct (append_block_appends _ _ _ Hr) as [Ht Hk]. destruct (Hset (VArray (<[i:=m']> ms))) as (Hmsg & Hs & Ho).
    split; [|done]. exists ms, (<[i:=m']> ms). split; [done|]. split; [done|]. rewrite Ei. eauto 10.
  - case_bool_decide as Hnil; eexists; (split; [reflexivity|]).
    + split; [|split; [done|intros; by apply Hreq]]. exists ms, ms. rewrite Ei, decide_True by done. by subst.
    + destruct (Hset (VArray (ms ++ [VObject [kv "role" (vstr "system"); kv "content" (VString block)]])))
        as (Hmsg & Hs & Ho).
      split; [|done]. eexists _, _. split; [done|]. split; [exact Hmsg|]. by rewrite Ei, decide_False.
Qed.

(** Whoever else reads the prompt file, the augmenter sends its current text. *)
Theorem load_backend_prompt_current content view b store t :
  content_by_mtime content (view (aug_prompt_file b)) → stat (view (aug_prompt_file b)) = Ok (Some t) →
  coherent content (shared (aug_prompt_file b) store).1 →
  (load_backend_prompt view b store).1 = content t ∧
  coherent content (shared (aug_prompt_file b) (load_backend_prompt view b store).2).1.
Proof.
  intros Hv Ht Hc. unfold load_backend_prompt.
  destruct (shared (aug_prompt_file b) store) as [c st]. simpl in Hc.
  destruct (refresh_current content _ c t Hv Ht Hc) as (Htx & Hm & Hcase).
  destruct (refresh _ c) as [o c']. simpl in *.
  split; [by destruct Hcase as [[-> _]| ->]|].
  unfold shared. rewrite lookup_insert_eq. simpl. unfold coherent. by rewrite Hm.
Qed.
