(* ===== verification/Rewrite.v ===== *)
(** * Rewriting a request for its backend (llama-proxy/src/proxy/handler.rs)

    What of a client's request reaches the backend: the headers, and the body
    with the stream flags, the model and the temperature the node asks for. *)
From S2P Require Import Prelude Node Json Http.

(** ** Headers *)
Definition forwards_to_backend (name : str) : bool :=
  negb (bool_decide (name = lit "host")) && negb (bool_decide (name = lit "content-length"))
  && negb (bool_decide (name = lit "authorization")) && negb (bool_decide (name = lit "accept-encoding")).

(** The headers of a forwarded completion request. *)
Definition backend_headers (node : BackendNode) (hs : HeaderMap) : HeaderMap :=
  with_auth (filter (λ f, forwards_to_backend f.1 = true) hs) (api_key node).

Definition backend_url (node : BackendNode) (path : str) (query : option str) : str :=
  base_url node ++ effective_path node path ++
  match query with Some q => lit "?" ++ q | None => [] end.

(** ** The body *)
Definition completion_shaped_path (path : str) : bool :=
  starts_with path (lit "/completions") || contains_sub path (lit "/chat/completions")
  || contains_sub path (lit "/v1/messages").

Definition looks_like_completion_request (body : Value) (routed_path : str) : bool :=
  completion_shaped_path routed_path ||
  match get body (lit "messages") ≫= as_array with
  | Some msgs => negb (bool_decide (msgs = []))
  | None => false
  end.

Definition ensure_usage_on_stream (json : Value) : Value :=
  match json with
  | VObject obj =>
      match map_get (lit "stream_options") obj with
      | None => VObject (map_insert (lit "stream_options") (VObject [kv "include_usage" (VBool true)]) obj)
      | Some (VObject opts) =>
          match map_get (lit "include_usage") opts with
          | None => VObject (map_insert (lit "stream_options")
                      (VObject (map_insert (lit "include_usage") (VBool true) opts)) obj)
          | Some _ => json
          end
      | Some _ => json
      end
  | _ => json
  end.

(** [json["stream"] = false] and the strip of [stream_options]; [None] is the
    panic of the indexed assignment. *)
Definition force_buffered (json : Value) : option Value :=
  json ← index_set json (lit "stream") (VBool false);
  Some (match json with VObject obj => VObject (map_remove (lit "stream_options") obj) | _ => json end).

Definition override_model (node : BackendNode) (json : Value) : option Value :=
  match model node with
  | Some m => index_set json (lit "model") (VString m)
  | None => Some json
  end.

Definition override_temperature (node : BackendNode) (json : Value) : option Value :=
  match temperature node with
  | Some t => index_set json (lit "temperature") (value_of_f64 t)
  | None => Some json
  end.

Definition wants_stream (json : Value) : bool :=
  default false (get json (lit "stream") ≫= as_bool).

Section Overrides.
Context `{Serde}.

(** The body to send and the stream flag the backend will see. *)
Definition apply_backend_overrides_bytes (body : str) (backend : BackendNode) (allow_stream : bool)
    (path : str) : option (str * bool) :=
  match from_str body with
  | None => Some (body, false)
  | Some json =>
      if negb (looks_like_completion_request json (effective_path backend path)) then Some (body, false)
      else
        let client_wants_stream := wants_stream json in
        let keep_stream := allow_stream && client_wants_stream in
        json ← (if keep_stream then Some (ensure_usage_on_stream json) else force_buffered json);
        json ← override_model backend json;
        json ← override_temperature backend json;
        Some (to_string json, keep_stream)
  end.
End Overrides.

(** * Facts *)

(** The backend sees its own key and nothing of the client's that is addressed
    to the proxy; every other header reaches it unchanged and in order. *)
Lemma backend_headers_spec node hs :
  (∀ v, (lit "authorization", v) ∈ backend_headers node hs ↔
        ∃ key, api_key node = Some key ∧ v = lit "Bearer " ++ key) ∧
  header_get (lit "accept-encoding") (backend_headers node hs) = None ∧
  (∀ name v, forwards_to_backend name = true → name ≠ lit "authorization" →
     (name, v) ∈ backend_headers node hs ↔ (name, v) ∈ hs).
Proof.
  assert (∀ f, f ∈ backend_headers node hs ↔
    forwards_to_backend f.1 = true ∧ f ∈ hs ∨
    ∃ key, api_key node = Some key ∧ f = (lit "authorization", lit "Bearer " ++ key)) as Hin.
  { intros f. unfold backend_headers. rewrite with_auth_spec, list_elem_of_filter. naive_solver. }
  split_and!.
  - intros v. rewrite Hin. split.
    + intros [[Hf _]|(key & Hk & [= ->])]; [discriminate Hf|eauto].
    + intros (key & Hk & ->). right. eauto.
  - destruct (header_get _ _) as [v|] eqn:E; [|done].
    apply header_get_Some, Hin in E as [[Hf _]|(key & _ & E)]; [discriminate Hf|discriminate E].
  - intros name v Hf Hn. rewrite Hin. simpl. split; [|by left].
    intros [[_ ?]|(key & _ & [= ? _])]; [done|]. by destruct Hn.
Qed.

Definition is_objectish (v : Value) : bool :=
  match v with VObject _ | VNull => true | _ => false end.

Lemma index_set_objectish v k x :
  match index_set v k x with
  | Some w => is_objectish v = true ∧ ∃ m, w = VObject m
  | None => is_objectish v = false
  end.
Proof. destruct v; simpl; eauto. Qed.

(** The fields of the rewritten body. *)
Definition rewritten_map (keep : bool) (backend : BackendNode) (m : list (str * Value)) : list (str * Value) :=
  let m :=
    if keep then match ensure_usage_on_stream (VObject m) with VObject m' => m' | _ => m end
    else map_remove (lit "stream_options") (map_insert (lit "stream") (VBool false) m) in
  let m := match model backend with Some x => map_insert (lit "model") (VString x) m | None => m end in
  match temperature backend with Some t => map_insert (lit "temperature") (value_of_f64 t) m | None => m end.

(** The usage request a kept stream carries. *)
Definition with_usage (stream_options : option Value) : option Value :=
  match stream_options with
  | None => Some (VObject [kv "include_usage" (VBool true)])
  | Some (VObject opts) =>
      Some (VObject (match map_get (lit "include_usage") opts with
                     | None => map_insert (lit "include_usage") (VBool true) opts
                     | Some _ => opts
                     end))
  | Some v => Some v
  end.

Lemma ensure_usage_get obj k :
  get (ensure_usage_on_stream (VObject obj)) k =
    if decide (k = lit "stream_options") then with_usage (map_get (lit "stream_options") obj)
    else map_get k obj.
Proof.
  simpl. destruct (map_get (lit "stream_options") obj) as [v|] eqn:E.
  - destruct v as [| | | | |opts]; try (case_decide; subst; simpl; by rewrite ?E).
    destruct (map_get (lit "include_usage") opts) as [w|] eqn:Eu; simpl; rewrite ?map_get_insert;
      repeat case_decide; subst; try done; rewrite ?E, ?Eu; done.
  - simpl. rewrite map_get_insert. repeat case_decide; subst; done.
Qed.

Lemma ensure_usage_object obj : ∃ m, ensure_usage_on_stream (VObject obj) = VObject m.
Proof. simpl. repeat case_match; eauto. Qed.

Lemma rewritten_map_get keep backend m k :
  NoDup m.*1 →
  map_get k (rewritten_map keep backend m) =
    match temperature backend, decide (lit "temperature" = k) with
    | Some t, left _ => Some (value_of_f64 t)
    | _, _ =>
        match model backend, decide (lit "model" = k) with
        | Some x, left _ => Some (VString x)
        | _, _ =>
            if decide (k = lit "stream_options") then
              if keep then with_usage (map_get (lit "stream_options") m) else None
            else if decide (k = lit "stream") then
              if keep then map_get (lit "stream") m else Some (VBool false)
            else map_get k m
        end
    end.
Proof.
  intros Hnd. unfold rewritten_map. cbv zeta.
  assert (map_get k (if keep then match ensure_usage_on_stream (VObject m) with VObject m' => m' | _ => m end
     else map_remove (lit "stream_options") (map_insert (lit "stream") (VBool false) m)) =
    if decide (k = lit "stream_options") then
      if keep then with_usage (map_get (lit "stream_options") m) else None
    else if decide (k = lit "stream") then if keep then map_get (lit "stream") m else Some (VBool false)
    else map_get k m) as Hbase.
  { destruct keep.
    - pose proof (ensure_usage_get m k) as Hg. destruct (ensure_usage_object m) as [m' E].
      rewrite E in *. simpl in Hg. rewrite Hg. repeat case_decide; by subst.
    - rewrite map_get_remove, map_get_insert by by apply map_insert_NoDup.
      repeat case_decide; subst; done. }
  rewrite <- Hbase.
  destruct (temperature backend), (model backend); rewrite ?map_get_insert; repeat case_decide; done.
Qed.

Section OverrideFacts.
Context `{Serde}.

Lemma overrides_object m body backend allow_stream path :
  from_str body = Some (VObject m) →
  looks_like_completion_request (VObject m) (effective_path backend path) = true →
  apply_backend_overrides_bytes body backend allow_stream path =
    Some (to_string (VObject (rewritten_map (allow_stream && wants_stream (VObject m)) backend m)),
          allow_stream && wants_stream (VObject m)).
Proof.
  intros Hp Hl. unfold apply_backend_overrides_bytes, rewritten_map, override_model, override_temperature.
  rewrite Hp, Hl. cbn [negb]. destruct (allow_stream && wants_stream (VObject m)).
  - destruct (ensure_usage_object m) as [m' E]. rewrite E. cbn [mbind option_bind].
    by destruct (model backend), (temperature backend).
  - cbn [force_buffered index_set mbind option_bind]. by destruct (model backend), (temperature backend).
Qed.

(** C15: What the backend of a completion request sees, for a JSON object of
    distinct keys.  The stream flag reported is the one in the body: a kept
    stream asks for its usage unless the client decided that itself, any other
    request is not streamed and carries no stream options; the node's model and
    temperature replace the client's; nothing else changes. *)
Theorem backend_sees m body backend allow_stream path :
  NoDup m.*1 → from_str body = Some (VObject m) →
  looks_like_completion_request (VObject m) (effective_path backend path) = true →
  let keep := allow_stream && wants_stream (VObject m) in
  ∃ sent, apply_backend_overrides_bytes body backend allow_stream path
          = Some (to_string (VObject sent), keep) ∧
    wants_stream (VObject sent) = keep ∧
    map_get (lit "stream_options") sent =
      (if keep then with_usage (map_get (lit "stream_options") m) else None) ∧
    map_get (lit "model") sent =
      match model backend with Some x => Some (VString x) | None => map_get (lit "model") m end ∧
    map_get (lit "temperature") sent =
      match temperature backend with Some t => Some (value_of_f64 t) | None => map_get (lit "temperature") m end ∧
    ∀ k, k ∉ (lit <$> ["stream"; "stream_options"; "model"; "temperature"]%string) →
      map_get k sent = map_get k m.
Proof.
  intros Hnd Hp Hl keep. exists (rewritten_map keep backend m).
  split; [by apply overrides_object|].
  unfold wants_stream at 1. cbn [get]. rewrite !rewritten_map_get by done. split_and!.
  - destruct keep eqn:Ek; [|by destruct (temperature backend), (model backend)].
    apply andb_prop in Ek as [_ Ek]. unfold wants_stream in Ek. cbn [get] in Ek.
    by destruct (temperature backend), (model backend).
  - by destruct (temperature backend), (model backend).
  - by destruct (temperature backend), (model backend).
  - by destruct (temperature backend), (model backend).
  - intros k Hk. rewrite rewritten_map_get by done. set_unfold in Hk.
    destruct (temperature backend), (model backend); repeat case_decide; naive_solver.
Qed.

(** A body the proxy does not own leaves as it came. *)
Lemma overrides_verbatim body backend allow_stream path :
  (∀ json, from_str body = Some json →
     looks_like_completion_request json (effective_path backend path) = false) →
  apply_backend_overrides_bytes body backend allow_stream path = Some (body, false).
Proof.
  intros Hn. unfold apply_backend_overrides_bytes. destruct (from_str body) as [json|]; [|done].
  by rewrite Hn.
Qed.

(** The rewrite panics exactly on a body that is valid JSON but neither an
    object nor null, sent to a completion-shaped path. *)
Theorem overrides_panic body backend allow_stream path :
  apply_backend_overrides_bytes body backend allow_stream path = None ↔
  completion_shaped_path (effective_path backend path) = true ∧
  ∃ json, from_str body = Some json ∧ is_objectish json = false.
Proof.
  unfold apply_backend_overrides_bytes. destruct (from_str body) as [json|]; [|split; [done|by intros (_ & ? & ? & _)]].
  assert (is_objectish json = false → wants_stream json = false ∧
    looks_like_completion_request json (effective_path backend path)
    = completion_shaped_path (effective_path backend path)) as Hn.
  { unfold looks_like_completion_request. destruct json; try done; intros _; by rewrite orb_false_r. }
  destruct (is_objectish json) eqn:Eo.
  - split; [|intros (_ & j & [= <-] & ?); congruence]. intros E. exfalso. revert E.
    destruct (negb _); [done|]. cbv zeta.
    assert (∃ m, (if allow_stream && wants_stream json then Some (ensure_usage_on_stream json)
      else force_buffered json) = Some (VObject m)) as [m ->].
    { destruct json as [| | | | |m]; try done.
      - rewrite andb_false_r. simpl. eauto.
      - destruct (allow_stream && wants_stream (VObject m)); [|simpl; eauto].
        destruct (ensure_usage_object m) as [m' ->]. eauto. }
    unfold override_model, override_temperature. by destruct (model backend), (temperature backend).
  - destruct (Hn eq_refl) as [-> ->]. rewrite andb_false_r.
    destruct (completion_shaped_path _); simpl; [|by split; [|intros [? _]]].
    split; [intros _; split; [done|by exists json]|]. intros _. by destruct json.
Qed.
End OverrideFacts.
