(* ===== verification/Anthropic.v ===== *)
(** * Anthropic messages (llama-proxy/src/api/openai.rs, proxy/synthesis.rs, proxy/handler.rs)

    The typed message a /v1/messages backend answers with, the stream
    synthesized from it, and the injection into a typed request.  Their
    codecs are in [Wire]. *)
From S2P Require Import Prelude Json Merge Synthesis Augment.

Inductive AnthropicContentBlock :=
  | BText (text : str)
  | BThinking (thinking : str) (signature : option str)
  | BToolUse (id name : str) (input : Value)
  | BToolResult (tool_use_id : str) (content : Value) (is_error : option bool)
  | BOther (raw : Value).

Record AnthropicUsage := mkUsage {
  input_tokens : Z;
  output_tokens : Z;
}.

Record AnthropicMessage := mkMessage {
  am_id : str;
  am_type : str;
  am_role : str;
  am_content : list AnthropicContentBlock;
  am_model : str;
  am_stop_reason : option str;
  am_stop_sequence : option str;
  am_usage : AnthropicUsage;
}.

Definition vint (z : Z) : Value := VNumber (NInt z).
Definition opt_str (o : option str) : Value := match o with Some s => VString s | None => VNull end.

(** ** Events *)
Definition build_message_start_event (msg : AnthropicMessage) : Value :=
  obj [kv "type" (vstr "message_start");
       kv "message" (obj [
         kv "id" (VString (am_id msg)); kv "type" (vstr "message"); kv "role" (VString (am_role msg));
         kv "model" (VString (am_model msg)); kv "content" (VArray []);
         kv "stop_reason" VNull; kv "stop_sequence" VNull;
         kv "usage" (obj [kv "input_tokens" (vint (input_tokens (am_usage msg))); kv "output_tokens" (vint 0)])])].

Definition derive_stop_reason (msg : AnthropicMessage) : str :=
  if existsb (λ b, match b with BToolUse _ _ _ => true | _ => false end) (am_content msg)
  then lit "tool_use" else lit "end_turn".

Definition build_message_delta_event (msg : AnthropicMessage) : Value :=
  let stop_reason := default (derive_stop_reason msg) (am_stop_reason msg) in
  obj [kv "type" (vstr "message_delta");
       kv "delta" (obj [kv "stop_reason" (VString stop_reason); kv "stop_sequence" (opt_str (am_stop_sequence msg))]);
       kv "usage" (obj [kv "output_tokens" (vint (output_tokens (am_usage msg)))])].

Section Synthesize.
Context `{Serde}.

(** The frames of one content block. *)
Definition content_frames (idx : nat) (block : AnthropicContentBlock) (chunk_size : nat) : list SseFrame :=
  match block with
  | BText text =>
      block_frames idx (build_content_block_start_event idx "text")
        (build_content_block_delta_event idx "text_delta" <$> split_chars text chunk_size)
  | BThinking thinking signature =>
      block_frames idx (build_thinking_block_start_event idx signature)
        ((build_thinking_block_delta_event idx <$> split_chars thinking chunk_size)
         ++ opt_chunk signature (build_signature_delta_event idx))
  | BToolUse id name input =>
      block_frames idx (build_tool_use_block_start_event idx id name)
        [build_tool_use_block_delta_event idx (to_string input)]
  | BToolResult tool_use_id content is_error =>
      block_frames idx
        (block_start idx (VObject (opt_insert (lit "is_error") (VBool <$> is_error)
           [kv "type" (vstr "tool_result"); kv "tool_use_id" (VString tool_use_id); kv "content" content])))
        []
  | BOther value => block_frames idx (block_start idx value) []
  end.

Fixpoint all_content_frames (idx : nat) (blocks : list AnthropicContentBlock) (chunk_size : nat)
    : list (list SseFrame) :=
  match blocks with
  | [] => []
  | b :: blocks' => content_frames idx b chunk_size :: all_content_frames (S idx) blocks' chunk_size
  end.

Definition synthesize_anthropic_chunks (msg : AnthropicMessage) (chunk_size : nat) : list SseFrame :=
  frame "message_start" (build_message_start_event msg)
  :: concat (all_content_frames 0 (am_content msg) chunk_size)
  ++ [frame "message_delta" (build_message_delta_event msg);
      frame "message_stop" build_message_stop_event].
End Synthesize.

(** ** Injection into a typed request *)
Record AnthropicMessageContent := mkTurn {
  turn_role : str;
  turn_content : list AnthropicContentBlock;
}.

(** [R] is every other field of the request. *)
Record AnthropicMessageRequest (R : Type) := mkAnthropicRequest {
  ar_messages : list AnthropicMessageContent;
  ar_rest : R;
}.
Arguments mkAnthropicRequest {R} ar_messages ar_rest.
Arguments ar_messages {R} _.
Arguments ar_rest {R} _.

Definition inject_into_anthropic {R} (request : AnthropicMessageRequest R) (request_prompt augmentation : str)
    : AnthropicMessageRequest R :=
  if bool_decide (augmentation = []) then request
  else
    let suffix := block_of request_prompt augmentation in
    let ms := ar_messages request in
    match rposition (λ m, bool_decide (turn_role m = lit "user")) ms with
    | Some idx =>
        mkAnthropicRequest
          (alter (λ m, mkTurn (turn_role m) (turn_content m ++ [BText suffix])) idx ms) (ar_rest request)
    | None =>
        match ms with
        | m :: ms' =>
            mkAnthropicRequest (mkTurn (turn_role m) (BText suffix :: turn_content m) :: ms') (ar_rest request)
        | [] => request
        end
    end.

(** ** What a block merges back to *)
Section Merged.
Context `{Serde}.

Definition merged_block (block : AnthropicContentBlock) : Value :=
  match block with
  | BText text => obj [kv "type" (vstr "text"); kv "text" (VString text)]
  | BThinking thinking signature =>
      VObject (opt_insert (lit "signature") (VString <$> signature)
        [kv "type" (vstr "thinking"); kv "thinking" (VString thinking)])
  | BToolUse id name input =>
      obj [kv "type" (vstr "tool_use"); kv "id" (VString id); kv "name" (VString name);
           kv "input" (VString (to_string input))]
  | BToolResult tool_use_id content is_error =>
      VObject (opt_insert (lit "is_error") (VBool <$> is_error)
        [kv "type" (vstr "tool_result"); kv "tool_use_id" (VString tool_use_id); kv "content" content])
  | BOther value => value
  end.

(** The message while its blocks arrive, and when it is complete. *)
Definition merged_message (msg : AnthropicMessage) (stop : Value) (out : Z) (content : list Value) : Value :=
  obj [kv "id" (VString (am_id msg)); kv "type" (vstr "message"); kv "role" (VString (am_role msg));
       kv "model" (VString (am_model msg)); kv "content" (VArray content);
       kv "stop_reason" stop; kv "stop_sequence" VNull;
       kv "usage" (obj [kv "input_tokens" (vint (input_tokens (am_usage msg))); kv "output_tokens" (vint out)])].
End Merged.

(** The frames as the observer of the stream reads them back. *)
Definition as_events (fs : list SseFrame) : list SseEvent :=
  (λ f, mkEvent (Some (f_event f)) (f_data f)) <$> fs.

(** * Facts *)
Lemma merge_anthropic_go_app m es es' :
  merge_anthropic_go m (es ++ es') = m' ← merge_anthropic_go m es; merge_anthropic_go m' es'.
Proof. revert m. induction es as [|e es IH]; intros m; [done|]. simpl. destruct (merge_anthropic_event m e); [apply IH|done]. Qed.

Lemma merge_frame m e d fs :
  merge_anthropic_go m (as_events (frame e d :: fs)) =
    m' ← merge_anthropic_event m (mkEvent (Some (lit e)) d); merge_anthropic_go m' (as_events fs).
Proof. reflexivity. Qed.

Lemma merge_frames_app m fs fs' :
  merge_anthropic_go m (as_events (fs ++ fs')) =
    m' ← merge_anthropic_go m (as_events fs); merge_anthropic_go m' (as_events fs').
Proof. unfold as_events. by rewrite fmap_app, merge_anthropic_go_app. Qed.

Lemma grow_length (arr : list Value) : grow arr (length arr) = arr ++ [VNull].
Proof. unfold grow. by replace (S (length arr) - length arr) with 1 by lia. Qed.

Lemma grow_snoc (arr : list Value) x : grow (arr ++ [x]) (length arr) = arr ++ [x].
Proof. unfold grow. rewrite length_app. simpl. replace (S (length arr) - (length arr + 1)) with 0 by lia. apply app_nil_r. Qed.

Section MergeFacts.
Context `{Serde}.
(** A message whose blocks are arriving. *)
Context (shell : list Value → Value).
Context (shell_ok : ∀ c, get (shell c) (lit "content") = Some (VArray c) ∧
  ∀ c', set_key (shell c) (lit "content") (VArray c') = shell c').
#[local] Set Default Proof Using "Type*".

Lemma with_content_shell content f : with_content (shell content) f = shell (f content).
Proof. unfold with_content. destruct (shell_ok content) as [-> Hs]. apply Hs. Qed.

Lemma event_index_vnat (i : nat) (v : Value) :
  i ≤ 100 → get v (lit "index") = Some (vnat i) →
  event_index v = Z.of_nat i ∧ (MAX_TRACKED_BLOCK_INDEX <? event_index v)%Z = false.
Proof.
  intros Hi Hv. unfold event_index. rewrite Hv. cbn [mbind option_bind vnat as_u64].
  assert ((0 <=? Z.of_nat i)%Z = true ∧ (Z.of_nat i <? 2 ^ 64)%Z = true) as [-> ->] by lia.
  split; [done|]. apply Z.ltb_ge. unfold MAX_TRACKED_BLOCK_INDEX. simpl. lia.
Qed.

Lemma merge_block_start content block :
  length content ≤ 100 →
  merge_anthropic_event (shell content)
    (mkEvent (Some (lit "content_block_start")) (block_start (length content) block))
  = Some (shell (content ++ [block])).
Proof.
  intros Hl. unfold merge_anthropic_event.
  change (anthropic_event_type _) with (lit "content_block_start").
  rewrite bool_decide_eq_false_2, bool_decide_eq_true_2 by done. cbn [data].
  destruct (event_index_vnat (length content) (block_start (length content) block) Hl eq_refl) as [-> Hm].
  rewrite Hm. change (get (block_start (length content) block) (lit "content_block")) with (Some block).
  cbv beta iota. rewrite with_content_shell, Nat2Z.id, grow_length. f_equal. f_equal.
  by rewrite insert_app_r_alt, Nat.sub_diag by done.
Qed.

(** A delta on the block opened last. *)
Definition delta_on (delta block : Value) : Value :=
  match block with
  | VObject o =>
      VObject (append_field delta (lit "partial_json") (lit "input")
                 (append_field delta (lit "thinking") (lit "thinking")
                    (append_field delta (lit "text") (lit "text") o)))
  | _ => block
  end.

Lemma merge_block_delta content o delta :
  length content ≤ 100 →
  merge_anthropic_event (shell (content ++ [VObject o]))
    (mkEvent (Some (lit "content_block_delta")) (block_delta (length content) delta))
  = Some (shell (content ++ [delta_on delta (VObject o)])).
Proof.
  intros Hl. unfold merge_anthropic_event.
  change (anthropic_event_type _) with (lit "content_block_delta").
  rewrite !(bool_decide_eq_false_2 (_ = _)), bool_decide_eq_true_2 by done. cbn [data].
  destruct (event_index_vnat (length content) (block_delta (length content) delta) Hl eq_refl) as [-> Hm].
  rewrite Hm. change (get (block_delta (length content) delta) (lit "delta")) with (Some delta).
  cbv beta iota. rewrite with_content_shell, Nat2Z.id. unfold apply_block_delta. cbv zeta. rewrite grow_snoc.
  rewrite lookup_app_r, Nat.sub_diag by done. cbn [lookup list_lookup is_null]. f_equal. f_equal.
  by rewrite insert_app_r_alt, Nat.sub_diag by done.
Qed.
(** A delta sent in a frame of block [i]. *)
Definition delta_of (i : nat) (v d : Value) : Prop := v = block_delta i d.

Lemma merge_block_deltas content o vs ds :
  length content ≤ 100 → Forall2 (delta_of (length content)) vs ds →
  ∃ o', foldl (λ b d, delta_on d b) (VObject o) ds = VObject o' ∧
    merge_anthropic_go (shell (content ++ [VObject o]))
      (as_events (frame "content_block_delta" <$> vs))
    = Some (shell (content ++ [VObject o'])).
Proof.
  intros Hl Hvs. revert o. induction Hvs as [|v d vs ds -> _ IH]; intros o; [by exists o|].
  destruct (IH (append_field d (lit "partial_json") (lit "input")
    (append_field d (lit "thinking") (lit "thinking") (append_field d (lit "text") (lit "text") o))))
    as (o' & Ho' & Hm).
  exists o'. split; [exact Ho'|].
  rewrite fmap_cons, merge_frame, merge_block_delta by done. exact Hm.
Qed.

Lemma merge_block_frames content o vs ds b :
  length content ≤ 100 → Forall2 (delta_of (length content)) vs ds →
  foldl (λ b d, delta_on d b) (VObject o) ds = b →
  merge_anthropic_go (shell content)
    (as_events (block_frames (length content) (block_start (length content) (VObject o)) vs))
  = Some (shell (content ++ [b])).
Proof.
  intros Hl Hvs Hb. unfold block_frames. rewrite merge_frame, merge_block_start by done. cbn [mbind option_bind].
  rewrite merge_frames_app. destruct (merge_block_deltas content o vs ds Hl Hvs) as (o' & Ho & Hm).
  rewrite Hm, <- Hb, Ho. reflexivity.
Qed.

(** A block that arrives whole. *)
Lemma merge_whole_block content block :
  length content ≤ 100 →
  merge_anthropic_go (shell content)
    (as_events (block_frames (length content) (block_start (length content) block) []))
  = Some (shell (content ++ [block])).
Proof.
  intros Hl. unfold block_frames. rewrite merge_frame, merge_block_start by done. reflexivity.
Qed.

Lemma fold_text_deltas pieces a :
  foldl (λ b d, delta_on d b) (obj [kv "type" (vstr "text"); kv "text" (VString a)])
    ((λ p, obj [kv "type" (vstr "text_delta"); kv "text" (VString p)]) <$> pieces)
  = obj [kv "type" (vstr "text"); kv "text" (VString (a ++ concat pieces))].
Proof.
  revert a. induction pieces as [|p ps IH]; intros a; [simpl; by rewrite app_nil_r|].
  rewrite fmap_cons. cbn [foldl concat]. rewrite app_assoc, <- IH. reflexivity.
Qed.

Lemma fold_thinking_deltas pieces a signature :
  foldl (λ b d, delta_on d b)
    (VObject (opt_insert (lit "signature") (VString <$> signature)
       [kv "type" (vstr "thinking"); kv "thinking" (VString a)]))
    ((λ p, obj [kv "type" (vstr "thinking_delta"); kv "thinking" (VString p)]) <$> pieces)
  = VObject (opt_insert (lit "signature") (VString <$> signature)
      [kv "type" (vstr "thinking"); kv "thinking" (VString (a ++ concat pieces))]).
Proof.
  revert a. induction pieces as [|p ps IH]; intros a; [simpl; by rewrite app_nil_r|].
  rewrite fmap_cons. cbn [foldl concat]. rewrite app_assoc, <- IH. by destruct signature.
Qed.

Lemma deltas_of_pieces i (f : str → Value) (pieces : list str) :
  Forall2 (delta_of i) ((λ p, block_delta i (f p)) <$> pieces) (f <$> pieces).
Proof. induction pieces; by constructor. Qed.

Lemma merge_content_frames content b n :
  length content ≤ 100 →
  merge_anthropic_go (shell content) (as_events (content_frames (length content) b n))
  = Some (shell (content ++ [merged_block b])).
Proof.
  intros Hl. destruct b as [text|thinking signature|id name input|uid c is_error|raw]; simpl content_frames.
  - eapply merge_block_frames; [done|apply deltas_of_pieces|].
    etrans; [apply fold_text_deltas|]. by rewrite split_chars_concat.
  - apply (merge_block_frames _ _ _
      (((λ p, obj [kv "type" (vstr "thinking_delta"); kv "thinking" (VString p)]) <$> split_chars thinking n)
       ++ opt_chunk signature (λ s, obj [kv "type" (vstr "signature_delta"); kv "signature" (VString s)]))); [done| |].
    + apply Forall2_app; [apply deltas_of_pieces|]. destruct signature; by repeat constructor.
    + rewrite foldl_app. etrans; [apply (f_equal (λ b, foldl (λ b d, delta_on d b) b _)
        (fold_thinking_deltas (split_chars thinking n) [] signature))|].
      cbv beta. rewrite split_chars_concat. by destruct signature.
  - eapply merge_block_frames; [done|constructor; [reflexivity|constructor]|]. reflexivity.
  - by apply merge_whole_block.
  - by apply merge_whole_block.
Qed.

Lemma merge_all_content_frames blocks content n :
  length content + length blocks ≤ 101 →
  merge_anthropic_go (shell content)
    (as_events (concat (all_content_frames (length content) blocks n)))
  = Some (shell (content ++ (merged_block <$> blocks))).
Proof.
  revert content. induction blocks as [|b bs IH]; intros content Hl.
  { simpl. by rewrite app_nil_r. }
  cbn [all_content_frames concat]. rewrite merge_frames_app, merge_content_frames by (simpl in Hl; lia).
  cbn [mbind option_bind]. specialize (IH (content ++ [merged_block b])).
  rewrite length_app, Nat.add_1_r in IH. rewrite IH by (simpl in *; lia).
  by rewrite <- app_assoc.
Qed.

Lemma all_content_frames_numbered i blocks n :
  numbered i (all_content_frames i blocks n) (i + length blocks).
Proof.
  revert i. induction blocks as [|b bs IH]; intros i; simpl; [rewrite Nat.add_0_r; constructor|].
  rewrite <- plus_n_Sm. destruct b as [text|thinking sig|id name input|uid c e|raw]; simpl;
    (constructor; [done| |apply IH]); rewrite ?Forall_app, ?Forall_fmap, ?Forall_true; try done.
  - by apply Forall_true.
  - split; [by apply Forall_true|]. destruct sig; by repeat constructor.
  - by repeat constructor.
Qed.
End MergeFacts.

Lemma merged_message_shell msg stop out c :
  get (merged_message msg stop out c) (lit "content") = Some (VArray c) ∧
  ∀ c', set_key (merged_message msg stop out c) (lit "content") (VArray c') = merged_message msg stop out c'.
Proof. done. Qed.

(** A message synthesized into a stream is a complete Anthropic stream, its
    blocks numbered without a gap, and a client that reassembles it gets the
    message back: every block, in order, with its whole text, thinking,
    signature, tool input or raw content; the stop reason, derived from the
    blocks where the backend left it out; and the token counts. *)
Theorem anthropic_stream_merges_back `{Serde} msg n :
  length (am_content msg) ≤ 101 →
  let fs := synthesize_anthropic_chunks msg n in
  merge_anthropic_events (as_events fs) =
    Some (merged_message msg (VString (default (derive_stop_reason msg) (am_stop_reason msg)))
            (output_tokens (am_usage msg)) (merged_block <$> am_content msg)) ∧
  ∃ bs fin, fs = frame "message_start" (build_message_start_event msg) :: concat bs
                 ++ [frame "message_delta" fin; frame "message_stop" build_message_stop_event] ∧
    numbered 0 bs (length (am_content msg)).
Proof.
  intros Hl. split.
  - unfold synthesize_anthropic_chunks, merge_anthropic_events. rewrite merge_frame.
    change (merge_anthropic_event _ _) with (Some (merged_message msg VNull 0 [])).
    cbn [mbind option_bind]. rewrite merge_frames_app.
    pose proof (merge_all_content_frames (merged_message msg VNull 0) (merged_message_shell msg VNull 0) (am_content msg) [] n
      ltac:(simpl; lia)) as Hm.
    etrans; [apply (f_equal (.≫= _) Hm)|]. reflexivity.
  - eexists _, _. split; [reflexivity|]. apply (all_content_frames_numbered 0).
Qed.

(** ** A completion converted into an Anthropic stream *)
Definition text_block (t : str) : Value := obj [kv "type" (vstr "text"); kv "text" (VString t)].
Definition thinking_block (t : str) : Value := obj [kv "type" (vstr "thinking"); kv "thinking" (VString t)].
Definition tool_use_block (id name args : str) : Value :=
  obj [kv "type" (vstr "tool_use"); kv "id" (VString id); kv "name" (VString name); kv "input" (VString args)].

Section Converted.
Context (uuid : nat → str).

(** The blocks a choice is to become, the first at [i]: its reasoning, its
    content, its tool calls; an empty text where it has none of them. *)
Definition converted_tool (i : nat) (tc : Value) : Value :=
  let function k := default [] (f ← get tc (lit "function"); get f k ≫= as_str) in
  tool_use_block (default (lit "toolu_" ++ filter (.≠ "-"%char) (uuid i)) (get tc (lit "id") ≫= as_str))
    (function (lit "name")) (function (lit "arguments")).
Definition converted_thinking (message : list (str * Value)) : list Value :=
  match map_get (lit "reasoning_text") message with Some (VString ((_ :: _) as t)) => [thinking_block t] | _ => [] end.
Definition converted_content (message : list (str * Value)) : list Value :=
  match map_get (lit "content") message with
  | None | Some VNull | Some (VString []) => []
  | Some (VString t) => [text_block t]
  | Some other => [other]
  end.
Definition converted_tools (i : nat) (message : list (str * Value)) : list Value :=
  match map_get (lit "tool_calls") message with Some (VArray ts) => imap (λ k, converted_tool (i + k)) ts | _ => [] end.
Definition converted_choice (i : nat) (message : list (str * Value)) : list Value :=
  let before := converted_thinking message ++ converted_content message in
  match before ++ converted_tools (i + length before) message with [] => [text_block []] | bs => bs end.
Fixpoint converted (i : nat) (cs : list Value) : list Value :=
  match cs with
  | [] => []
  | c :: cs' =>
      let bs := converted_choice i (default [] (get c (lit "message") ≫= as_object)) in
      bs ++ converted (i + length bs) cs'
  end.

(** The frames of block [i] bring the value [v]: what they open with, after
    everything the deltas add to it.  They are opened and closed under their
    own index. *)
Definition brings (i : nat) (fs : list SseFrame) (v : Value) : Prop :=
  ∃ start vs ds, fs = block_frames i (block_start i start) vs ∧ Forall2 (delta_of i) vs ds ∧
    foldl (λ b d, delta_on d b) start ds = v ∧ (vs = [] ∨ is_Some (as_object start)).
Inductive bring_all : nat → list (list SseFrame) → list Value → Prop :=
  | bring_nil i : bring_all i [] []
  | bring_cons i fs v bs vs : brings i fs v → bring_all (S i) bs vs → bring_all i (fs :: bs) (v :: vs).

Lemma bring_app i bs vs bs' vs' :
  bring_all i bs vs → bring_all (i + length bs) bs' vs' → bring_all i (bs ++ bs') (vs ++ vs').
Proof using.
  induction 1 as [i|i fs v bs vs Hb _ IH]; intros H; [by rewrite Nat.add_0_r in H|].
  constructor; [done|]. apply IH. simpl in H. by rewrite Nat.add_succ_r in H.
Qed.
Lemma bring_length i bs vs : bring_all i bs vs → length bs = length vs.
Proof using. induction 1; simpl; congruence. Qed.
Lemma bring_one i fs v : brings i fs v → bring_all i [fs] [v].
Proof using. intros. constructor; [done|constructor]. Qed.

Lemma brings_whole i v : brings i (block_frames i (block_start i v) []) v.
Proof using. exists v, [], []. split_and!; [done|constructor|done|by left]. Qed.

Lemma reasoning_brings message i n : bring_all i (reasoning_block message i n) (converted_thinking message).
Proof using.
  unfold reasoning_block, converted_thinking.
  destruct (map_get (lit "reasoning_text") message) as [[| | |[|c t]| |]|]; try constructor; [|constructor].
  rewrite <- (split_chars_concat (c :: t) n) at 2. eexists _, _, _. split_and!; [reflexivity|apply deltas_of_pieces| |right; by eexists].
  apply (fold_thinking_deltas _ [] None).
Qed.

Lemma content_brings message i n : bring_all i (content_block message i n) (converted_content message).
Proof using.
  unfold content_block, converted_content.
  destruct (map_get (lit "content") message) as [[| | |[|c t]| |]|]; try (by constructor); try apply bring_one, brings_whole.
  apply bring_one. rewrite <- (split_chars_concat (c :: t) n) at 2.
  eexists _, _, _. split_and!; [reflexivity|apply deltas_of_pieces| |right; by eexists]. apply (fold_text_deltas _ []).
Qed.

Lemma tools_bring ts i : bring_all i (tool_blocks uuid i ts) (imap (λ k, converted_tool (i + k)) ts).
Proof using.
  revert i. induction ts as [|tc ts IH]; intros i; [constructor|]. cbn [tool_blocks imap]. rewrite Nat.add_0_r. constructor.
  - eexists _, _, _. split_and!; [reflexivity|by constructor| |right; by eexists]. reflexivity.
  - erewrite imap_ext; [apply IH|]. intros k x _. simpl. by rewrite Nat.add_succ_r.
Qed.

Lemma choice_brings message i n : bring_all i (choice_blocks uuid i message n) (converted_choice i message).
Proof using.
  unfold choice_blocks, converted_choice. cbv zeta.
  pose proof (reasoning_brings message i n) as H1.
  pose proof (content_brings message (i + length (reasoning_block message i n)) n) as H2.
  set (b1 := reasoning_block message i n) in *. set (b2 := content_block message (i + length b1) n) in *.
  pose proof (bring_app _ _ _ _ _ H1 H2) as H12. pose proof (bring_length _ _ _ H12) as Hl. rewrite length_app in Hl.
  assert (bring_all (i + length b1 + length b2)
    (tool_blocks uuid (i + length b1 + length b2) (default [] (map_get (lit "tool_calls") message ≫= as_array)))
    (converted_tools (i + length (converted_thinking message ++ converted_content message)) message)) as H3.
  { rewrite <- Hl, Nat.add_assoc. unfold converted_tools.
    destruct (map_get (lit "tool_calls") message) as [[| | | |ts|]|]; try constructor. apply tools_bring. }
  rewrite <- Nat.add_assoc, <- length_app in H3.
  pose proof (bring_app _ _ _ _ _ H12 H3) as H. rewrite length_app, Nat.add_assoc, <- !app_assoc in H. rewrite <- app_assoc.
  revert H. generalize (b1 ++ b2 ++ tool_blocks uuid (i + length b1 + length b2)
    (default [] (map_get (lit "tool_calls") message ≫= as_array))).
  generalize (converted_thinking message ++ converted_content message ++
    converted_tools (i + length (converted_thinking message ++ converted_content message)) message).
  intros ws bs H. pose proof (bring_length _ _ _ H) as Hn. case_bool_decide as Hb.
  - rewrite Hb in Hn. destruct ws; [|done]. apply bring_one, brings_whole.
  - destruct ws; [by destruct bs|done].
Qed.

Lemma all_bring cs i n bs tool : all_blocks uuid i cs n = Some (bs, tool) → bring_all i bs (converted i cs).
Proof using.
  revert i bs tool. induction cs as [|c cs IH]; intros i bs tool E; cbn [all_blocks] in E; [simplify_eq; constructor|].
  apply bind_Some in E as (message & Hm & E). cbv zeta in E. apply bind_Some in E as ([rest tool'] & E1 & E). simplify_eq.
  cbn [converted]. rewrite Hm. change (default [] (Some message)) with message. cbv zeta. pose proof (choice_brings message i n) as H.
  apply bring_app; [exact H|]. rewrite <- (bring_length _ _ _ H). by eapply IH.
Qed.

Lemma merge_brought shell (shell_ok : ∀ c, get (shell c) (lit "content") = Some (VArray c) ∧
    ∀ c', set_key (shell c) (lit "content") (VArray c') = shell c') content bs vs :
  bring_all (length content) bs vs → length content + length bs ≤ 101 →
  merge_anthropic_go (shell content) (as_events (concat bs)) = Some (shell (content ++ vs)).
Proof using.
  remember (length content) as i eqn:Hi. intros H. revert content Hi.
  induction H as [i|i fs v bs vs (start & ds' & ds & -> & Hd & Hv & Ho) _ IH]; intros content -> Hl; [simpl; by rewrite app_nil_r|].
  cbn [concat]. rewrite merge_frames_app.
  assert (merge_anthropic_go (shell content) (as_events (block_frames (length content) (block_start (length content) start) ds'))
    = Some (shell (content ++ [v]))) as ->.
  { destruct Ho as [->|[o Ho]].
    - inversion Hd; subst. by apply merge_whole_block; [|simpl in Hl; lia].
    - destruct start; try done. eapply merge_block_frames; [done|simpl in Hl; lia|exact Hd|exact Hv]. }
  cbn [mbind option_bind].
  rewrite (IH (content ++ [v])); [by rewrite <- app_assoc|rewrite length_app; simpl; lia|simpl in *; lia].
Qed.

(** The message a stream opens with, its blocks arriving. *)
Lemma start_message_shell m c :
  get (VObject (map_insert (lit "content") (VArray c) m)) (lit "content") = Some (VArray c) ∧
  ∀ c', set_key (VObject (map_insert (lit "content") (VArray c) m)) (lit "content") (VArray c')
        = VObject (map_insert (lit "content") (VArray c') m).
Proof using.
  cbn [get]. rewrite map_get_insert, decide_True by done. split; [done|]. intros c'. cbn [set_key].
  by rewrite map_get_insert, decide_True, map_insert_twice.
Qed.

(** What the end of the stream leaves of a message. *)
Definition stopped (stop : str) (m m' : list (str * Value)) : Prop :=
  map_get (lit "stop_reason") m' = Some (VString stop) ∧
  ∀ k, k ≠ lit "stop_reason" → k ≠ lit "usage" → map_get k m' = map_get k m.
Lemma stopped_usage stop m m' u : stopped stop m m' → stopped stop m (map_insert (lit "usage") u m').
Proof using.
  intros [Hs Hk]. split; [by rewrite map_get_insert, decide_False|].
  intros k ? ?. rewrite map_get_insert, decide_False by done. by apply Hk.
Qed.
Lemma merge_stop m stop u :
  ∃ m', merge_message_delta (VObject m) (message_delta stop u) = Some (VObject m') ∧ stopped stop m m'.
Proof using.
  unfold merge_message_delta.
  change (get (message_delta stop u) (lit "usage")) with (Some u).
  change (d ← get (message_delta stop u) (lit "delta"); get d (lit "stop_reason") ≫= as_str) with (Some stop).
  cbn [index_set mbind option_bind].
  set (m1 := map_insert (lit "stop_reason") (VString stop) m).
  assert (stopped stop m m1) as H.
  { split; unfold m1; [by rewrite map_get_insert, decide_True|]. intros k Hk _. by rewrite map_get_insert, decide_False. }
  clearbody m1. cbn [get index_set]. destruct (map_get (lit "usage") m1) as [v|] eqn:Eu; [|eexists; split; [done|by apply stopped_usage]].
  destruct v; try (by exists m1). destruct (get u (lit "output_tokens")); [|by exists m1].
  cbn [set_key]. rewrite Eu. eexists. split; [done|by apply stopped_usage].
Qed.

Lemma merge_start m' m : get m (lit "content") = Some (VArray []) →
  merge_anthropic_event m' (mkEvent (Some (lit "message_start")) (obj [kv "type" (vstr "message_start"); kv "message" m])) = Some m.
Proof using.
  intros Hc. unfold merge_anthropic_event. cbv zeta. cbn [data].
  change (anthropic_event_type _) with (lit "message_start"). rewrite bool_decide_eq_true_2 by done.
  change (get (obj [kv "type" (vstr "message_start"); kv "message" m]) (lit "message")) with (Some m). cbv iota. by rewrite Hc.
Qed.

Lemma conversion_faithful now raw n parsed : parse_raw_completion now raw = Ok parsed →
  let fs := convert_openai_to_claude_sse uuid now raw n in
  let stop := stop_of (choices parsed) (any_tools (choices parsed)) in
  ∃ message bs,
    fs = frame "message_start" message :: concat bs
         ++ [frame "message_delta" (message_delta stop (claude_usage (usage parsed)));
             frame "message_stop" build_message_stop_event] ∧
    length (choices parsed) ≤ length bs ∧ bring_all 0 bs (converted 0 (choices parsed)) ∧
    (length bs ≤ 101 → get raw (lit "content") = None →
      ∃ m, merge_anthropic_events (as_events fs) = Some m ∧
        get m (lit "content") = Some (VArray (converted 0 (choices parsed))) ∧ get m (lit "stop_reason") = Some (VString stop) ∧
        get m (lit "id") = Some (VString (m_id (meta parsed))) ∧ get m (lit "model") = Some (VString (model (meta parsed)))).
Proof using.
  intros Ep. cbv zeta. destruct (converted_frames uuid now raw n parsed Ep) as (role & bs & tool & Eb & <- & Hc & ->).
  pose proof (all_bring _ _ _ _ _ Eb) as Hb. eexists _, bs. split; [reflexivity|]. split; [exact Hc|]. split; [exact Hb|].
  intros Hl Hn. unfold merge_anthropic_events. rewrite merge_frame.
  set (m0 := [(lit "id", VString (m_id (meta parsed))); (lit "type", vstr "message"); (lit "role", VString role);
     (lit "model", VString (model (meta parsed))); (lit "content", VArray []);
     (lit "stop_reason", VNull); (lit "stop_sequence", VNull); (lit "usage", claude_usage (usage parsed))]).
  assert (∀ k, get raw k = None ∨ known_field k = true → get (start_message parsed role) k = map_get k m0) as Hg.
  { intros k Hk. apply put_all_get. by apply (parsed_extras now raw parsed). }
  set (m := put_all (extras (meta parsed)) m0). change (start_message parsed role) with (VObject m) in *.
  assert (get (VObject m) (lit "content") = Some (VArray [])) as Hcont by (rewrite Hg by (by left); reflexivity).
  rewrite merge_start by done. cbn [mbind option_bind]. rewrite merge_frames_app.
  pose proof (merge_brought _ (start_message_shell m) [] bs _ Hb ltac:(simpl; lia)) as Hm. cbv beta in Hm.
  rewrite (map_insert_id _ _ _ Hcont) in Hm. rewrite Hm. cbn [mbind option_bind app]. rewrite merge_frame.
  set (m1 := map_insert _ _ m). destruct (merge_stop m1 (stop_of (choices parsed) tool) (claude_usage (usage parsed))) as (m' & Hd & Hs & Hk).
  change (merge_anthropic_event (VObject m1) _) with (merge_message_delta (VObject m1)
    (message_delta (stop_of (choices parsed) tool) (claude_usage (usage parsed)))). rewrite Hd.
  exists (VObject m'). split; [reflexivity|]. unfold m1 in Hk. cbn [get]. split; [rewrite Hk by done; by rewrite map_get_insert, decide_True|].
  split; [exact Hs|]. split; rewrite Hk, map_get_insert, decide_False by done; [apply (Hg (lit "id"))|apply (Hg (lit "model"))]; by right.
Qed.

(** C32: A response the validation accepts becomes a complete Anthropic stream,
    and one it rejects becomes nothing.  After the start come the blocks of the
    choices in order: the reasoning, the content and the tool calls, or one empty
    text; at least one per choice, numbered from zero without a gap, each opened
    and closed under its own index, and what it opens with together with its
    deltas makes up the whole text, thinking or arguments (an object or other
    content opens with itself and has no delta).  The stop reason and the stop
    end it: what the last choice finished for, or else whether a tool was called.
    A client that reassembles the frames gets exactly these blocks, the stop
    reason, and the id and model of the response, unless there are over 101
    blocks or the response has a top-level field [content] that stands in. *)
Theorem converted_stream_faithful now raw n :
  let fs := convert_openai_to_claude_sse uuid now raw n in
  match parse_raw_completion now raw with
  | Err _ => fs = []
  | Ok parsed => let stop := stop_of (choices parsed) (any_tools (choices parsed)) in ∃ message bs,
      fs = frame "message_start" message :: concat bs
           ++ [frame "message_delta" (message_delta stop (claude_usage (usage parsed)));
               frame "message_stop" build_message_stop_event] ∧
      length (choices parsed) ≤ length bs ∧ bring_all 0 bs (converted 0 (choices parsed)) ∧
      (length bs ≤ 101 → get raw (lit "content") = None →
        ∃ m, merge_anthropic_events (as_events fs) = Some m ∧
          get m (lit "content") = Some (VArray (converted 0 (choices parsed))) ∧ get m (lit "stop_reason") = Some (VString stop) ∧
          get m (lit "id") = Some (VString (m_id (meta parsed))) ∧ get m (lit "model") = Some (VString (model (meta parsed))))
  end.
Proof using.
  cbv zeta. destruct (parse_raw_completion now raw) as [parsed|e] eqn:Ep; [by apply conversion_faithful|].
  unfold convert_openai_to_claude_sse. by rewrite Ep.
Qed.
End Converted.

(** An injection into a typed request: the last user turn ends with the block,
    or the first turn starts with it where no user speaks; nothing else moves. *)
Theorem inject_into_anthropic_spec {R} (request : AnthropicMessageRequest R) p a :
  a ≠ [] →
  let ms := ar_messages request in
  let ms' := ar_messages (inject_into_anthropic request p a) in
  ar_rest (inject_into_anthropic request p a) = ar_rest request ∧
  turn_role <$> ms' = turn_role <$> ms ∧
  ∃ i, (∀ j, j ≠ i → ms' !! j = ms !! j) ∧
    match ms !! i with
    | Some t => ∃ t', ms' !! i = Some t' ∧
        if bool_decide (turn_role t = lit "user")
        then turn_content t' = turn_content t ++ [BText (block_of p a)] ∧
             ∀ j u, i < j → ms !! j = Some u → turn_role u ≠ lit "user"
        else turn_content t' = BText (block_of p a) :: turn_content t ∧
             i = 0 ∧ Forall (λ u, turn_role u ≠ lit "user") ms
    | None => ms = []
    end.
Proof.
  intros Ha. unfold inject_into_anthropic. rewrite bool_decide_eq_false_2 by done. cbv zeta.
  set (ms := ar_messages request). destruct (rposition _ ms) as [i|] eqn:E.
  - destruct (rposition_Some _ _ _ E) as (t & Ht & Hu & Hlast). cbn [ar_messages ar_rest].
    split; [done|]. split.
    + apply list_eq. intros j. rewrite !list_lookup_fmap. destruct (decide (j = i)) as [->|Hj].
      * by rewrite list_lookup_alter_eq, Ht.
      * by rewrite list_lookup_alter_ne.
    + exists i. split; [intros j Hj; by rewrite list_lookup_alter_ne|]. rewrite Ht.
      eexists. split; [by rewrite list_lookup_alter_eq, Ht|]. rewrite Hu. split; [done|].
      intros j u Hij Hju Hr. specialize (Hlast j u Hij Hju). by apply bool_decide_eq_false in Hlast.
  - assert (Forall (λ u, turn_role u ≠ lit "user") ms) as Hn.
    { clear -E. induction ms as [|m ms IH]; [done|]. simpl in E. destruct (rposition _ ms); [done|].
      case_bool_decide; [done|]. constructor; auto. }
    destruct ms as [|m ms'] eqn:Em; [subst ms; rewrite Em; split; [done|]; split; [done|]; by exists 0|].
    cbn [ar_messages ar_rest]. split; [done|]. split; [done|]. exists 0. split; [by intros [|j] Hj|].
    simpl. eexists. split; [done|]. apply Forall_cons in Hn as Hn'. destruct Hn' as [Hr _].
    rewrite bool_decide_eq_false_2 by done. done.
Qed.
