(* ===== verification/SseText.v ===== *)
(** * A synthesized stream on the wire (llama-proxy/src/proxy/synthesis.rs, [stream_response])

    How the chunks and frames that [Synthesis] and [Anthropic] make become the
    bytes of a response body, one event after the other with a pause before
    each, and that the proxy's own reader of such a body gets them back.  The
    text of one event is axum's: [EventText], with the documented layout of the
    one-line fields the code sets as its law. *)
From S2P Require Import Prelude Utf8 Json Framing Sse Merge Synthesis Anthropic.

(** [Event::default().event(..).data(..)] as it is written. *)
Class EventText := event_text : option str → str → str.
Definition one_line (s : str) : Prop := LF ∉ s ∧ CR ∉ s.
Class EventTextLaws `{EventText} : Prop :=
  event_text_lines ev d : one_line d → (∀ e, ev = Some e → one_line e) →
    event_text ev d = match ev with Some e => lit "event: " ++ e ++ [LF] | None => [] end ++ lit "data: " ++ d ++ [LF; LF].

Section Wire.
Context `{Serde, EventText}.

Definition create_sse_event (json : Value) : str := event_text None (to_string json).
Definition create_anthropic_sse_event (f : SseFrame) : str := event_text (Some (f_event f)) (to_string (f_data f)).
Definition chunk_event (c : Chunk) : str :=
  match c with ChunkJson v => create_sse_event v | ChunkDone => event_text None (lit "[DONE]") end.

(** What a body does, step by step. *)
Inductive Paced := Sleep (ms : Z) | Emit (bytes : str).
Definition stream_response (chunks : list str) (chunk_delay_ms : Z) : list Paced :=
  chunks ≫= λ chunk, (if (0 <? chunk_delay_ms)%Z then [Sleep chunk_delay_ms] else []) ++ [Emit chunk].

Definition openai_body (cs : list Chunk) (chunk_delay_ms : Z) : list Paced := stream_response (chunk_event <$> cs) chunk_delay_ms.
Definition anthropic_body (fs : list SseFrame) (chunk_delay_ms : Z) : list Paced :=
  stream_response (create_anthropic_sse_event <$> fs) chunk_delay_ms.
Definition synthesize_anthropic_openai_format_response (uuid : nat → str) (now : Z) (raw : Value) (chunk_size : nat) (chunk_delay_ms : Z)
    : option (list Paced) :=
  match convert_openai_to_claude_sse uuid now raw chunk_size with
  | [] => None
  | frames => Some (anthropic_body frames chunk_delay_ms)
  end.

Definition emitted (p : Paced) : str := match p with Emit b => b | Sleep _ => [] end.
Definition slept (p : Paced) : Z := match p with Emit _ => 0 | Sleep ms => ms end.
Definition sent_text (ps : list Paced) : str := concat (emitted <$> ps).
Definition waited (ps : list Paced) : Z := foldr Z.add 0%Z (slept <$> ps).
End Wire.

(** * Facts *)
Lemma lines_cut a s : one_line a → lines (a ++ LF :: s) = a :: lines s.
Proof.
  intros [Hl Hc]. unfold lines. rewrite split_char_cut by done.
  assert (split_char LF s ≠ []) as Hne by (destruct s; cbn; [done|case_decide; [done|by destruct (split_char LF s)]]).
  destruct (split_char LF s) as [|p ps]; [done|]. cbn [lines_of].
  destruct (strip_suffix a [CR]) as [b|] eqn:E; [|done]. apply strip_suffix_Some in E as ->. destruct Hc. set_solver.
Qed.

Lemma one_line_app a b : one_line a → one_line b → one_line (a ++ b).
Proof. intros [? ?] [? ?]. split; rewrite not_elem_of_app; tauto. Qed.
Lemma one_line_lit s : bool_decide (one_line (lit s)) = true → one_line (lit s).
Proof. apply bool_decide_eq_true. Qed.

Lemma strip_field_own p v : strip_field (lit p ++ lit " " ++ v) (lit p) = Some v.
Proof.
  unfold strip_field. rewrite (proj2 (strip_prefix_Some _ _ (lit " " ++ v))) by done. cbn.
  by rewrite (proj2 (strip_prefix_Some _ (lit " ") v)).
Qed.

Section Read.
Context `{Serde, EventTextLaws}.
#[local] Set Default Proof Using "Type*".

Lemma event_lines ev d rest :
  one_line d → (∀ e, ev = Some e → one_line e) →
  lines (event_text ev d ++ rest) =
    match ev with Some e => [lit "event: " ++ e] | None => [] end ++ [lit "data: " ++ d; []] ++ lines rest.
Proof.
  intros Hd He. rewrite event_text_lines by done.
  assert (lines ((lit "data: " ++ d ++ [LF; LF]) ++ rest) = [lit "data: " ++ d; []] ++ lines rest) as Ed.
  { rewrite <- !app_assoc. cbn [app]. rewrite app_assoc. rewrite lines_cut by (apply one_line_app; [by apply one_line_lit|done]).
    change (LF :: rest) with ([] ++ LF :: rest). by rewrite lines_cut by (split; apply not_elem_of_nil). }
  destruct ev as [e|]; [|exact Ed]. rewrite <- (app_assoc _ _ rest), <- Ed, <- !app_assoc. cbn [app].
  rewrite app_assoc, lines_cut by (apply one_line_app; [by apply one_line_lit|by apply He]). done.
Qed.

(** A document serde_json reads back from the one line it writes it on. *)
Definition legible (v : Value) : Prop :=
  from_str (to_string v) = Some v ∧ one_line (to_string v) ∧ trim (to_string v) ≠ DONE.

Lemma parse_event ev v rest :
  legible v → (∀ e, ev = Some e → one_line e) →
  parse_sse_events (event_text ev (to_string v) ++ rest) = mkEvent ev v :: parse_sse_events rest.
Proof.
  intros (Hr & Hl & Hd) He. unfold parse_sse_events. rewrite event_lines by done.
  assert (∀ cur ls, parse_lines ((lit "data: " ++ to_string v) :: [] :: ls) cur = mkEvent cur v :: parse_lines ls None) as Hdata.
  { intros cur ls. cbn [parse_lines]. rewrite bool_decide_eq_false_2 by done.
    change (strip_field (lit "data: " ++ to_string v) (lit "event:")) with (@None str).
    change (lit "data: " ++ to_string v) with (lit "data:" ++ lit " " ++ to_string v). rewrite strip_field_own.
    rewrite bool_decide_eq_false_2 by done. by rewrite Hr. }
  destruct ev as [e|]; [|apply Hdata]. cbn [app]. cbn [parse_lines]. rewrite bool_decide_eq_false_2 by done.
  change (lit "event: " ++ e) with (lit "event:" ++ lit " " ++ e). rewrite strip_field_own. apply Hdata.
Qed.
Lemma parse_done rest : parse_sse_events (event_text None DONE ++ rest) = parse_sse_events rest.
Proof.
  unfold parse_sse_events. rewrite event_lines by (done || by apply one_line_lit). reflexivity.
Qed.
End Read.

(** ** Bodies *)
Lemma stream_response_sends chunks delay :
  sent_text (stream_response chunks delay) = concat chunks ∧
  (0 ≤ delay → waited (stream_response chunks delay) = delay * Z.of_nat (length chunks))%Z.
Proof.
  unfold stream_response, sent_text, waited.
  induction chunks as [|c cs [IH1 IH2]]; [split; cbn; [done|lia]|]. cbn [mbind list_bind]. rewrite !fmap_app, concat_app. split.
  - rewrite IH1. f_equal. destruct (0 <? delay)%Z; cbn; by rewrite app_nil_r.
  - intros Hd. specialize (IH2 Hd). rewrite foldr_app, IH2. cbn [length]. destruct (Z.ltb_spec 0 delay); cbn; lia.
Qed.

Section Bodies.
Context `{Serde, EventTextLaws}.
#[local] Set Default Proof Using "Type*".

Definition legible_chunk (c : Chunk) : Prop := match c with ChunkJson v => legible v | ChunkDone => True end.

Lemma parse_openai vs : Forall legible vs →
  parse_sse_events (concat (chunk_event <$> (ChunkJson <$> vs) ++ [ChunkDone])) = mkEvent None <$> vs.
Proof.
  induction 1 as [|v vs Hv _ IH]; [by etrans; [apply (parse_done [])|]|]. cbn [fmap list_fmap concat app chunk_event].
  unfold create_sse_event. rewrite parse_event by done. by rewrite IH.
Qed.
Lemma parse_anthropic fs : Forall (λ f, legible (f_data f) ∧ one_line (f_event f)) fs →
  parse_sse_events (concat (create_anthropic_sse_event <$> fs)) = as_events fs.
Proof.
  induction 1 as [|f fs [Hf Ho] _ IH]; [done|]. cbn [fmap list_fmap concat]. unfold create_anthropic_sse_event at 1.
  rewrite parse_event; [by rewrite IH|done|by intros e [= <-]].
Qed.

Lemma detect_openai v rest : legible v → is_Some (get v (lit "choices")) →
  detect_format (event_text None (to_string v) ++ rest) = OpenAI.
Proof.
  intros (Hr & Hl & _) [x Hx]. unfold detect_format. rewrite event_lines by done. cbn [app detect_lines].
  assert (detect_line (lit "data: " ++ to_string v) = Some OpenAI) as ->; [|done]. unfold detect_line.
  change (strip_field (lit "data: " ++ to_string v) (lit "event:")) with (@None str).
  change (lit "data: " ++ to_string v) with (lit "data:" ++ lit " " ++ to_string v). rewrite strip_field_own.
  cbn [mbind option_bind]. rewrite Hr. cbn [mbind option_bind]. by rewrite Hx.
Qed.
Lemma detect_anthropic d rest : one_line d → detect_format (event_text (Some (lit "message_start")) d ++ rest) = Anthropic.
Proof.
  intros Hd. unfold detect_format. rewrite event_lines by (done || intros e [= <-]; by apply one_line_lit). reflexivity.
Qed.
End Bodies.

(** Every frame is made under a name of the code's own. *)
Definition frame_named (f : SseFrame) : Prop := one_line (f_event f).
Lemma named_frame e v : bool_decide (one_line (lit e)) = true → frame_named (frame e v).
Proof. intros Ho. unfold frame_named. by apply one_line_lit. Qed.
Lemma named_block i start deltas : Forall frame_named (block_frames i start deltas).
Proof.
  unfold block_frames. apply Forall_cons. split; [by apply named_frame|]. apply Forall_app. split.
  - apply Forall_fmap, Forall_true. intros v. by apply named_frame.
  - apply Forall_singleton. by apply named_frame.
Qed.
Lemma named_blocks i bs j : numbered i bs j → Forall frame_named (concat bs).
Proof. induction 1 as [|i start deltas bs j _ _ _ IH]; [constructor|]. cbn [concat]. apply Forall_app. split; [apply named_block|exact IH]. Qed.

Section Streams.
Context `{Serde, EventTextLaws}.
#[local] Set Default Proof Using "Type*".

(** A completion of one choice, synthesized into a stream, paced and written
    out: the proxy's own reader of such a stream gets the texts of the message
    back, and the pauses add up to one before every event. *)
Theorem openai_body_reads_back now raw n delay parsed choice message :
  parse_raw_completion now raw = Ok parsed → choices parsed = [choice] →
  get choice (lit "message") ≫= as_object = Some message →
  (∀ ts, nonempty_tools message = Some ts → Forall (λ c, ∃ i, fragment i c) ts) →
  Forall legible_chunk (synthesize_openai_chunks parsed n) → (0 ≤ delay)%Z →
  let body := openai_body (synthesize_openai_chunks parsed n) delay in
  waited body = (delay * Z.of_nat (length (synthesize_openai_chunks parsed n)))%Z ∧
  ∃ v, parse_accumulated_sse (sent_text body) = Some (Some v) ∧ ∀ k, text_key k → response_text k v = text_at k (VObject message).
Proof.
  intros Hp Hc Hm Htools Hr Hd. cbv zeta. unfold openai_body. rewrite (proj1 (stream_response_sends _ _)).
  rewrite (proj2 (stream_response_sends _ _)), length_fmap by done. split; [done|].
  unfold synthesize_openai_chunks in *. apply Forall_app in Hr as [Hr _]. rewrite Forall_fmap in Hr.
  destruct (synthesized_carry now raw n parsed choice message Hp Hc Hm Htools) as [[F T] Hne].
  set (vs := synthesize_choices 0 parsed (choices parsed) n) in *.
  assert (detect_format (concat (chunk_event <$> (ChunkJson <$> vs) ++ [ChunkDone])) = OpenAI) as Ed.
  { destruct vs as [|v vs]; [done|]. apply Forall_cons in F as [(_ & l & Hl & _) _]. apply Forall_cons in Hr as [Hv _].
    apply (detect_openai v); [exact Hv|by exists (VArray l)]. }
  unfold parse_accumulated_sse. rewrite Ed, (parse_openai _ Hr), <- list_fmap_compose.
  change (data ∘ mkEvent None) with (@id Value). rewrite list_fmap_id.
  destruct (merge_openai_text vs Hne F) as (v & E & Tv). exists v. split; [exact E|]. intros k Hk. by rewrite Tv, T.
Qed.

(** Anthropic frames written out are merged as the frames they are. *)
Lemma anthropic_body_read d fs n m : let frames := frame "message_start" d :: fs in
  Forall (λ f, legible (f_data f)) frames → Forall frame_named fs → merge_anthropic_events (as_events frames) = Some m →
  parse_accumulated_sse (sent_text (anthropic_body frames n)) = Some (Some m).
Proof.
  intros frames Hr Hn Em. unfold anthropic_body. rewrite (proj1 (stream_response_sends _ _)).
  assert (Forall (λ f, legible (f_data f) ∧ one_line (f_event f)) frames) as Hok.
  { apply Forall_and. split; [exact Hr|]. apply Forall_cons. split; [by apply named_frame|exact Hn]. }
  assert (detect_format (concat (create_anthropic_sse_event <$> frames)) = Anthropic) as Ed.
  { apply Forall_cons in Hok as [[(_ & Ho & _) _] _]. by apply detect_anthropic. }
  unfold parse_accumulated_sse. by rewrite Ed, (parse_anthropic _ Hok), Em.
Qed.
Lemma named_end bs u : Forall frame_named (concat bs) →
  Forall frame_named (concat bs ++ [frame "message_delta" u; frame "message_stop" build_message_stop_event]).
Proof. intros Hb. apply Forall_app. split; [exact Hb|]. repeat constructor; by apply one_line_lit. Qed.

(** A completion converted, paced and written out: the reader gets the blocks of
    its choices back, and the stop reason. *)
Lemma converted_body_reads_back uuid now raw n delay parsed :
  parse_raw_completion now raw = Ok parsed → length (converted uuid 0 (choices parsed)) ≤ 101 → get raw (lit "content") = None →
  Forall (λ f, legible (f_data f)) (convert_openai_to_claude_sse uuid now raw n) →
  ∃ m, parse_accumulated_sse (sent_text (anthropic_body (convert_openai_to_claude_sse uuid now raw n) delay)) = Some (Some m) ∧
    get m (lit "content") = Some (VArray (converted uuid 0 (choices parsed))) ∧
    get m (lit "stop_reason") = Some (VString (stop_of (choices parsed) (any_tools (choices parsed)))).
Proof.
  intros Hp Hl Hc Hr. destruct (conversion_faithful uuid now raw n parsed Hp) as (d & bs & Ef & _ & Hb & Hm).
  rewrite <- (bring_length _ _ _ Hb) in Hl. destruct (Hm Hl Hc) as (m & Em & Ec & Es & _). exists m. split; [|done].
  rewrite Ef in *. apply anthropic_body_read; [exact Hr| |exact Em]. apply named_end.
  clear -Hb. induction Hb as [|i fs v bs vs (start & vs' & ds & -> & _) _ IH]; [constructor|].
  cbn [concat]. apply Forall_app. split; [apply named_block|exact IH].
Qed.

(** An Anthropic message, synthesized, paced and written out: the reader gets
    every block back, in order and whole, the stop reason and the token counts. *)
Theorem anthropic_body_reads_back msg n delay :
  length (am_content msg) ≤ 101 → (0 ≤ delay)%Z →
  Forall (λ f, legible (f_data f)) (synthesize_anthropic_chunks msg n) →
  let body := anthropic_body (synthesize_anthropic_chunks msg n) delay in
  waited body = (delay * Z.of_nat (length (synthesize_anthropic_chunks msg n)))%Z ∧
  parse_accumulated_sse (sent_text body) =
    Some (Some (merged_message msg (VString (default (derive_stop_reason msg) (am_stop_reason msg)))
            (output_tokens (am_usage msg)) (merged_block <$> am_content msg))).
Proof.
  intros Hl Hd Hr. cbv zeta. split; [unfold anthropic_body; by rewrite (proj2 (stream_response_sends _ _)), length_fmap|].
  destruct (anthropic_stream_merges_back msg n Hl) as [Em (bs & fin & Ef & Hn)]. rewrite Ef in *.
  apply anthropic_body_read; [exact Hr| |exact Em]. apply named_end. by eapply named_blocks.
Qed.
End Streams.
