(* ===== verification/Wire.v ===== *)
(** * The typed wire format (llama-proxy/src/api/openai.rs)

    The request and message types with what their derived codecs accept and
    emit: a struct is read from an object (other keys ignored) or from an array
    (in field order), an absent field takes its default.  A [flatten]ed map
    keeps the other keys, in an order of its own. *)
From S2P Require Import Prelude Json Merge Synthesis Augment Anthropic.

(** ** Derived readers *)
Inductive Source := FromMap (m : list (str * Value)) | FromSeq (l : list Value).
Definition Reader (A : Type) : Type := Source → option (A * Source).

#[global] Instance reader_ret : MRet Reader := λ A a s, Some (a, s).
#[global] Instance reader_bind : MBind Reader := λ A B f r s, '(a, s') ← r s; f a s'.

(** A field: what an object and an array that end before it give. *)
Definition field {A} (k : String.string) (in_map in_seq : option A) (dec : Value → option A) : Reader A := λ s,
  match s with
  | FromMap m => (λ a, (a, s)) <$> match map_get (lit k) m with Some v => dec v | None => in_map end
  | FromSeq (v :: l) => (λ a, (a, FromSeq l)) <$> dec v
  | FromSeq [] => (λ a, (a, s)) <$> in_seq
  end.
Arguments field {A} k%_string.

Definition nullable {A} (dec : Value → option A) (v : Value) : option (option A) :=
  match v with VNull => Some None | _ => Some <$> dec v end.
Definition required {A} (k : String.string) (dec : Value → option A) : Reader A := field k None None dec.
Definition optional {A} (k : String.string) (dec : Value → option A) : Reader (option A) :=
  field k (Some None) None (nullable dec).
Definition defaulted {A} (k : String.string) (d : A) (dec : Value → option A) : Reader A := field k (Some d) (Some d) dec.
Definition opt_default {A} (k : String.string) (dec : Value → option A) : Reader (option A) := defaulted k None (nullable dec).
Arguments required {A} k%_string.
Arguments optional {A} k%_string.
Arguments defaulted {A} k%_string.
Arguments opt_default {A} k%_string.

(** An array holds nothing after the last field. *)
Definition finished {A} (r : option (A * Source)) : option A :=
  match r with
  | Some (a, FromMap _) | Some (a, FromSeq []) => Some a
  | _ => None
  end.
Definition read_struct {A} (r : Reader A) (v : Value) : option A :=
  match v with
  | VObject m => finished (r (FromMap m))
  | VArray l => finished (r (FromSeq l))
  | _ => None
  end.

Definition any (v : Value) : option Value := Some v.
Definition unsigned (bits : Z) (v : Value) : option Z := n ← as_u64 v; if (n <? 2 ^ bits)%Z then Some n else None.
Definition vec {A} (dec : Value → option A) (v : Value) : option (list A) := as_array v ≫= mapM dec.

(** ** Derived writers *)
Definition skip_none {A} (k : String.string) (enc : A → Value) (o : option A) : list (str * Value) :=
  match o with Some a => [(lit k, enc a)] | None => [] end.
Definition or_null {A} (enc : A → Value) (o : option A) : Value := match o with Some a => enc a | None => VNull end.
Arguments skip_none {A} k%_string.

(** What the number types of third parties do: the number an [f32] is written
    back as ([None] where it is not finite), and the order of a [HashMap]. *)
Class WireDeps := {
  f32_round : Number → option Number;
  hash_order : list (str * Value) → list (str * Value);
}.
Class WireLaws `{WireDeps} : Prop := {
  f32_round_fix : ∀ n n', f32_round n = Some n' → f32_round n' = Some n';
  hash_order_perm : ∀ l, hash_order l ≡ₚ l;
}.

Section Wire.
Context `{Serde} `{WireDeps}.

(** An [f32]: [None] is an infinity. *)
Definition F32 : Type := option Number.
Definition f32 (v : Value) : option F32 := match v with VNumber n => Some (f32_round n) | _ => None end.
Definition of_f32 (x : F32) : Value := match x with Some n => VNumber n | None => VNull end.

(** * Tool calls *)
Definition deserialize_arguments (v : Value) : option str :=
  Some match v with VString s => s | VNull => lit "{}" | other => to_string other end.
Definition default_empty_args : str := lit "{}".

Record FunctionCall := mkFunctionCall { fc_name : str; fc_arguments : str }.
Definition read_function_call : Reader FunctionCall :=
  n ← required "name" as_str;
  a ← defaulted "arguments" default_empty_args deserialize_arguments;
  mret (mkFunctionCall n a).
Definition of_function_call (f : FunctionCall) : Value :=
  VObject [kv "name" (VString (fc_name f)); kv "arguments" (VString (fc_arguments f))].

Record ToolCall := mkToolCall {
  tc_id : option str; tc_type : option str; tc_index : option Z; tc_function : FunctionCall
}.
Definition read_tool_call : Reader ToolCall :=
  i ← opt_default "id" as_str;
  t ← opt_default "type" as_str;
  n ← opt_default "index" (unsigned 32);
  f ← required "function" (read_struct read_function_call);
  mret (mkToolCall i t n f).
Definition of_tool_call (t : ToolCall) : Value :=
  VObject (skip_none "id" VString (tc_id t) ++ skip_none "type" VString (tc_type t) ++ skip_none "index" vint (tc_index t)
           ++ [kv "function" (of_function_call (tc_function t))]).

(** * Messages *)
Record ImageUrl := mkImageUrl { iu_url : str; iu_detail : option str }.
Definition read_image_url : Reader ImageUrl :=
  u ← required "url" as_str; d ← opt_default "detail" as_str; mret (mkImageUrl u d).
Definition of_image_url (i : ImageUrl) : Value :=
  VObject [kv "url" (VString (iu_url i)); kv "detail" (or_null VString (iu_detail i))].

Record ContentPart := mkPart { cp_type : str; cp_text : option str; cp_image_url : option ImageUrl }.
Definition read_part : Reader ContentPart :=
  t ← required "type" as_str;
  x ← opt_default "text" as_str;
  i ← opt_default "image_url" (read_struct read_image_url);
  mret (mkPart t x i).
Definition of_part (p : ContentPart) : Value :=
  VObject [kv "type" (VString (cp_type p)); kv "text" (or_null VString (cp_text p));
           kv "image_url" (or_null of_image_url (cp_image_url p))].

Inductive MessageContent :=
  | Text (t : str)
  | Parts (ps : list ContentPart).
Definition read_content (v : Value) : option MessageContent :=
  match v with
  | VString t => Some (Text t)
  | _ => Parts <$> vec (read_struct read_part) v
  end.
Definition of_content (c : MessageContent) : Value :=
  match c with Text t => VString t | Parts ps => VArray (of_part <$> ps) end.

Record Message := mkMsg {
  m_role : str; m_content : option MessageContent; m_name : option str;
  m_tool_calls : option (list ToolCall); m_tool_call_id : option str
}.
Definition read_message : Reader Message :=
  r ← required "role" as_str;
  c ← opt_default "content" read_content;
  n ← opt_default "name" as_str;
  t ← opt_default "tool_calls" (vec (read_struct read_tool_call));
  i ← opt_default "tool_call_id" as_str;
  mret (mkMsg r c n t i).
Definition of_message (m : Message) : Value :=
  VObject ([kv "role" (VString (m_role m))] ++ skip_none "content" of_content (m_content m)
           ++ skip_none "name" VString (m_name m)
           ++ skip_none "tool_calls" (λ l, VArray (of_tool_call <$> l)) (m_tool_calls m)
           ++ skip_none "tool_call_id" VString (m_tool_call_id m)).

(** * Tools *)
Record FunctionDef := mkFunctionDef { fd_name : str; fd_description : option str; fd_parameters : Value }.
Definition read_function_def : Reader FunctionDef :=
  n ← required "name" as_str; d ← opt_default "description" as_str; p ← required "parameters" any;
  mret (mkFunctionDef n d p).
Definition of_function_def (f : FunctionDef) : Value :=
  VObject [kv "name" (VString (fd_name f)); kv "description" (or_null VString (fd_description f));
           kv "parameters" (fd_parameters f)].

Record Tool := mkTool { t_type : str; t_function : FunctionDef }.
Definition read_tool : Reader Tool :=
  t ← required "type" as_str; f ← required "function" (read_struct read_function_def); mret (mkTool t f).
Definition of_tool (t : Tool) : Value :=
  VObject [kv "type" (VString (t_type t)); kv "function" (of_function_def (t_function t))].

Record FunctionRef := mkFunctionRef { fr_name : str }.
Definition read_function_ref : Reader FunctionRef := n ← required "name" as_str; mret (mkFunctionRef n).
Definition of_function_ref (f : FunctionRef) : Value := VObject [kv "name" (VString (fr_name f))].

Record ToolChoiceObject := mkToolChoice { ch_type : str; ch_function : option FunctionRef }.
Definition read_tool_choice_object : Reader ToolChoiceObject :=
  t ← required "type" as_str; f ← optional "function" (read_struct read_function_ref); mret (mkToolChoice t f).
Definition of_tool_choice_object (c : ToolChoiceObject) : Value :=
  VObject [kv "type" (VString (ch_type c)); kv "function" (or_null of_function_ref (ch_function c))].

Inductive ToolChoice := ChoiceString (s : str) | ChoiceObject (c : ToolChoiceObject).
Definition read_tool_choice (v : Value) : option ToolChoice :=
  match v with
  | VString s => Some (ChoiceString s)
  | _ => ChoiceObject <$> read_struct read_tool_choice_object v
  end.
Definition of_tool_choice (c : ToolChoice) : Value :=
  match c with ChoiceString s => VString s | ChoiceObject c => of_tool_choice_object c end.

(** * Requests *)

(** What a [flatten]ed map takes: the keys no field has. *)
Definition leftover (known : list str) (m : list (str * Value)) : list (str * Value) := filter (λ p, p.1 ∉ known) m.

(** A struct with a [flatten]ed map is read from an object only. *)
Definition read_flat {A} (r : Reader A) (v : Value) : option A :=
  match v with VObject m => finished (r (FromMap m)) | _ => None end.
Definition flattened (known : list str) : Reader (list (str * Value)) := λ s,
  match s with FromMap m => Some (leftover known m, s) | FromSeq _ => None end.

Record ChatCompletionRequest := mkChatRequest {
  cr_model : str; cr_messages : list Message;
  cr_temperature : option F32; cr_top_p : option F32; cr_max_tokens : option Z; cr_stream : option bool;
  cr_tools : option (list Tool); cr_tool_choice : option ToolChoice; cr_stop : option (list str);
  cr_frequency_penalty : option F32; cr_presence_penalty : option F32; cr_user : option str;
  cr_reasoning_effort : option str; cr_verbosity : option str; cr_thinking_budget : option Z;
  cr_extra : list (str * Value)
}.

Definition CHAT_FIELDS : list str :=
  [lit "model"; lit "messages"; lit "temperature"; lit "top_p"; lit "max_tokens"; lit "stream"; lit "tools";
   lit "tool_choice"; lit "stop"; lit "frequency_penalty"; lit "presence_penalty"; lit "user";
   lit "reasoning_effort"; lit "verbosity"; lit "thinking_budget"].

Definition read_chat_request : Reader ChatCompletionRequest :=
  mo ← required "model" as_str;
  ms ← required "messages" (vec (read_struct read_message));
  te ← opt_default "temperature" f32;
  tp ← opt_default "top_p" f32;
  mt ← opt_default "max_tokens" (unsigned 32);
  st ← opt_default "stream" as_bool;
  tl ← opt_default "tools" (vec (read_struct read_tool));
  tc ← opt_default "tool_choice" read_tool_choice;
  sp ← opt_default "stop" (vec as_str);
  fp ← opt_default "frequency_penalty" f32;
  pp ← opt_default "presence_penalty" f32;
  us ← opt_default "user" as_str;
  re ← opt_default "reasoning_effort" as_str;
  ve ← opt_default "verbosity" as_str;
  tb ← opt_default "thinking_budget" as_u64;
  ex ← flattened CHAT_FIELDS;
  mret (mkChatRequest mo ms te tp mt st tl tc sp fp pp us re ve tb ex).

(** [serde_json::from_value::<ChatCompletionRequest>] and [serde_json::to_value]. *)
Definition chat_request (v : Value) : option ChatCompletionRequest := read_flat read_chat_request v.
Definition chat_fields (r : ChatCompletionRequest) : list (str * Value) :=
  [kv "model" (VString (cr_model r)); kv "messages" (VArray (of_message <$> cr_messages r))]
  ++ skip_none "temperature" of_f32 (cr_temperature r) ++ skip_none "top_p" of_f32 (cr_top_p r)
  ++ skip_none "max_tokens" vint (cr_max_tokens r) ++ skip_none "stream" VBool (cr_stream r)
  ++ skip_none "tools" (λ l, VArray (of_tool <$> l)) (cr_tools r)
  ++ skip_none "tool_choice" of_tool_choice (cr_tool_choice r)
  ++ skip_none "stop" (λ l, VArray (VString <$> l)) (cr_stop r)
  ++ skip_none "frequency_penalty" of_f32 (cr_frequency_penalty r)
  ++ skip_none "presence_penalty" of_f32 (cr_presence_penalty r)
  ++ skip_none "user" VString (cr_user r) ++ skip_none "reasoning_effort" VString (cr_reasoning_effort r)
  ++ skip_none "verbosity" VString (cr_verbosity r) ++ skip_none "thinking_budget" vint (cr_thinking_budget r).
Definition of_chat_request (r : ChatCompletionRequest) : Value := VObject (chat_fields r ++ hash_order (cr_extra r)).

(** ** The shim of augment.rs: through the value and back *)
Inductive InjectError :=
  | NotInjected (e : str)
  | NotTyped.
Definition inject_augmentation (request : ChatCompletionRequest) (request_prompt augmentation : str)
    : option (result InjectError ChatCompletionRequest) :=
  r ← inject_augmentation_value (of_chat_request request) request_prompt augmentation;
  Some match r with
       | Err e => Err (NotInjected e)
       | Ok v => match chat_request v with Some r => Ok r | None => Err NotTyped end
       end.

(** * Anthropic content blocks *)

(** The four tagged shapes; the tag is a key of the object or the first element. *)
Definition block_fields (tag : str) : Reader AnthropicContentBlock := λ s,
  if decide (tag = lit "text") then (t ← required "text" as_str; mret (BText t)) s
  else if decide (tag = lit "thinking") then
    (t ← required "thinking" as_str; g ← opt_default "signature" as_str; mret (BThinking t g)) s
  else if decide (tag = lit "tool_use") then
    (i ← required "id" as_str; n ← required "name" as_str; p ← required "input" any; mret (BToolUse i n p)) s
  else if decide (tag = lit "tool_result") then
    (i ← required "tool_use_id" as_str; c ← required "content" any; e ← opt_default "is_error" as_bool;
     mret (BToolResult i c e)) s
  else None.
Definition block_wire (raw : Value) : option AnthropicContentBlock :=
  match raw with
  | VObject m => tag ← map_get (lit "type") m ≫= as_str; finished (block_fields tag (FromMap m))
  | VArray (t :: l) => tag ← as_str t; finished (block_fields tag (FromSeq l))
  | _ => None
  end.

Definition deserialize_block (raw : Value) : AnthropicContentBlock := default (BOther raw) (block_wire raw).

Definition serialize_block (b : AnthropicContentBlock) : Value :=
  match b with
  | BText text => VObject [kv "type" (vstr "text"); kv "text" (VString text)]
  | BThinking thinking signature =>
      VObject [kv "type" (vstr "thinking"); kv "thinking" (VString thinking); kv "signature" (or_null VString signature)]
  | BToolUse id name input =>
      VObject [kv "type" (vstr "tool_use"); kv "id" (VString id); kv "name" (VString name); kv "input" input]
  | BToolResult tool_use_id content is_error =>
      VObject [kv "type" (vstr "tool_result"); kv "tool_use_id" (VString tool_use_id); kv "content" content;
               kv "is_error" (or_null VBool is_error)]
  | BOther value => value
  end.

(** * Anthropic requests and messages *)
Record AnthropicTool := mkAnthropicTool { at_name : str; at_description : option str; at_input_schema : Value }.
Definition read_anthropic_tool : Reader AnthropicTool :=
  n ← required "name" as_str; d ← opt_default "description" as_str; s ← required "input_schema" any;
  mret (mkAnthropicTool n d s).
Definition of_anthropic_tool (t : AnthropicTool) : Value :=
  VObject [kv "name" (VString (at_name t)); kv "description" (or_null VString (at_description t));
           kv "input_schema" (at_input_schema t)].

Definition read_turn : Reader AnthropicMessageContent :=
  r ← required "role" as_str; c ← required "content" (vec (λ v, Some (deserialize_block v))); mret (mkTurn r c).
Definition of_turn (t : AnthropicMessageContent) : Value :=
  VObject [kv "role" (VString (turn_role t)); kv "content" (VArray (serialize_block <$> turn_content t))].

(** Every field but the messages. *)
Record AnthropicRest := mkRest {
  ax_model : option str; ax_system : option str; ax_max_tokens : Z; ax_stream : option bool;
  ax_temperature : option F32; ax_top_p : option F32; ax_tools : option (list AnthropicTool);
  ax_tool_choice : option Value; ax_extra : list (str * Value)
}.

Definition ANTHROPIC_FIELDS : list str :=
  [lit "model"; lit "messages"; lit "system"; lit "max_tokens"; lit "stream"; lit "temperature"; lit "top_p";
   lit "tools"; lit "tool_choice"].

Definition read_anthropic_request : Reader (AnthropicMessageRequest AnthropicRest) :=
  mo ← opt_default "model" as_str;
  ms ← required "messages" (vec (read_struct read_turn));
  sy ← opt_default "system" as_str;
  mt ← defaulted "max_tokens" 0%Z (unsigned 32);
  st ← opt_default "stream" as_bool;
  te ← opt_default "temperature" f32;
  tp ← opt_default "top_p" f32;
  tl ← opt_default "tools" (vec (read_struct read_anthropic_tool));
  tc ← opt_default "tool_choice" any;
  ex ← flattened ANTHROPIC_FIELDS;
  mret (mkAnthropicRequest ms (mkRest mo sy mt st te tp tl tc ex)).
Definition anthropic_request (v : Value) : option (AnthropicMessageRequest AnthropicRest) :=
  read_flat read_anthropic_request v.
Definition of_anthropic_request (r : AnthropicMessageRequest AnthropicRest) : Value :=
  let x := ar_rest r in
  VObject ([kv "model" (or_null VString (ax_model x)); kv "messages" (VArray (of_turn <$> ar_messages r));
            kv "system" (or_null VString (ax_system x)); kv "max_tokens" (vint (ax_max_tokens x));
            kv "stream" (or_null VBool (ax_stream x)); kv "temperature" (or_null of_f32 (ax_temperature x));
            kv "top_p" (or_null of_f32 (ax_top_p x));
            kv "tools" (or_null (λ l, VArray (of_anthropic_tool <$> l)) (ax_tools x));
            kv "tool_choice" (or_null (λ v, v) (ax_tool_choice x))] ++ hash_order (ax_extra x)).

Definition read_usage : Reader AnthropicUsage :=
  i ← defaulted "input_tokens" 0%Z as_u64; o ← defaulted "output_tokens" 0%Z as_u64; mret (mkUsage i o).
Definition read_anthropic_message : Reader AnthropicMessage :=
  i ← required "id" as_str;
  t ← required "type" as_str;
  r ← required "role" as_str;
  c ← defaulted "content" [] (vec (λ v, Some (deserialize_block v)));
  m ← required "model" as_str;
  s ← opt_default "stop_reason" as_str;
  q ← opt_default "stop_sequence" as_str;
  u ← defaulted "usage" (mkUsage 0 0) (read_struct read_usage);
  mret (mkMessage i t r c m s q u).
Definition anthropic_message (v : Value) : option AnthropicMessage := read_struct read_anthropic_message v.

(** * Responses, and one format from the other *)
Record Usage := mkOpenAiUsage {
  prompt_tokens : Z; completion_tokens : Z; total_tokens : Z; completion_tokens_details : option Value
}.
Record ResponseMessage := mkResponseMessage {
  rm_role : str; rm_content : option str; rm_tool_calls : option (list ToolCall);
  rm_reasoning_text : option str; rm_reasoning_opaque : option str
}.
(** The stream's [delta] and the [timings] are carried as they came. *)
Record Choice := mkChoice {
  c_index : Z; c_message : option ResponseMessage; c_delta : option Value; c_finish_reason : option str
}.
Record ChatCompletionResponse := mkChatResponse {
  cc_id : str; cc_object : str; cc_created : Z; cc_model : str; cc_choices : list Choice;
  cc_usage : option Usage; cc_timings : option Value
}.

Definition text_parts (content : Value) : list str :=
  match content with
  | VString s => [s]
  | VArray parts =>
      let texts := omap (λ p, get p (lit "text") ≫= as_str)
                     (filter (λ p, get p (lit "type") ≫= as_str = Some (lit "text")) parts) in
      if bool_decide (texts = []) then [] else [join [ascii_of_nat 10] texts]
  | _ => []
  end.

(** What the blocks are sorted into: text, calls, reasoning and its signature. *)
Record Sorted := mkSorted {
  content_parts : list str; tool_calls : list ToolCall; reasoning_parts : list str; reasoning_opaque : option str
}.
Definition sort_block (acc : Sorted) (block : AnthropicContentBlock) : Sorted :=
  let '(mkSorted cs ts rs op) := acc in
  match block with
  | BText text => mkSorted (cs ++ [text]) ts rs op
  | BThinking thinking signature =>
      mkSorted cs ts (rs ++ [thinking]) match op with Some _ => op | None => signature end
  | BToolUse id name input =>
      mkSorted cs
        (ts ++ [mkToolCall (Some id) (Some (lit "function")) (Some (Z.of_nat (length ts) mod 2 ^ 32)%Z)
                  (mkFunctionCall name (to_string input))]) rs op
  | BToolResult _ content _ => mkSorted (cs ++ text_parts content) ts rs op
  | BOther _ => acc
  end.

Definition nonempty_opt {A} (l : list A) : option (list A) := match l with [] => None | _ => Some l end.
Definition joined (parts : list str) : option str := join [ascii_of_nat 10] <$> nonempty_opt parts.

Definition finish_of_stop (reason : str) : str :=
  if decide (reason = lit "end_turn") then lit "stop"
  else if decide (reason = lit "max_tokens") then lit "length"
  else if decide (reason = lit "stop_sequence") then lit "stop"
  else if decide (reason = lit "tool_use") then lit "tool_calls"
  else reason.

(** The sum is a [u64]. *)
Definition openai_of_anthropic (msg : AnthropicMessage) : ChatCompletionResponse :=
  let '(mkSorted cs ts rs op) := foldl sort_block (mkSorted [] [] [] None) (am_content msg) in
  let u := am_usage msg in
  mkChatResponse (am_id msg) (lit "chat.completion") 0 (am_model msg)
    [mkChoice 0 (Some (mkResponseMessage (am_role msg) (joined cs) (nonempty_opt ts) (joined rs) op)) None
       (finish_of_stop <$> am_stop_reason msg)]
    (Some (mkOpenAiUsage (input_tokens u) (output_tokens u) ((input_tokens u + output_tokens u) mod u64_modulus) None))
    None.

Definition stop_of_finish (reason : str) : str :=
  if decide (reason = lit "stop") then lit "end_turn"
  else if decide (reason = lit "length") then lit "max_tokens"
  else if decide (reason = lit "tool_calls") then lit "tool_use"
  else reason.

Definition tool_use_of (uuid : str) (t : ToolCall) : AnthropicContentBlock :=
  BToolUse (default (lit "toolu_" ++ filter (λ c, c ≠ "-"%char) uuid) (tc_id t)) (fc_name (tc_function t))
    (default (VObject []) (from_str (fc_arguments (tc_function t)))).

(** [uuids i] is the id drawn for call [i], if one is. *)
Definition blocks_of_message (uuids : nat → str) (m : ResponseMessage) : list AnthropicContentBlock :=
  let blocks :=
    match rm_reasoning_text m with Some r => [BThinking r None] | None => [] end
    ++ match rm_content m with Some t => if bool_decide (t = []) then [] else [BText t] | None => [] end
    ++ match rm_tool_calls m with Some ts => imap (λ i, tool_use_of (uuids i)) ts | None => [] end in
  match blocks with [] => [BText []] | _ => blocks end.

Definition anthropic_of_openai (uuids : nat → str) (resp : ChatCompletionResponse) : AnthropicMessage :=
  let c := head (cc_choices resp) in
  mkMessage (cc_id resp) (lit "message") (lit "assistant")
    match c ≫= c_message with Some m => blocks_of_message uuids m | None => [BText []] end
    (cc_model resp) (stop_of_finish <$> (c ≫= c_finish_reason)) None
    match cc_usage resp with Some u => mkUsage (prompt_tokens u) (completion_tokens u) | None => mkUsage 0 0 end.
End Wire.
