(* ===== verification/WireFacts.v ===== *)
(** * What the typed wire format keeps

    What is written is read back; what a type has no field for is kept at the
    top of a request and lost below it. *)
From S2P Require Import Prelude Json Merge Synthesis Augment Anthropic Wire.

(** ** Reading a field of an object *)
Lemma map_get_app k a b : map_get k (a ++ b) = match map_get k a with Some v => Some v | None => map_get k b end.
Proof. induction a as [|[k' v] a IH]; [done|]. simpl. by destruct (decide (k' = k)). Qed.

Lemma map_get_skip {A} k k' (enc : A → Value) o :
  map_get k (skip_none k' enc o) = if bool_decide (lit k' = k) then enc <$> o else None.
Proof. destruct o; cbn [map_get skip_none]; repeat case_decide; case_bool_decide; done. Qed.
Lemma map_get_cons k k' v m : map_get k (kv k' v :: m) = if bool_decide (lit k' = k) then Some v else map_get k m.
Proof. unfold kv. cbn [map_get]. case_decide; case_bool_decide; done. Qed.

Definition at_map {A} (k : String.string) (in_map : option A) (dec : Value → option A) (m : list (str * Value)) : option A :=
  match map_get (lit k) m with Some v => dec v | None => in_map end.
Arguments at_map {A} k%_string.

Lemma bind_field {A B} k (i s : option A) dec (f : A → Reader B) m :
  (field k i s dec ≫= f) (FromMap m) = a ← at_map k i dec m; f a (FromMap m).
Proof. unfold mbind, reader_bind, field, at_map. destruct (map_get (lit k) m) as [v|]; [by destruct (dec v)|by destruct i]. Qed.

(** One field after the other; what follows a field that fails is not read. *)
Lemma read_step {A B} k (i s : option A) dec (f : A → Reader B) m a r :
  at_map k i dec m = Some a → finished (f a (FromMap m)) = r → finished ((field k i s dec ≫= f) (FromMap m)) = r.
Proof. intros Ha Hr. by rewrite bind_field, Ha. Qed.
Lemma read_fails {A B} k (i s : option A) dec (f : A → Reader B) m :
  at_map k i dec m = None → finished ((field k i s dec ≫= f) (FromMap m)) = None.
Proof. intros Ha. by rewrite bind_field, Ha. Qed.
(** A field that is not the one that fails. *)
Lemma read_past {A B} k (i s : option A) dec (f : A → Reader B) m :
  (∀ a, finished (f a (FromMap m)) = None) → finished ((field k i s dec ≫= f) (FromMap m)) = None.
Proof. intros Hf. rewrite bind_field. destruct (at_map k i dec m); [apply Hf|done]. Qed.

(** What an optional field was written from is what is read. *)
Definition writes {A} (enc : A → Value) (dec : Value → option A) (o : option A) : Prop :=
  ∀ x, o = Some x → enc x ≠ VNull ∧ dec (enc x) = Some x.

Lemma nullable_written {A} (enc : A → Value) dec x : enc x ≠ VNull → dec (enc x) = Some x → nullable dec (enc x) = Some (Some x).
Proof. intros Hn Hx. unfold nullable. destruct (enc x); by rewrite ?Hx. Qed.
Lemma at_skip {A} k (enc : A → Value) dec o m :
  map_get (lit k) m = enc <$> o → writes enc dec o → at_map k (Some None) (nullable dec) m = Some o.
Proof. intros Hm Ho. unfold at_map. rewrite Hm. destruct o as [x|]; [|done]. destruct (Ho x eq_refl). by apply nullable_written. Qed.
Lemma at_null {A} k i (enc : A → Value) dec o m :
  map_get (lit k) m = Some (or_null enc o) → writes enc dec o → at_map k i (nullable dec) m = Some o.
Proof.
  intros Hm Ho. unfold at_map. rewrite Hm. destruct o as [x|]; [|done]. destruct (Ho x eq_refl). by apply (nullable_written enc).
Qed.

Lemma vec_map {A} (enc : A → Value) dec l : (∀ x, x ∈ l → dec (enc x) = Some x) → vec dec (VArray (enc <$> l)) = Some l.
Proof.
  intros Hl. unfold vec. cbn [as_array mbind option_bind]. induction l as [|x l IH]; [done|]. cbn [fmap list_fmap mapM].
  rewrite Hl by by left. cbn [mbind option_bind]. rewrite IH; [done|]. intros y Hy. apply Hl. by right.
Qed.

(** Looks a key up in an object as it is written. *)
Ltac look_up :=
  rewrite ?map_get_app, ?map_get_skip, ?map_get_cons;
  repeat match goal with
    | |- context [bool_decide (lit ?a = lit ?b)] =>
        let r := eval vm_compute in (bool_decide (lit a = lit b)) in change (bool_decide (lit a = lit b)) with r
    end; cbv iota; cbn [map_get].

Section Facts.
Context `{Serde} `{WireDeps}.

(** ** Parts and messages *)
Definition u32 (z : Z) : Prop := (0 ≤ z < 2 ^ 32)%Z.
Lemma unsigned_vint z : u32 z → unsigned 32 (vint z) = Some z.
Proof using Type.
  intros [H1 H2]. unfold unsigned, vint. cbn [as_u64].
  rewrite (proj2 (Z.leb_le 0 z)), (proj2 (Z.ltb_lt z (2 ^ 64))) by lia. cbn [andb mbind option_bind].
  by rewrite (proj2 (Z.ltb_lt z (2 ^ 32))) by lia.
Qed.

Lemma image_url_back i : read_struct read_image_url (of_image_url i) = Some i.
Proof using Type. destruct i as [u [d|]]; reflexivity. Qed.
Lemma part_back p : read_struct read_part (of_part p) = Some p.
Proof using Type. destruct p as [t [x|] [[u [d|]]|]]; reflexivity. Qed.
Lemma function_call_back f : read_struct read_function_call (of_function_call f) = Some f.
Proof using Type. destruct f; reflexivity. Qed.

Definition tool_call_ok (t : ToolCall) : Prop := ∀ n, tc_index t = Some n → u32 n.
Lemma tool_call_back t : tool_call_ok t → read_struct read_tool_call (of_tool_call t) = Some t.
Proof using Type.
  intros Ht. destruct t as [i ty [n|] [fn fa]].
  - pose proof (unsigned_vint n (Ht n eq_refl)) as Hn. unfold read_struct, of_tool_call, read_tool_call.
    destruct i, ty; do 2 (eapply read_step; [reflexivity|]);
      (eapply read_step; [apply (at_skip "index" vint _ (Some n)); [reflexivity|by intros ? [= <-]]|reflexivity]).
  - by destruct i, ty.
Qed.

(** A choice by name is not an object, an object's fields are read back. *)
Lemma tool_choice_back c : read_tool_choice (of_tool_choice c) = Some c.
Proof using Type. by destruct c as [s|[t [[n]|]]]. Qed.
Lemma tool_back t : read_struct read_tool (of_tool t) = Some t.
Proof using Type. by destruct t as [ty [n [d|] p]]. Qed.

Lemma content_back c : read_content (of_content c) = Some c.
Proof using Type.
  destruct c as [t|ps]; [done|]. unfold of_content, read_content. rewrite vec_map; [done|]. intros p _. apply part_back.
Qed.

Definition message_ok (m : Message) : Prop := ∀ ts, m_tool_calls m = Some ts → Forall tool_call_ok ts.
Lemma message_back m : message_ok m → read_struct read_message (of_message m) = Some m.
Proof using Type.
  intros Hm. destruct m as [r c n ts i]. unfold of_message, read_struct, read_message.
  eapply read_step; [unfold at_map; look_up; reflexivity|].
  eapply read_step; [apply (at_skip "content" of_content _ c); [look_up; by destruct c|]|].
  { intros x _. split; [by destruct x|apply content_back]. }
  eapply read_step; [apply (at_skip "name" VString _ n); [look_up; by destruct n|done]|].
  eapply read_step; [apply (at_skip "tool_calls" (λ l, VArray (of_tool_call <$> l)) _ ts); [look_up; by destruct ts|]|].
  { intros x Hx. split; [done|]. apply vec_map. intros t Ht. apply tool_call_back.
    by apply (proj1 (Forall_forall _ _) (Hm x Hx)). }
  eapply read_step; [apply (at_skip "tool_call_id" VString _ i); [look_up; by destruct i|done]|]. done.
Qed.

(** ** A whole request *)

(** What reading only makes: numbers of their width, floats of theirs, finite or
    not, and no catch-all key that a field has. *)
Definition f32_ok (x : F32) : Prop := ∀ n, x = Some n → f32_round n = Some n.
Record chat_ok (r : ChatCompletionRequest) : Prop := {
  messages_ok : Forall message_ok (cr_messages r);
  max_tokens_ok : ∀ n, cr_max_tokens r = Some n → u32 n;
  thinking_budget_ok : ∀ n, cr_thinking_budget r = Some n → (0 ≤ n < 2 ^ 64)%Z;
  floats_ok : ∀ x, Some x ∈ [cr_temperature r; cr_top_p r; cr_frequency_penalty r; cr_presence_penalty r] → f32_ok x;
  extra_ok : Forall (λ p, p.1 ∉ CHAT_FIELDS) (cr_extra r);
}.

(** An infinity is written as null, which is read as no float. *)
Definition finite_only (o : option F32) : option F32 := match o with Some (Some n) => Some (Some n) | _ => None end.
Lemma at_float k o m :
  map_get (lit k) m = of_f32 <$> o → (∀ x, o = Some x → f32_ok x) → at_map k (Some None) (nullable f32) m = Some (finite_only o).
Proof using Type.
  intros Hm Ho. unfold at_map. rewrite Hm. destruct o as [[n|]|]; try done. cbn. by rewrite (Ho _ eq_refl n).
Qed.

Lemma extra_absent k ex : Forall (λ p, p.1 ∉ CHAT_FIELDS) ex → lit k ∈ CHAT_FIELDS → map_get (lit k) ex = None.
Proof using Type.
  intros Hex Hk. induction Hex as [|[k' v] ex Hp Hex IH]; [done|]. simpl in *. rewrite decide_False; [done|]. by intros ->.
Qed.

Lemma leftover_skip {A} known k (enc : A → Value) o : lit k ∈ known → leftover known (skip_none k enc o) = [].
Proof using Type. intros Hk. destruct o; [|done]. unfold leftover. simpl. by rewrite filter_cons_False by tauto. Qed.
Lemma leftover_app known a b : leftover known (a ++ b) = leftover known a ++ leftover known b.
Proof using Type. apply filter_app. Qed.
Lemma leftover_unknown known ex : Forall (λ p, p.1 ∉ known) ex → leftover known ex = ex.
Proof using Type. induction 1 as [|p ex Hp Hex IH]; [done|]. unfold leftover in *. by rewrite filter_cons_True, IH. Qed.

Lemma chat_leftover r ex : Forall (λ p, p.1 ∉ CHAT_FIELDS) ex → leftover CHAT_FIELDS (chat_fields r ++ ex) = ex.
Proof using Type.
  intros Hex. unfold chat_fields. rewrite !leftover_app, !leftover_skip by vm_decide.
  by rewrite (leftover_unknown _ ex).
Qed.

(** What a request comes back as: without its infinities, its catch-all keys as
    they were written. *)
Definition come_back (r : ChatCompletionRequest) (ex : list (str * Value)) : ChatCompletionRequest :=
  mkChatRequest (cr_model r) (cr_messages r) (finite_only (cr_temperature r)) (finite_only (cr_top_p r)) (cr_max_tokens r)
    (cr_stream r) (cr_tools r) (cr_tool_choice r) (cr_stop r) (finite_only (cr_frequency_penalty r))
    (finite_only (cr_presence_penalty r)) (cr_user r) (cr_reasoning_effort r)
    (cr_verbosity r) (cr_thinking_budget r) ex.

(** The field written from an option is read back, whatever else is there. *)
Ltac optional_field k enc o :=
  eapply read_step; [apply (at_skip k enc _ o);
    [unfold chat_fields; look_up; rewrite ?extra_absent by (done || vm_decide); by destruct o|]|].

Ltac float_field k o :=
  eapply read_step; [apply (at_float k o); [unfold chat_fields; look_up; rewrite ?extra_absent by (done || vm_decide); by destruct o|]|].

(** C29: A typed request whose numbers are of their width is what its serialization
    is read as, so the shim that goes through a value and back loses nothing the
    type has a field for, but an infinite float: a number over the range of an
    [f32] is read as one, written as null and comes back as none.  The catch-all
    keys come back in the order of their map. *)
Theorem chat_request_roundtrip `{!WireLaws} r : chat_ok r →
  chat_request (of_chat_request r) = Some (come_back r (hash_order (cr_extra r))).
Proof using Type.
  intros [Hms Hmt Htb Hfl Hex]. assert (Forall (λ p, p.1 ∉ CHAT_FIELDS) (hash_order (cr_extra r))) as Hex' by (by rewrite hash_order_perm).
  unfold chat_request, read_flat, of_chat_request, read_chat_request.
  revert Hex'. generalize (hash_order (cr_extra r)) as ex. intros ex Hex'.
  eapply read_step; [unfold at_map, chat_fields; look_up; reflexivity|].
  eapply read_step; [unfold at_map, chat_fields; look_up; apply (vec_map of_message)|].
  { intros m Hm. apply message_back. by apply (proj1 (Forall_forall _ _) Hms). }
  float_field "temperature"%string (cr_temperature r); [intros x Hx; apply Hfl; rewrite Hx; set_solver|].
  float_field "top_p"%string (cr_top_p r); [intros x Hx; apply Hfl; rewrite Hx; set_solver|].
  optional_field "max_tokens"%string vint (cr_max_tokens r).
  { intros n Hn. split; [done|]. by apply unsigned_vint, Hmt. }
  optional_field "stream"%string VBool (cr_stream r); [done|].
  optional_field "tools"%string (λ l, VArray (of_tool <$> l)) (cr_tools r).
  { intros l _. split; [done|]. apply vec_map. intros t _. apply tool_back. }
  optional_field "tool_choice"%string of_tool_choice (cr_tool_choice r).
  { intros c _. split; [by destruct c|apply tool_choice_back]. }
  optional_field "stop"%string (λ l, VArray (VString <$> l)) (cr_stop r).
  { intros l _. split; [done|]. by apply vec_map. }
  float_field "frequency_penalty"%string (cr_frequency_penalty r); [intros x Hx; apply Hfl; rewrite Hx; set_solver|].
  float_field "presence_penalty"%string (cr_presence_penalty r); [intros x Hx; apply Hfl; rewrite Hx; set_solver|].
  optional_field "user"%string VString (cr_user r); [done|].
  optional_field "reasoning_effort"%string VString (cr_reasoning_effort r); [done|].
  optional_field "verbosity"%string VString (cr_verbosity r); [done|].
  optional_field "thinking_budget"%string vint (cr_thinking_budget r).
  { intros n Hn. split; [done|]. pose proof (Htb n Hn) as []. cbn [as_u64 vint].
    by rewrite (proj2 (Z.leb_le 0 n)), (proj2 (Z.ltb_lt n (2 ^ 64))) by lia. }
  unfold flattened, mbind, reader_bind, option_bind. by rewrite chat_leftover.
Qed.

(** A request whose [stop] is one string is not of the type, so the
    normalization of [stop] in the injection is never reached through it. *)
Lemma string_stop_untyped m s : map_get (lit "stop") m = Some (VString s) → chat_request (VObject m) = None.
Proof using Type.
  intros Hs. unfold chat_request, read_flat, read_chat_request.
  do 8 (apply read_past; intros ?). apply read_fails. unfold at_map. by rewrite Hs.
Qed.

(** ** Content blocks *)

(** A block of an unknown kind, or one that does not fit its kind. *)
Definition block_ok (b : AnthropicContentBlock) : Prop := match b with BOther raw => block_wire raw = None | _ => True end.

(** Every block is read back from what it is written as: a known shape from its
    fields, anything else as the value it came as. *)
Theorem block_roundtrip b : block_ok b → deserialize_block (serialize_block b) = b.
Proof using Type.
  intros Hb. destruct b as [t|t [g|]|i n p|i c [e|]|raw]; try reflexivity. unfold deserialize_block. simpl in *. by rewrite Hb.
Qed.

(** The keys a block of a kind is written with. *)
Definition block_keys (b : AnthropicContentBlock) : list str :=
  match b with
  | BText _ => [lit "type"; lit "text"]
  | BThinking _ _ => [lit "type"; lit "thinking"; lit "signature"]
  | BToolUse _ _ _ => [lit "type"; lit "id"; lit "name"; lit "input"]
  | BToolResult _ _ _ => [lit "type"; lit "tool_use_id"; lit "content"; lit "is_error"]
  | BOther raw => match raw with VObject m => m.*1 | _ => [] end
  end.
Lemma written_keys b m : serialize_block b = VObject m → m.*1 = block_keys b.
Proof using Type. destruct b as [t|t [g|]|i n p|i c [e|]|raw]; simpl; by intros [= <-] || intros ->. Qed.

(** A known block loses the fields its kind has no place for, such as the
    cache mark clients put on a text block. *)
Lemma block_drops_unknown t c :
  let raw := VObject [kv "type" (vstr "text"); kv "text" (VString t); kv "cache_control" c] in
  get (serialize_block (deserialize_block raw)) (lit "cache_control") = None ∧
  serialize_block (deserialize_block raw) = VObject [kv "type" (vstr "text"); kv "text" (VString t)].
Proof using Type. done. Qed.

(** ** What a typed request keeps of the keys it has no field for *)
Lemma chat_extra m r : chat_request (VObject m) = Some r → cr_extra r = leftover CHAT_FIELDS m.
Proof using Type.
  unfold chat_request, read_flat, read_chat_request, required, opt_default, defaulted. intros Hr.
  repeat (rewrite bind_field in Hr; destruct (at_map _ _ _ _); [cbn [mbind option_bind] in Hr|done]).
  by injection Hr as <-.
Qed.
Lemma anthropic_extra m r : anthropic_request (VObject m) = Some r → ax_extra (ar_rest r) = leftover ANTHROPIC_FIELDS m.
Proof using Type.
  unfold anthropic_request, read_flat, read_anthropic_request, required, opt_default, defaulted. intros Hr.
  repeat (rewrite bind_field in Hr; destruct (at_map _ _ _ _); [cbn [mbind option_bind] in Hr|done]).
  by injection Hr as <-.
Qed.

Lemma leftover_get known k m : k ∉ known → map_get k (leftover known m) = map_get k m.
Proof using Type.
  intros Hk. unfold leftover. induction m as [|[k' v] m IH]; [done|]. destruct (decide (k' ∈ known)) as [Hin|Hno].
  - rewrite filter_cons_False by (by intros []). simpl. rewrite decide_False; [done|]. by intros ->.
  - rewrite filter_cons_True by done. simpl. by rewrite IH.
Qed.
Lemma leftover_NoDup known m : NoDup m.*1 → NoDup (leftover known m).*1.
Proof using Type. intros Hm. eapply sublist_NoDup; [exact Hm|]. apply fmap_sublist, sublist_filter. Qed.
Lemma map_get_absent k m : k ∉ m.*1 → map_get k m = None.
Proof using Type. induction m as [|[k' v] m IH]; [done|]. intros [Hk Hm]%not_elem_of_cons. simpl in *. rewrite decide_False by congruence. auto. Qed.

Lemma skip_sublist {A} k (enc : A → Value) o : (skip_none k enc o).*1 `sublist_of` [lit k].
Proof using Type. destruct o; [done|]. apply sublist_nil_l. Qed.
Lemma chat_fields_sublist r : (chat_fields r).*1 `sublist_of` CHAT_FIELDS.
Proof using Type.
  unfold chat_fields. rewrite !fmap_app.
  change CHAT_FIELDS with ([lit "model"; lit "messages"] ++ [lit "temperature"] ++ [lit "top_p"] ++ [lit "max_tokens"]
    ++ [lit "stream"] ++ [lit "tools"] ++ [lit "tool_choice"] ++ [lit "stop"] ++ [lit "frequency_penalty"]
    ++ [lit "presence_penalty"] ++ [lit "user"] ++ [lit "reasoning_effort"] ++ [lit "verbosity"] ++ [lit "thinking_budget"]).
  apply sublist_app; [done|]. repeat (apply sublist_app; [apply skip_sublist|]). apply skip_sublist.
Qed.

(** Known fields first, the others after them, in whatever order. *)
Lemma known_then_other `{!WireLaws} known fields m k :
  fields.*1 `sublist_of` known → NoDup m.*1 → k ∉ known →
  map_get k (fields ++ hash_order (leftover known m)) = map_get k m.
Proof using Type.
  intros Hf Hm Hk. rewrite map_get_app, map_get_absent.
  - rewrite <- (map_get_perm (leftover known m)); [by apply leftover_get|by apply leftover_NoDup|by rewrite hash_order_perm].
  - intros Hin. by eapply Hk, elem_of_sublist.
Qed.

Lemma known_then_other_NoDup `{!WireLaws} known fields m :
  fields.*1 `sublist_of` known → NoDup known → NoDup m.*1 → NoDup (fields ++ hash_order (leftover known m)).*1.
Proof using Type.
  intros Hf Hn Hm. rewrite fmap_app. apply NoDup_app. split_and!.
  - by eapply sublist_NoDup; [exact Hn|].
  - intros k Hk. rewrite hash_order_perm. intros ([k' v] & -> & [Hno _]%list_elem_of_filter)%list_elem_of_fmap.
    by eapply Hno, elem_of_sublist.
  - rewrite hash_order_perm. by apply leftover_NoDup.
Qed.

Lemma chat_keeps `{!WireLaws} m r k : NoDup m.*1 → chat_request (VObject m) = Some r → k ∉ CHAT_FIELDS →
  get (of_chat_request r) k = map_get k m.
Proof using Type.
  intros Hm Hr Hk. unfold of_chat_request, get. rewrite (chat_extra m r Hr).
  by apply known_then_other; [apply chat_fields_sublist| |].
Qed.

Lemma inject_value_object m p a v : inject_augmentation_value (VObject m) p a = Some (Ok v) →
  ∃ m', v = VObject m' ∧ (NoDup m.*1 → NoDup m'.*1).
Proof using Type.
  unfold inject_augmentation_value. set (req := match get (VObject m) (lit "stop") with Some (VString s) => _ | _ => _ end).
  assert (∃ m0, req = VObject m0 ∧ (NoDup m.*1 → NoDup m0.*1)) as (m0 & -> & Hm0).
  { unfold req. destruct (get _ _) as [[]|]; try (by exists m). eexists. split; [done|]. by apply map_insert_NoDup. }
  assert (∀ k x, ∃ m', set_key (VObject m0) k x = VObject m' ∧ (NoDup m0.*1 → NoDup m'.*1)) as Hset.
  { intros k x. simpl. destruct (map_get k m0); [|by exists m0]. eexists. split; [done|]. apply map_insert_NoDup. }
  destruct (get _ (lit "messages")) as [[| | | |ms|]|]; try done. destruct (rposition _ ms) as [i|].
  - destruct (append_block_to_message _ _) as [[msg'|e]|]; [|done..]. intros Hv.
    destruct (Hset (lit "messages") (VArray (<[i := msg']> ms))) as (m' & E & Hm').
    exists m'. split; [|tauto]. rewrite <- E. by injection Hv.
  - case_bool_decide; intros Hv; [injection Hv as <-; by exists m0|].
    destruct (Hset (lit "messages") (VArray (ms ++ [VObject [kv "role" (vstr "system"); kv "content" (VString (block_of p a))]])))
      as (m' & E & Hm').
    exists m'. split; [|tauto]. rewrite <- E. by injection Hv.
Qed.

(** An augmented request keeps every top-level key its type has no field for. *)
Lemma chat_augmented_keeps `{!WireLaws} m r r' p a k : NoDup m.*1 → chat_request (VObject m) = Some r →
  inject_augmentation r p a = Some (Ok r') → k ∉ CHAT_FIELDS → get (of_chat_request r') k = map_get k m.
Proof using Type.
  intros Hm Hr Hi Hk. unfold inject_augmentation in Hi. destruct (inject_appends (of_chat_request r) p a) as (o & E & Ho).
  rewrite E in Hi. cbn [mbind option_bind] in Hi. destruct o as [v|e]; [|done]. destruct Ho as (_ & _ & Hkeep).
  destruct (chat_request v) as [r2|] eqn:E2; [|done]. injection Hi as <-. unfold of_chat_request at 1 in E.
  apply inject_value_object in E as (m' & -> & Hm'). rewrite (chat_keeps m' r2 k); [| |done|done].
  - change (map_get k m') with (get (VObject m') k). rewrite Hkeep; [by apply chat_keeps|..]; intros ->; apply Hk; vm_decide.
  - apply Hm'. rewrite (chat_extra m r Hr). apply known_then_other_NoDup; [apply chat_fields_sublist| |done].
    vm_decide.
Qed.

Lemma inject_anthropic_rest (r : AnthropicMessageRequest AnthropicRest) p a : ar_rest (inject_into_anthropic r p a) = ar_rest r.
Proof using Type.
  unfold inject_into_anthropic. case_bool_decide; [done|]. cbv zeta. destruct (rposition _ _); [done|]. by destruct (ar_messages r).
Qed.

Lemma anthropic_augmented_keeps `{!WireLaws} m r p a k : NoDup m.*1 → anthropic_request (VObject m) = Some r →
  k ∉ ANTHROPIC_FIELDS → get (of_anthropic_request (inject_into_anthropic r p a)) k = map_get k m.
Proof using Type.
  intros Hm Hr Hk. unfold of_anthropic_request. rewrite inject_anthropic_rest. cbn [get]. rewrite (anthropic_extra m r Hr).
  by apply known_then_other.
Qed.

(** ** One format from the other *)

(** A call the way this side writes it: its arguments are printed JSON. *)
Definition canonical_call (i : nat) (t : ToolCall) : Prop :=
  ∃ id n args v, t = mkToolCall (Some id) (Some (lit "function")) (Some (Z.of_nat i)) (mkFunctionCall n args) ∧
    from_str args = Some v ∧ to_string v = args.
Definition canonical_calls (ts : list ToolCall) : Prop :=
  (Z.of_nat (length ts) < 2 ^ 32)%Z ∧ ∀ i t, ts !! i = Some t → canonical_call i t.

(** A message both formats can carry. *)
Record carried (m : ResponseMessage) : Prop := {
  carried_role : rm_role m = lit "assistant";
  carried_signature : rm_reasoning_opaque m = None;
  carried_text : ∀ t, rm_content m = Some t → t ≠ [];
  carried_calls : ∀ ts, rm_tool_calls m = Some ts → ts ≠ [] ∧ canonical_calls ts;
  carried_something : rm_content m = None → rm_reasoning_text m = None → is_Some (rm_tool_calls m);
}.

Lemma sort_calls uuids cs ts0 ts rs op :
  (Z.of_nat (length ts0 + length ts) < 2 ^ 32)%Z → (∀ i t, ts !! i = Some t → canonical_call (length ts0 + i) t) →
  foldl sort_block (mkSorted cs ts0 rs op) (imap (λ i, tool_use_of (uuids i)) ts) = mkSorted cs (ts0 ++ ts) rs op.
Proof using Type.
  revert ts0 uuids. induction ts as [|t ts IH]; intros ts0 uuids Hlen Hts; [by rewrite app_nil_r|].
  destruct (Hts 0 t eq_refl) as (id & n & args & v & -> & Hv & Hargs). rewrite Nat.add_0_r in *.
  cbn [imap foldl sort_block tool_use_of tc_id tc_function fc_arguments fc_name]. rewrite Hv.
  change (default (VObject []) (Some v)) with v. change (default _ (Some id)) with id.
  rewrite Hargs, Z.mod_small by (cbn [length] in Hlen; lia).
  rewrite (IH _ (λ i, uuids (S i))); [by rewrite <- app_assoc|rewrite length_app; cbn [length] in *; lia|].
  intros i t Hi. rewrite length_app. cbn [length]. replace (length ts0 + 1 + i) with (length ts0 + S i) by lia. by apply Hts.
Qed.

Lemma finish_back f : f ∉ [lit "end_turn"; lit "max_tokens"; lit "stop_sequence"; lit "tool_use"] →
  finish_of_stop (stop_of_finish f) = f.
Proof using Type.
  intros Hf. unfold stop_of_finish. destruct (decide (f = lit "stop")) as [->|]; [done|].
  destruct (decide (f = lit "length")) as [->|]; [done|]. destruct (decide (f = lit "tool_calls")) as [->|]; [done|].
  unfold finish_of_stop. rewrite !decide_False; [done|..]; intros ->; apply Hf; vm_decide.
Qed.

Lemma sort_message uuids m : carried m →
  foldl sort_block (mkSorted [] [] [] None) (blocks_of_message uuids m)
  = mkSorted (option_list (rm_content m)) (default [] (rm_tool_calls m)) (option_list (rm_reasoning_text m)) None.
Proof using Type.
  intros [_ _ Htext Hcalls Hsome]. unfold blocks_of_message.
  set (calls := match rm_tool_calls m with Some ts => imap (λ i, tool_use_of (uuids i)) ts | None => [] end).
  assert (∀ cs rs, foldl sort_block (mkSorted cs [] rs None) calls = mkSorted cs (default [] (rm_tool_calls m)) rs None) as Hsort.
  { intros cs rs. unfold calls. destruct (rm_tool_calls m) as [ts|]; [|done]. destruct (Hcalls ts eq_refl) as (_ & Hlen & Hts).
    by apply (sort_calls uuids). }
  assert (match rm_content m with Some t => if bool_decide (t = []) then [] else [BText t] | None => [] end = BText <$> option_list (rm_content m)) as ->.
  { destruct (rm_content m) as [t|]; [|done]. by rewrite bool_decide_eq_false_2 by (by apply Htext). }
  destruct (rm_reasoning_text m) as [r|], (rm_content m) as [t|]; try (simpl; apply Hsort).
  destruct (Hsome eq_refl eq_refl) as [ts Ets]. destruct (Hcalls ts Ets) as [Hne _]. cbn [app option_list fmap list_fmap].
  assert (calls ≠ []) as Hne' by (unfold calls; rewrite Ets; by destruct ts).
  clearbody calls. destruct calls as [|b calls]; [done|apply Hsort].
Qed.

(** To the Anthropic format and back a response keeps its text, its reasoning,
    its calls with their ids and arguments, its finish and its token counts;
    the total is recounted as the [u64] sum. *)
Theorem formats_roundtrip uuids resp m fin u :
  cc_choices resp = [mkChoice 0 (Some m) None fin] → cc_usage resp = Some u → carried m →
  (∀ f, fin = Some f → f ∉ [lit "end_turn"; lit "max_tokens"; lit "stop_sequence"; lit "tool_use"]) →
  openai_of_anthropic (anthropic_of_openai uuids resp)
  = mkChatResponse (cc_id resp) (lit "chat.completion") 0 (cc_model resp) (cc_choices resp)
      (Some (mkOpenAiUsage (prompt_tokens u) (completion_tokens u) ((prompt_tokens u + completion_tokens u) mod u64_modulus) None)) None.
Proof using Type.
  intros Hc Hu Hm Hf. unfold anthropic_of_openai. rewrite Hc, Hu. cbn [head mbind option_bind c_message c_finish_reason].
  unfold openai_of_anthropic. cbn [am_content am_usage am_id am_model am_role am_stop_reason input_tokens output_tokens].
  rewrite (sort_message uuids m Hm).
  replace (finish_of_stop <$> (stop_of_finish <$> fin)) with fin by (destruct fin as [f|]; [|done]; cbn; by rewrite finish_back by auto).
  destruct Hm as [Hr Hs _ Hcalls _]. destruct m as [role c ts r op]. cbn in Hr, Hs, Hcalls. subst role op. cbn [rm_content rm_tool_calls rm_reasoning_text].
  assert (∀ o : option str, joined (option_list o) = o) as Hj by by intros [].
  assert (nonempty_opt (default [] ts) = ts) as ->; [|by rewrite !Hj].
  destruct ts as [[|t ts]|]; try done. by destruct (Hcalls [] eq_refl).
Qed.
End Facts.
