(* ===== verification/Dump.v ===== *)
(** * Dumps of requests and responses (the dump modules of proxy/handler.rs and
    proxy/streaming.rs)

    A dump is a directory of its own with the request, the response as the
    backend sent it, what the proxy made of it where that differs, and a
    description.  Writing it is a program over the calls to the file system,
    each of which may fail. *)
From S2P Require Import Prelude Prog Utf8 Json UnixPath Framing Http.

Inductive Fs : Type → Type :=
  | CreateDirAll (path : str) : Fs (result str unit)
  | CreateFile (path : str) : Fs (result str unit)
  | WriteAll (path bytes : str) : Fs (result str unit)     (** to the open file *)
  | Flush (path : str) : Fs (result str unit).
Abbreviation fs A := (prog Fs (result str A)).

(** What one dump is made of. *)
Record Pair := mkPair {
  d_method : str;
  d_uri : str;
  d_request_body : str;
  d_request_content_type : option str;
  d_status : Z;
  d_response_body : str;
  d_response_content_type : option str;
  d_decoded_variant : option str;
}.

Section Dump.
Context `{Serde} (to_lowercase debug_str : str → str) (to_string_pretty : Value → str).

Definition get_extension (content_type : option str) : str :=
  match content_type with
  | Some ct =>
      let ct_lower := to_lowercase ct in
      if contains_sub ct_lower (lit "application/json") then lit "json"
      else if contains_sub ct_lower (lit "application/xml") || contains_sub ct_lower (lit "text/xml") then lit "xml"
      else lit "txt"
  | None => lit "txt"
  end.

(** A body is written as JSON if it is JSON, otherwise as it is. *)
Definition body_parts (body : str) : list str :=
  match from_str body with Some v => [to_string_pretty v; [LF]] | None => [body] end.

Fixpoint write_parts (path : str) (parts : list str) : fs unit :=
  match parts with
  | [] => Ret (Ok ())
  | b :: parts => trigger (WriteAll path b) ;;? write_parts path parts
  end.
Definition put (path : str) (parts : list str) : fs unit :=
  trigger (CreateFile path) ;;? write_parts path parts ;;? trigger (Flush path).

(** [{:?}] of an optional text. *)
Definition debug_option (o : option str) : str :=
  match o with Some s => lit "Some(" ++ debug_str s ++ lit ")" | None => lit "None" end.

Definition variant_note (p : Pair) : str :=
  match d_decoded_variant p with
  | Some v => lit "  Decoded Variant: res." ++ get_extension (d_response_content_type p) ++ lit ".decoded ("
              ++ show_nat (length v) ++ lit " bytes)" ++ [LF]
  | None => []
  end.
Definition meta_str (p : Pair) : str :=
  lit "Request:" ++ [LF] ++ lit "  Method: " ++ d_method p ++ [LF] ++ lit "  URI: " ++ d_uri p ++ [LF]
  ++ lit "  Content-Type: " ++ debug_option (d_request_content_type p) ++ [LF]
  ++ lit "  Body Size: " ++ show_nat (length (d_request_body p)) ++ lit " bytes" ++ [LF] ++ [LF]
  ++ lit "Response:" ++ [LF] ++ lit "  Status: " ++ show_Z (d_status p) ++ [LF]
  ++ lit "  Content-Type: " ++ debug_option (d_response_content_type p) ++ [LF]
  ++ lit "  Body Size: " ++ show_nat (length (d_response_body p)) ++ lit " bytes" ++ [LF] ++ variant_note p.

(** [request_id]: a random UUID. *)
Definition dump_request_response (dump_path request_id : str) (p : Pair) : fs unit :=
  let request_dir := join_paths dump_path request_id in
  trigger (CreateDirAll request_dir) ;;?
  let req_ext := get_extension (d_request_content_type p) in
  let res_ext := get_extension (d_response_content_type p) in
  put (join_paths request_dir (lit "req." ++ req_ext)) (body_parts (d_request_body p)) ;;?
  put (join_paths request_dir (lit "res." ++ res_ext)) (body_parts (d_response_body p)) ;;?
  (match d_decoded_variant p with
   | Some variant => put (join_paths request_dir (lit "res." ++ res_ext ++ lit ".decoded")) [variant]
   | None => Ret (Ok ())
   end) ;;?
  put (join_paths request_dir (lit "meta.txt")) [meta_str p].

(** Its sibling in proxy/streaming.rs, which has no variant to write. *)
Definition stream_dump_request_response (dump_path request_id method uri request_body : str) (request_content_type : option str)
    (status : Z) (response_body : str) (response_content_type : option str) : fs unit :=
  dump_request_response dump_path request_id
    (mkPair method uri request_body request_content_type status response_body response_content_type None).
End Dump.

(** ** What is dumped *)
Section Inputs.
Context `{Serde, HeaderText}.

(** Of a buffered response; [headers] are the backend's. *)
Definition buffered_pair (method uri : str) (request_json : option Value) (headers : HeaderMap) (status : Z)
    (raw_body_bytes final_body : str) (body_decoded : bool) : option Pair :=
  req_json ← request_json;
  let content_type := header_get (lit "content-type") headers ≫= to_str in
  Some (mkPair method uri (to_string req_json) content_type status raw_body_bytes content_type
    (if body_decoded || negb (bool_decide (final_body = raw_body_bytes)) then Some final_body else None)).

(** Of a stream: exists only when every input is there. *)
Record StreamDump := mkStreamDump {
  sd_path : str;
  sd_response_content_type : option str;
  sd_method : str;
  sd_uri : str;
  sd_request_json : Value;
  sd_backend_request_body : option str;
  sd_status : Z;
}.
Definition stream_dump (dump_path request_method request_uri : option str) (request_json : option Value)
    (headers : HeaderMap) (backend_request_body : option str) (response_status : Z) : option StreamDump :=
  path ← dump_path; method ← request_method; uri ← request_uri; parsed ← request_json;
  Some (mkStreamDump path (header_get (lit "content-type") headers ≫= to_str) method uri parsed backend_request_body
    response_status).
(** The task of [spawn_dump]. *)
Definition spawn_dump (to_lowercase debug_str : str → str) (to_string_pretty : Value → str) (request_id : str) (d : StreamDump)
    (final_event : Value) : fs unit :=
  stream_dump_request_response to_lowercase debug_str to_string_pretty (sd_path d) request_id (sd_method d) (sd_uri d)
    (default (to_string (sd_request_json d)) (sd_backend_request_body d)) (Some (lit "application/json")) (sd_status d)
    (to_string final_event) (sd_response_content_type d).
End Inputs.

(** ** A preview for the log *)
Definition json_preview (to_string_pretty : Value → str) (value : Value) : str :=
  match value with
  | VObject m =>
      to_string_pretty (VObject ((λ e, match e.2 with
                                       | VObject _ | VArray _ => (e.1, VString (lit "[object]"))
                                       | _ => e
                                       end) <$> m))
  | _ => to_string_pretty value
  end.

(** * Facts *)

(** What a file was handed since it was created, and whether a flush has said
    that all of it is there; until then some beginning of it is. *)
Record File := mkFile { handed : str; settled : bool }.
Abbreviation Disk := (gmap str File).
Definition touch (X : Type) (e : Fs X) (x : X) (d : Disk) : Disk :=
  match e in Fs X return X → Disk with
  | CreateDirAll _ => λ _, d
  | CreateFile p => λ r, match r with Ok _ => <[p := mkFile [] true]> d | Err _ => d end
  | WriteAll p b => λ _, alter (λ f, mkFile (handed f ++ b) false) p d
  | Flush p => λ r, alter (λ f, mkFile (handed f) (match r with Ok _ => true | Err _ => false end)) p d
  end x.

(** The files [ws] are whole and nothing else has changed since [d0]. *)
Definition written (d0 : Disk) (ws : list (str * str)) (d : Disk) : Prop :=
  (∀ p, p ∉ ws.*1 → d !! p = d0 !! p) ∧ ∀ p b, (p, b) ∈ ws → d !! p = Some (mkFile b true).
(** A dump given up on: its files [ws] are as they were, or begin as they should. *)
Definition left_behind (d0 : Disk) (ws : list (str * str)) (d : Disk) : Prop :=
  (∀ p, p ∉ ws.*1 → d !! p = d0 !! p) ∧
  ∀ p, p ∈ ws.*1 → d !! p = d0 !! p ∨ ∃ f b, d !! p = Some f ∧ (p, b) ∈ ws ∧ handed f `prefix_of` b.

Lemma written_left_behind d0 ws ws' d : written d0 ws d → left_behind d0 (ws ++ ws') d.
Proof.
  intros [Ho Hw]. split; intros p Hp; rewrite fmap_app in Hp.
  - apply Ho. set_solver.
  - apply elem_of_app in Hp as [([p' b] & -> & Hin)%list_elem_of_fmap|Hp].
    + right. exists (mkFile b true), b. cbn. split_and!; [by apply Hw|set_solver|done].
    + destruct (decide (p ∈ ws.*1)) as [([p' b] & -> & Hin)%list_elem_of_fmap|Hn]; [|left; by apply Ho].
      right. exists (mkFile b true), b. cbn. split_and!; [by apply Hw|set_solver|done].
Qed.

Lemma wp_write_parts (path : str) (parts : list str) (s0 : Disk) (b : str) (Q : result str unit → Disk → Prop) (d : Disk) st :
  d !! path = Some (mkFile b st) → (∀ p, p ≠ path → d !! p = s0 !! p) →
  (∀ d', (∃ st', d' !! path = Some (mkFile (b ++ concat parts) st')) → (∀ p, p ≠ path → d' !! p = s0 !! p) → Q (Ok ()) d') →
  (∀ e d' b' st', d' !! path = Some (mkFile b' st') → b' `prefix_of` b ++ concat parts →
     (∀ p, p ≠ path → d' !! p = s0 !! p) → Q (Err e) d') →
  wp touch (write_parts path parts) Q d.
Proof.
  revert d b st. induction parts as [|x parts IH]; intros d b st Hd Ho Hok Herr; cbn.
  - apply Hok; [|done]. exists st. by rewrite app_nil_r.
  - intros r. cbn in *. rewrite app_assoc in Hok, Herr.
    assert (∀ p, p ≠ path → alter (λ f, mkFile (handed f ++ x) false) path d !! p = s0 !! p) as Ho'
      by (intros p Hp; rewrite lookup_alter_ne by done; by apply Ho).
    assert (alter (λ f, mkFile (handed f ++ x) false) path d !! path = Some (mkFile (b ++ x) false)) as Hd'
      by by rewrite lookup_alter_eq, Hd.
    destruct r as [[]|e]; cbn; [by eapply IH|]. eapply Herr; [done|by apply prefix_app_r|done].
Qed.

Lemma left_behind_more d0 ws ws' d : left_behind d0 ws d → left_behind d0 (ws ++ ws') d.
Proof.
  intros [Ho Hw]. split; intros p Hp; rewrite fmap_app in Hp.
  - apply Ho. set_solver.
  - destruct (decide (p ∈ ws.*1)) as [Hin|Hn]; [|left; by apply Ho].
    destruct (Hw p Hin) as [?|(f & b & ? & ? & ?)]; [by left|right; exists f, b]. set_solver.
Qed.

(** One more file. *)
Lemma wp_put (d0 d : Disk) (ws : list (str * str)) (path : str) (parts : list str) (Q : result str unit → Disk → Prop) :
  written d0 ws d → path ∉ ws.*1 →
  (∀ d', written d0 (ws ++ [(path, concat parts)]) d' → Q (Ok ()) d') →
  (∀ e d', left_behind d0 (ws ++ [(path, concat parts)]) d' → Q (Err e) d') →
  wp touch (put path parts) Q d.
Proof.
  intros Hwr Hn Hok Herr. pose proof Hwr as [Ho Hw].
  assert (∀ d' f, (∀ p, p ≠ path → d' !! p = d !! p) → d' !! path = Some f → handed f `prefix_of` concat parts →
    left_behind d0 (ws ++ [(path, concat parts)]) d') as Hleft.
  { intros d' f Hd' Hf Hpre. split; intros p Hp; rewrite fmap_app in Hp; cbn in Hp.
    - rewrite Hd' by set_solver. apply Ho. set_solver.
    - destruct (decide (p = path)) as [->|Hne]; [right; exists f, (concat parts); set_solver|].
      destruct (written_left_behind d0 ws [(path, concat parts)] d Hwr) as [_ Hl]. rewrite Hd' by done. apply Hl. rewrite fmap_app. set_solver. }
  unfold put, tbind. cbn. intros [[]|e]; cbn; [|by apply Herr, written_left_behind].
  apply wp_bind. eapply (wp_write_parts path parts d []); [by rewrite lookup_insert_eq|intros; by rewrite lookup_insert_ne|..].
  - intros d' [st Hd'] Hoth r. cbn. destruct r as [[]|e]; cbn.
    + apply Hok. split.
      * intros p Hp. rewrite fmap_app in Hp. cbn in Hp. rewrite lookup_alter_ne, Hoth by set_solver. apply Ho. set_solver.
      * intros p b [Hin|[= -> ->]%list_elem_of_singleton]%elem_of_app.
        -- assert (p ≠ path) by (intros ->; apply Hn; apply list_elem_of_fmap; by exists (path, b)).
           rewrite lookup_alter_ne, Hoth by done. by apply Hw.
        -- by rewrite lookup_alter_eq, Hd'.
    + eapply Herr, Hleft; [|by rewrite lookup_alter_eq, Hd'|done]. intros p Hp. rewrite lookup_alter_ne by done. by apply Hoth.
  - intros e d' b' st' Hd' Hpre Hoth. cbn. by eapply Herr, Hleft.
Qed.

Definition whole (e : str * list str) : str * str := (e.1, concat e.2).
(** Files one after the other, until one fails. *)
Fixpoint put_all (e : str * list str) (es : list (str * list str)) : fs unit :=
  match es with [] => put e.1 e.2 | e' :: es => put e.1 e.2 ;;? put_all e' es end.

Lemma wp_put_all (d0 d : Disk) (ws : list (str * str)) (e : str * list str) (es : list (str * list str))
    (Q : result str unit → Disk → Prop) :
  NoDup (ws ++ (whole <$> e :: es)).*1 → written d0 ws d →
  (∀ d', written d0 (ws ++ (whole <$> e :: es)) d' → Q (Ok ()) d') →
  (∀ err d', left_behind d0 (ws ++ (whole <$> e :: es)) d' → Q (Err err) d') →
  wp touch (put_all e es) Q d.
Proof.
  revert d ws e. induction es as [|e' es IH]; intros d ws e Hnd Hw Hok Herr; cbn [put_all].
  - eapply wp_put; [exact Hw| |done..]. rewrite fmap_app in Hnd. apply NoDup_app in Hnd as (_ & Hn & _).
    intros Hin. by apply (Hn _ Hin), list_elem_of_here.
  - rewrite (fmap_cons whole e), (cons_middle (whole e) ws) in Hnd, Hok, Herr. apply wp_bind. eapply wp_put; [exact Hw| |..].
    + rewrite fmap_app in Hnd. apply NoDup_app in Hnd as (_ & Hn & _). intros Hin. apply (Hn _ Hin), list_elem_of_here.
    + intros d' Hd'. by eapply (IH d' (ws ++ [whole e])); rewrite <- ?app_assoc.
    + intros err d' Hl. apply Herr. rewrite app_assoc. by apply left_behind_more.
Qed.

Section DumpFacts.
Context `{Serde} (to_lowercase debug_str : str → str) (to_string_pretty : Value → str).

(** The files of a dump, each with what it holds. *)
Definition dump_parts (p : Pair) : list (str * list str) :=
  let req_ext := get_extension to_lowercase (d_request_content_type p) in
  let res_ext := get_extension to_lowercase (d_response_content_type p) in
  [(lit "req." ++ req_ext, body_parts to_string_pretty (d_request_body p));
   (lit "res." ++ res_ext, body_parts to_string_pretty (d_response_body p))]
  ++ match d_decoded_variant p with Some v => [(lit "res." ++ res_ext ++ lit ".decoded", [v])] | None => [] end
  ++ [(lit "meta.txt", [meta_str to_lowercase debug_str p])].
Definition dump_files (dump_path request_id : str) (p : Pair) : list (str * str) :=
  whole <$> (prod_map (join_paths (join_paths dump_path request_id)) id <$> dump_parts p).

Lemma join_relative dir n : is_absolute n = false →
  join_paths dir n = (if bool_decide (dir = []) || ends_with dir (lit "/") then dir else dir ++ lit "/") ++ n.
Proof using Type. unfold join_paths. intros ->. case_match; [done|]. by rewrite <- app_assoc. Qed.

Lemma dump_files_distinct dump_path request_id p : NoDup (dump_files dump_path request_id p).*1.
Proof.
  unfold dump_files, dump_parts. set (e1 := get_extension _ (d_request_content_type p)). set (e2 := get_extension _ _).
  assert (Forall (λ n, is_absolute n = false) [lit "req." ++ e1; lit "res." ++ e2; lit "res." ++ e2 ++ lit ".decoded"; lit "meta.txt"]) as Hr
    by by repeat constructor.
  assert (∀ l, l ⊆ [lit "req." ++ e1; lit "res." ++ e2; lit "res." ++ e2 ++ lit ".decoded"; lit "meta.txt"] → NoDup l →
    NoDup (join_paths (join_paths dump_path request_id) <$> l)) as Hnd.
  { intros l Hl Hd. eapply NoDup_fmap_2_strong; [|done]. intros x y Hx Hy. rewrite Forall_forall in Hr.
    rewrite (join_relative _ x), (join_relative _ y) by (apply Hr; by apply Hl). by intros ?%app_inv_head. }
  assert (lit "res." ++ e2 ≠ lit "res." ++ e2 ++ lit ".decoded") as Hne.
  { intros E%app_inv_head. rewrite <- (app_nil_r e2) in E at 1. by apply app_inv_head in E. }
  assert (∀ x (l : list str), Forall (x ≠.) l → x ∉ l) as Hnotin by (intros x l Hl Hin; by eapply Forall_forall in Hl).
  destruct (d_decoded_variant p).
  - apply (Hnd [lit "req." ++ e1; lit "res." ++ e2; lit "res." ++ e2 ++ lit ".decoded"; lit "meta.txt"]); [done|].
    repeat (apply NoDup_cons_2; [apply Hnotin; by repeat constructor|]). by constructor.
  - apply (Hnd [lit "req." ++ e1; lit "res." ++ e2; lit "meta.txt"]); [set_solver|].
    repeat (apply NoDup_cons_2; [apply Hnotin; by repeat constructor|]). by constructor.
Qed.

(** A dump touches no file but its own, which are four at most; when it says it
    is done, the request, the answer as the backend sent it, the variant and the
    description are there, each whole; when it gives up, whatever it has left of
    them begins as it should. *)
Theorem dump_right dump_path request_id p d0 :
  wp touch (dump_request_response to_lowercase debug_str to_string_pretty dump_path request_id p) (λ r d,
    match r with
    | Ok _ => written d0 (dump_files dump_path request_id p) d
    | Err _ => left_behind d0 (dump_files dump_path request_id p) d
    end) d0.
Proof.
  pose proof (dump_files_distinct dump_path request_id p) as Hnd. unfold dump_request_response.
  assert (written d0 [] d0) as H0 by (split; set_solver).
  intros [[]|e]; cbn [tbind mbind prog_bind bind trigger]; [|by apply (written_left_behind d0 [])].
  set (file := prod_map (join_paths (join_paths dump_path request_id)) (@id (list str))).
  destruct p as [me u rb rc st sb sc v].
  set (req := (lit "req." ++ get_extension to_lowercase rc, body_parts to_string_pretty rb)).
  destruct v as [v|]; refine (wp_put_all d0 d0 [] (file req) (file <$> tail (dump_parts _)) _ Hnd H0 _ _); by intros.
Qed.

(** Two dumps have no file in common. *)
Lemma dumps_apart dump_path id1 id2 p1 p2 :
  id1 ≠ [] → id2 ≠ [] → "/"%char ∉ id1 → "/"%char ∉ id2 → id1 ≠ id2 →
  (dump_files dump_path id1 p1).*1 ## (dump_files dump_path id2 p2).*1.
Proof.
  intros Hn1 Hn2 Hs1 Hs2 Hne.
  assert (∀ i p q, i ≠ [] → "/"%char ∉ i → q ∈ (dump_files dump_path i p).*1 → ∃ n, q = join_paths dump_path [] ++ i ++ "/"%char :: n) as Hpath.
  { intros i p q Hi Hs Hq. unfold dump_files in Hq. rewrite <- !list_fmap_compose in Hq. apply list_elem_of_fmap in Hq as (e & -> & He).
    assert (is_absolute i = false) as Ha by (destruct i as [|c i]; [done|]; cbn; repeat case_match; subst; set_solver).
    assert (is_absolute e.1 = false) as He1.
    { unfold dump_parts in He. destruct (d_decoded_variant p); set_unfold in He; naive_solver. }
    exists e.1. change ((fst ∘ whole ∘ _) e) with (join_paths (join_paths dump_path i) e.1). rewrite (join_relative _ e.1), (join_relative _ i), (join_relative _ []) by done.
    rewrite app_nil_r. set (pre := if _ || _ then dump_path else _). clearbody pre.
    replace (bool_decide (pre ++ i = []) || ends_with (pre ++ i) (lit "/")) with false; [by rewrite <- !app_assoc|].
    symmetry. apply orb_false_iff. split; [apply bool_decide_eq_false; intros [_ ?]%app_nil; done|].
    apply not_true_is_false. rewrite ends_with_spec. intros [k E]. destruct i as [|c i _] using rev_ind; [done|].
    rewrite app_assoc in E. apply app_inj_tail in E as [_ ->]. set_solver. }
  intros q (n1 & E1)%(Hpath id1 p1 q Hn1 Hs1) (n2 & E2)%(Hpath id2 p2 q Hn2 Hs2).
  rewrite E1 in E2. apply app_inv_head in E2. apply (f_equal (split_char "/"%char)) in E2.
  rewrite !split_char_app, (split_char_clean _ id1), (split_char_clean _ id2) in E2 by done. by injection E2.
Qed.
End DumpFacts.

(** The request of a buffered dump is filed under the content type of the
    answer: a JSON request answered in plain text is told to be plain text. *)
Lemma buffered_request_mislabelled `{Serde, HeaderText} method uri v headers status raw final decoded p :
  buffered_pair method uri (Some v) headers status raw final decoded = Some p →
  d_request_content_type p = d_response_content_type p.
Proof. unfold buffered_pair. cbn. by intros [= <-]. Qed.
