(* ===== verification/MetricsText.v ===== *)
(** * The counters and what /proxy/metrics prints of them (llama-proxy/src/proxy/handler.rs, [route])

    One constructor per cell the scrape loads, in its order, and the text in the
    Prometheus exposition format: three lines a family. *)
From S2P Require Import Prelude Utf8.

Inductive Counter :=
  | BackendStreamingFallbackHits
  | ConcurrentRequests
  | RejectedRequests
  | OpenaiStreamPassthrough
  | BackendNonsseWhenStreamed
  | AnthropicBufferedResponses
  | PassthroughStreams
  | SseEvents
  | SseUnparsedEvents
  | StreamTruncatedTotal
  | StreamStalledTotal
  | StreamClientGoneTotal
  | FixUnrepaired
  | StreamCompressed
  | ExportsSkipped
  | ContextCacheStaleSkips
  | VramEstimateServed
  | VramEstimateUnknown
  | ContextProbeTimeout
  | RepromptSkippedReadOnly
  | RepromptTriggered
  | RepromptExhausted
  | ContextCacheEvictions
  | PrefillImplausible.
#[export] Instance Counter_eq_dec : EqDecision Counter.
Proof. solve_decision. Defined.

Record Family := mkFamily { shows : Counter; kind : str; metric_name : str; help : str }.
Definition counter (c : Counter) (name help : String.string) : Family := mkFamily c (lit "counter") (lit name) (lit help).
Definition gauge (c : Counter) (name help : String.string) : Family := mkFamily c (lit "gauge") (lit name) (lit help).
Arguments counter c (name help)%_string.
Arguments gauge c (name help)%_string.

Definition FAMILIES : list Family := [
  counter BackendStreamingFallbackHits "llama_proxy_backend_streaming_fallback_total"
    "Times the backend streamed although the proxy requested stream:false. The expected path in passthrough mode is NOT counted here.";
  gauge ConcurrentRequests "llama_proxy_concurrent_requests"
    "Current in-flight requests";
  counter RejectedRequests "llama_proxy_rejected_requests_total"
    "Requests rejected at capacity";
  counter OpenaiStreamPassthrough "llama_proxy_openai_stream_passthrough_total"
    "OpenAI requests routed onward with stream:true intact. Counted at the routing decision, so it moves even with stats.enabled: false - use this as the passthrough mode probe.";
  counter BackendNonsseWhenStreamed "llama_proxy_backend_nonsse_when_streamed_total"
    "Passthrough asked for stream:true and the backend answered 2xx with JSON instead of text/event-stream. The backend does not stream; the proxy is not at fault.";
  counter AnthropicBufferedResponses "llama_proxy_anthropic_buffered_responses_total"
    "/v1/messages responses served buffered with synthesized SSE under streaming: passthrough. The log notice fires once per process; this keeps counting.";
  counter PassthroughStreams "llama_proxy_passthrough_streams_total"
    "Pass-through SSE responses framed by the proxy; denominator for the ratios below. Requires accumulation (stats.enabled or dump), unlike openai_stream_passthrough_total. Excludes compressed responses.";
  counter SseEvents "llama_proxy_passthrough_sse_events_total"
    "SSE events framed on those streams. Counted only while accumulation is on (stats.enabled or dump).";
  counter SseUnparsedEvents "llama_proxy_passthrough_sse_unparsed_events_total"
    "Framed SSE events whose data payload was not valid JSON, forwarded verbatim and unanalyzed. Denominator: passthrough_sse_events_total.";
  counter StreamTruncatedTotal "llama_proxy_passthrough_stream_truncated_total"
    "Streams where the backend ended without [DONE]/message_stop. Denominator: passthrough_streams_total.";
  counter StreamStalledTotal "llama_proxy_passthrough_stream_stalled_total"
    "Streams the stats observer gave up on after 90s without a chunk. The client transfer is not cut by this. Denominator: passthrough_streams_total.";
  counter StreamClientGoneTotal "llama_proxy_passthrough_stream_client_gone_total"
    "Streams where the client disconnected before completion. Normal, not a defect; counted so truncation can be read against real traffic.";
  counter FixUnrepaired "llama_proxy_passthrough_fix_unrepaired_total"
    "Fix detections reported and NOT repaired. Detections, not responses - one response can add several. Denominator: passthrough_streams_total.";
  counter StreamCompressed "llama_proxy_passthrough_compressed_responses_total"
    "Responses bypassed entirely because Content-Encoding was not identity. Not counted in any other passthrough_* metric.";
  counter ExportsSkipped "llama_proxy_metrics_export_skipped_total"
    "Metric samples excluded from every exporter because the backend reported no token count and no rate: a stream the client abandoned before usage/timings arrived, or a backend error body. They are logged at WARN instead. Spans the buffered and pass-through paths, and is NOT the same as passthrough_stream_client_gone_total - a client-gone stream that did carry usage is exported and is not counted here. Remote token totals under-count backend work by this amount.";
  counter ContextCacheStaleSkips "llama_proxy_context_cache_stale_skips_total"
    "Context-cache refreshes skipped because the write lock was held when a fresh value arrived; the cache keeps its previous value, so context_total can read stale. Not a defect signal on its own - it explains context_percent jumps. Spans the buffered and pass-through paths.";
  counter VramEstimateServed "llama_proxy_vram_estimate_served_total"
    "POST /api/models/vram-estimate requests the proxy answered itself instead of forwarding a 404. The success path logs at debug, so this counter is the only operator-visible proof the shim is working.";
  counter VramEstimateUnknown "llama_proxy_vram_estimate_unknown_total"
    "Same endpoint, answered with the proxy's own 404 because the backend advertised no context window on /props or /v1/models. The client then falls back to its own default window; this is the number that says so.";
  counter ContextProbeTimeout "llama_proxy_context_probe_timeout_total"
    "Request-path context probes that hit the 2s bound because the backend accepted /props or /v1/models and never replied in time. The response is no longer delayed by this; the counter says how often it would have been. Resets on restart.";
  counter RepromptSkippedReadOnly "llama_proxy_reprompt_skipped_read_only_total"
    "Requests the reprompt engine declined because they expose no mutating tool (read-only subagent). The skip logs at debug, so this counter is the only operator-visible signal of it.";
  counter RepromptTriggered "llama_proxy_reprompt_triggered_total"
    "Premature stops (finish_reason=stop, no tool_calls) the reprompt engine acted on by entering its retry loop. Includes loops that later exhausted.";
  counter RepromptExhausted "llama_proxy_reprompt_exhausted_total"
    "Reprompt loops that ran out of rounds or the wall-clock budget and returned the collected text unchanged. A subset of reprompt_triggered_total.";
  counter ContextCacheEvictions "llama_proxy_context_cache_evictions_total"
    "Times a cached context window was evicted because its backend was marked failed, so the next request re-probes the (possibly restarted) backend instead of serving a stale window. Fast path for a backend restarted with a new -c; the cache TTL is the backstop. Resets on restart.";
  counter PrefillImplausible "llama_proxy_stats_prefill_implausible_total"
    "Exported samples whose prefill rate exceeded stats.max_plausible_prefill_tps (default 50000 tok/s; 0 or negative disables the canary ENTIRELY, counter included — this is not a log-only mute; and a threshold set ABOVE your engine's real rate never fires at all, which is a third way a zero is not evidence of health, alongside the sampling and stats-off cases named below). Counted exactly, but only the first occurrence and then one in a fixed interval emit a WARN, and that interval is printed on the WARN line itself, so the absence of log lines is not evidence of health. A CANARY, not a fault counter: a full prefix-cache hit is counted with its prefix un-discounted by design and trips it legitimately, and a threshold set below your engine's real prefill rate trips on healthy traffic forever. Unlike llama_proxy_metrics_export_skipped_total, a sample counted here WAS exported and WAS printed at INFO — only the WARN line is sampled. Counts only while the stats path runs, which means stats.enabled: true — with stats off the sample is never built, so the counter sits at zero and that silence is NOT evidence of health. Resets on restart; never exported to InfluxDB."].

Definition NEWLINE : ascii := ascii_of_nat 10.

(** The gauge counts the scrape itself, which is discounted. *)
Definition shown (load : Counter → Z) (c : Counter) : Z :=
  if decide (c = ConcurrentRequests) then Z.max 0 (load c - 1) else load c.

Definition family_lines (load : Counter → Z) (f : Family) : list str := [
  lit "# HELP " ++ metric_name f ++ lit " " ++ help f;
  lit "# TYPE " ++ metric_name f ++ lit " " ++ kind f;
  metric_name f ++ lit " " ++ show_Z (shown load (shows f))].
Definition metrics_text (load : Counter → Z) : str :=
  concat ((λ line, line ++ [NEWLINE]) <$> (FAMILIES ≫= family_lines load)).

(** ** How a scraper reads it *)
Definition words (line : str) : list str := split_char " "%char line.
Definition sample (line : str) : option (str * str) :=
  match words line with
  | [name; value] => Some (name, value)
  | _ => None
  end.
Definition declaration (line : str) : option (str * str) :=
  match words line with
  | [hash; what; name; kind] => if decide (hash = lit "#" ∧ what = lit "TYPE") then Some (name, kind) else None
  | _ => None
  end.
Definition is_sample (line : str) : bool := negb (bool_decide (head line = Some "#"%char)).
Definition lines_of_text (text : str) : list str := split_char NEWLINE text.
Definition samples (text : str) : list (str * str) :=
  omap (λ l, if is_sample l then sample l else None) (lines_of_text text).
Definition declarations (text : str) : list (str * str) := omap declaration (lines_of_text text).

(** * Facts *)
Definition family_ok (f : Family) : Prop :=
  NEWLINE ∉ metric_name f ∧ NEWLINE ∉ help f ∧ NEWLINE ∉ kind f ∧ " "%char ∉ metric_name f
  ∧ (∀ v, is_sample (metric_name f ++ v) = true) 
  ∧ declaration (lit "# HELP " ++ metric_name f ++ lit " " ++ help f) = None
  ∧ declaration (lit "# TYPE " ++ metric_name f ++ lit " " ++ kind f) = Some (metric_name f, kind f).
Lemma families_ok : Forall family_ok FAMILIES.
Proof.
  repeat (apply Forall_cons; split; [repeat split; try vm_decide; try (intros v; reflexivity); vm_compute; reflexivity|]).
  apply Forall_nil_2.
Qed.

Lemma show_Z_no (c : ascii) z : (∀ n, pretty_N_char n ≠ c) → c ≠ "-"%char → c ∉ show_Z z.
Proof.
  intros Hc Hm Hin.
  assert (Forall (λ d, d ≠ c) (show_Z z)) as Hf.
  { unfold show_Z, pretty, pretty_Z. destruct z as [|p|p]; [by repeat constructor; apply (Hc 0%N)|by apply (show_N_Forall _ (Npos p))|].
    apply (Forall_cons _ "-"%char). split; [done|by apply (show_N_Forall _ (Npos p))]. }
  by apply (proj1 (Forall_forall _ _) Hf c Hin).
Qed.
Lemma show_Z_newline z : NEWLINE ∉ show_Z z.
Proof. apply show_Z_no; [|done]. intros n. unfold pretty_N_char. by repeat case_match. Qed.
Lemma show_Z_blank z : " "%char ∉ show_Z z.
Proof. apply show_Z_no; [|done]. intros n. unfold pretty_N_char. by repeat case_match. Qed.

Lemma lines_come_apart ls :
  Forall (λ l, NEWLINE ∉ l) ls → lines_of_text (concat ((λ l, l ++ [NEWLINE]) <$> ls)) = ls ++ [[]].
Proof.
  unfold lines_of_text. induction 1 as [|l ls Hl _ IH]; [done|]. cbn [fmap list_fmap concat]. rewrite <- app_assoc. cbn [app].
  by rewrite split_char_cut, IH.
Qed.

Lemma family_one_line load f : family_ok f → Forall (λ l, NEWLINE ∉ l) (family_lines load f).
Proof.
  intros (Hn & Hh & Hk & _). pose proof (show_Z_newline (shown load (shows f))).
  assert (NEWLINE ∉ lit "# HELP ") by vm_decide. assert (NEWLINE ∉ lit "# TYPE ") by vm_decide. assert (NEWLINE ∉ lit " ") by vm_decide.
  repeat constructor; rewrite !not_elem_of_app; tauto.
Qed.

Lemma read_family load f :
  family_ok f →
  omap (λ l, if is_sample l then sample l else None) (family_lines load f) = [(metric_name f, show_Z (shown load (shows f)))] ∧
  omap declaration (family_lines load f) = [(metric_name f, kind f)].
Proof.
  intros (_ & _ & _ & Hb & Hs & Hh & Ht).
  assert (words (metric_name f ++ lit " " ++ show_Z (shown load (shows f))) = [metric_name f; show_Z (shown load (shows f))]) as Hw.
  { unfold words. change (lit " " ++ ?v) with (" "%char :: v). rewrite split_char_cut by done.
    by rewrite split_char_clean by apply show_Z_blank. }
  unfold family_lines. split; cbn [omap list_omap].
  - change (is_sample (lit "# HELP " ++ _)) with false. change (is_sample (lit "# TYPE " ++ _)) with false. cbn iota.
    rewrite Hs. unfold sample. by rewrite Hw.
  - rewrite Hh, Ht. unfold declaration at 1. by rewrite Hw.
Qed.

(** The text of /proxy/metrics read by its format: one sample and one type per
    family, under different names, every counter shown under exactly one of them
    with the count that was loaded, the gauge less the scrape itself. *)
Theorem scrape_reads_back load :
  samples (metrics_text load) = (λ f, (metric_name f, show_Z (shown load (shows f)))) <$> FAMILIES ∧
  declarations (metrics_text load) = (λ f, (metric_name f, kind f)) <$> FAMILIES ∧
  NoDup (metric_name <$> FAMILIES) ∧ NoDup (shows <$> FAMILIES) ∧ (∀ c, c ∈ shows <$> FAMILIES).
Proof.
  assert (lines_of_text (metrics_text load) = (FAMILIES ≫= family_lines load) ++ [[]]) as E.
  { apply lines_come_apart. apply Forall_forall. intros l (f & Hl & Hf)%list_elem_of_bind.
    eapply (proj1 (Forall_forall _ _) (family_one_line load f (proj1 (Forall_forall _ _) families_ok f Hf))), Hl. }
  unfold samples, declarations. rewrite E. split_and!; [| |vm_decide|vm_decide|intros c; destruct c; vm_decide].
  all: rewrite omap_app; cbn [omap list_omap]; rewrite app_nil_r; clear E; pose proof families_ok as Hok.
  all: induction Hok as [|f fs Hf _ IH]; [done|]; cbn [mbind list_bind]; rewrite omap_app, IH.
  - by rewrite (proj1 (read_family load f Hf)).
  - by rewrite (proj2 (read_family load f Hf)).
Qed.
