(* ===== verification/Handler.v ===== *)
(** * The request handler (llama-proxy/src/proxy/handler.rs)

    [handle] takes a request from the moment its body is read to the response,
    as a program over the events it hands to the rest of the world: the
    balancer, the capacity semaphore, the backend, the counters, the metrics.
    The configuration and the nodes' own configuration are fixed.  A [None]
    result is a panic.  The local destructors are written out where they run:
    [scoped] drops a claim or permit at the end of its scope unless the
    response took it along. *)
From S2P Require Import KvLabels Compat MetricsText.
From S2P Require Import Prelude Node Balancer Json FixTypes StreamPass Augment Anthropic Wire Http Decode Rewrite Prog.
From S2P Require Config Synthesis Dump RequestLog.

(** ** What passes by *)
Record Request := mkRequest {
  req_method : str;
  req_path : str;
  req_query : option str;
  req_headers : list (str * str);
}.

Record BackendRequest := mkSend {
  send_method : str;
  send_url : str;
  send_headers : list (str * str);
  send_body : str;
}.

(** A backend's answer: its head, and what its body will yield. *)
Record BackendResponse := mkAnswered {
  bk_status : StatusCode;
  bk_headers : list (str * str);
  bk_stream : list Item;
}.

Inductive Ev : Type → Type :=
  | GaugeAdd (k : Z) : Ev unit                                  (** [concurrent_requests] *)
  | ReadBody (cap : Z) : Ev (result str str)
  | Select (model : option str) : Ev (result NoMatchingBackend BackendGuard)
  | DropGuard (g : BackendGuard) : Ev unit
  | TryAcquire : Ev bool
  | ReleasePermit : Ev unit
  | Count (c : Counter) : Ev unit
  | GetAugmentation (content : str) : Ev (result str str)
  | LoadRequestPrompt : Ev (result str str)
  | Send (node : NodeRef) (r : BackendRequest) : Ev (result str BackendResponse)
  | MarkFailed (node : NodeRef) (cooldown : Duration) : Ev unit
  | MarkHealthy (node : NodeRef) : Ev unit
  | InvalidateContext (url : str) : Ev unit
  | DecodeWorker : Ev (option str)                              (** the error of a lost decode task *)
  | MaybeReprompt (response request : Value) (node : NodeRef) : Ev (option Value)
  | EmitMetrics (json : option Value) : Ev unit
  | SpawnDump (pair : Dump.Pair) : Ev unit                      (** a task of its own *)
  | LogInfo (text : str) : Ev unit                              (** what a log line of the request path says *)
  | ProbeVram (node : NodeRef) : Ev (option Z * option KvLabels.KvCacheInfo)
  | LoadCounters : Ev (Counter → Z)                             (** the relaxed loads of a scrape *)
  | Now : Ev Z
  | Uuids : Ev (nat → str).

Abbreviation handler A := (prog Ev A).

(** ** Replies *)
Inductive BodyStream :=
  | VerbatimBody (script : list Item)
  | FramedBody (st : StreamPassState)
  | OpenaiEvents (cs : list Synthesis.Chunk)
  | AnthropicEvents (fs : list Synthesis.SseFrame).

(** A streamed body keeps the permit and the claim it was given until it ends. *)
Inductive Reply :=
  | Full (r : Response)
  | Streamed (s : StatusCode) (hs : list (str * str)) (b : BodyStream) (permit : bool) (guard : option BackendGuard).

Definition reply_status (r : Reply) : StatusCode :=
  match r with Full r => status r | Streamed s _ _ _ _ => s end.
Definition takes_guard (r : option Reply) : bool :=
  match r with Some (Streamed _ _ _ _ (Some _)) => true | _ => false end.
Definition takes_permit (r : option Reply) : bool :=
  match r with Some (Streamed _ _ _ p _) => p | _ => false end.

(** Runs [p], then the destructor unless the reply took the value along. *)
Definition scoped (taken : option Reply → bool) (drop : handler unit) (p : handler (option Reply))
    : handler (option Reply) :=
  r ← p;
  _ ← (if taken r then Ret tt else drop);
  Ret r.

(** Third-party code the handler runs. *)
Class Deps := {
  deps_serde :: Serde;
  deps_text :: HeaderText;
  deps_codecs :: Codecs;
  deps_wire :: WireDeps;
  debug_model : option str → str;                               (** [{:?}] of an [Option<String>] *)
}.

(** What is fixed while the proxy runs. *)
Record Proxy := mkProxy {
  config : Config.AppConfig;
  fix_registry : FixRegistry;
  augmented : bool;                (** an augment backend is configured *)
  reprompting : bool;              (** a reprompt engine is configured *)
  limited : bool;                  (** the semaphore was armed at startup *)
  dumping : bool;
  hide_requests : bool;
  log_augmented_request_text : bool;
  node_config : NodeRef → BackendNode;
}.

Section Handler.
Context `{Deps} (self : Proxy).

Definition full (r : Response) : handler (option Reply) := Ret (Some (Full r)).

(** ** Backend health *)
Definition failure_cooldown (group : option str) : Duration :=
  let secs :=
    match (name ← group; groups ← Config.backends (config self);
           snd <$> list_find (λ e : str * Config.BackendGroupConfig, e.1 = name) groups) with
    | Some (_, g) => Config.gc_failure_cooldown_secs g
    | None => 30%Z
    end in
  (secs * ns_per_sec)%Z.

Definition mark_backend_failed (node : NodeRef) (group : option str) : handler unit :=
  _ ← trigger (MarkFailed node (failure_cooldown group));
  trigger (InvalidateContext (base_url (node_config self node))).

Definition observe_backend_outcome (node : NodeRef) (group : option str) (s : StatusCode) : handler unit :=
  if (s =? 429)%Z || is_server_error s then mark_backend_failed node group
  else if is_success s then trigger (MarkHealthy node)
  else Ret tt.

(** [bytes()]: the whole body, or the error that cut it. *)
Fixpoint read_all (script : list Item) : result str str :=
  match script with
  | [] => Ok []
  | Ok b :: rest => tail ← read_all rest; Ok (b ++ tail)
  | Err e :: _ => Err e
  end.

Definition readable (hs : HeaderMap) (name : String.string) : option str :=
  header_get (lit name) hs ≫= to_str.
Arguments readable hs name%_string.

Definition bad_gateway (kind : String.string) (message : str) : Response :=
  json_response 502 (err_envelope (lit kind) message).
Arguments bad_gateway kind%_string message.

(** ** Monitoring endpoints *)

(** The body of the rebuilt request is in memory: only its size can be refused. *)
Definition to_bytes_full (b : str) (cap : Z) : result str str :=
  if (cap <? Z.of_nat (length b))%Z then Err (lit "length limit exceeded") else Ok b.

(** The headers are added back with [insert]. *)
Definition readd_headers (hs : HeaderMap) : HeaderMap :=
  foldl (λ acc f, header_insert f.1 f.2 acc) [] hs.

Definition passthrough_headers (node : BackendNode) (hs : HeaderMap) : HeaderMap :=
  with_auth (filter (λ f, bool_decide (f.1 = lit "host") || bool_decide (f.1 = lit "authorization") = false) hs) (api_key node).

Definition proxy_passthrough (req : Request) (body_bytes : str) (node : NodeRef) (group : option str)
    : handler (option Reply) :=
  match to_bytes_full body_bytes (1024 * 1024 * 10) with
  | Err e => full (body_read_error e (lit "10 MiB"))
  | Ok body_bytes =>
      let backend := node_config self node in
      answer ← trigger (Send node (mkSend (req_method req) (backend_url backend (req_path req) (req_query req))
        (passthrough_headers backend (readd_headers (req_headers req))) body_bytes));
      match answer with
      | Err e =>
          _ ← mark_backend_failed node group;
          full (bad_gateway "backend_connect_error" (lit "Backend error: " ++ e))
      | Ok resp =>
          _ ← observe_backend_outcome node group (bk_status resp);
          match read_all (bk_stream resp) with
          | Err e => full (bad_gateway "backend_read_error" (lit "Failed to read response: " ++ e))
          | Ok raw_body =>
              worker ← trigger DecodeWorker;
              match decompress_body worker raw_body (readable (bk_headers resp) "content-encoding") with
              | Err e => full (decompress_error_response e)
              | Ok (Decoded b) => full (forward_response (bk_status resp) (bk_headers resp) b true)
              | Ok (Passthrough b) => full (forward_response (bk_status resp) (bk_headers resp) b false)
              end
          end
      end
  end.

Definition handle_vram_estimate (body_bytes : str) (node : NodeRef) : handler (option Reply) :=
  let model := default [] (j ← from_str body_bytes; get j (lit "model") ≫= as_str) in
  probe ← trigger (ProbeVram node);
  match probe with
  | (None, _) =>
      _ ← trigger (Count VramEstimateUnknown);
      full (json_response 404 (err_envelope (lit "vram_estimate_context_unknown")
        (lit "Backend " ++ base_url (node_config self node)
         ++ lit " advertises no context window; cannot estimate for model "
         ++ debug_model (if bool_decide (model = []) then None else Some model))))
  | (Some context_length, kv_info) =>
      _ ← trigger (Count VramEstimateServed);
      full (json_response 200 (build_vram_estimate_body model context_length kv_info))
  end.

Definition is_monitoring_path (routed : str) : bool :=
  existsb (λ p, bool_decide (routed = p))
    (lit <$> ["/props"; "/slots"; "/v1/health"; "/v1/models"; "/metrics"]%string).

(** [None]: not answered here, to be forwarded. *)
Definition route (req : Request) (body_bytes : str) (node : NodeRef) (group : option str)
    : option (handler (option Reply)) :=
  let routed := effective_path (node_config self node) (req_path req) in
  let get := bool_decide (req_method req = lit "GET") in
  if bool_decide (req_method req = lit "POST")
     && (is_vram_estimate_path (req_path req) || is_vram_estimate_path routed)
  then Some (handle_vram_estimate body_bytes node)
  else if get && is_monitoring_path routed then Some (proxy_passthrough req body_bytes node group)
  else if get && bool_decide (routed = lit "/proxy/metrics") then
    Some (load ← trigger LoadCounters;
          full (mkResponse 200 [(lit "content-type", lit "text/plain; version=0.0.4")] (metrics_text load)))
  else None.

(** ** The answer of a completion *)

(** A consuming walk over a header map names only the first value of a field. *)
Fixpoint first_values (seen : list str) (hs : HeaderMap) : HeaderMap :=
  match hs with
  | [] => []
  | (n, v) :: hs' => if decide (n ∈ seen) then first_values seen hs' else (n, v) :: first_values (n :: seen) hs'
  end.

Definition stream_headers (hs : HeaderMap) : HeaderMap :=
  filter (λ f, f.1 ≠ lit "content-length") (first_values [] hs).

(** A body under an encoding of its own cannot be cut into events. *)
Definition content_encoded (resp : BackendResponse) : bool :=
  let content_encoding := default (lit "identity") (readable (bk_headers resp) "content-encoding") in
  negb (bool_decide (to_ascii_lowercase content_encoding = lit "identity")).

Definition handle_streaming_response (resp : BackendResponse) (permit : bool) (guard : BackendGuard)
    : handler (option Reply) :=
  let streamed b := Ret (Some (Streamed (bk_status resp) (stream_headers (bk_headers resp)) b permit (Some guard))) in
  if content_encoded resp then
    _ ← trigger (Count StreamCompressed);
    streamed (VerbatimBody (bk_stream resp))
  else
    let accumulates := Config.st_enabled (Config.stats (config self)) || dumping self in
    _ ← (if accumulates then trigger (Count PassthroughStreams) else Ret tt);
    streamed (FramedBody (pass_new (bk_stream resp) accumulates)).

Definition sse_headers : HeaderMap :=
  [(lit "content-type", lit "text/event-stream"); (lit "cache-control", lit "no-cache")].

Definition chunk_size : nat := Z.to_nat (Config.chunk_size_chars (Config.synthesis (config self))).

(** The stream synthesized from a complete answer; [None] where there is none. *)
Definition synthesized (is_anthropic_api : bool) (json : Value) : handler (option Reply) :=
  if is_anthropic_api then
    match anthropic_message json with
    | Some msg => Ret (Some (Streamed 200 sse_headers
        (AnthropicEvents (synthesize_anthropic_chunks msg chunk_size)) false None))
    | None =>
        now ← trigger Now;
        uuids ← trigger Uuids;
        match Synthesis.convert_openai_to_claude_sse uuids now json chunk_size with
        | [] => full anthropic_sse_error_response
        | fs => Ret (Some (Streamed 200 sse_headers (AnthropicEvents fs) false None))
        end
    end
  else
    now ← trigger Now;
    match Synthesis.synthesize_streaming_response now json chunk_size with
    | Ok cs => Ret (Some (Streamed 200 sse_headers (OpenaiEvents cs) false None))
    | Err _ => Ret None
    end.

Definition reprompted (is_anthropic_api : bool) (request_json parsed : option Value) (node : NodeRef)
    : handler (option (option Value)) :=
  match is_anthropic_api, reprompting self, request_json, parsed with
  | false, true, Some req, Some current =>
      r ← trigger (MaybeReprompt current req node);
      Ret (option_map Some r)
  | _, _, _, _ => Ret (Some parsed)
  end.

Definition fixed_body (request_json : option Value) (json : Value) : option Value :=
  fst <$> match request_json with
          | Some req => apply_fixes_with_context (fix_registry self) json req
          | None => apply_fixes (fix_registry self) json
          end.

(** [Uri] as it prints. *)
Definition uri_text (req : Request) : str :=
  req_path req ++ match req_query req with Some q => lit "?" ++ q | None => [] end.

Definition handle_non_streaming_response (req : Request) (resp : BackendResponse) (request_json : option Value)
    (client_wants_streaming is_anthropic_api : bool) (node : NodeRef) : handler (option Reply) :=
  match read_all (bk_stream resp) with
  | Err e => full (bad_gateway "backend_read_error" (lit "Failed to read backend response: " ++ e))
  | Ok raw_body =>
      worker ← trigger DecodeWorker;
      match decompress_body worker raw_body (readable (bk_headers resp) "content-encoding") with
      | Err e => full (decompress_error_response e)
      | Ok d =>
          let '(body_bytes, body_decoded) :=
            match d with Decoded b => (b, true) | Passthrough b => (b, false) end in
          let content_type := default (lit "unknown") (readable (bk_headers resp) "content-type") in
          let parsed := if is_json_content_type content_type then from_str body_bytes else None in
          o ← reprompted is_anthropic_api request_json parsed node;
          match o ≫= λ json_value, match json_value with
                                   | Some json => Some <$> fixed_body request_json json
                                   | None => Some None
                                   end with
          | None => Ret None
          | Some json_value =>
              _ ← trigger (EmitMetrics json_value);
              let final_body := match json_value with Some json => to_string json | None => body_bytes end in
              _ ← (if dumping self then
                     match Dump.buffered_pair (req_method req) (uri_text req) request_json (bk_headers resp) (bk_status resp)
                             raw_body final_body body_decoded with
                     | Some p => trigger (SpawnDump p)
                     | None => Ret tt
                     end
                   else Ret tt);
              let forwarded := full (forward_response (bk_status resp) (bk_headers resp) final_body body_decoded) in
              match json_value with
              | Some json =>
                  if client_wants_streaming && is_success (bk_status resp) then
                    r ← synthesized is_anthropic_api json;
                    match r with Some reply => Ret (Some reply) | None => forwarded end
                  else forwarded
              | None => forwarded
              end
          end
      end
  end.

(** ** Forwarding a completion *)

(** The augmentation and its prompt; [Err] is the 502 of a failing augment backend. *)
Definition get_augmentation (request_json : option Value) : handler (result Response (option (str * str * str))) :=
  match augmented self, request_json with
  | true, Some req_json =>
      let user_content := extract_user_content_from_json req_json in
      if bool_decide (user_content = []) then Ret (Ok None)
      else
        r ← trigger (GetAugmentation user_content);
        match r with
        | Err e => Ret (Err (bad_gateway "augment_backend_error" (lit "Augment backend error: " ++ e)))
        | Ok aug =>
            if bool_decide (aug = []) then Ret (Ok None)
            else
              p ← trigger LoadRequestPrompt;
              Ret (Ok (Some (aug, match p with Ok p => p | Err _ => [] end, user_content)))
        end
  | _, _ => Ret (Ok None)
  end.

Definition enrich (is_anthropic_api : bool) (body_bytes : str) (request_json : option Value)
    (augmentation : option (str * str * str)) : option str :=
  match augmentation, request_json with
  | Some (aug, request_prompt, _), Some req_json =>
      if is_anthropic_api then
        Some (match anthropic_request req_json with
              | Some r => to_string (of_anthropic_request (inject_into_anthropic r request_prompt aug))
              | None => body_bytes
              end)
      else
        match chat_request req_json with
        | None => Some body_bytes
        | Some openai_req =>
            r ← inject_augmentation openai_req request_prompt aug;
            Some (match r with Ok enriched => to_string (of_chat_request enriched) | Err _ => body_bytes end)
        end
  | _, _ => Some body_bytes
  end.

(** The lines a completion logs on its way out; [None] is a panic. *)
Definition log_request (request_json : option Value) (augmentation : option (str * str * str)) : handler (option unit) :=
  _ ← match log_augmented_request_text self, augmentation with
      | true, Some (aug, request_prompt, original_content) =>
          trigger (LogInfo (lit "Augmented user message text:" ++ [Framing.LF] ++ original_content ++ [Framing.LF; Framing.LF]
            ++ request_prompt ++ [Framing.LF; Framing.LF] ++ aug))
      | _, _ => Ret tt
      end;
  match hide_requests self, request_json with
  | false, Some req_json =>
      match RequestLog.format_request_log req_json with
      | Some line => _ ← trigger (LogInfo line); Ret (Some tt)
      | None => Ret None
      end
  | _, _ => Ret (Some tt)
  end.

Definition forward (req : Request) (body_bytes : str) (request_json : option Value) (is_anthropic_api : bool)
    (permit : bool) (guard : BackendGuard) : handler (option Reply) :=
  let backend := node_config self (node guard) in
  let client_wants_streaming := match request_json with Some j => wants_stream j | None => false end in
  aug ← get_augmentation request_json;
  match aug with
  | Err resp => full resp
  | Ok augmentation =>
      match enrich is_anthropic_api body_bytes request_json augmentation with
      | None => Ret None
      | Some enriched =>
      logged ← log_request request_json augmentation;
      match logged with
      | None => Ret None
      | Some _ =>
      let passthrough := Config.is_passthrough (Config.streaming (config self)) in
      let allow_stream := passthrough && negb is_anthropic_api in
      _ ← (if passthrough && is_anthropic_api then trigger (Count AnthropicBufferedResponses) else Ret tt);
      match apply_backend_overrides_bytes enriched backend allow_stream (req_path req) with
      | None => Ret None
      | Some (final_body, sent_stream_true) =>
          let expected_streaming := allow_stream && sent_stream_true in
          _ ← (if expected_streaming then trigger (Count OpenaiStreamPassthrough) else Ret tt);
          answer ← trigger (Send (node guard) (mkSend (req_method req)
            (backend_url backend (req_path req) (req_query req))
            (backend_headers backend (req_headers req)) final_body));
          match answer with
          | Err e =>
              _ ← mark_backend_failed (node guard) (group_name guard);
              full (bad_gateway "backend_connect_error" (lit "Failed to connect to backend: " ++ e))
          | Ok resp =>
              _ ← observe_backend_outcome (node guard) (group_name guard) (bk_status resp);
              if match readable (bk_headers resp) "content-type" with
                 | Some ct => contains_sub ct (lit "text/event-stream")
                 | None => false
                 end then
                _ ← (if expected_streaming then Ret tt else trigger (Count BackendStreamingFallbackHits));
                handle_streaming_response resp permit guard
              else
                _ ← (if expected_streaming && is_success (bk_status resp)
                     then trigger (Count BackendNonsseWhenStreamed) else Ret tt);
                handle_non_streaming_response req resp request_json client_wants_streaming is_anthropic_api (node guard)
          end
      end
      end
      end
  end.

(** Behind the capacity check: the permit lives until [forward] returns, or
    rides the stream. *)
Definition take_permit (p : bool → handler (option Reply)) : handler (option Reply) :=
  let max := Config.max_concurrent_requests (Config.server (config self)) in
  if (0 <? max)%Z && limited self then
    ok ← trigger TryAcquire;
    if (ok : bool) then scoped takes_permit (trigger ReleasePermit) (p true)
    else
      _ ← trigger (Count RejectedRequests);
      full (at_capacity_response max)
  else p false.

Definition handle_claimed (req : Request) (body_bytes : str) (request_json : option Value) (guard : BackendGuard)
    : handler (option Reply) :=
  let routed := effective_path (node_config self (node guard)) (req_path req) in
  let is_anthropic_api :=
    starts_with (req_path req) (lit "/v1/messages") || starts_with routed (lit "/v1/messages") in
  match route req body_bytes (node guard) (group_name guard) with
  | Some handled => handled
  | None => take_permit (λ permit, forward req body_bytes request_json is_anthropic_api permit guard)
  end.

(** [Prepared]: the body and what it parses to, or the answer to a body that cannot be read. *)
Definition prepare_request : handler (result Response (str * option Value)) :=
  b ← trigger (ReadBody (1024 * 1024 * 100));
  Ret match b with
      | Err e => Err (body_read_error e (lit "100 MiB"))
      | Ok body_bytes => Ok (body_bytes, from_str body_bytes)
      end.

Definition handle_request (req : Request) : handler (option Reply) :=
  prepared ← prepare_request;
  match prepared with
  | Err resp => full resp
  | Ok (body_bytes, request_json) =>
      let requested_model := j ← request_json; get j (lit "model") ≫= as_str in
      selected ← trigger (Select requested_model);
      match selected with
      | Err requested_model =>
          full (json_response 503 (err_envelope (lit "no_backend")
            (lit "No backend for model: " ++ debug_model requested_model)))
      | Ok guard =>
          scoped takes_guard (trigger (DropGuard guard)) (handle_claimed req body_bytes request_json guard)
      end
  end.

Definition handle (req : Request) : handler (option Reply) :=
  _ ← trigger (GaugeAdd 1);
  r ← handle_request req;
  _ ← trigger (GaugeAdd (-1));
  Ret r.
End Handler.
