(* ===== verification/HandlerFacts.v ===== *)
(** * What the handler does, whatever the world answers

    The books of an execution record what it took and gave back, what it sent
    and was answered, and what it said about a node's health.  Every statement
    holds for every answer to every event ([wp]). *)
From S2P Require Import Prelude Node Balancer Json FixTypes StreamPass Augment Anthropic Wire WireFacts Http Decode Rewrite Prog Handler.
From S2P Require Compat Config Synthesis.

#[export] Instance BackendGuard_eq_dec : EqDecision BackendGuard.
Proof. solve_decision. Defined.

Inductive Verdict := Failed (cooldown : Duration) | Healthy.

Record Books := mkBooks {
  gauge : Z;
  held : list BackendGuard;
  permits : Z;
  tried : list bool;                                     (** the answers of the semaphore *)
  sends : list (NodeRef * BackendRequest * result str BackendResponse);
  verdicts : list (NodeRef * Verdict);
  received : list (result str str);                      (** the client's body *)
  chosen : list (result NoMatchingBackend BackendGuard);
  fault : bool;                                          (** gave back what it did not hold, or was counted
                                                              twice or not at all *)
}.

Definition books_new : Books := mkBooks 0 [] 0 [] [] [] [] [] false.

Fixpoint remove_one (g : BackendGuard) (gs : list BackendGuard) : list BackendGuard :=
  match gs with
  | [] => []
  | g' :: gs' => if decide (g' = g) then gs' else g' :: remove_one g gs'
  end.

Definition add_send (n : NodeRef) (rq : BackendRequest) (a : result str BackendResponse) (s : Books) : Books :=
  mkBooks (gauge s) (held s) (permits s) (tried s) (sends s ++ [(n, rq, a)]) (verdicts s) (received s) (chosen s) (fault s).
Definition add_verdicts (vs : list (NodeRef * Verdict)) (s : Books) : Books :=
  mkBooks (gauge s) (held s) (permits s) (tried s) (sends s) (verdicts s ++ vs) (received s) (chosen s) (fault s).
Definition with_held (gs : list BackendGuard) (s : Books) : Books :=
  mkBooks (gauge s) gs (permits s) (tried s) (sends s) (verdicts s) (received s) (chosen s) (fault s).
Definition with_permits (k : Z) (ts : list bool) (s : Books) : Books :=
  mkBooks (gauge s) (held s) (permits s + k) (tried s ++ ts) (sends s) (verdicts s) (received s) (chosen s) (fault s).

Definition with_fault (f : bool) (s : Books) : Books :=
  mkBooks (gauge s) (held s) (permits s) (tried s) (sends s) (verdicts s) (received s) (chosen s) (fault s || f).

Definition account (X : Type) (e : Ev X) : X → Books → Books :=
  match e in Ev X return X → Books → Books with
  | GaugeAdd k => λ _ s,
      with_fault (negb ((0 <=? gauge s + k) && (gauge s + k <=? 1)))%Z
        (mkBooks (gauge s + k) (held s) (permits s) (tried s) (sends s) (verdicts s) (received s) (chosen s) (fault s))
  | ReadBody _ => λ b s,
      mkBooks (gauge s) (held s) (permits s) (tried s) (sends s) (verdicts s) (received s ++ [b]) (chosen s) (fault s)
  | LoadCounters => λ _ s, with_fault (negb (gauge s =? 1)%Z) s
  | Select _ => λ r s,
      mkBooks (gauge s) (match r with Ok g => g :: held s | Err _ => held s end) (permits s) (tried s)
        (sends s) (verdicts s) (received s) (chosen s ++ [r]) (fault s)
  | DropGuard g => λ _ s,
      with_fault (negb (bool_decide (g ∈ held s))) (with_held (remove_one g (held s)) s)
  | TryAcquire => λ ok s, with_permits (if ok then 1 else 0) [ok] s
  | ReleasePermit => λ _ s, with_fault (permits s <=? 0)%Z (with_permits (-1) [] s)
  | Send n rq => λ a s, add_send n rq a s
  | MarkFailed n cooldown => λ _ s, add_verdicts [(n, Failed cooldown)] s
  | MarkHealthy n => λ _ s, add_verdicts [(n, Healthy)] s
  | _ => λ _ s, s
  end.

Abbreviation every := (wp account).

(** ** What a reply may be *)
Definition local (r : option Reply) : Prop :=
  takes_guard r = false ∧ takes_permit r = false.

(** A status the client may get for a backend's answer. *)
Definition honest (resp : BackendResponse) (r : option Reply) : Prop :=
  match r with
  | None => True
  | Some r =>
      reply_status r = bk_status resp ∨ reply_status r = 502%Z ∨ reply_status r = 413%Z ∨
      reply_status r = 200%Z ∧ is_success (bk_status resp) = true
  end.

(** The backend's own stream, with the permit and the claim it was given. *)
Definition rides `{Deps} (resp : BackendResponse) (permit : bool) (guard : BackendGuard) (r : option Reply) : Prop :=
  ∃ b, r = Some (Streamed (bk_status resp) (stream_headers (bk_headers resp)) b permit (Some guard)) ∧
    if content_encoded resp then b = VerbatimBody (bk_stream resp)
    else ∃ analyzed, b = FramedBody (pass_new (bk_stream resp) analyzed).

(** ** Headers of a streamed response *)

(** Only the first value of a field is copied. *)
Lemma first_values_get seen hs n :
  header_get n (first_values seen hs) = if decide (n ∈ seen) then None else header_get n hs.
Proof.
  revert seen. induction hs as [|[m v] hs IH]; intros seen; simpl; [by case_decide|].
  destruct (decide (m ∈ seen)) as [Hm|Hm].
  - rewrite IH. repeat case_decide; by subst.
  - simpl. rewrite IH. repeat case_decide; subst; set_solver.
Qed.

Lemma first_values_once seen hs :
  NoDup (first_values seen hs).*1 ∧ ∀ n, n ∈ seen → n ∉ (first_values seen hs).*1.
Proof.
  revert seen. induction hs as [|[m v] hs IH]; intros seen; simpl; [split; [constructor|set_solver]|].
  case_decide as Hm; [apply IH|]. destruct (IH (m :: seen)) as [Hnd Hs]. rewrite fmap_cons. simpl. split.
  - constructor; [apply Hs; by left|done].
  - intros n Hn [->|Hin]%elem_of_cons; [done|]. eapply Hs; [by right|done].
Qed.

(** A stream goes out under the backend's headers: every field but the length,
    once, with the first of its values. *)
Definition headers_carried (from to : HeaderMap) : Prop :=
  NoDup to.*1 ∧ ∀ n, header_get n to = if decide (n = lit "content-length") then None else header_get n from.

Lemma header_get_without n p hs : header_get n (filter (λ f, f.1 ≠ p) hs) = if decide (n = p) then None else header_get n hs.
Proof.
  induction hs as [|[m v] hs IH]; [by case_decide|]. rewrite filter_cons. cbn [fst].
  destruct (decide (m ≠ p)) as [Hm|Hm]; simpl; rewrite IH; repeat case_decide; naive_solver.
Qed.

Lemma stream_headers_carried hs : headers_carried hs (stream_headers hs).
Proof.
  unfold stream_headers. split.
  - destruct (first_values_once [] hs) as [Hnd _]. revert Hnd. generalize (first_values [] hs). clear hs.
    induction l as [|[m v] l IH]; [done|]. rewrite fmap_cons, NoDup_cons. intros [Hm Hl]. specialize (IH Hl).
    rewrite filter_cons. case_decide; [|done]. rewrite fmap_cons, NoDup_cons. split; [|done].
    intros Hin. apply Hm. apply list_elem_of_fmap in Hin as (x & -> & Hx). apply list_elem_of_filter in Hx as [_ Hx].
    by apply list_elem_of_fmap_2.
  - intros n. rewrite header_get_without, first_values_get. by rewrite (decide_False (P := n ∈ [])) by apply not_elem_of_nil.
Qed.

Section Facts.
Context `{Deps} (self : Proxy).

Definition verdict_of (n : NodeRef) (group : option str) (a : result str BackendResponse)
    : list (NodeRef * Verdict) :=
  match a with
  | Err _ => [(n, Failed (failure_cooldown self group))]
  | Ok resp =>
      if (bk_status resp =? 429)%Z || is_server_error (bk_status resp)
      then [(n, Failed (failure_cooldown self group))]
      else if is_success (bk_status resp) then [(n, Healthy)] else []
  end.

(** The one request a route sends, what is concluded from its answer, and the
    reply it justifies. *)
Definition exchanged (guard : BackendGuard) (wanted : BackendRequest → Prop) (permit : bool) (s : Books)
    (r : option Reply) (s' : Books) : Prop :=
  ∃ rq a, wanted rq ∧
    s' = add_verdicts (verdict_of (node guard) (group_name guard) a) (add_send (node guard) rq a s) ∧
    match a with
    | Err _ => local r ∧ ∃ b, r = Some (Full b) ∧ status b = 502%Z
    | Ok resp => honest resp r ∧ (local r ∨ rides resp permit guard r)
    end.

(** A reply of the proxy's own, with a status a client may get. *)
Ltac own_reply := split_and!; [done|done|unfold honest; simpl; auto].

Lemma every_observe n group resp s :
  every (observe_backend_outcome self n group (bk_status resp))
    (λ _ s', s' = add_verdicts (verdict_of n group (Ok resp)) s) s.
Proof.
  unfold observe_backend_outcome, verdict_of.
  destruct (_ || _); [|destruct (is_success _)]; wp_steps; try done.
  destruct s. unfold add_verdicts. simpl. by rewrite app_nil_r.
Qed.

Lemma every_synthesized an json s :
  every (synthesized self an json)
    (λ r s', s' = s ∧ local r ∧ match r with Some rep => reply_status rep = 200%Z | None => True end) s.
Proof.
  unfold synthesized. destruct an.
  - destruct (anthropic_message json); wp_steps; [done|].
    destruct (Synthesis.convert_openai_to_claude_sse _ _ _ _); wp_steps; done.
  - wp_steps. destruct (Synthesis.synthesize_streaming_response _ _ _); wp_steps; done.
Qed.

Lemma every_reprompted an req parsed n s :
  every (reprompted self an req parsed n) (λ _ s', s' = s) s.
Proof. unfold reprompted. destruct an, (reprompting self), req, parsed; wp_steps; done. Qed.

Lemma every_non_streaming req resp rj wants an n s :
  every (handle_non_streaming_response self req resp rj wants an n)
    (λ r s', s' = s ∧ local r ∧ honest resp r) s.
Proof.
  unfold handle_non_streaming_response. destruct (read_all _) as [raw|e].
  2: { wp_steps. own_reply. }
  wp_steps. destruct (decompress_body _ _ _) as [d|e].
  2: { destruct e; own_reply. }
  destruct (match d with Decoded b => (b, true) | Passthrough b => (b, false) end) as [b dec].
  apply wp_bind. eapply wp_mono; [apply every_reprompted|]. cbv beta. intros o s' ->.
  destruct (o ≫= _) as [jv|]; [|by wp_steps]. wp_steps. apply wp_bind.
  apply (wp_mono _ _ (λ _ s', s' = s)); [destruct (dumping self); [destruct (Dump.buffered_pair _ _ _ _ _ _ _ _)|]; by wp_steps|].
  intros [] s' ->.
  assert (∀ fb, every (full (forward_response (bk_status resp) (bk_headers resp) fb dec))
    (λ r s', s' = s ∧ local r ∧ honest resp r) s) as Hf by (intros; wp_steps; own_reply).
  destruct jv as [json|]; [|apply Hf].
  destruct (wants && is_success (bk_status resp)) eqn:Hw; [|apply Hf].
  apply andb_prop in Hw as [_ Hw]. apply wp_bind. eapply wp_mono; [apply every_synthesized|]. cbv beta.
  intros [rep|] s' (-> & Hl & Hs); [|apply Hf]. wp_steps. split_and!; [done..|]. simpl. auto.
Qed.

Lemma every_streaming resp permit guard s :
  every (handle_streaming_response self resp permit guard) (λ r s', s' = s ∧ rides resp permit guard r) s.
Proof.
  unfold handle_streaming_response, rides. destruct (content_encoded resp); wp_steps.
  - split; [done|]. by eexists.
  - destruct (_ || _); wp_steps; (split; [done|]; eexists; split; [done|]; by eexists).
Qed.

Lemma every_augmentation rj s :
  every (get_augmentation self rj)
    (λ r s', s' = s ∧ match r with Err b => status b = 502%Z | Ok _ => True end) s.
Proof.
  unfold get_augmentation. destruct (augmented self), rj as [j|]; try by wp_steps.
  case_bool_decide; [by wp_steps|]. wp_steps. destruct x as [aug|e]; [|by wp_steps].
  case_bool_decide; by wp_steps.
Qed.

Lemma every_log_request rj aug s : every (log_request self rj aug) (λ _ s', s' = s) s.
Proof.
  unfold log_request. apply wp_bind. apply (wp_mono _ _ (λ _ s', s' = s)).
  - destruct (log_augmented_request_text self), aug as [[[a p] c]|]; by wp_steps.
  - intros [] s' ->. destruct (hide_requests self), rj as [j|]; try by wp_steps.
    destruct (RequestLog.format_request_log j); by wp_steps.
Qed.

Lemma rides_honest resp permit guard r : rides resp permit guard r → honest resp r.
Proof. intros (b & -> & _). simpl. auto. Qed.
(** ** What a backend is sent *)
Definition anthropic_api (req : Request) (n : NodeRef) : bool :=
  starts_with (req_path req) (lit "/v1/messages")
  || starts_with (effective_path (node_config self n) (req_path req)) (lit "/v1/messages").

(** The client's completion request, enriched only by a configured augmenter
    and rewritten for the node. *)
Definition completion_sent (req : Request) (body_bytes : str) (n : NodeRef) (rq : BackendRequest) : Prop :=
  let an := anthropic_api req n in
  ∃ aug enriched keep,
    (augmented self = false → aug = None) ∧
    enrich an body_bytes (from_str body_bytes) aug = Some enriched ∧
    apply_backend_overrides_bytes enriched (node_config self n)
      (Config.is_passthrough (Config.streaming (config self)) && negb an) (req_path req)
    = Some (send_body rq, keep) ∧
    rq = mkSend (req_method req) (backend_url (node_config self n) (req_path req) (req_query req))
           (backend_headers (node_config self n) (req_headers req)) (send_body rq).

(** A monitoring request, its body as it came. *)
Definition monitoring_sent (req : Request) (body_bytes : str) (n : NodeRef) (rq : BackendRequest) : Prop :=
  rq = mkSend (req_method req) (backend_url (node_config self n) (req_path req) (req_query req))
         (passthrough_headers (node_config self n) (readd_headers (req_headers req))) body_bytes.

Lemma every_augmentation_off rj s :
  every (get_augmentation self rj)
    (λ r s', s' = s ∧ match r with Err b => status b = 502%Z | Ok a => augmented self = false → a = None end) s.
Proof.
  destruct (augmented self) eqn:E.
  - eapply wp_mono; [apply every_augmentation|]. cbv beta. intros [a|b] s' [-> Hb]; (split; [done|]); done.
  - unfold get_augmentation. rewrite E. destruct rj; by wp_steps.
Qed.

(** Refused before any backend was asked, or one exchange with the claimed node. *)
Definition answered (guard : BackendGuard) (wanted : BackendRequest → Prop) (permit : bool) (s : Books)
    (r : option Reply) (s' : Books) : Prop :=
  s' = s ∧ local r ∨ exchanged guard wanted permit s r s'.

Lemma every_forward req body_bytes permit guard s :
  every (forward self req body_bytes (from_str body_bytes) (anthropic_api req (node guard)) permit guard)
    (answered guard (completion_sent req body_bytes (node guard)) permit s) s.
Proof.
  unfold forward. cbv zeta. apply wp_bind. eapply wp_mono; [apply every_augmentation_off|]. cbv beta.
  intros [aug|b] s' [-> Ha]; [|by left].
  destruct (enrich _ _ _ _) as [enriched|] eqn:E1; [|by left].
  apply wp_bind. eapply wp_mono; [apply every_log_request|]. cbv beta. intros [[]|] s' ->; [|by left].
  apply wp_bind. apply (wp_mono _ _ (λ _ s', s' = s)); [destruct (_ && _); by wp_steps|]. intros [] s' ->.
  destruct (apply_backend_overrides_bytes _ _ _ _) as [[final keep]|] eqn:E2; [|by left].
  apply wp_bind. apply (wp_mono _ _ (λ _ s', s' = s)); [destruct (_ && _ && _); by wp_steps|]. intros [] s' ->.
  apply wp_bind. cbn [trigger wp account]. intros a. cbn [wp].
  set (rq := mkSend _ _ _ final).
  assert (completion_sent req body_bytes (node guard) rq) as Hw.
  { exists aug, enriched, keep. done. }
  destruct a as [resp|e].
  - apply wp_bind. eapply wp_mono; [apply every_observe|]. cbv beta. intros [] s' ->.
    destruct (match readable _ _ with Some _ => _ | None => _ end).
    + apply wp_bind. eapply (wp_mono _ _ (λ _ s', s' = _)); [destruct (_ && keep); by wp_steps|]. intros [] s' ->.
      eapply wp_mono; [apply every_streaming|]. cbv beta. intros r s' [-> Hr]. right. exists rq, (Ok resp).
      split; [done|]. split; [done|]. split; [by eapply rides_honest|]. by right.
    + apply wp_bind. eapply (wp_mono _ _ (λ _ s', s' = _)); [destruct (_ && _ && _); by wp_steps|]. intros [] s' ->.
      eapply wp_mono; [apply every_non_streaming|]. cbv beta. intros r s' (-> & Hl & Hh). right.
      exists rq, (Ok resp). split; [done|]. split; [done|]. split; [done|]. by left.
  - wp_steps. right. exists rq, (Err e). split; [done|]. split; [done|]. split; [done|]. by eexists.
Qed.

Lemma every_passthrough req body_bytes guard s :
  every (proxy_passthrough self req body_bytes (node guard) (group_name guard))
    (λ r s', local r ∧ answered guard (monitoring_sent req body_bytes (node guard)) false s r s') s.
Proof.
  unfold proxy_passthrough, to_bytes_full. destruct (_ <? _)%Z; [by split; [|left]|]. cbv zeta.
  set (rq := mkSend _ _ _ body_bytes).
  apply wp_bind. cbn [trigger wp account]. intros a. cbn [wp]. destruct a as [resp|e].
  - apply wp_bind. eapply wp_mono; [apply every_observe|]. cbv beta. intros [] s' ->.
    assert (∀ r, local r → honest resp r →
      local r ∧ answered guard (monitoring_sent req body_bytes (node guard)) false s r
        (add_verdicts (verdict_of (node guard) (group_name guard) (Ok resp))
           (add_send (node guard) rq (Ok resp) s))) as Hdone.
    { intros r Hl Hh. split; [done|]. right. exists rq, (Ok resp). split; [reflexivity|]. split; [done|]. split; [done|]. by left. }
    destruct (read_all _) as [raw|e]; [|wp_steps; apply Hdone; [done|unfold honest; simpl; auto]].
    apply wp_bind. cbn [trigger wp account]. intros worker. cbn [wp].
    destruct (decompress_body _ _ _) as [[b|b]|e]; wp_steps; apply Hdone; try done; unfold honest; simpl; auto.
    destruct e; simpl; auto.
  - wp_steps. split; [done|]. right. exists rq, (Err e). split; [reflexivity|]. split; [done|]. split; [done|]. by eexists.
Qed.
(** ** The whole of a request *)
Definition armed : bool := (0 <? Config.max_concurrent_requests (Config.server (config self)))%Z && limited self.

(** What a backend's answer justifies. *)
Definition justified (guard : BackendGuard) (a : result str BackendResponse) (permit : bool) (r : option Reply) : Prop :=
  match a with
  | Err _ => local r ∧ ∃ b, r = Some (Full b) ∧ status b = 502%Z
  | Ok resp => honest resp r ∧ (local r ∨ rides resp permit guard r)
  end.

Definition taken (guard : BackendGuard) (r : option Reply) : list BackendGuard :=
  if takes_guard r then [guard] else [].
Definition routed_here (req : Request) (b : str) (guard : BackendGuard) : Prop :=
  is_Some (route self req b (node guard) (group_name guard)).

(** Every way a request can end, with the books at that point. *)
Inductive handled (req : Request) : option Reply → Books → Prop :=
  | handled_unread e :
      handled req (Some (Full (body_read_error e (lit "100 MiB")))) (mkBooks 0 [] 0 [] [] [] [Err e] [] false)
  | handled_unmatched b m r :
      local (Some (Full r)) → status r = 503%Z →
      handled req (Some (Full r)) (mkBooks 0 [] 0 [] [] [] [Ok b] [Err m] false)
  | handled_here b guard r :
      routed_here req b guard → local r →
      handled req r (mkBooks 0 [] 0 [] [] [] [Ok b] [Ok guard] false)
  | handled_monitoring b guard r rq a :
      routed_here req b guard → local r →
      monitoring_sent req b (node guard) rq → justified guard a false r →
      handled req r (mkBooks 0 [] 0 [] [(node guard, rq, a)] (verdict_of (node guard) (group_name guard) a)
        [Ok b] [Ok guard] false)
  | handled_refused b guard :
      ¬ routed_here req b guard → armed = true →
      handled req
        (Some (Full (at_capacity_response (Config.max_concurrent_requests (Config.server (config self))))))
        (mkBooks 0 [] 0 [false] [] [] [Ok b] [Ok guard] false)
  | handled_unsent b guard r :
      ¬ routed_here req b guard → local r →
      handled req r (mkBooks 0 [] 0 (if armed then [true] else []) [] [] [Ok b] [Ok guard] false)
  | handled_completion b guard r rq a :
      ¬ routed_here req b guard →
      completion_sent req b (node guard) rq → justified guard a armed r →
      handled req r (mkBooks 0 (taken guard r) (Z.b2z (takes_permit r)) (if armed then [true] else [])
        [(node guard, rq, a)] (verdict_of (node guard) (group_name guard) a) [Ok b] [Ok guard] false).

(** The books while a claimed request is handled. *)
Definition claimed (b : str) (guard : BackendGuard) : Books :=
  mkBooks 1 [guard] 0 [] [] [] [Ok b] [Ok guard] false.

(** The books once everything a reply does not take along is given back. *)
Definition settled (guard : BackendGuard) (r : option Reply) (s : Books) : Books :=
  mkBooks 0 (taken guard r) (permits s) (tried s) (sends s) (verdicts s) (received s) (chosen s) (fault s).

Lemma every_route req b guard p :
  route self req b (node guard) (group_name guard) = Some p →
  every p (λ r s', local r ∧ answered guard (monitoring_sent req b (node guard)) false (claimed b guard) r s')
    (claimed b guard).
Proof.
  unfold route. cbv zeta. destruct (_ && _).
  { intros [= <-]. unfold handle_vram_estimate. wp_steps. destruct x as [[n|] kvs]; wp_steps; by split; [|left]. }
  destruct (_ && _); [intros [= <-]; apply every_passthrough|].
  destruct (_ && _); [|done]. intros [= <-]. wp_steps. by split; [|left].
Qed.

Lemma rides_takes resp permit guard r : rides resp permit guard r → takes_guard r = true ∧ takes_permit r = permit.
Proof. by intros (b & -> & _). Qed.

Lemma justified_permit guard a permit r :
  justified guard a permit r → takes_permit r = permit && takes_guard r.
Proof.
  destruct a as [resp|e]; intros [Hh Hr].
  - destruct Hr as [[-> ->]|[-> ->]%rides_takes]; by rewrite ?andb_false_r, ?andb_true_r.
  - destruct Hh as [-> ->]. by rewrite andb_false_r.
Qed.

(** A claimed request before the claim and the gauge are given back. *)
Definition ends_claimed (req : Request) (guard : BackendGuard) (r : option Reply) (s : Books) : Prop :=
  handled req r (settled guard r s) ∧ held s = [guard] ∧ gauge s = 1%Z.

Lemma answered_claimed req b guard k r s :
  ¬ routed_here req b guard →
  let s0 := with_permits k (if armed then [true] else []) (claimed b guard) in
  answered guard (completion_sent req b (node guard)) armed s0 r s →
  permits s = k ∧ held s = [guard] ∧ gauge s = 1%Z ∧
  handled req r (settled guard r (mkBooks (gauge s) (held s) (Z.b2z (takes_permit r)) (tried s) (sends s)
    (verdicts s) (received s) (chosen s) (fault s))).
Proof.
  cbv zeta. intros Hn [[-> [Hg Hp]]|(rq & a & Hw & -> & Hj)]; (split; [done|]; split; [done|]; split; [done|]);
    unfold settled, taken; simpl.
  - rewrite Hg, Hp. by apply handled_unsent.
  - by apply handled_completion.
Qed.

Lemma every_admit req b guard :
  ¬ routed_here req b guard →
  every (take_permit self (λ permit, forward self req b (from_str b) (anthropic_api req (node guard)) permit guard))
    (ends_claimed req guard) (claimed b guard).
Proof.
  intros Hn. unfold take_permit. cbv zeta. fold armed.
  pose proof (λ k r s, answered_claimed req b guard k r s Hn) as Hend. cbv zeta in Hend.
  destruct armed eqn:Ea.
  - apply wp_bind. cbn [trigger wp account]. intros [|]; cbn [wp].
    + unfold scoped. apply wp_bind. eapply wp_mono; [apply every_forward|]. cbv beta. intros r s' Ha.
      destruct (Hend _ _ _ Ha) as (Hp & Hh & Hg & Hhd). unfold ends_claimed.
      destruct (takes_permit r); wp_steps; unfold settled in *; simpl in *; rewrite ?Hp; simpl;
        by rewrite ?app_nil_r, ?orb_false_r.
    + wp_steps. split; [|done]. by apply handled_refused.
  - eapply wp_mono; [apply every_forward|]. cbv beta. intros r s' Ha.
    assert (answered guard (completion_sent req b (node guard)) false (with_permits 0 [] (claimed b guard)) r s')
      as Ha' by exact Ha.
    destruct (Hend _ _ _ Ha') as (Hp & Hh & Hg & Hhd). split; [|done].
    assert (permits s' = Z.b2z (takes_permit r)) as Hp'; [|unfold settled in *; simpl in *; by rewrite Hp'].
    destruct Ha as [[-> [_ ->]]|(rq & a & _ & -> & Hj)]; [done|].
    by rewrite (justified_permit guard a false r Hj).
Qed.

Lemma every_claimed req b guard :
  every (handle_claimed self req b (from_str b) guard) (ends_claimed req guard) (claimed b guard).
Proof.
  unfold handle_claimed. cbv zeta. destruct (route _ _ _ _ _) as [p|] eqn:Er.
  - eapply wp_mono; [by eapply every_route|]. cbv beta.
    assert (routed_here req b guard) as Hr by by eexists.
    intros r s ([Hg Hp] & [[-> Hl]|(rq & a & Hw & -> & Hj)]); (split; [|done]); unfold settled, taken; simpl;
      rewrite Hg; [by apply handled_here|by apply handled_monitoring].
  - apply every_admit. unfold routed_here. rewrite Er. by intros [? ?].
Qed.

Lemma every_handled req : every (handle self req) (handled req) books_new.
Proof.
  unfold handle, handle_request, prepare_request. cbn [mbind prog_bind bind trigger wp account]. intros [] [b|e]; cbn [bind wp].
  2: { intros []. apply handled_unread. }
  intros [guard|m]; cbn [bind wp].
  2: { intros []. by apply handled_unmatched. }
  apply wp_bind. unfold scoped. apply wp_bind. eapply wp_mono; [apply every_claimed|]. cbv beta.
  intros r s (Hh & Hg & H1). unfold settled, taken in Hh. unfold with_held.
  destruct (takes_guard r) eqn:Et; cbn [bind mbind prog_bind trigger wp account]; intros [];
    [unfold with_fault; simpl; by rewrite Hg, H1, orb_false_r|]. intros []. unfold with_fault; simpl. rewrite Hg, H1. simpl.
    by rewrite decide_True, bool_decide_eq_true_2, !orb_false_r by set_solver.
Qed.

(** ** What it means *)

Definition given_back (r : option Reply) (s : Books) : Prop :=
  gauge s = 0%Z ∧ fault s = false ∧
  match r with
  | Some (Streamed _ _ _ permit (Some guard)) =>
      held s = [guard] ∧ permits s = Z.b2z permit ∧ permit = armed
  | _ => held s = [] ∧ permits s = 0%Z
  end.

Lemma handled_gives_back req r s : handled req r s → given_back r s.
Proof.
  assert (∀ r, local r → match r with Some (Streamed _ _ _ permit (Some guard)) => False | _ => True end) as Hl
    by (intros [[|? ? ? ? [g|]]|] [? ?]; done).
  intros Hh. destruct Hh as [e|b m r ? ?|b g r ? H0|b g r rq a ? H0 ? ?|b g ? ?|b g r ? H0|b g r rq a Hn Hw Hj];
    try (split; [done|]; split; [done|]); try done; try (specialize (Hl r H0); by destruct r as [[|? ? ? ? [|]]|]).
  pose proof (justified_permit g a armed r Hj) as Hp. cbn [held permits]. unfold taken.
  destruct r as [[r|st hs body p [g'|]]|]; cbn [takes_guard takes_permit] in *; rewrite ?andb_false_r, ?andb_true_r in Hp;
    try done.
  - subst p. assert (g' = g) as ->; [|done]. destruct a as [resp|e]; [|by destruct Hj as [[? _] _]].
    destruct Hj as [_ [[? _]|(body' & [= ? ? ? ?] & _)]]; done.
  - by subst p.
Qed.

(** C3: Whatever the client, the balancer, the semaphore and the backend do, a
    request gives everything back and nothing it did not hold: the gauge is where
    it was, and the claim on the node and the capacity permit are released exactly
    once, unless the response is the backend's own stream, which then holds both. *)
Theorem handle_gives_back req : every (handle self req) given_back books_new.
Proof. eapply wp_mono; [apply every_handled|]. apply handled_gives_back. Qed.













(** C14: A backend's failure is never dressed up: a client that gets a success got
    it from the proxy itself or from a backend that answered with one, and the
    status of an answer that was readable is the backend's own unless a
    success became a synthesized stream. *)
Theorem handle_status_honest req :
  every (handle self req)
    (λ r s, ∀ n rq a reply, sends s = [(n, rq, a)] → r = Some reply →
       match a with
       | Err _ => reply_status reply = 502%Z
       | Ok resp =>
           (is_success (reply_status reply) = true → is_success (bk_status resp) = true) ∧
           (reply_status reply = bk_status resp ∨ reply_status reply = 502%Z ∨ reply_status reply = 413%Z ∨
            reply_status reply = 200%Z ∧ is_success (bk_status resp) = true)
       end) books_new.
Proof.
  eapply wp_mono; [apply every_handled|]. cbv beta. intros r s Hh n rq a reply Hs ->.
  assert (∃ guard permit, justified guard a permit (Some reply)) as (guard & permit & Hj).
  { inversion Hh; subst; simplify_eq/=; eauto. }
  destruct a as [resp|e]; [|by destruct Hj as [_ (b & [= ->] & ?)]].
  destruct Hj as [Hh' _]. unfold honest in Hh'. split; [|done]. intros Hok.
  destruct Hh' as [E|[E|[E|[_ E]]]]; rewrite ?E in Hok; done.
Qed.

(** The requests that are answered or passed through before the capacity check:
    reads of the monitoring endpoints and of the proxy's own counters, and
    estimates. *)
Definition monitors (req : Request) (n : NodeRef) : Prop :=
  let routed := effective_path (node_config self n) (req_path req) in
  req_method req = lit "GET" ∧
    routed ∈ lit <$> ["/props"; "/slots"; "/v1/health"; "/v1/models"; "/metrics"; "/proxy/metrics"]%string ∨
  req_method req = lit "POST" ∧ (Compat.is_vram_estimate_path (req_path req) || Compat.is_vram_estimate_path routed) = true.

Lemma routed_monitors req b guard : routed_here req b guard ↔ monitors req (node guard).
Proof.
  unfold routed_here, route, monitors. cbv zeta. set (routed := effective_path _ _).
  set (vram := Compat.is_vram_estimate_path _ || _). set (ms := lit <$> ["/props"; "/slots"; "/v1/health"; "/v1/models"; "/metrics"]%string).
  assert (lit <$> ["/props"; "/slots"; "/v1/health"; "/v1/models"; "/metrics"; "/proxy/metrics"]%string = ms ++ [lit "/proxy/metrics"]) as -> by done.
  assert (is_monitoring_path routed = true ↔ routed ∈ ms) as Hms.
  { unfold is_monitoring_path. fold ms. rewrite existsb_exists. setoid_rewrite bool_decide_eq_true.
    setoid_rewrite <- list_elem_of_In. naive_solver. }
  rewrite elem_of_app, list_elem_of_singleton, <- Hms. clear Hms ms.
  destruct (decide (req_method req = lit "POST")) as [Em|Em].
  { rewrite Em, (bool_decide_eq_true_2 (lit "POST" = lit "POST")), (bool_decide_eq_false_2 (lit "POST" = lit "GET")) by done.
    cbn [andb]. destruct vram; (split; [|by intros [[? _]|[_ ?]]]); [by right|by intros [? ?]]. }
  rewrite (bool_decide_eq_false_2 (req_method req = lit "POST")) by done. cbn [andb].
  destruct (decide (req_method req = lit "GET")) as [Eg|Eg].
  2: { rewrite !(bool_decide_eq_false_2 (req_method req = lit "GET")) by done. cbn [andb]. split; [by intros [? ?]|]. by intros [[? _]|[? _]]. }
  rewrite !(bool_decide_eq_true_2 (req_method req = lit "GET")) by done. cbn [andb].
  destruct (is_monitoring_path routed); [split; [auto|by eexists]|]. case_bool_decide; [split; [auto|by eexists]|].
  split; [by intros [? ?]|]. by intros [[_ [?|?]]|[? _]].
Qed.

(** C18: Capacity: the semaphore is asked once at most, and only with limiting
    armed; a request of a monitoring endpoint never asks it nor holds a permit;
    with limiting armed any other reaches a backend only on a permit; and one
    that is refused is told so and reaches none. *)
Theorem handle_capacity req :
  every (handle self req)
    (λ r s, length (tried s) ≤ 1 ∧ (tried s ≠ [] → armed = true) ∧
       (∀ guard, chosen s = [Ok guard] → monitors req (node guard) → tried s = [] ∧ permits s = 0%Z) ∧
       (armed = true → ∀ n rq a, sends s = [(n, rq, a)] → ¬ monitors req n → tried s = [true]) ∧
       (tried s = [false] → sends s = [] ∧ permits s = 0%Z ∧
          r = Some (Full (at_capacity_response (Config.max_concurrent_requests (Config.server (config self)))))))
    books_new.
Proof.
  eapply wp_mono; [apply every_handled|]. cbv beta. intros r s Hh.
  destruct Hh as [e|b m r ? ?|b g r H0|b g r rq a H0 ? ? ?|b g H0 ?|b g r H0 ?|b g r rq a H0 Hw Hj]; cbn [tried permits sends chosen];
    try (rewrite (routed_monitors req b g) in H0); split_and!; try (simpl; lia); try done;
    try (by destruct armed); try (destruct armed; simpl; lia).
  all: try (by intros g' [= <-]).
  all: try (intros _ n rq' a' [= <- <- <-]; done).
  all: try (intros Ha n rq' a' [= <- <- <-] _; by rewrite Ha).
Qed.

(** ** What a dump tells *)
Definition noted (X : Type) (e : Ev X) : X → list Dump.Pair → list Dump.Pair :=
  match e in Ev X return X → list Dump.Pair → list Dump.Pair with
  | SpawnDump p => λ _ l, l ++ [p]
  | _ => λ _ l, l
  end.

(** The exchange a dump of a buffered response is about. *)
Definition dump_true (req : Request) (resp : BackendResponse) (wants : bool) (r : option Reply) (p : Dump.Pair) : Prop :=
  Dump.d_method p = req_method req ∧ Dump.d_uri p = uri_text req ∧ Dump.d_status p = bk_status resp ∧
  read_all (bk_stream resp) = Ok (Dump.d_response_body p) ∧
  (wants = false → ∃ b, r = Some (Full b) ∧ status b = bk_status resp ∧
     body b = default (Dump.d_response_body p) (Dump.d_decoded_variant p)).

(** C13: A dump of a buffered exchange is true: its answer is what the backend sent,
    byte for byte, and its variant, or the answer where it has none, is what a
    client that asked for no stream got.  With dumps on, a request that parsed
    goes without one only if the answer could not be read or a fix has panicked. *)
Theorem buffered_dump_true req resp rj wants an n :
  wp noted (handle_non_streaming_response self req resp rj wants an n) (λ r dumps,
    length dumps ≤ 1 ∧ Forall (dump_true req resp wants r) dumps ∧ (dumping self = false → dumps = []) ∧
    (dumping self = true → is_Some rj → dumps = [] → r = None ∨ ∃ b, r = Some (Full b) ∧ (status b = 502%Z ∨ status b = 413%Z))) [].
Proof.
  unfold handle_non_streaming_response. destruct (read_all (bk_stream resp)) as [raw|e] eqn:Er.
  2: { cbn. split_and!; [lia|constructor|done|]. intros _ _ _. right. eexists. split; [done|by left]. }
  apply wp_bind. cbn [trigger wp noted]. intros worker. cbn [wp].
  destruct (decompress_body _ _ _) as [d|e].
  2: { cbn. split_and!; [lia|constructor|done|]. intros _ _ _. right. eexists. split; [done|]. destruct e; cbn; auto. }
  destruct (match d with Decoded b => (b, true) | Passthrough b => (b, false) end) as [b dec].
  apply wp_bind. eapply (wp_mono _ _ (λ _ s', s' = [])).
  { unfold reprompted. destruct an, (reprompting self), rj, (if is_json_content_type _ then _ else _); by wp_steps. }
  intros o s' ->. destruct (o ≫= _) as [jv|]; [|cbn; split_and!; [lia|constructor|done|by left]].
  apply wp_bind. cbn [trigger wp noted]. intros []. cbn [wp].
  set (final := match jv with Some json => to_string json | None => b end).
  set (told := if dumping self then from_option (λ p, [p]) []
    (Dump.buffered_pair (req_method req) (uri_text req) rj (bk_headers resp) (bk_status resp) raw final dec) else []).
  assert (length told ≤ 1 ∧ (dumping self = false → told = []) ∧ (dumping self = true → is_Some rj → told ≠ []) ∧
    ∀ p, p ∈ told → Dump.d_method p = req_method req ∧ Dump.d_uri p = uri_text req ∧ Dump.d_status p = bk_status resp ∧
      Dump.d_response_body p = raw ∧ default raw (Dump.d_decoded_variant p) = final) as (Ht1 & Ht2 & Ht3 & Ht4).
  { unfold told, Dump.buffered_pair. destruct (dumping self), rj as [j|]; cbn; split_and!; try lia; try done; try set_solver; try by intros _ [? ?].
    intros p ->%list_elem_of_singleton. cbn. split_and!; [done..|]. destruct dec; [done|]. cbn. by case_bool_decide. }
  apply wp_bind. apply (wp_mono _ _ (λ _ s', s' = told)).
  { unfold told. destruct (dumping self); [destruct (Dump.buffered_pair _ _ _ _ _ _ _ _)|]; by wp_steps. }
  intros [] s' ->. clearbody told.
  assert (∀ r, (wants = false → ∃ b, r = Some (Full b) ∧ status b = bk_status resp ∧ body b = final) →
    length told ≤ 1 ∧ Forall (dump_true req resp wants r) told ∧ (dumping self = false → told = []) ∧
    (dumping self = true → is_Some rj → told = [] → r = None ∨ ∃ b, r = Some (Full b) ∧ (status b = 502%Z ∨ status b = 413%Z))) as Hend.
  { intros r Hr. split_and!; [done| |done|intros; by exfalso; eapply Ht3]. apply Forall_forall. intros p Hp.
    destruct (Ht4 p Hp) as (? & ? & ? & Hb & Hv). unfold dump_true. rewrite Er, Hb, Hv. by split_and!. }
  assert (wp noted (full (forward_response (bk_status resp) (bk_headers resp) final dec)) (λ r dumps, length dumps ≤ 1 ∧
    Forall (dump_true req resp wants r) dumps ∧ (dumping self = false → dumps = []) ∧ (dumping self = true → is_Some rj → dumps = [] →
      r = None ∨ ∃ b, r = Some (Full b) ∧ (status b = 502%Z ∨ status b = 413%Z))) told) as Hfw by (cbn; apply Hend; by eexists).
  destruct jv as [json|]; [|exact Hfw]. destruct wants; [|exact Hfw]. destruct (is_success _); [|exact Hfw]. cbn [andb].
  apply wp_bind. eapply (wp_mono _ _ (λ _ s', s' = told)).
  { unfold synthesized. destruct an.
    - destruct (anthropic_message json); wp_steps; [done|]. by destruct (Synthesis.convert_openai_to_claude_sse _ _ _ _); wp_steps.
    - wp_steps. by destruct (Synthesis.synthesize_streaming_response _ _ _); wp_steps. }
  intros [r|] s' ->; [|exact Hfw]. cbn. by apply Hend.
Qed.

(** ** What an augmentation keeps of a request *)

(** The fields the request type of a format has. *)
Definition typed_fields (is_anthropic_api : bool) : list str := if is_anthropic_api then ANTHROPIC_FIELDS else CHAT_FIELDS.

(** C23: The body an augmented request is forwarded with is the client's own, or an
    object that keeps every top-level key the request type has no field for. *)
Theorem augmentation_keeps_fields `{!WireLaws} is_anthropic_api body_bytes m aug bytes :
  NoDup m.*1 → enrich is_anthropic_api body_bytes (Some (VObject m)) (Some aug) = Some bytes →
  bytes = body_bytes ∨
  ∃ w, bytes = to_string w ∧
    ∀ k, k ∉ typed_fields is_anthropic_api → get w k = map_get k m.
Proof.
  intros Hm. destruct aug as [[a p] c]. unfold enrich. destruct is_anthropic_api.
  - destruct (anthropic_request (VObject m)) as [r|] eqn:E; intros Hb; injection Hb as <-; [right|by left].
    eexists. split; [done|]. intros k Hk. by apply anthropic_augmented_keeps.
  - destruct (chat_request (VObject m)) as [r|] eqn:E; [|by intros [= <-]; left].
    destruct (inject_augmentation r p a) as [[r'|e]|] eqn:Ei; cbn [mbind option_bind]; intros [= <-]; [right|by left].
    eexists. split; [done|]. intros k Hk. by eapply chat_augmented_keeps.
Qed.

(** A request with a [stop] of one string goes out without its augmentation,
    although the injection makes it a list for exactly that request. *)
Lemma string_stop_not_augmented body_bytes m s aug :
  map_get (lit "stop") m = Some (VString s) → enrich false body_bytes (Some (VObject m)) aug = Some body_bytes.
Proof. intros Hs. destruct aug as [[[a p] c]|]; [|done]. unfold enrich. by rewrite (string_stop_untyped m s). Qed.
End Facts.
