(* ===== verification/Served.v ===== *)
(** * What a client reads (llama-proxy/src/proxy: handler.rs, streaming.rs and synthesis.rs together)

    The handler decides on a reply, the stream machine or the synthesis makes
    its body, and the wire carries it.  Here the parts are put together: what
    arrives at a client that reads the body of a reply to its end. *)
From S2P Require Import Prelude Node Balancer Json FixTypes Fixes Framing StreamPass Merge Synthesis Anthropic SseText Wire Http Decode Prog Handler HandlerFacts.
From S2P Require Config.


(** ** The body of a reply *)
Section Bodies.
Context `{Deps, EventText} (self : Proxy).

Definition chunk_delay_ms : Z := Config.chunk_delay_ms (Config.synthesis (config self)).

(** What a body yields, in order; [None] if it does not come to its end. *)
Definition body_items (b : BodyStream) : option (list Item) :=
  match b with
  | VerbatimBody script => Some script
  | FramedBody st => fst <$> drive (4 * length (inner (underlying st)) + 1) st
  | OpenaiEvents cs => Some [Ok (sent_text (openai_body cs chunk_delay_ms))]
  | AnthropicEvents fs => Some [Ok (sent_text (anthropic_body fs chunk_delay_ms))]
  end.
(** The connection carries it up to its first error. *)
Definition read_body (b : BodyStream) : option (str * option str) := (λ items, (until_error items, error_of items)) <$> body_items b.
End Bodies.

(** What the backend's stream makes of the client's: its bytes untouched where the
    body is encoded; otherwise with their line breaks normalized, and nothing
    added but where an event grows over the limit; and its error, unless events
    that complete the response went out before. *)
Definition passed_on `{Deps} (resp : BackendResponse) (text : str) (error : option str) : Prop :=
  (if content_encoded resp then text = until_error (bk_stream resp)
   else delivered (until_error (bk_stream resp)) text ∧
     (events_fit (lf_normalize (until_error (bk_stream resp))) → text = lf_normalize (until_error (bk_stream resp)))) ∧
  (error = error_of (bk_stream resp) ∨ content_encoded resp = false ∧ error = None ∧ marks_end text).

Lemma rides_passed_on `{Deps, EventText} self resp permit guard b :
  rides resp permit guard (Some (Streamed (bk_status resp) (stream_headers (bk_headers resp)) b permit (Some guard))) →
  ∃ text error, read_body self b = Some (text, error) ∧ passed_on resp text error.
Proof.
  intros (b' & [= <-] & Hb). unfold passed_on, read_body. destruct (content_encoded resp).
  { subst b. cbn. eexists _, _. split; [reflexivity|]. split; [done|by left]. }
  destruct Hb as [an ->]. cbn [body_items pass_new underlying inner].
  destruct (pass_new_ends (bk_stream resp) an) as [[items st'] E]. rewrite E. cbn. eexists _, _. split; [reflexivity|].
  pose proof (pass_new_inv (bk_stream resp) an) as Hi. rewrite (drive_error_last an _ _ [] _ _ _ Hi E).
  destruct (drive_delivers an _ _ [] _ _ _ Hi E) as (Hs & _ & Hm).
  split; [split; [exact Hs|intros Hfit; by apply delivered_fits]|].
  change (error_to_come (pass_new (bk_stream resp) an)) with (error_of (bk_stream resp)) in Hm.
  destruct (error_of (bk_stream resp)) as [e|]; [|left; by destruct Hm].
  destruct Hm as [[? _]|[? Hc]]; [by left|by left|]. right. split_and!; [done..|].
  by destruct (drive_marked _ _ _ _ E Hc).
Qed.

(** C10: A streamed completion from the handler to the client: a reply that holds a
    claim is the answer of the one backend asked, under its status and its
    headers (but the length; the first value of each).  Whoever reads it to the
    end gets the bytes that backend sent, in order: as they came where the body
    is encoded, otherwise with line breaks normalized and with a blank line
    where an event grew over 1 MiB unfinished (nothing else is added, and
    nothing at all if no event does).  The backend's error follows, unless
    events that complete the response went out before it. *)
Theorem stream_served `{Deps, EventText} self req :
  every (handle self req) (λ r s, ∀ st hs b permit guard,
    r = Some (Streamed st hs b permit (Some guard)) →
    ∃ rq resp, sends s = [(node guard, rq, Ok resp)] ∧ st = bk_status resp ∧ headers_carried (bk_headers resp) hs ∧
      ∃ text error, read_body self b = Some (text, error) ∧ passed_on resp text error) books_new.
Proof.
  eapply wp_mono; [apply every_handled|]. cbv beta. intros r s Hh st hs b permit guard ->.
  assert (∃ g rq a p, sends s = [(node g, rq, a)] ∧ justified g a p (Some (Streamed st hs b permit (Some guard)))) as (g & rq & a & p & Hs & Hj).
  { inversion Hh; subst; try match goal with Hl : local _ |- _ => by destruct Hl end; by eexists _, _, _, _. }
  destruct a as [resp|e]; [|by destruct Hj as [_ (? & ? & _)]].
  destruct Hj as [_ [[Hl _]|Hr]]; [done|]. pose proof Hr as (b' & [= -> -> -> -> ->] & _).
  eexists _, _. split; [exact Hs|]. split_and!; [done|apply stream_headers_carried|]. by apply rides_passed_on with (permit := p) (guard := g).
Qed.

(** ** A buffered answer *)
Section Buffered.
Context `{Deps, EventTextLaws, MalformedArgs.SlotRegex} (self : Proxy).
#[local] Set Default Proof Using "Type*".




(** A synthesized body carries the answer: whoever reads it as the proxy itself
    reads such a stream gets its texts back. *)
Definition carries_answer (final : Value) (b : BodyStream) : Prop :=
  match b with
  | OpenaiEvents cs =>
      Forall legible_chunk cs → ∀ choice message,
        get final (lit "choices") = Some (VArray [choice]) → get choice (lit "message") ≫= as_object = Some message →
        (∀ ts, nonempty_tools message = Some ts → Forall (λ c, ∃ i, fragment i c) ts) →
        ∃ text v, read_body self b = Some (text, None) ∧ parse_accumulated_sse text = Some (Some v) ∧
          ∀ k, text_key k → response_text k v = text_at k (VObject message)
  | AnthropicEvents fs =>
      Forall (λ f, legible (f_data f)) fs →
      match anthropic_message final with
      | Some msg => length (am_content msg) ≤ 101 →
          ∃ text, read_body self b = Some (text, None) ∧ parse_accumulated_sse text =
            Some (Some (merged_message msg (VString (default (derive_stop_reason msg) (am_stop_reason msg)))
              (output_tokens (am_usage msg)) (merged_block <$> am_content msg)))
      | None => ∃ uuid cs, get final (lit "choices") = Some (VArray cs) ∧
          (length (converted uuid 0 cs) ≤ 101 → get final (lit "content") = None →
          ∃ text m, read_body self b = Some (text, None) ∧ parse_accumulated_sse text = Some (Some m) ∧
            get m (lit "content") = Some (VArray (converted uuid 0 cs)) ∧
            get m (lit "stop_reason") = Some (VString (stop_of cs (any_tools cs))))
      end
  | _ => False
  end.

(** A final answer at the client: as it is, or as a stream for one that wants one. *)
Definition delivered (resp : BackendResponse) (wants an dec : bool) (final : Value) (reply : Reply) : Prop :=
  let as_it_is := reply = Full (forward_response (bk_status resp) (bk_headers resp) (to_string final) dec) in
  if wants && is_success (bk_status resp) then
    (∃ b, reply = Streamed 200 sse_headers b false None ∧ carries_answer final b) ∨
    ((∃ now e, parse_raw_completion now final = Err e) ∧
      if (an : bool) then anthropic_message final = None ∧ reply = Full anthropic_sse_error_response else as_it_is)
  else as_it_is.










End Buffered.
