(* ===== verification/HandlerWorld.v ===== *)
(** * Any number of requests at once

    The programs of [Handler] interleaved event by event over the shared
    gauge, semaphore and nodes, with clients that disconnect at any point: a
    dropped handler runs the destructors of what it holds, a dropped body those
    of what rides it.  A select is any one the load-balancer contract allows
    ([claims_one]). *)
From S2P Require Import Prelude Node Balancer Json Http Prog MetricsText Handler HandlerFacts.
From S2P Require Config.

Inductive Thread :=
  | Running (p : prog Ev (option Reply)) (s : Books)
  | Serving (guard : BackendGuard) (permit : bool)      (** a body that is still being sent *)
  | Gone.

Record ProxyWorld := mkProxyWorld {
  threads : list Thread;
  concurrent : Z;              (** the gauge *)
  available : Z;               (** permits left *)
  nodes : list BackendNode;
}.

Definition after_reply (r : option Reply) : Thread :=
  match r with Some (Streamed _ _ _ permit (Some guard)) => Serving guard permit | _ => Gone end.

(** What an event and its answer do to the gauge, the permits and the nodes. *)
Definition effect (X : Type) (e : Ev X) : X → Z * Z * heap → Z * Z * heap → Prop :=
  match e in Ev X return X → Z * Z * heap → Z * Z * heap → Prop with
  | GaugeAdd k => λ _ '(c, a, h) w', w' = ((c + k)%Z, a, h)
  | Select _ => λ r '(c, a, h) w', ∃ ns h',
      Forall (λ n, n < length h) ns ∧ claims_one ns h r h' ∧ w' = (c, a, h')
  | DropGuard g => λ _ '(c, a, h) w', w' = (c, a, busy_drop g h)
  | TryAcquire => λ ok '(c, a, h) w', ok = (0 <? a)%Z ∧ w' = (c, (a - Z.b2z ok)%Z, h)
  | ReleasePermit => λ _ '(c, a, h) w', w' = (c, (a + 1)%Z, h)
  | MarkFailed n d => λ _ '(c, a, h) w', ∃ now, w' = (c, a, alter (mark_failed now d) n h)
  | MarkHealthy n => λ _ '(c, a, h) w', w' = (c, a, alter mark_healthy n h)
  | LoadCounters => λ load '(c, a, h) w', load ConcurrentRequests = c ∧ w' = (c, a, h)
  | _ => λ _ w w', w' = w
  end.

Definition drop_all (gs : list BackendGuard) (h : heap) : heap := foldr busy_drop h gs.

Section World.
Context `{Deps} (self : Proxy).

Inductive step : ProxyWorld → ProxyWorld → Prop :=
  | step_arrive req ts c a h :
      step (mkProxyWorld ts c a h) (mkProxyWorld (ts ++ [Running (handle self req) books_new]) c a h)
  | step_event i X (e : Ev X) k s x ts c a h c' a' h' :
      ts !! i = Some (Running (Vis X e k) s) → effect X e x (c, a, h) (c', a', h') →
      step (mkProxyWorld ts c a h) (mkProxyWorld (<[i := Running (k x) (account X e x s)]> ts) c' a' h')
  | step_reply i r s ts c a h :
      ts !! i = Some (Running (Ret r) s) →
      step (mkProxyWorld ts c a h) (mkProxyWorld (<[i := after_reply r]> ts) c a h)
  | step_body_end i guard permit ts c a h :
      ts !! i = Some (Serving guard permit) →
      step (mkProxyWorld ts c a h)
        (mkProxyWorld (<[i := Gone]> ts) c (a + Z.b2z permit) (busy_drop guard h))
  | step_disconnect i p s ts c a h :
      ts !! i = Some (Running p s) →
      step (mkProxyWorld ts c a h)
        (mkProxyWorld (<[i := Gone]> ts) (c - gauge s) (a + permits s) (drop_all (held s) h)).

(** ** What a thread holds *)
Definition gauge_of (t : Thread) : Z := match t with Running _ s => gauge s | _ => 0 end.
Definition permits_of (t : Thread) : Z :=
  match t with Running _ s => permits s | Serving _ p => Z.b2z p | Gone => 0 end.
Definition guards_of (t : Thread) : list BackendGuard :=
  match t with Running _ s => held s | Serving g _ => [g] | Gone => [] end.
Definition claims_on (n : NodeRef) (gs : list BackendGuard) : Z :=
  foldr (λ g z, (if decide (_busy g = n) then 1 else 0) + z)%Z 0%Z gs.
Definition total (f : Thread → Z) (ts : list Thread) : Z := foldr (λ t z, f t + z)%Z 0%Z ts.

Definition idle_world (max : Z) (h : heap) : ProxyWorld := mkProxyWorld [] 0 max h.
(** The shared state is exactly what the threads hold. *)
Definition balanced (max : Z) (w : ProxyWorld) : Prop :=
  concurrent w = total gauge_of (threads w) ∧
  (available w + total permits_of (threads w) = max)%Z ∧ (0 ≤ available w)%Z ∧
  ∀ n, n < length (nodes w) →
    active_requests (nodes w !!! n) = total (λ t, claims_on n (guards_of t)) (threads w).
End World.

(** * Facts *)
Lemma total_app f ts ts' : total f (ts ++ ts') = (total f ts + total f ts')%Z.
Proof. induction ts as [|t ts IH]; simpl; [done|]. rewrite IH. lia. Qed.

Lemma total_insert f ts i t t' :
  ts !! i = Some t → total f (<[i := t']> ts) = (total f ts - f t + f t')%Z.
Proof.
  revert i. induction ts as [|t0 ts IH]; intros [|i] Hi; simpl in *; simplify_eq; [lia|].
  rewrite (IH i Hi). lia.
Qed.

Lemma total_bound f b ts :
  (∀ t, t ∈ ts → 0 ≤ f t ≤ b)%Z → (0 ≤ total f ts ≤ b * Z.of_nat (length ts))%Z.
Proof.
  induction ts as [|t ts IH]; intros Hf; simpl; [lia|].
  specialize (Hf t) as Ht. specialize (Ht ltac:(by left)).
  specialize (IH ltac:(intros; apply Hf; by right)). lia.
Qed.

Lemma claims_on_bound n gs : (0 ≤ claims_on n gs ≤ Z.of_nat (length gs))%Z.
Proof. induction gs as [|g gs IH]; simpl; [lia|]. case_decide; lia. Qed.

Lemma claims_on_remove n g gs :
  g ∈ gs → claims_on n (remove_one g gs) = (claims_on n gs - if decide (_busy g = n) then 1 else 0)%Z.
Proof.
  induction gs as [|g' gs IH]; intros Hg; [by apply elem_of_nil in Hg|]. simpl.
  destruct (decide (g' = g)) as [->|Hne]; [lia|]. simpl. rewrite IH by set_solver. lia.
Qed.

Lemma length_remove_one g gs : length (remove_one g gs) ≤ length gs.
Proof. induction gs as [|g' gs IH]; simpl; [done|]. case_decide; simpl; lia. Qed.

Lemma remove_one_subset g gs x : x ∈ remove_one g gs → x ∈ gs.
Proof. induction gs as [|g' gs IH]; simpl; [done|]. case_decide; set_solver. Qed.

(** ** Where an execution can still go *)

(** Some answer to every event. *)
Definition some_answer (X : Type) (e : Ev X) : X :=
  match e in Ev X return X with
  | GaugeAdd _ => tt
  | ReadBody _ => Err []
  | Select _ => Err None
  | DropGuard _ => tt
  | TryAcquire => false
  | ReleasePermit => tt
  | Count _ => tt
  | GetAugmentation _ => Err []
  | LoadRequestPrompt => Err []
  | Send _ _ => Err []
  | MarkFailed _ _ => tt
  | MarkHealthy _ => tt
  | InvalidateContext _ => tt
  | DecodeWorker => None
  | MaybeReprompt _ _ _ => None
  | EmitMetrics _ => tt
  | SpawnDump _ => tt
  | LogInfo _ => tt
  | ProbeVram _ => (None, None)
  | LoadCounters => λ _, 0%Z
  | Now => 0%Z
  | Uuids => λ _, []
  end.

Lemma account_monotone X (e : Ev X) x s :
  chosen s `prefix_of` chosen (account X e x s) ∧ (fault s = true → fault (account X e x s) = true).
Proof.
  destruct e; simpl; try (split; [done|]); try done.
  - by intros ->.
  - split; [by eexists|done].
  - by intros ->.
  - by intros ->.
  - by intros ->.
Qed.

Lemma wp_reaches {A} (p : prog Ev A) Q s :
  wp account p Q s → ∃ a s', Q a s' ∧ chosen s `prefix_of` chosen s' ∧ (fault s = true → fault s' = true).
Proof.
  revert s. induction p as [a|X e k IH]; intros s Hw; [by exists a, s|].
  destruct (IH _ _ (Hw (some_answer X e))) as (a & s' & HQ & Hp & Hf).
  destruct (account_monotone X e (some_answer X e) s) as [Hp' Hf'].
  exists a, s'. split; [done|]. split; [by etrans|auto].
Qed.

(** What is true of a running handler's books at every point of its program. *)
Definition books_ok (N : nat) (s : Books) : Prop :=
  length (held s) ≤ length (chosen s) ∧ (fault s = false → 0 ≤ permits s ∧ 0 ≤ gauge s ≤ 1)%Z ∧
  Forall (λ g, _busy g < N) (held s).

Lemma account_books_ok N X (e : Ev X) x s :
  books_ok N s →
  (match e in Ev X return X → Prop with
   | Select _ => λ r, match r with Ok g => _busy g < N | Err _ => True end
   | _ => λ _, True
   end) x →
  books_ok N (account X e x s).
Proof.
  intros (Hl & Hp & Hf) Hs. unfold books_ok. destruct e; simpl; try done.
  - split; [done|]. split; [|done]. intros [Hx Hq]%orb_false_elim. specialize (Hp Hx).
    apply negb_false_iff, andb_true_iff in Hq as [?%Z.leb_le ?%Z.leb_le]. lia.
  - destruct x as [g|m]; simpl; rewrite length_app; simpl; (split; [lia|]); split; auto.
  - split; [pose proof (length_remove_one g (held s)); lia|]. split.
    + intros [? _]%orb_false_elim. auto.
    + apply Forall_forall. intros g' Hg'. apply (proj1 (Forall_forall _ _) Hf). by eapply remove_one_subset.
  - split; [done|]. split; [|done]. intros Hx. specialize (Hp Hx). destruct x; lia.
  - split; [done|]. split; [|done]. intros [Hx Hq]%orb_false_elim. specialize (Hp Hx). lia.
  - split; [done|]. split; [|done]. intros [? _]%orb_false_elim. auto.
Qed.

(** ** Dropping claims *)
Lemma active_busy_drop g h n :
  n < length h → (1 ≤ active_requests (h !!! _busy g))%Z → (active_requests (h !!! n) ≤ usize_max)%Z →
  (0 ≤ active_requests (h !!! n))%Z →
  active_requests (busy_drop g h !!! n) =
    (active_requests (h !!! n) - if decide (_busy g = n) then 1 else 0)%Z.
Proof.
  intros Hn H1 Hmax H0. unfold busy_drop. destruct (Z.eqb_spec (active_requests (h !!! _busy g)) 0); [lia|].
  rewrite lookup_total_bump by done. case_decide as E; [|lia]. simpl. rewrite wrap_usize_small; [done|].
  subst. unfold usize_max in *. lia.
Qed.

Lemma length_busy_drop g h : length (busy_drop g h) = length h.
Proof. unfold busy_drop. case_match; by rewrite ?length_bump. Qed.

Lemma active_alter f (r : NodeRef) (h : heap) (n : NodeRef) :
  (∀ x, active_requests (f x) = active_requests x) →
  active_requests (alter f r h !!! n) = active_requests (h !!! n).
Proof.
  intros Hf. rewrite !list_lookup_total_alt, list_lookup_alter. case_decide; [|done]. subst.
  destruct (h !! n); simpl; [by rewrite Hf|done].
Qed.

Section Invariant.
Context `{Deps} (self : Proxy) (max : Z) (N : nat).

Definition thread_ok (t : Thread) : Prop :=
  match t with
  | Running p s => (∃ req, wp account p (handled self req) s) ∧ books_ok N s
  | Serving g _ => _busy g < N
  | Gone => True
  end.

Definition inv (w : ProxyWorld) : Prop :=
  length (nodes w) = N ∧ Forall thread_ok (threads w) ∧ balanced max w.

Lemma handled_end req r s :
  handled self req r s → length (chosen s) ≤ 1 ∧ fault s = false.
Proof. destruct 1; simpl; (split; [lia|done]). Qed.

Lemma running_ok p s req :
  wp account p (handled self req) s → length (chosen s) ≤ 1 ∧ fault s = false.
Proof.
  intros Hw. destruct (wp_reaches p _ s Hw) as (r & s' & Hh & Hp & Hf).
  destruct (handled_end req r s' Hh) as [Hc Hf']. apply prefix_length in Hp. split; [lia|].
  destruct (fault s); [|done]. by rewrite Hf in Hf'.
Qed.

Lemma thread_bounds t :
  thread_ok t → length (guards_of t) ≤ 1 ∧ (0 ≤ permits_of t ∧ 0 ≤ gauge_of t ≤ 1)%Z ∧ Forall (λ g, _busy g < N) (guards_of t).
Proof.
  destruct t as [p s|g b|]; simpl; intros Ht.
  - destruct Ht as [[req Hw] (Hl & Hp & Hf)]. destruct (running_ok p s req Hw) as [Hc Hff].
    split; [lia|]. auto.
  - split; [lia|]. split; [destruct b; simpl; lia|]. by repeat constructor.
  - split; [lia|]. done.
Qed.

(** A node's counter covers every thread's claims and fits its width. *)
Lemma claims_covered w t n :
  inv w → t ∈ threads w → n < N → (Z.of_nat (length (threads w)) ≤ usize_max)%Z →
  (claims_on n (guards_of t) ≤ active_requests (nodes w !!! n) ≤ Z.of_nat (length (threads w)))%Z ∧
  (0 ≤ claims_on n (guards_of t))%Z.
Proof.
  intros (Hlen & Hok & _ & _ & _ & Hact) Ht Hn Hb. rewrite Hact by lia.
  assert (∀ t, t ∈ threads w → 0 ≤ claims_on n (guards_of t) ≤ 1)%Z as Hc.
  { intros t' Ht'. pose proof (claims_on_bound n (guards_of t')).
    destruct (thread_bounds t' (proj1 (Forall_forall _ _) Hok t' Ht')) as [? _]. lia. }
  split; [|by apply Hc]. split; [|pose proof (total_bound (λ t, claims_on n (guards_of t)) 1 (threads w) Hc); lia].
  apply list_elem_of_lookup in Ht as [i Hi].
  assert (0 ≤ total (λ t, claims_on n (guards_of t)) (<[i := Gone]> (threads w)))%Z as H0.
  { apply (total_bound (λ t, claims_on n (guards_of t)) 1). intros t' Ht'.
    apply list_elem_of_lookup in Ht' as [j Hj]. destruct (decide (j = i)) as [->|Hne].
    - rewrite list_lookup_insert_eq in Hj by by eapply lookup_lt_Some. simplify_eq. simpl. lia.
    - rewrite list_lookup_insert_ne in Hj by done. apply Hc. by eapply list_elem_of_lookup_2. }
  rewrite (total_insert _ _ _ _ _ Hi) in H0. simpl in H0. lia.
Qed.

(** Replacing one thread, with the shared state moved by the difference. *)
Lemma inv_update ts c a h i t t' c' a' h' :
  inv (mkProxyWorld ts c a h) → ts !! i = Some t → thread_ok t' → length h' = length h →
  c' = (c - gauge_of t + gauge_of t')%Z → a' = (a + permits_of t - permits_of t')%Z → (0 ≤ a')%Z →
  (∀ n, n < N → active_requests (h' !!! n) =
     (active_requests (h !!! n) - claims_on n (guards_of t) + claims_on n (guards_of t'))%Z) →
  inv (mkProxyWorld (<[i := t']> ts) c' a' h').
Proof.
  intros (Hlen & Hok & Hg & Hp & Ha & Hact) Hi Ht' Hl -> -> Ha' Hn. simpl in *.
  split; [simpl; congruence|]. split; [by apply Forall_insert|].
  unfold balanced. simpl. rewrite !(total_insert _ _ _ _ _ Hi). split_and!; [lia|lia|done|].
  intros n Hlt. rewrite (total_insert _ _ _ _ _ Hi), Hn, Hact by lia. lia.
Qed.
(** One event of a running handler. *)
Lemma inv_event ts c a h i X (e : Ev X) k s x c' a' h' :
  inv (mkProxyWorld ts c a h) → (Z.of_nat (length ts) < usize_max)%Z →
  ts !! i = Some (Running (Vis X e k) s) → effect X e x (c, a, h) (c', a', h') →
  inv (mkProxyWorld (<[i := Running (k x) (account X e x s)]> ts) c' a' h').
Proof.
  intros Hinv Hb Hi He. pose proof Hinv as (Hlen & Hok & _ & _ & Ha & _). simpl in Hlen, Ha.
  pose proof (Forall_lookup_1 _ _ _ _ Hok Hi) as [[req Hw] Hbk]. simpl in Hw.
  pose proof (λ n Hn, claims_covered _ _ n Hinv (list_elem_of_lookup_2 _ _ _ Hi) Hn ltac:(simpl; lia)) as Hcov.
  simpl in Hcov.
  assert (∀ s', account X e x s = s' → books_ok N s' → thread_ok (Running (k x) s')) as Hth.
  { intros s' <- Hbk'. split; [|done]. by exists req. }
  specialize (Hth _ eq_refl). pose proof (account_books_ok N X e x s Hbk) as Hbk'.
  assert (∀ h', length h' = length h → (∀ n, active_requests (h' !!! n) = active_requests (h !!! n)) →
    books_ok N (account X e x s) → held (account X e x s) = held s → gauge (account X e x s) = gauge s →
    permits (account X e x s) = permits s →
    inv (mkProxyWorld (<[i := Running (k x) (account X e x s)]> ts) c a h')) as Hsame.
  { intros h2 Hl2 Hact2 Hbo Hh Hg Hp. eapply inv_update; [done|done|by apply Hth|done|simpl; rewrite ?Hg, ?Hp; lia..|].
    intros n Hn. rewrite Hact2. simpl. rewrite Hh. lia. }
  destruct e; simpl in He, Hbk', Hth; try (injection He as -> -> ->; apply Hsame; solve [done | by apply Hbk']).
  - injection He as -> -> ->. eapply inv_update; [done|done|by apply Hth, Hbk'|done|simpl; lia..|]. simpl. lia.
  - destruct He as (ns & h2 & Hns & Hcl & [= -> -> ->]). destruct x as [g|m]; simpl in Hcl.
    + destruct Hcl as (Hin & Hbusy & ->). assert (_busy g < N) as Hlt.
      { rewrite Hbusy, <- Hlen. by apply (proj1 (Forall_forall _ _) Hns). }
      eapply inv_update; [done|done|by apply Hth, Hbk'|apply length_bump|simpl; lia..|].
      intros n Hn. destruct (Hcov n Hn) as [? ?]. rewrite <- Hbusy, active_bump by (try case_decide; lia).
      simpl. case_decide; lia.
    + subst h2. eapply inv_update; [done|done|by apply Hth, Hbk'|done|simpl; lia..|]. simpl. lia.
  - injection He as -> -> ->.
    destruct (running_ok _ _ req (Hw x)) as [_ Hf]. simpl in Hf. apply orb_false_elim in Hf as [_ Hg].
    apply negb_false_iff, bool_decide_eq_true in Hg.
    assert (_busy g < N) as Hlt by by apply (proj1 (Forall_forall _ _) (proj2 (proj2 Hbk))).
    assert (1 ≤ claims_on (_busy g) (held s))%Z as H1.
    { clear -Hg. induction (held s) as [|g' gs IH]; [by apply elem_of_nil in Hg|]. simpl.
      apply elem_of_cons in Hg as [->|Hg].
      - rewrite decide_True by done. pose proof (claims_on_bound (_busy g') gs). lia.
      - specialize (IH Hg). case_decide; lia. }
    destruct (Hcov _ Hlt) as [Hc1 _].
    eapply inv_update; [done|done|by apply Hth, Hbk'|apply length_busy_drop|simpl; lia..|].
    intros n Hn. destruct (Hcov n Hn) as [Hc2 ?]. rewrite active_busy_drop by lia. simpl.
    rewrite claims_on_remove by done. lia.
  - destruct He as [-> [= -> -> ->]].
    eapply inv_update; [done|done|by apply Hth, Hbk'|done|simpl; lia|simpl; destruct (0 <? a)%Z; simpl; lia| |simpl; lia].
    destruct (Z.ltb_spec 0 a); simpl; lia.
  - injection He as -> -> ->. eapply inv_update; [done|done|by apply Hth, Hbk'|done|simpl; lia..|]. simpl. lia.
  - destruct He as [now [= -> -> ->]]. apply Hsame; [apply length_alter| |by apply Hbk'|done..].
    intros n. by apply active_alter.
  - injection He as -> -> ->. apply Hsame; [apply length_alter| |by apply Hbk'|done..].
    intros n. by apply active_alter.
  - destruct He as [_ [= -> -> ->]]. apply Hsame; solve [done|by apply Hbk'].
Qed.
Lemma active_drop_all gs (h : heap) n :
  n < length h →
  (∀ m, m < length h → (claims_on m gs ≤ active_requests (h !!! m) ≤ usize_max)%Z) →
  Forall (λ g, _busy g < length h) gs →
  length (drop_all gs h) = length h ∧
  active_requests (drop_all gs h !!! n) = (active_requests (h !!! n) - claims_on n gs)%Z.
Proof.
  intros Hn Hc Hf. revert n Hn. induction gs as [|g gs IH]; intros n Hn; simpl; [split; [done|lia]|].
  apply Forall_cons in Hf as [Hg Hf].
  assert (∀ m, m < length h → (claims_on m gs ≤ active_requests (h !!! m) ≤ usize_max)%Z) as Hc'.
  { intros m Hm. specialize (Hc m Hm). simpl in Hc. case_decide; lia. }
  specialize (IH Hc' Hf). destruct (IH n Hn) as [Hl Hact]. destruct (IH _ Hg) as [_ Hactg].
  rewrite length_busy_drop. split; [done|].
  pose proof (Hc n Hn) as H1. pose proof (Hc _ Hg) as H2. simpl in H1, H2. rewrite decide_True in H2 by done.
  pose proof (claims_on_bound n gs). pose proof (claims_on_bound (_busy g) gs).
  rewrite active_busy_drop; [|by rewrite Hl|rewrite Hactg; lia|rewrite Hact; case_decide; lia|rewrite Hact; case_decide; lia].
  rewrite Hact. lia.
Qed.

Lemma proxy_inv_step w w' :
  inv w → (Z.of_nat (length (threads w')) < usize_max)%Z → step self w w' → inv w'.
Proof.
  intros Hinv Hb Hs. destruct Hs as [req ts c a h|i X e k s x ts c a h c' a' h' Hi He
    |i r s ts c a h Hi|i g p ts c a h Hi|i p s ts c a h Hi];
    simpl in Hb; rewrite ?length_insert in Hb.
  - destruct Hinv as (Hl & Hok & Hg & Hp & Ha & Hact). split; [done|]. simpl in *. split.
    + apply Forall_app. split; [done|]. constructor; [|done]. split; [|by split_and!].
      exists req. apply every_handled.
    + unfold balanced. simpl. rewrite !total_app. simpl. split_and!; [lia|lia|done|].
      intros n Hn. rewrite total_app. simpl. rewrite Hact by done. lia.
  - by eapply inv_event.
  - pose proof Hinv as (_ & Hok & _ & _ & Ha & _).
    pose proof (Forall_lookup_1 _ _ _ _ Hok Hi) as [[req Hh] (_ & _ & Hf)]. simpl in Hh, Ha.
    apply handled_gives_back in Hh as (Hg & _ & Hr).
    assert (gauge_of (after_reply r) = 0%Z ∧ permits_of (after_reply r) = permits s ∧
      guards_of (after_reply r) = held s ∧ thread_ok (after_reply r)) as (E1 & E2 & E3 & E4).
    { destruct r as [[|? ? ? p [g|]]|]; simpl in *; destruct Hr as [E Hr]; rewrite E in *; rewrite ?Hr; try done.
      destruct Hr as [-> _]. repeat split. by apply Forall_cons in Hf as [? _]. }
    eapply inv_update; [done|done|done|done|rewrite E1; simpl; lia|rewrite E2; simpl; lia|done|].
    intros n Hn. rewrite E3. simpl. lia.
  - pose proof Hinv as (Hl & Hok & _ & _ & Ha & _). simpl in Hl, Ha.
    pose proof (Forall_lookup_1 _ _ _ _ Hok Hi) as Hg. simpl in Hg.
    pose proof (λ n Hn, claims_covered _ _ n Hinv (list_elem_of_lookup_2 _ _ _ Hi) Hn ltac:(simpl; lia)) as Hcov.
    simpl in Hcov. destruct (Hcov _ Hg) as [Hc1 _]. rewrite decide_True in Hc1 by done.
    eapply inv_update; [done|done|done|apply length_busy_drop|simpl; lia|simpl; lia|destruct p; simpl; lia|].
    intros n Hn. destruct (Hcov n Hn) as [? ?]. rewrite active_busy_drop by (case_decide; lia || lia). simpl. lia.
  - pose proof Hinv as (Hl & Hok & _ & _ & Ha & _). simpl in Hl, Ha.
    pose proof (Forall_lookup_1 _ _ _ _ Hok Hi) as Ht. destruct (thread_bounds _ Ht) as (_ & Hp & Hf). simpl in Hp, Hf.
    pose proof (λ n Hn, claims_covered _ _ n Hinv (list_elem_of_lookup_2 _ _ _ Hi) Hn ltac:(simpl; lia)) as Hcov.
    simpl in Hcov.
    assert (∀ n, n < N → length (drop_all (held s) h) = length h ∧
      active_requests (drop_all (held s) h !!! n) = (active_requests (h !!! n) - claims_on n (held s))%Z) as Hd.
    { intros n Hn. apply active_drop_all; [lia| |by rewrite Hl]. intros m Hm. destruct (Hcov m ltac:(lia)); lia. }
    assert (length (drop_all (held s) h) = length h) as Hl'.
    { clear. induction (held s) as [|g gs IH]; [done|]. simpl. by rewrite length_busy_drop. }
    eapply inv_update; [done|done|done|done|simpl; lia|simpl; lia|lia|].
    intros n Hn. destruct (Hd n Hn) as [_ ->]. simpl. lia.
Qed.

Lemma threads_grow w w' : step self w w' → length (threads w) ≤ length (threads w').
Proof. destruct 1; simpl; rewrite ?length_insert, ?length_app; simpl; lia. Qed.
End Invariant.

Lemma reachable_inv `{Deps} (self : Proxy) max h w :
  (0 ≤ max)%Z → Forall (λ n, active_requests n = 0%Z) h →
  rtc (step self) (idle_world max h) w → (Z.of_nat (length (threads w)) < usize_max)%Z → inv self max (length h) w.
Proof.
  intros Hmax Hz. revert w. refine (rtc_ind_r (λ w, (Z.of_nat (length (threads w)) < usize_max)%Z → inv self max (length h) w)
    (idle_world max h) _ _); [intros _|intros w w' Hr Hs IH Hb].
  - split; [done|]. split; [constructor|]. split_and!; [done|simpl; lia|done|]. intros n Hn. simpl in *.
    apply (proj1 (Forall_forall _ _) Hz). by apply list_elem_of_lookup_total_2.
  - eapply proxy_inv_step; [apply IH|done|done]. pose proof (threads_grow self _ _ Hs). lia.
Qed.

(** A handler about to load the counters is counted, once. *)
Lemma scraper_counted `{Deps} (self : Proxy) N k s :
  thread_ok self N (Running (Vis _ LoadCounters k) s) → gauge s = 1%Z.
Proof.
  intros [[req Hw] _]. specialize (Hw (λ _, 0%Z)). destruct (running_ok self _ _ _ Hw) as [_ Hf]. simpl in Hf.
  apply orb_false_elim in Hf as [_ Hf%negb_false_iff%Z.eqb_eq]. done.
Qed.

(** C2: In every reachable state of any number of concurrent requests, clients
    disconnecting at any point, the shared state is exactly what the requests
    hold: the gauge counts the handlers at work, the permits out never exceed
    the configured limit and none is lost, every node's counter is the number of
    claims on it; a scrape of the metrics shows the handlers at work but itself;
    once nothing is in flight, everything is back at rest. *)
Theorem proxy_balanced `{Deps} (self : Proxy) max h w :
  (0 ≤ max)%Z → Forall (λ n, active_requests n = 0%Z) h →
  rtc (step self) (idle_world max h) w → (Z.of_nat (length (threads w)) < usize_max)%Z →
  balanced max w ∧ (0 ≤ total permits_of (threads w) ≤ max)%Z ∧
  (∀ i k s load w', threads w !! i = Some (Running (Vis _ LoadCounters k) s) →
     effect _ LoadCounters load (concurrent w, available w, nodes w) w' →
     shown load ConcurrentRequests = total gauge_of (<[i := Gone]> (threads w))) ∧
  (Forall (λ t, t = Gone) (threads w) →
     concurrent w = 0%Z ∧ available w = max ∧
     ∀ n, n < length (nodes w) → active_requests (nodes w !!! n) = 0%Z).
Proof.
  intros Hmax Hz Hr Hb. destruct (reachable_inv self max h w Hmax Hz Hr Hb) as (Hl & Hok & Hbal).
  split; [done|]. destruct Hbal as (Hg & Hp & Ha & Hact). split_and!.
  - assert (∀ t, t ∈ threads w → 0 ≤ permits_of t)%Z as Ht.
    { intros t Ht. by apply (thread_bounds self (length h)), (proj1 (Forall_forall _ _) Hok). }
    clear -Ht. induction (threads w) as [|t ts IH]; simpl; [lia|].
    pose proof (Ht t ltac:(by left)). specialize (IH ltac:(intros; apply Ht; by right)). lia.
  - lia.
  - intros i k s load w' Hi [Hc _]. pose proof (scraper_counted _ _ _ _ (Forall_lookup_1 _ _ _ _ Hok Hi)) as H1.
    pose proof (total_insert gauge_of _ _ _ Gone Hi) as Ht. simpl in Ht.
    assert (0 ≤ total gauge_of (<[i := Gone]> (threads w)))%Z.
    { apply (total_bound gauge_of 1). intros t Hin. eapply (thread_bounds self (length h)).
      apply list_elem_of_lookup in Hin as [j Hj]. destruct (decide (j = i)) as [->|Hne].
      - rewrite list_lookup_insert_eq in Hj by by eapply lookup_lt_Some. by simplify_eq.
      - rewrite list_lookup_insert_ne in Hj by done. by eapply Forall_lookup_1. }
    unfold shown. rewrite decide_True by done. lia.
  - intros Hgone. assert (∀ f, f Gone = 0%Z → total f (threads w) = 0%Z) as H0.
    { intros f Hf. clear -Hgone Hf. induction Hgone as [|t ts -> _ IH]; [done|]. simpl. lia. }
    split; [rewrite Hg; by apply H0|]. split; [rewrite (H0 permits_of) in Hp by done; lia|].
    intros n Hn. rewrite Hact by done. by apply H0.
Qed.
