(* ===== verification/Drain.v ===== *)
(** * The serve loop and its shutdown (llama-proxy/src/proxy/server.rs)

    [GracefulServe::run] and the shutdown of the exporters behind it, as a
    machine: the loop's own turns, the connection tasks, the tasks that export a
    sample, the writer thread of the exporter, the signal and the clock, in any
    order.  A handler runs inside the task of its connection, as it does over
    HTTP/1; what exports its sample - the observer of a passed-through stream, or
    the task [emit_metrics] spawns - is a task of its own that nothing joins. *)
From S2P Require Import Prelude Numbers Node Metrics Export.

Definition GRACEFUL_SHUTDOWN_GRACE : Duration := 5 * ns_per_sec.
(** worker.rs: how long [shutdown] waits for the writer thread. *)
Definition JOIN_BUDGET : Duration := 120 * ns_per_sec.

(** A task of the [JoinSet]; ended, it stays there until it is joined. *)
Record Conn := mkConn {
  in_flight : nat;                 (** requests being answered *)
  asked : bool;                    (** [graceful_shutdown()] called *)
  ended : bool;
}.
Definition conn_new : Conn := mkConn 0 false false.

Inductive Phase :=
  | Accepting (checked : bool)     (** the signal of this turn looked at *)
  | Draining (deadline : Instant)
  | Drained                        (** [run] has returned *)
  | Closing (deadline : Instant)   (** [shutdown_all]: waiting for the writer thread *)
  | Closed.

Record Server := mkServer {
  phase : Phase;
  listening : bool;
  signalled : bool;
  told : bool;                     (** [drain_tx] dropped *)
  conns : list Conn;
  now : Instant;
  exporting : nat;                 (** tasks that have yet to export their sample *)
  exporter : Writer;
  refused : list RequestMetrics;   (** history: samples met by a shut exporter *)
  behind : nat;                    (** history: such tasks left when it was shut *)
}.
Definition serving (t : Instant) : Server := mkServer (Accepting false) true false false [] t 0 spawned [] 0.

Definition with_phase (p : Phase) (s : Server) : Server :=
  mkServer p (listening s) (signalled s) (told s) (conns s) (now s) (exporting s) (exporter s) (refused s) (behind s).
Definition with_conns (cs : list Conn) (s : Server) : Server :=
  mkServer (phase s) (listening s) (signalled s) (told s) cs (now s) (exporting s) (exporter s) (refused s) (behind s).
Definition with_exporting (n : nat) (s : Server) : Server :=
  mkServer (phase s) (listening s) (signalled s) (told s) (conns s) (now s) n (exporter s) (refused s) (behind s).
Definition with_exporter (w : Writer) (lost : list RequestMetrics) (s : Server) : Server :=
  mkServer (phase s) (listening s) (signalled s) (told s) (conns s) (now s) (exporting s) w (refused s ++ lost) (behind s).
Definition export (m : RequestMetrics) (s : Server) : Server :=
  let '(r, w) := influx_export m (exporter s) in with_exporter w (match r with Err _ => [m] | Ok _ => [] end) s.
(** [shutdown_all] up to the wait for the writer thread. *)
Definition shut_down (s : Server) : Server :=
  mkServer (Closing (now s + JOIN_BUDGET)%Z) (listening s) (signalled s) (told s) (conns s) (now s) (exporting s)
    (close (exporter s)) (refused s) (exporting s).
(** The wait is over: the thread is done, or the budget is. *)
Definition join_over (deadline : Instant) (s : Server) : Prop := pc (exporter s) = Done ∨ (deadline ≤ now s)%Z.

(** The last connection joined ends the drain, not the serving. *)
Definition joined (cs : list Conn) (p : Phase) : Phase :=
  match p with
  | Accepting _ => Accepting false
  | Draining _ => if bool_decide (cs = []) then Drained else p
  | _ => p
  end.

(** The break out of the accept loop: the listener and [drain_tx] dropped, then
    the deadline armed, unless there is nobody to wait for. *)
Definition break_off (s : Server) : Server :=
  mkServer (if bool_decide (conns s = []) then Drained else Draining (now s + GRACEFUL_SHUTDOWN_GRACE)%Z)
    false (signalled s) true (conns s) (now s) (exporting s) (exporter s) (refused s) (behind s).

(** ** The loop's own turns *)
Inductive own_turn (s : Server) : Server → Prop :=
  | turn_break : phase s = Accepting false → signalled s = true → own_turn s (break_off s)
  | turn_checked : phase s = Accepting false → signalled s = false → own_turn s (with_phase (Accepting true) s)
  | turn_join i c :
      (phase s = Accepting true ∨ ∃ d, phase s = Draining d) → conns s !! i = Some c → ended c = true →
      own_turn s (with_phase (joined (delete i (conns s)) (phase s)) (with_conns (delete i (conns s)) s))
  | turn_accept : phase s = Accepting true → own_turn s (with_phase (Accepting false) (with_conns (conns s ++ [conn_new]) s))
  | turn_failed : phase s = Accepting true → own_turn s (with_phase (Accepting false) s)   (** [accept] failed *)
  | turn_woken : phase s = Accepting true → signalled s = true → own_turn s (with_phase (Accepting false) s)
  | turn_deadline d : phase s = Draining d → (d ≤ now s)%Z → own_turn s (with_phase Drained (with_conns [] s))
  | turn_shutdown : phase s = Drained → own_turn s (shut_down s)
  | turn_finished d : phase s = Closing d → join_over d s → own_turn s (with_phase Closed s).

(** ** A connection task *)
Inductive conn_step (told : bool) (c : Conn) : Conn → Prop :=
  | conn_request : ended c = false → asked c = false → conn_step told c (mkConn (S (in_flight c)) false false)
  | conn_response n : ended c = false → in_flight c = S n → conn_step told c (mkConn n (asked c) false)
  | conn_ends : ended c = false → conn_step told c (mkConn 0 (asked c) true)      (** hung up or broken *)
  | conn_notices : ended c = false → told = true → conn_step told c (mkConn (in_flight c) true false)
  | conn_closes : ended c = false → asked c = true → in_flight c = 0 → conn_step told c (mkConn 0 true true).

Section Machine.
Context (point_refused : DataPoint → bool).

Inductive serve_step (s : Server) : Server → Prop :=
  | sv_own s' : own_turn s s' → serve_step s s'
  | sv_conn i c c' : conns s !! i = Some c → conn_step (told s) c c' → serve_step s (with_conns (<[i := c']> (conns s)) s)
  | sv_sample i c :                   (** a request has its sample exported *)
      conns s !! i = Some c → ended c = false → in_flight c ≠ 0 → serve_step s (with_exporting (S (exporting s)) s)
  | sv_export n m : exporting s = S n → serve_step s (export m (with_exporting n s))
  | sv_writer ok w : worker_step point_refused ok (exporter s) = Some w → serve_step s (with_exporter w [] s)
  | sv_signal : serve_step s (mkServer (phase s) (listening s) true (told s) (conns s) (now s) (exporting s) (exporter s) (refused s) (behind s))
  | sv_time t : (now s ≤ t)%Z →
      serve_step s (mkServer (phase s) (listening s) (signalled s) (told s) (conns s) t (exporting s) (exporter s) (refused s) (behind s)).

Definition serves (t : Instant) (s : Server) : Prop := rtc serve_step (serving t) s.
End Machine.

(** * Facts *)
Definition returned (p : Phase) : bool := match p with Drained | Closing _ | Closed => true | _ => false end.
Definition shut (p : Phase) : bool := match p with Closing _ | Closed => true | _ => false end.

(** The turns the loop still takes at most, once the signal is there. *)
Definition rank (s : Server) : nat :=
  match phase s with
  | Accepting true => 6 + length (conns s)
  | Accepting false => 4 + length (conns s)
  | Draining _ => 3 + length (conns s)
  | Drained => 2
  | Closing _ => 1
  | Closed => 0
  end.

(** Nothing is left to do but wait: for a connection or the end of the grace,
    for the writer thread or the end of its budget. *)
Definition waiting (s : Server) : Prop :=
  match phase s with
  | Draining d => (now s < d <= now s + GRACEFUL_SHUTDOWN_GRACE)%Z ∧ Forall (λ c, ended c = false) (conns s)
  | Closing d => (now s < d <= now s + JOIN_BUDGET)%Z ∧ pc (exporter s) ≠ Done
  | _ => False
  end.

Section Facts.
Context (point_refused : DataPoint → bool).
#[local] Opaque CAPACITY.

Record server_ok (s : Server) : Prop := {
  so_writer : writer_ok (exporter s);
  so_refused : if shut (phase s) then length (refused s) + exporting s ≤ behind s else refused s = [];
  so_gone : match phase s with Accepting _ => True | Draining _ => conns s ≠ [] | _ => conns s = [] end;
  so_open : match phase s with Accepting _ => listening s = true ∧ told s = false
            | _ => listening s = false ∧ told s = true ∧ signalled s = true end;
  so_shut : closed (exporter s) = shut (phase s);
  so_deadline : match phase s with
                | Draining d => (d ≤ now s + GRACEFUL_SHUTDOWN_GRACE)%Z
                | Closing d => (d ≤ now s + JOIN_BUDGET)%Z
                | _ => True
                end;
}.

Lemma serving_ok t : server_ok (serving t).
Proof. split; cbn; [apply spawned_ok|done..]. Qed.

Lemma enqueue_closed m w : closed (enqueue m w).2 = closed w.
Proof. destruct w as [q cl dc p ws lv an pc re dr acc fin]. cbn. by destruct cl, (CAPACITY <=? length q), pc. Qed.

Lemma enqueue_open m w : writer_ok w → closed w = false → (enqueue m w).1 ≠ ShutDown.
Proof.
  destruct w as [q cl dc p ws lv an pc re dr acc fin]. intros [_ _ _ _ _ He]. unfold exiting in He. cbn in *. intros ->.
  destruct pc; cbn; try (by destruct (CAPACITY <=? length q)). by destruct He.
Qed.

Lemma worker_step_keeps_closed ok w w' : worker_step point_refused ok w = Some w' → closed w' = closed w.
Proof.
  destruct w as [q cl dc p ws lv an pc re dr acc fin]. cbn. intros H.
  destruct pc; try discriminate H; injection H as <-; repeat case_match; done.
Qed.

Lemma insert_nil {A} i (x : A) l : <[i := x]> l = [] ↔ l = [].
Proof. destruct l, i; naive_solver. Qed.

Lemma own_turn_ok s s' : own_turn s s' → server_ok s → server_ok s'.
Proof.
  destruct s as [p li si to cs t ob w rf bh]. intros Hs [Hw Hr Hg Ho Hc Hd]. cbn in *.
  destruct Hs as [E Es|E Es|i c E Hi Hc'|E|E|E Es|d E Hle|E|d E Hj]; cbn in *.
  - rewrite E in *. destruct Ho as [-> ->]. unfold break_off. cbn. case_bool_decide; by split; cbn.
  - rewrite E in *. by split.
  - destruct E as [E|[d E]]; rewrite E in *; cbn in *; [by split|]. case_bool_decide; by split; cbn.
  - rewrite E in *. by split.
  - rewrite E in *. by split.
  - rewrite E in *. by split.
  - rewrite E in *. by split.
  - rewrite E in *. cbn in *. subst. pose proof (writer_step_ok (λ _, false) _ _ (ws_close _ w) Hw).
    split; cbn; [done|lia|try done; by destruct w..].
  - rewrite E in *. by split.
Qed.

Lemma export_ok n m s : exporting s = S n → server_ok s → server_ok (export m (with_exporting n s)).
Proof using Type.
  intros Hn [Hw Hr Hg Ho Hc Hd]. unfold export, influx_export. cbn. pose proof (enqueue_open m (exporter s) Hw) as Hne.
  pose proof (enqueue_closed m (exporter s)) as Hcl.
  pose proof (writer_step_ok (λ _, false) _ _ (ws_enqueue _ m (exporter s)) Hw) as Hw'.
  destruct (enqueue m (exporter s)) as [o w]. cbn in *. rewrite Hn in Hr.
  destruct o; split; cbn; try done; try congruence; rewrite ?app_nil_r; destruct (shut (phase s));
    rewrite ?length_app; cbn; first [lia|done|by destruct Hne].
Qed.

Lemma serve_step_ok s s' : serve_step point_refused s s' → server_ok s → server_ok s'.
Proof.
  destruct s as [p li si to cs t ob w rf bh]. intros Hs Hok.
  destruct Hs as [s' Hs|i c c' Hi Hc'|i c Hi He Hf|k m Hk|ok w' Hw'| |t' Ht]; [by eapply own_turn_ok|..];
    pose proof Hok as [Hw Hr Hg Ho Hc Hd]; cbn in *.
  - split; cbn; try done. destruct p; by rewrite ?insert_nil.
  - split; cbn; try done. destruct p; try done; by rewrite Hg in Hi.
  - by apply export_ok.
  - split; cbn; rewrite ?app_nil_r; try done; [by eapply worker_step_ok|]. by rewrite (worker_step_keeps_closed _ _ _ Hw').
  - split; cbn; try done. destruct p; naive_solver.
  - split; cbn; try done. destruct p; naive_solver lia.
Qed.

Lemma serves_ok t s : serves point_refused t s → server_ok s.
Proof.
  unfold serves. intros Hr. assert (server_ok (serving t)) as H0 by apply serving_ok. revert H0.
  induction Hr as [|x y z Hs _ IH]; [done|]. intros H. by eapply IH, serve_step_ok.
Qed.

(** C12: What the shutdown keeps: whatever the connections, the signal and the clock
    do, once the loop has returned no connection is left and none is let in; a
    sample meets a shut exporter only if its task was behind when the exporter
    was shut ([late_sample_lost]); and from then on the writer thread, left to
    itself, delivers every sample ever accepted or drops and counts it. *)
Theorem shutdown_keeps_samples t s oks :
  serves point_refused t s →
  (returned (phase s) = true → listening s = false ∧ conns s = []) ∧
  closed (exporter s) = shut (phase s) ∧
  (shut (phase s) = false → refused s = []) ∧
  (shut (phase s) = true →
    length (refused s) ≤ behind s ∧
    let w := run_worker point_refused (remaining (exporter s)) oks (exporter s) in
    pc w = Done ∧ (finished w).*1 = accepted (exporter s) ∧ (undelivered (finished w) ≤ dropped w)%Z).
Proof.
  intros Hs. destruct (serves_ok t s Hs) as [Hw Hr Hg Ho Hc _]. split_and!; [|done|by intros E; rewrite E in Hr|].
  - destruct (phase s); naive_solver.
  - intros Hsh. rewrite Hsh in Hr, Hc. split; [lia|].
    destruct (run_worker_done point_refused (remaining (exporter s)) oks (exporter s) Hw Hc (le_n _)) as (Hd & Ha & Hok).
    split_and!; [done| |apply Hok]. rewrite <- Ha. by apply (writer_done_all _ Hok).
Qed.

Lemma rank_export m s : rank (export m s) = rank s.
Proof using Type. unfold export. by destruct (influx_export m (exporter s)). Qed.

(** C19: The shutdown ends: from the signal on the loop has a bounded number of turns
    left, which nothing another party does gives back, and it rests only when it
    is through - or to wait for a connection no longer than the grace, or for
    the writer thread no longer than its budget. *)
Theorem drain_ends t s :
  serves point_refused t s → signalled s = true →
  (∀ s', own_turn s s' → signalled s' = true ∧ rank s' < rank s) ∧
  (∀ s', serve_step point_refused s s' → rank s' ≤ rank s) ∧
  (phase s = Closed ∨ waiting s ∨ ∃ s', own_turn s s').
Proof.
  intros Hs Hsig. pose proof (serves_ok t s Hs) as Hok. destruct s as [p li si to cs n ob w rf bh]. cbn in Hsig. subst si.
  assert (∀ s', own_turn (mkServer p li true to cs n ob w rf bh) s' → signalled s' = true ∧ rank s' < rank (mkServer p li true to cs n ob w rf bh)) as Hown.
  { intros s' Ht. unfold rank. destruct Ht as [E Es|E Es|i c E Hi Hc'|E|E|E Es|d E Hle|E|d E Hj]; cbn in *; try discriminate Es;
      (split; [done|]); try rewrite E in *; try (cbn; lia).
    - case_bool_decide as H; [rewrite H|]; cbn; lia.
    - apply lookup_lt_Some in Hi as Hlt. assert (length (delete i cs) = length cs - 1) by (by apply length_delete).
      destruct E as [E|[d E]]; rewrite E in *; cbn; [lia|]. case_bool_decide; cbn; lia.
    - rewrite length_app. cbn. lia. }
  split; [done|]. split.
  - intros s' [s1 Ht|i c c' Hi Hc'|i c Hi He Hf|k m Hk|ok w' Hw'| |t' Ht]; [apply Nat.lt_le_incl, Hown, Ht|..];
      rewrite ?rank_export; unfold rank; cbn; rewrite ?length_insert; reflexivity.
  - destruct Hok as [_ _ Hg Ho _ Hd]. cbn in *. destruct p as [[]|d| |d|].
    + right; right. eexists. by apply turn_woken.
    + right; right. eexists. by apply turn_break.
    + destruct (decide (d ≤ n)%Z) as [Hdl|Hdl]; [right; right; eexists; by eapply turn_deadline|].
      destruct (decide (Forall (λ c, ended c = false) cs)) as [Hf|Hf]; [right; left; unfold waiting; cbn; split; [lia|done]|].
      apply not_Forall_Exists, Exists_exists in Hf as (c & [i Hi]%list_elem_of_lookup & He); [|intros; apply _].
      right; right. eexists. eapply turn_join; [right; by exists d|exact Hi|by apply not_false_is_true].
    + right; right. eexists. by apply turn_shutdown.
    + destruct (decide (d ≤ n)%Z) as [Hdl|Hdl]; [right; right; eexists; eapply turn_finished; [reflexivity|by right]|].
      assert (pc w = Done ∨ pc w ≠ Done) as [E|E] by (destruct (pc w); first [by left|by right]).
      * right; right. eexists. eapply turn_finished; [reflexivity|by left].
      * right; left. unfold waiting. cbn. split; [lia|done].
    + by left.
Qed.
(** The comments promise that no sample is handed in behind [shutdown_all].  The
    task that exports it is joined by nobody: with the response sent, the
    connection closed in good order and the drain over at once, its sample meets
    the shut exporter. *)
Lemma late_sample_lost t m :
  ∃ s, serves point_refused t s ∧ refused s = [m] ∧ accepted (exporter s) = [] ∧ now s = t.
Proof.
  eexists. split.
  - unfold serves, serving.
    do 2 (eapply rtc_l; [apply sv_own; first [by apply turn_accept|by apply turn_checked]|]).
    eapply rtc_l; [eapply (sv_conn _ _ 0); [reflexivity|by apply conn_request]|].
    eapply rtc_l; [by eapply (sv_sample _ _ 0)|].
    eapply rtc_l; [eapply (sv_conn _ _ 0); [reflexivity|by apply (conn_response _ _ 0)]|].
    eapply rtc_l; [eapply (sv_conn _ _ 0); [reflexivity|by apply conn_ends]|].
    eapply rtc_l; [apply sv_own; by apply turn_checked|].
    eapply rtc_l; [apply sv_own; eapply (turn_join _ 0); [by left|reflexivity|reflexivity]|].
    eapply rtc_l; [apply sv_signal|].
    eapply rtc_l; [apply sv_own; by apply turn_break|].
    eapply rtc_l; [apply sv_own; by apply turn_shutdown|].
    eapply rtc_l; [by eapply (sv_export _ _ 0 m)|]. apply rtc_refl.
  - done.
Qed.
End Facts.
