(* ===== verification/Server.v ===== *)
(** * The server (llama-proxy/src/proxy/server.rs)

    The address it binds, the state it shares between requests, the origins it
    answers to.  Serving and shutting down are in [Drain], the requests in
    [Handler]. *)
From S2P Require Import Prelude Prog Net Node Balancer RoundRobin PriorityFree Json Config Grouped FixTypes Http Augment Reprompt Preflight.

(** ** The address *)
Inductive IoError :=
  | InvalidInput (e : ConfigError)
  | NoBindableAddress (host : str) (port : Z)
  | NoBindCandidates
  | Os (e : str).

Inductive Sock : Type → Type :=
  | LookupHost (host : str) (port : Z) : Sock (result str (list SocketAddr))
  | Bind (addr : SocketAddr) : Sock (result str nat)       (** a listener *)
  | LocalAddr (listener : nat) : Sock (result str SocketAddr).

(** [partition] keeps the order on both sides. *)
Definition prefer_loopback (addrs : list SocketAddr) : list SocketAddr :=
  filter (λ a, is_loopback (ip a) = true) addrs ++ filter (λ a, is_loopback (ip a) = false) addrs.

Definition bare_host (host : str) : str := default host (h ← strip_prefix host (lit "["); strip_suffix h (lit "]")).
Definition is_ip (s : str) : bool := match parse_ip s with Some _ => true | None => false end.

Definition literal (bare : str) (port : Z) : option SocketAddr :=
  match parse_ipv4 bare with
  | Some n => Some (mkAddr (V4 n) port)
  | None => match parse_ipv6 bare with Some n => Some (mkAddr (V6 n) port) | None => None end
  end.

Definition resolve_bind_addr (host : str) (port : Z) : prog Sock (result IoError (list SocketAddr)) :=
  let bare := bare_host host in
  match literal bare port with
  | Some a => Ret (Ok [a])
  | None =>
      match validate_bind_host is_ip host with
      | Err e => Ret (Err (InvalidInput e))
      | Ok _ =>
          found ← trigger (LookupHost bare port);
          Ret (match found with
               | Err e => Err (Os e)
               | Ok addrs =>
                   match prefer_loopback addrs with
                   | [] => Err (NoBindableAddress host port)
                   | addrs => Ok addrs
                   end
               end)
      end
  end.

Fixpoint bind_first (last_err : IoError) (candidates : list SocketAddr) : prog Sock (result IoError (nat * SocketAddr)) :=
  match candidates with
  | [] => Ret (Err last_err)
  | addr :: rest =>
      r ← trigger (Bind addr);
      match r with
      | Ok listener =>
          l ← trigger (LocalAddr listener);
          Ret (match l with Ok local => Ok (listener, local) | Err e => Err (Os e) end)
      | Err e => bind_first (Os e) rest
      end
  end.

Definition bind_addr (host : str) (port : Z) : prog Sock (result IoError (nat * SocketAddr)) :=
  r ← resolve_bind_addr host port;
  match r with Err e => Ret (Err e) | Ok candidates => bind_first NoBindCandidates candidates end.

(** ** The origins *)
Inductive AllowOrigin := AnyOrigin | OriginList (values : list str).

Section Cors.
Context (header_value : str → option str).    (** [HeaderValue::from_str] *)

Definition build_cors_layer (allowed_origins : option (list str)) : AllowOrigin :=
  match allowed_origins with
  | None => AnyOrigin
  | Some list => OriginList (omap (λ entry, if bool_decide (entry = lit "*") then None else header_value entry) list)
  end.
End Cors.

(** ** The shared state *)
Inductive ServerBalancer :=
  | SingleNode (b : RoundRobinBalancer)
  | Groups (b : GroupedLoadBalancer DynBalancer).

#[export] Instance server_balancer : LoadBalancer ServerBalancer := {
  select b now m h :=
    match b with
    | SingleNode rr => '(r, rr', h') ← select rr now m h; Some (r, SingleNode rr', h')
    | Groups g => '(r, g', h') ← select g now m h; Some (r, Groups g', h')
    end;
  strategy_name b := match b with SingleNode rr => strategy_name rr | Groups g => strategy_name g end;
  all_nodes b := match b with SingleNode rr => all_nodes rr | Groups g => all_nodes g end;
}.

Record Counters := mkCounters {
  concurrent_requests : Z;         (** the gauge *)
  backend_streaming_fallback_hits : Z;
  openai_stream_passthrough_total : Z;
  backend_nonsse_when_streamed_for : Z;
  anthropic_buffered_responses_total : Z;
  vram_estimate_served_total : Z;
  vram_estimate_unknown_total : Z;
  rejected_requests : Z;
}.
Definition counters_new : Counters := mkCounters 0 0 0 0 0 0 0 0.

Record ProxyState := mkState {
  st_config : AppConfig;
  st_load_balancer : ServerBalancer;
  st_fix_registry : FixRegistry;
  st_augment_backend : option AugmentBackend;
  st_reprompt_engine : option RepromptEngine;
  st_hide_requests : bool;
  st_log_augmented_request_text : bool;
  st_dump_path : option str;
  st_counters : Counters;
  st_buffered_notice_once : bool;
  st_concurrent_semaphore : option Z;
}.

Section Run.
Context (build_node_client : Z → option TlsConfig → result str unit) (clock : NodeRef → Instant).
Context (build_augment_client : Z → result str unit) (read : str → result str str).
Context (MAX_PERMITS : Z).    (** tokio's [Semaphore::MAX_PERMITS] *)

(** The semaphore of a limit; [None]: [Semaphore::new] panics above [MAX_PERMITS]. *)
Definition new_semaphore (max : Z) : option (option Z) :=
  if (0 <? max)%Z then if (MAX_PERMITS <? max)%Z then None else Some (Some max) else Some None.

Definition augment_from_config (c : AugmentBackendConfig) : result str AugmentBackend :=
  _ ← build_augment_client (ab_timeout_secs c);
  Ok (Augment.mkAugment (trim_end_matches "/"%char (ab_url c)) (ab_model c) (ab_prompt_file c) (ab_request_prompt_file c)).

(** The backends with the models preflight found; [None]: the index panic. *)
Definition with_backends (b : BackendsConfig) (c : AppConfig) : AppConfig :=
  mkApp (server c) (backend c) (Some b) (fixes c) (stats c) (exporters_influxdb c) (streaming c) (synthesis c)
    (augment_backend c) (reprompt c) (dump c).
Definition after_preflight (outcomes : list (option NodeProbeOutcome)) (c : AppConfig) : option AppConfig :=
  match backends c with
  | Some b => b' ← apply_outcomes outcomes b; Some (with_backends b' c)
  | None => Some c
  end.

Definition build_load_balancer (c : AppConfig) (h : heap) : result str (ServerBalancer * heap) :=
  match backends c, backend c with
  | Some groups, _ => '(b, h') ← grouped_new build_node_client clock groups h; Ok (Groups b, h')
  | None, Some single => '(b, h') ← build_balancer_from_single build_node_client clock single h; Ok (SingleNode b, h')
  | None, None => '(b, h') ← grouped_new build_node_client clock [] h; Ok (Groups b, h')
  end.

(** An engine that is enabled and built; a failure is logged and leaves none. *)
Definition enabled_engine {C E} (c : option C) (enabled : C → bool) (from_config : C → result str E) : option E :=
  c ← c;
  if enabled c then match from_config c with Ok e => Some e | Err _ => None end else None.

(** [run_server] up to the router: the probes have answered [outcomes].
    [None]: a panic. *)
Definition server_state (config : AppConfig) (outcomes : list (option NodeProbeOutcome)) (registry : FixRegistry)
    (hide_requests log_augmented_request_text : bool) (h : heap) : option (result str (ProxyState * heap)) :=
  config ← after_preflight outcomes config;
  match build_load_balancer config h with
  | Err e => Some (Err e)
  | Ok (balancer, h') =>
      semaphore ← new_semaphore (max_concurrent_requests (server config));
      Some (Ok (mkState config balancer registry
          (enabled_engine (augment_backend config) ab_enabled augment_from_config)
          (enabled_engine (reprompt config) rp_enabled (engine_from_config read))
          hide_requests log_augmented_request_text
          (if dump_enabled (dump config) && negb (bool_decide (dump_path (dump config) = []))
           then Some (dump_path (dump config)) else None)
          counters_new false semaphore, h'))
  end.
End Run.

(** * Facts *)

(** ** The address *)

(** What was asked of the network and answered. *)
Record Heard := mkHeard { looked_up : list (str * Z * result str (list SocketAddr)); tried : list (SocketAddr * bool) }.
Definition hear (X : Type) (e : Sock X) (x : X) (s : Heard) : Heard :=
  match e in Sock X return X → Heard with
  | LookupHost h p => λ r, mkHeard (looked_up s ++ [(h, p, r)]) (tried s)
  | Bind a => λ r, mkHeard (looked_up s) (tried s ++ [(a, match r with Ok _ => true | Err _ => false end)])
  | LocalAddr _ => λ _, s
  end x.

(** Binding goes through the candidates in order and stops at the first that
    accepts. *)
Definition tried_in_order (cs : list SocketAddr) (r : result IoError (nat * SocketAddr)) (s : Heard) : Prop :=
  (∃ failed a rest, cs = failed ++ a :: rest ∧ tried s = ((., false) <$> failed) ++ [(a, true)] ∧
     ∀ e, r = Err e → ∃ t, e = Os t) ∨
  (tried s = (., false) <$> cs ∧ ∃ e, r = Err e).

(** The addresses a host stands for, given what a lookup answered. *)
Definition candidates (host : str) (port : Z) (s : Heard) : list SocketAddr :=
  match literal (bare_host host) port with
  | Some a => [a]
  | None => match looked_up s with [(_, _, Ok addrs)] => prefer_loopback addrs | _ => [] end
  end.

Lemma bind_first_right last_err pre cs s :
  tried s = (., false) <$> pre →
  wp hear (bind_first last_err cs) (λ r s', looked_up s' = looked_up s ∧ tried_in_order (pre ++ cs) r s' ∧
    (∀ e, r = Err (InvalidInput e) → last_err = InvalidInput e)) s.
Proof.
  revert last_err pre s. induction cs as [|a cs IH]; intros last_err pre s Ht; cbn [bind_first].
  - split; [done|]. split; [|intros e [= ->]; done]. right. rewrite app_nil_r. split; [done|]. by exists last_err.
  - intros [l|e].
    + intros [local|e]; (split; [done|]; split; [left; exists pre, a, cs; split; [done|]; split;
        [cbn; by rewrite Ht|]|]); first [done|intros e' [= <-]; by exists e].
    + assert (pre ++ a :: cs = (pre ++ [a]) ++ cs) as -> by by rewrite <- app_assoc.
      eapply wp_mono; [apply (IH (Os e) (pre ++ [a])); cbn; by rewrite Ht, fmap_app|].
      intros r s' (Hl & Ho & He). split; [done|]. split; [done|]. intros e' E. by apply He in E.
Qed.

(** The binder keeps the loader's contract: a host the loader refuses is refused
    before the network is asked anything, and one it accepts never is; a literal
    is bound as it is written, a name is looked up once, and the addresses it
    stands for are tried in order, loopback first, until one accepts. *)
Theorem bind_right host port :
  wp hear (bind_addr host port) (λ r s,
    match validate_bind_host is_ip host with
    | Err e => r = Err (InvalidInput e) ∧ s = mkHeard [] []
    | Ok _ =>
        (∀ e, r ≠ Err (InvalidInput e)) ∧ tried_in_order (candidates host port s) r s ∧
        match literal (bare_host host) port with
        | Some _ => looked_up s = []
        | None => ∃ found, looked_up s = [(bare_host host, port, found)]
        end
    end) (mkHeard [] []).
Proof.
  unfold bind_addr, resolve_bind_addr. destruct (literal (bare_host host) port) as [a|] eqn:El.
  - assert (validate_bind_host is_ip host = Ok ()) as ->.
    { unfold validate_bind_host. fold (bare_host host). replace (is_ip (bare_host host)) with true; [done|].
      assert (is_Some (parse_ip (bare_host host))) as [x Hx].
      { apply parse_ip_either. unfold literal in El.
        destruct (parse_ipv4 _) as [n|]; [left; by exists n|]. destruct (parse_ipv6 _) as [n|]; [right; by exists n|done]. }
      unfold is_ip. by rewrite Hx. }
    eapply wp_mono; [apply (bind_first_right NoBindCandidates [] [a] (mkHeard [] [])); done|].
    intros r s (Hl & Ho & He). cbn in Hl. split; [intros e E; by apply He in E|]. split; [|done].
    unfold candidates. by rewrite El.
  - destruct (validate_bind_host is_ip host) as [[]|e]; [|done]. intros [addrs|e]; cbn.
    + destruct (prefer_loopback addrs) as [|a cs] eqn:Ep.
      * split; [done|]. split; [|by exists (Ok addrs)]. right. unfold candidates. cbn. rewrite El, Ep. split; [done|]. by eexists.
      * eapply wp_mono; [apply (bind_first_right NoBindCandidates [] (a :: cs) (mkHeard [(bare_host host, port, Ok addrs)] [])); done|].
        intros r s (Hl & Ho & He). cbn in Hl. split; [intros e E; by apply He in E|].
        split; [|by exists (Ok addrs)]. unfold candidates. by rewrite El, Hl, Ep.
    + split; [done|]. split; [|by exists (Err e)]. right. unfold candidates. cbn. rewrite El. split; [done|]. by eexists.
Qed.

(** ** The balancer is a balancer *)
Definition server_wf (b : ServerBalancer) (h : heap) : Prop :=
  match b with SingleNode rr => rr_wf rr h | Groups g => grouped_wf dyn_wf g h end.

#[export] Instance server_laws : LoadBalancerLaws ServerBalancer server_wf.
Proof.
  split.
  - intros [rr|g] now m h Hwf; cbn in *.
    + destruct (select_no_panic (wf:=rr_wf) rr now m h Hwf) as [[[r b'] h'] Hs]. cbn in Hs. rewrite Hs. by eexists.
    + destruct (select_no_panic (wf:=grouped_wf dyn_wf) g now m h Hwf) as [[[r b'] h'] Hs]. cbn in Hs. rewrite Hs. by eexists.
  - intros [rr|g] now m h r b' h' Hwf Hs; cbn in *; apply bind_Some in Hs as ([[r0 b0] h0] & Hs & E); simplify_eq/=.
    + exact (select_claims_one (wf:=rr_wf) rr now m h r b0 h' Hwf Hs).
    + exact (select_claims_one (wf:=grouped_wf dyn_wf) g now m h r b0 h' Hwf Hs).
  - intros [rr|g] now m h r b' h' Hwf Hs; cbn in *; apply bind_Some in Hs as ([[r0 b0] h0] & Hs & E); simplify_eq/=.
    + exact (select_keeps_nodes (wf:=rr_wf) rr now m h r b0 h' Hwf Hs).
    + exact (select_keeps_nodes (wf:=grouped_wf dyn_wf) g now m h r b0 h' Hwf Hs).
Qed.

(** ** From configuration to shared state *)
Definition idle (h : heap) : Prop := Forall (λ n, active_requests n = 0%Z) h.

Lemma fill_node_timeout cfg o : nc_timeout_seconds (fill_node cfg o) = nc_timeout_seconds cfg.
Proof. by destruct o as [[? ? [m|]]|]. Qed.
Lemma fill_node_tls cfg o : nc_tls (fill_node cfg o) = nc_tls cfg.
Proof. by destruct o as [[? ? [m|]]|]. Qed.

Lemma filled_group_ok g outs :
  group_ok g → length (gc_nodes g) ≤ length outs → group_ok (set_nodes (zip_with fill_node (gc_nodes g) outs) g).
Proof.
  intros [Hn Hs Hc Ht] Hl. split; cbn; [|done..|].
  - destruct (gc_nodes g), outs; cbn in *; first [done|lia].
  - clear Hn. revert outs Hl. induction Ht as [|n ns Hn _ IH]; intros outs Hl; [constructor|].
    destruct outs as [|o outs]; [constructor|]. cbn in *. constructor; [by rewrite fill_node_timeout|apply IH; lia].
Qed.

Lemma fill_groups_ok backends outcomes :
  length (probes backends) ≤ length outcomes → Forall (λ p, p.1 ≠ [] ∧ group_ok p.2) backends →
  Forall (λ p, p.1 ≠ [] ∧ group_ok p.2) (fill backends outcomes).
Proof.
  intros Hl H. revert outcomes Hl. induction H as [|[name g] bs [Hn Hg] _ IH]; intros outcomes Hl; [constructor|].
  cbn [fill]. unfold probes in Hl. rewrite bind_cons, length_app, length_imap in Hl. fold (probes bs) in Hl. constructor.
  - split; [done|]. apply filled_group_ok; [done|]. lia.
  - apply IH. rewrite length_drop. lia.
Qed.

(** The nodes of a configuration. *)
Definition configured_nodes (c : AppConfig) : list BackendNodeConfig :=
  match backends c, backend c with
  | Some groups, _ => groups ≫= λ p, gc_nodes p.2
  | None, Some b => [mkNodeConfig (bc_url b) (bc_timeout_seconds b) (bc_tls b) (bc_model b) (bc_api_key b) (bc_strip_path_prefix b) None]
  | None, None => []
  end.

Section StartFacts.
Context (build_node_client : Z → option TlsConfig → result str unit) (clock : NodeRef → Instant).

Lemma fill_client_builds groups outcomes :
  Forall (client_builds build_node_client) (groups ≫= λ p, gc_nodes p.2) →
  Forall (λ p, Forall (client_builds build_node_client) (gc_nodes p.2)) (fill groups outcomes).
Proof using Type.
  revert outcomes. induction groups as [|[name g] groups IH]; intros outcomes H; [constructor|].
  rewrite bind_cons, Forall_app in H. destruct H as [Hg Hgs]. cbn [fill]. constructor; [|by apply IH].
  cbn in Hg |- *. clear -Hg. revert outcomes. induction Hg as [|n ns Hn _ IH]; intros [|o outcomes]; try constructor; [|by apply IH].
  unfold client_builds. by rewrite fill_node_timeout, fill_node_tls.
Qed.

Lemma node_from_config_idle c h r h' : node_from_config build_node_client clock c h = Ok (r, h') → idle h → idle h'.
Proof.
  unfold node_from_config, from_config. intros E Hh. inv_result. simplify_eq. apply Forall_app. by repeat constructor.
Qed.
Lemma nodes_from_config_idle cs h rs h' : nodes_from_config build_node_client clock cs h = Ok (rs, h') → idle h → idle h'.
Proof.
  revert h rs h'. induction cs as [|c cs IH]; intros h rs h' E Hh; cbn in E; [by simplify_eq|].
  apply result_bind_Ok in E as ([r h1] & E1 & E). apply result_bind_Ok in E as ([rs1 h2] & E2 & E). simplify_eq.
  eapply IH; [done|]. by eapply node_from_config_idle.
Qed.
Lemma groups_from_entries_idle es h gs h' : groups_from_entries build_node_client clock es h = Ok (gs, h') → idle h → idle h'.
Proof.
  revert h gs h'. induction es as [|[n c] es IH]; intros h gs h' E Hh; cbn in E; [by simplify_eq|].
  apply result_bind_Ok in E as ([rs h1] & E1 & E). apply result_bind_Ok in E as (bal & _ & E).
  apply result_bind_Ok in E as ([gs1 h2] & E2 & E). simplify_eq. eapply IH; [done|]. by eapply nodes_from_config_idle.
Qed.

(** Groups that passed the loader build, as a well-formed balancer over idle
    nodes. *)
Lemma grouped_new_starts groups :
  Forall (λ p, Forall (client_builds build_node_client) (gc_nodes p.2)) groups →
  Forall (λ p, p.1 ≠ [] ∧ group_ok p.2) groups →
  ∃ b h, grouped_new build_node_client clock groups [] = Ok (b, h) ∧ grouped_wf dyn_wf b h ∧ idle h.
Proof.
  intros Hc Hok. destruct (groups_from_entries_total build_node_client clock (sort_by_key groups) []) as (gs & h & E); [by rewrite sort_by_key_perm..|].
  assert (grouped_new build_node_client clock groups [] = Ok (mkGrouped gs, h)) as En by (unfold grouped_new; by rewrite E).
  exists (mkGrouped gs), h. split; [done|]. split.
  - by apply (grouped_new_spec build_node_client clock _ _ _ _ En); constructor.
  - eapply groups_from_entries_idle; [done|constructor].
Qed.

Lemma single_starts c :
  build_node_client (bc_timeout_seconds c) (bc_tls c) = Ok () →
  ∃ b h, build_balancer_from_single build_node_client clock c [] = Ok (b, h) ∧ rr_wf b h ∧ idle h.
Proof.
  intros Hc. unfold build_balancer_from_single, node_from_config, from_config. cbn [nc_timeout_seconds nc_tls]. rewrite Hc. cbn. eexists _, _. split; [done|].
  split; [split; [done|]; split; [by repeat constructor|by repeat constructor]|by repeat constructor].
Qed.

(** Preflight and the balancer never stand in the way. *)
Lemma balancer_starts `{Serde} `{HeaderText} parse_ip url_parse debug_str show_f64 path_exists read yaml path config outcomes :
  load_config parse_ip url_parse debug_str show_f64 path_exists read yaml path = Ok config →
  (∀ groups, backends config = Some groups → NoDup groups.*1 ∧
     Forall2 (λ '(name, i, cfg) o, returns (probe_node build_node_client name i cfg) o) (probes groups) outcomes) →
  Forall (client_builds build_node_client) (configured_nodes config) →
  ∃ config' b h, after_preflight outcomes config = Some config' ∧ server config' = server config ∧
    build_load_balancer build_node_client clock config' [] = Ok (b, h) ∧ server_wf b h ∧ idle h ∧
    (backends config = None → backend config = None → ∀ now m h', ∃ e b', select b now m h' = Some (Err e, b', h')).
Proof.
  intros Hload Hpre Hc. unfold configured_nodes in Hc. unfold after_preflight, build_load_balancer.
  destruct (backends config) as [groups|] eqn:Eb.
  - destruct (Hpre groups eq_refl) as [Hnd HF]. destruct (preflight_fills build_node_client groups outcomes Hnd HF) as [-> _].
    destruct (load_config_groups _ _ _ _ _ _ _ _ _ _ Hload Eb) as (_ & Hok & _).
    destruct (grouped_new_starts (fill groups outcomes)) as (b & h & En & Hwf & Hi); [by apply fill_client_builds| |].
    { apply fill_groups_ok; [by rewrite (Forall2_length _ _ _ HF)|done]. }
    eexists _, _, h. split; [reflexivity|]. split; [done|]. cbn. rewrite En. by split.
  - exists config. rewrite Eb. destruct (backend config) as [c|].
    + apply Forall_cons in Hc as [Hc _]. destruct (single_starts c Hc) as (b & h & En & Hwf & Hi). rewrite En.
      by eexists _, h.
    + eexists _, []. split; [done|]. split; [done|]. split; [reflexivity|]. split_and!; [constructor|constructor|].
      intros _ _ now [m|] h'; cbn; by eexists _, _.
Qed.

(** C20: For a configuration the loader accepts, the clients of whose nodes can be
    built, the shared state of the server is built whatever the preflight finds,
    whichever of the three shapes the backends have, unless it sets a limit over
    what a semaphore takes: then building it panics.  The state holds the
    configured limit, a well-formed balancer over idle nodes and counters at
    zero; its semaphore is armed exactly when a limit is set; and without a
    backend every selection is refused. *)
Theorem server_starts `{Serde} `{HeaderText} parse_ip url_parse debug_str show_f64 path_exists read yaml path config
    outcomes registry hide log_text build_augment_client MAX_PERMITS :
  load_config parse_ip url_parse debug_str show_f64 path_exists read yaml path = Ok config →
  (∀ groups, backends config = Some groups → NoDup groups.*1 ∧
     Forall2 (λ '(name, i, cfg) o, returns (probe_node build_node_client name i cfg) o) (probes groups) outcomes) →
  Forall (client_builds build_node_client) (configured_nodes config) →
  let built := server_state build_node_client clock build_augment_client read MAX_PERMITS config outcomes registry hide log_text [] in
  let max := max_concurrent_requests (server config) in
  if (0 <? max)%Z && (MAX_PERMITS <? max)%Z then built = None else
  ∃ st h, built = Some (Ok (st, h)) ∧
    server_wf (st_load_balancer st) h ∧ idle h ∧ st_counters st = counters_new ∧
    (∀ n, st_concurrent_semaphore st = Some n ↔ n = max ∧ (0 < n)%Z) ∧
    (backends config = None → backend config = None → ∀ now m h', ∃ e b, select (st_load_balancer st) now m h' = Some (Err e, b, h')).
Proof.
  intros Hload Hpre Hc built max.
  assert (∃ config' b h, after_preflight outcomes config = Some config' ∧ server config' = server config ∧
    build_load_balancer build_node_client clock config' [] = Ok (b, h) ∧ server_wf b h ∧ idle h ∧
    (backends config = None → backend config = None → ∀ now m h', ∃ e b', select b now m h' = Some (Err e, b', h')))
    as (config' & b & h & Ea & Es & Eb & Hwf & Hi & Hr) by by eapply balancer_starts.
  assert (built = (sem ← new_semaphore MAX_PERMITS max; Some (Ok (mkState config' b registry
    (enabled_engine (augment_backend config') ab_enabled (augment_from_config build_augment_client))
    (enabled_engine (reprompt config') rp_enabled (engine_from_config read)) hide log_text
    (if dump_enabled (dump config') && negb (bool_decide (dump_path (dump config') = []))
     then Some (dump_path (dump config')) else None) counters_new false sem, h)))) as ->.
  { unfold built, server_state. rewrite Ea. cbn [mbind option_bind]. by rewrite Eb, Es. }
  unfold new_semaphore. destruct (Z.ltb_spec 0 max), (Z.ltb_spec MAX_PERMITS max); cbn; try done.
  all: eexists _, _; (split; [done|]); split_and!; [done..| |exact Hr]; intros n; cbn; split; [intros [= <-]|intros [-> ?]]; try done; try lia.
Qed.
End StartFacts.
