(* ===== verification/Startup.v ===== *)
(** * The command line (llama-proxy/src/main.rs)

    The overrides and the checks between the configuration file and the server,
    and the commands that only look: the summary of a configuration, the list of
    fixes, the probes of the backends.  What is printed or logged is a list of
    lines; the clock, the file, the network and the server are events or
    parameters. *)
From S2P Require Import Prelude Numbers Prog Utf8 Node Json Http Config FixTypes Fixes MalformedArgs.

Inductive LogLevel := Trace | Debug | Info | Warn | Error.
Definition show_log_level (l : LogLevel) : str :=
  match l with
  | Trace => lit "trace" | Debug => lit "debug" | Info => lit "info" | Warn => lit "warn" | Error => lit "error"
  end.

(** [Display] of a [ConfigError]. *)
Definition show_config_error (e : ConfigError) : str :=
  match e with
  | NotFound p => lit "Configuration file not found: " ++ p
  | Io e => lit "Failed to read configuration file: " ++ e
  | Parse e => lit "Failed to parse configuration: " ++ e
  | Validation m => lit "Configuration validation error: " ++ m
  end.

(** What [run] may override. *)
Record Overrides := mkOverrides {
  port_override : option Z;
  backend_url_override : option str;
  streaming_mode_override : option str;
  dump_override : option str;
}.

Definition with_port (p : Z) (c : AppConfig) : AppConfig :=
  mkApp (mkServer p (host (server c)) (max_concurrent_requests (server c)) (allowed_origins (server c)))
    (backend c) (backends c) (fixes c) (stats c) (exporters_influxdb c) (streaming c) (synthesis c)
    (augment_backend c) (reprompt c) (dump c).
Definition with_backend (b : BackendConfig) (c : AppConfig) : AppConfig :=
  mkApp (server c) (Some b) (backends c) (fixes c) (stats c) (exporters_influxdb c) (streaming c) (synthesis c)
    (augment_backend c) (reprompt c) (dump c).
Definition with_streaming (m : StreamingMode) (c : AppConfig) : AppConfig :=
  mkApp (server c) (backend c) (backends c) (fixes c) (stats c) (exporters_influxdb c) m (synthesis c)
    (augment_backend c) (reprompt c) (dump c).
Definition with_dump (path : str) (c : AppConfig) : AppConfig :=
  mkApp (server c) (backend c) (backends c) (fixes c) (stats c) (exporters_influxdb c) (streaming c) (synthesis c)
    (augment_backend c) (reprompt c) (mkDump true path).
Definition with_url (url : str) (b : BackendConfig) : BackendConfig :=
  mkBackendConfig url (bc_timeout_seconds b) (bc_tls b) (bc_model b) (bc_api_key b) (bc_strip_path_prefix b).

(** The names [Debug] derives. *)
Definition debug_mode (m : StreamingMode) : str :=
  match m with Disabled => lit "Disabled" | Fake => lit "Fake" | Passthrough => lit "Passthrough" end.
Definition debug_format (f : StatsFormat) : str :=
  match f with Pretty => lit "Pretty" | Config.Json => lit "Json" | Compact => lit "Compact" end.
Definition show_bool (b : bool) : str := if b then lit "true" else lit "false".

(** ** Overriding *)
Definition override_port (o : option Z) (c : AppConfig) : AppConfig * list str :=
  match o with Some p => (with_port p c, [lit "port=" ++ show_Z p]) | None => (c, []) end.

(** The flag says whether the override was refused with a warning. *)
Definition override_url (o : option str) (c : AppConfig) : AppConfig * list str * bool :=
  match o with
  | None => (c, [], false)
  | Some url =>
      match backends c, backend c with
      | Some _, _ => (c, [], true)
      | None, Some b => (with_backend (with_url url b) c, [lit "backend-url=" ++ url], false)
      | None, None => (with_backend (with_url url BackendConfig_default) c, [lit "backend-url=" ++ url], false)
      end
  end.

Section Startup.
Context (to_lowercase : str → str) (parse_ip : str → bool) (url_parse : str → result str (str * option str)).
Context (debug_str : str → str) (show_f64 : f64 → str) (path_exists : str → bool).

(** The configuration with the overrides of the command line, and their list. *)
Definition apply_overrides (o : Overrides) (c : AppConfig) : result str (AppConfig * list str * bool) :=
  let '(c, applied1) := override_port (port_override o) c in
  let '(c, applied2, ignored) := override_url (backend_url_override o) c in
  mode ← resolve to_lowercase (streaming_mode_override o) (streaming c);
  let c := with_streaming mode c in
  let applied3 := match streaming_mode_override o with Some _ => [lit "streaming=" ++ debug_mode mode] | None => [] end in
  Ok (c, applied1 ++ applied2 ++ applied3, ignored).

Definition dump_to (o : option str) (c : AppConfig) : AppConfig :=
  match o with Some path => with_dump path c | None => c end.

Definition text_error {A} (r : result ConfigError A) : result str A :=
  match r with Ok a => Ok a | Err e => Err (show_config_error e) end.

Definition validate_final (cfg : AppConfig) : result str unit :=
  if (port (server cfg) =? 0)%Z
  then Err (lit "server port 0 is not supported (ephemeral-port bind is out of scope): pick a fixed port 1-65535")
  else
    _ ← match backend cfg with
        | Some b =>
            if bool_decide (trim (bc_url b) = []) then Err (lit "backend url must not be empty")
            else text_error (validate_http_url url_parse (bc_url b) (lit "Backend"))
        | None => Ok ()
        end;
    match augment_backend cfg with
    | Some augment => text_error (validate_http_url url_parse (ab_url augment) (lit "Augment backend"))
    | None => Ok ()
    end.

(** ** The summary *)
Definition debug_list (l : list str) : str := lit "[" ++ join (lit ", ") (debug_str <$> l) ++ lit "]".

Definition mapping_str (g : BackendGroupConfig) : str :=
  match gc_mappings g with [] => lit "catch-all" | ms => debug_list ms end.
Definition group_lines (e : str * BackendGroupConfig) : list str :=
  let '(name, g) := e in
  (lit "  Group [" ++ name ++ lit "]: mappings=" ++ mapping_str g ++ lit " strategy=" ++ gc_strategy g
   ++ lit " nodes=" ++ show_nat (length (gc_nodes g)))
  :: imap (λ i n, lit "    Node [" ++ show_nat i ++ lit "]: " ++ trim_end_matches "/"%char (nc_url n)) (gc_nodes g).

Definition backend_lines (c : AppConfig) : list str :=
  match backends c, backend c with
  | Some groups, _ =>
      (lit "Backend: multi-group mode (" ++ show_nat (length groups) ++ lit " group(s))") :: concat (group_lines <$> groups)
  | None, Some b =>
      (lit "Backend: single " ++ trim_end_matches "/"%char (bc_url b) ++ lit " (timeout "
       ++ show_Z (bc_timeout_seconds b) ++ lit "s)")
      :: match bc_tls b with
         | Some tls =>
             [lit "  TLS: accept_invalid_certs=" ++ show_bool (accept_invalid_certs tls)
              ++ lit " ca_cert=" ++ default (lit "none") (ca_cert_path tls)
              ++ lit " client_cert=" ++ default (lit "none") (client_cert_path tls)]
         | None => []
         end
  | None, None => [lit "Backend: none configured — completion requests answer 503"]
  end.

Definition reprompt_asked (c : AppConfig) : bool := match reprompt c with Some r => rp_enabled r | None => false end.

Definition streaming_lines (c : AppConfig) : list str :=
  (lit "Streaming: mode=" ++ mode_as_str (streaming c) ++ lit " effective=" ++ effective_label (streaming c)
   ++ lit " honored_on=" ++ (if is_passthrough (streaming c) then lit "/v1/chat/completions with stream:true"
                             else lit "all streaming clients"))
  :: (if is_passthrough (streaming c) then
        [lit "  Anthropic /v1/messages: buffered + synthesized (no OpenAI->Anthropic SSE translator yet)";
         lit "  Fixes on this path: " ++ (if fixes_enabled (fixes c) then lit "enabled" else lit "disabled in config")
         ++ lit " - DETECT ONLY, not repaired (passthrough_fix_unrepaired_total)";
         lit "  Reprompt on the streamed path: cannot run"
         ++ (if reprompt_asked c
             then lit " - config asks for enabled: true; it still runs on non-streaming and /v1/messages" else [])]
      else []).

Definition render_config_summary (c : AppConfig) : list str :=
  [lit "Server: " ++ host (server c) ++ lit ":" ++ show_Z (port (server c))]
  ++ backend_lines c
  ++ [lit "Fixes: enabled=" ++ show_bool (fixes_enabled (fixes c)) ++ lit " modules=" ++ show_nat (length (modules (fixes c)))]
  ++ ((λ e, lit "  " ++ e.1 ++ lit ": " ++ show_bool (fm_enabled e.2)) <$> modules (fixes c))
  ++ streaming_lines c
  ++ [lit "Stats: enabled=" ++ show_bool (st_enabled (stats c)) ++ lit " format=" ++ debug_format (st_format (stats c));
      lit "InfluxDB exporter: enabled=" ++ show_bool (ix_enabled (exporters_influxdb c))
      ++ lit " url=" ++ ix_url (exporters_influxdb c) ++ lit " org=" ++ ix_org (exporters_influxdb c)
      ++ lit " bucket=" ++ ix_bucket (exporters_influxdb c)].

(** What a mode switches off is said once, as a warning when the configuration
    asked for it. *)
Definition gives_up (c : AppConfig) : list str :=
  (if fixes_enabled (fixes c)
   then [lit "on that path fixes DETECT but do NOT repair (passthrough_fix_unrepaired_total)"] else [])
  ++ (if reprompt_asked c
      then [lit "on that path reprompt cannot run - it needs the complete JSON body. Non-streaming and /v1/messages requests still reprompt"]
      else []).
Definition passthrough_notice (c : AppConfig) : list (LogLevel * str) :=
  if is_passthrough (streaming c) then
    [(if fixes_enabled (fixes c) || reprompt_asked c then Warn else Info,
      lit "streaming: passthrough forwards backend SSE verbatim for /v1/chat/completions with stream:true. Everything else (non-streaming, /v1/messages) stays buffered + synthesized. "
      ++ match gives_up c with
         | [] => lit "Nothing configured is bypassed by this mode."
         | l => lit "This mode gives up on the streamed path: " ++ join (lit "; ") l
                ++ lit ". Want repair + premature-stop recovery there? use: streaming: fake"
         end)]
  else [].
Definition log_config_settings (c : AppConfig) : list (LogLevel * str) :=
  [(Info, lit "=== Configuration ===")] ++ ((λ l, (Info, l)) <$> render_config_summary c)
  ++ passthrough_notice c ++ [(Info, lit "=== End Configuration ===")].
End Startup.

(** ** The commands *)
Inductive Outcome :=
  | Finished
  | Failed (e : str)               (** [main] returns the error *)
  | ExitOne.

Inductive Boot : Type → Type :=
  | Log (level : LogLevel) (line : str) : Boot unit
  | Print (line : str) : Boot unit
  | Complain (line : str) : Boot unit                   (** [eprintln!] *)
  | NewInfluxExporter (c : InfluxDbConfig) : Boot (result str unit)
  | RunServer (c : AppConfig) (r : FixRegistry) (exporting hide_requests log_augmented : bool) : Boot (result str unit)
  | HttpProbe (node : BackendNode) (url : str) (api_key : option str) : Boot (result str (Z * result str str)).

Abbreviation boot A := (prog Boot A).
Fixpoint say_all (say : str → Boot unit) (lines : list str) : boot unit :=
  match lines with [] => Ret tt | l :: ls => _ ← trigger (say l); say_all say ls end.
Fixpoint log_all (lines : list (LogLevel * str)) : boot unit :=
  match lines with [] => Ret tt | (v, l) :: ls => _ ← trigger (Log v l); log_all ls end.

Section Commands.
Context `{Serde, SlotRegex}.
Context (to_lowercase : str → str) (parse_ip : str → bool) (url_parse : str → result str (str * option str)).
Context (debug_str : str → str) (show_f64 : f64 → str) (path_exists is_file : str → bool).
Context (read : str → result str str) (yaml : str → result str AppConfig).
Context (influxdb_feature : bool).              (** the binary was built with it *)

Definition from_file (path : str) : result ConfigError AppConfig :=
  load_config parse_ip url_parse debug_str show_f64 path_exists read yaml path.

Definition load_config_or_exit (path : str) : boot (option AppConfig) :=
  _ ← trigger (Log Info (lit "Loading configuration from " ++ debug_str path));
  match from_file path with
  | Ok c => Ret (Some c)
  | Err e =>
      _ ← say_all Complain
            [lit "Error loading configuration: " ++ show_config_error e; [ascii_of_nat 10] ++ lit "Make sure you have a config.yaml file.";
             lit "You can copy config.yaml.default and modify it:"; lit "  cp config.yaml.default config.yaml"];
      Ret None
  end.

Definition influxdb_startup_gate (enabled : bool) (config_path : str) : option str :=
  if influxdb_feature then None
  else if enabled then
    Some (lit "exporters.influxdb.enabled is true but this binary was built without the `influxdb` cargo feature — rebuild with `cargo build --features influxdb` or set exporters.influxdb.enabled: false in "
          ++ config_path)
  else None.

(** From the fix registry on. *)
Definition start_server (config_path : str) (hide_requests log_augmented : bool) (c : AppConfig) : boot Outcome :=
  let registry := create_registry_from_config (fixes c) in
  let enabled_fixes := fix_name <$> filter (λ f, is_enabled registry (fix_name f) = true) (reg_fixes registry) in
  _ ← trigger (Log Info (lit "Fix modules configured: " ++ debug_list debug_str enabled_fixes));
  exporting ←
    (if ix_enabled (exporters_influxdb c) then
       match influxdb_startup_gate true config_path with
       | Some gate_err => _ ← trigger (Complain (lit "Error: " ++ gate_err)); Ret None
       | None =>
           r ← trigger (NewInfluxExporter (exporters_influxdb c));
           match r with
           | Ok _ => _ ← trigger (Log Info (lit "InfluxDB exporter enabled")); Ret (Some true)
           | Err _ => _ ← trigger (Log Warn (lit "Failed to initialize InfluxDB exporter")); Ret (Some false)
           end
       end
     else Ret (Some false));
  match exporting with
  | None => Ret ExitOne
  | Some exporting =>
      r ← trigger (RunServer c registry exporting hide_requests log_augmented);
      Ret (match r with Ok _ => Finished | Err e => Failed e end)
  end.

Definition run_proxy (config_path : str) (o : Overrides) (hide_requests log_augmented : bool) : boot Outcome :=
  loaded ← load_config_or_exit config_path;
  match loaded with
  | None => Ret ExitOne
  | Some config =>
      match apply_overrides to_lowercase o config with
      | Err e => _ ← trigger (Complain e); Ret ExitOne
      | Ok (c, applied, ignored) =>
          _ ← (if ignored
               then trigger (Log Warn (lit "--backend-url ignored: multi-backend 'backends:' config is active")) else Ret tt);
          _ ← trigger (Log Info (match applied with
                                 | [] => lit "Configuration active (no CLI overrides applied)"
                                 | _ => lit "Configuration active (CLI overrides applied)"
                                 end));
          _ ← log_all (log_config_settings debug_str c);
          let c := dump_to (dump_override o) c in
          _ ← (match dump_override o with Some _ => trigger (Log Info (lit "Debug dump mode enabled")) | None => Ret tt end);
          match validate_final url_parse c with
          | Err e => _ ← trigger (Complain (lit "Error: " ++ e)); Ret ExitOne
          | Ok _ => start_server config_path hide_requests log_augmented c
          end
      end
  end.

(** *** [list-fixes] *)
Definition fix_description (name : str) : str :=
  if bool_decide (name = lit "toolcall_null_index_fix") then lit "Fixes null or missing index fields in tool calls by assigning sequential indices"
  else if bool_decide (name = lit "toolcall_malformed_arguments")
  then lit "Fixes malformed tool call arguments with invalid property names like `{}" ++ [ascii_of_nat 34] ++ lit "`"
  else lit "Fixes duplicate/malformed filePath in Qwen3-Coder tool calls".

Record FixModuleState := mkFixState { fs_name : str; fs_description : str; fs_enabled : bool }.
Definition fix_module_states (catalog constructed : FixRegistry) : list FixModuleState :=
  (λ f, mkFixState (fix_name f) (fix_description (fix_name f)) (is_enabled constructed (fix_name f))) <$> reg_fixes catalog.

Definition state_lines (verbose : bool) (s : FixModuleState) : list str :=
  if verbose then
    [lit "  " ++ fs_name s ++ lit ":"; lit "    " ++ fs_description s; lit "    Enabled: " ++ show_bool (fs_enabled s); []]
  else
    [lit "  " ++ pad_end 30 (fs_name s) ++ lit " " ++ (if fs_enabled s then lit "[enabled]" else lit "[disabled]")
     ++ lit " - " ++ fs_description s].
Definition verbose_hint : list str :=
  [[ascii_of_nat 10] ++ lit "To enable/disable fixes, edit your config.yaml:"; [ascii_of_nat 10] ++ lit "fixes:"; lit "  enabled: true";
   lit "  modules:"; lit "    toolcall_bad_filepath:"; lit "      enabled: true"].

Definition list_fixes (config_path : str) (verbose : bool) : boot Outcome :=
  cfg ← (if is_file config_path then
           loaded ← load_config_or_exit config_path;
           Ret (match loaded with Some c => Some (fixes c) | None => None end)
         else
           _ ← trigger (Print (lit "note: no config file at " ++ config_path
                               ++ lit " - showing default state (every module enabled)" ++ [ascii_of_nat 10]));
           Ret (Some FixesConfig_default));
  match cfg with
  | None => Ret ExitOne
  | Some cfg =>
      _ ← trigger (Print (lit "Available response fix modules:" ++ [ascii_of_nat 10]));
      _ ← say_all Print (concat (state_lines verbose <$> fix_module_states create_default_registry (create_registry_from_config cfg)));
      _ ← (if verbose then say_all Print verbose_hint else Ret tt);
      Ret Finished
  end.

(** *** [check-config] *)
Definition check_config (config_path : str) : boot Outcome :=
  _ ← trigger (Log Info (lit "Loading configuration from " ++ debug_str config_path));
  match from_file config_path with
  | Ok c =>
      _ ← trigger (Print (lit "✓ Configuration file is valid" ++ [ascii_of_nat 10]));
      _ ← say_all Print (render_config_summary debug_str c);
      Ret Finished
  | Err e => _ ← trigger (Complain (lit "✗ Configuration error: " ++ show_config_error e)); Ret ExitOne
  end.

(** *** [test-backend] *)
Section Probes.
Context (show_status : Z → str) (build_node_client : Z → option TlsConfig → result str unit) (clock : Instant).

Definition model_line (model : Value) : option str :=
  match get model (lit "id") ≫= as_str with Some id => Some (lit "      - " ++ id) | None => None end.
Definition models_probe_body_outcome (body : str) : bool * list str :=
  match (v ← from_str body; get v (lit "data") ≫= as_array) with
  | Some data =>
      (true, (lit "    Available models: " ++ show_nat (length data)) :: omap model_line (take 5 data))
  | None =>
      (false, [lit "  ✗ /v1/models: 200 but the body is not a model list (no data[] array)";
               lit "    body starts: " ++ debug_str (concat (take 120 (chars body)))])
  end.

(** What an answer adds to the report, and whether it counts as a failure. *)
Definition health_report (a : result str (Z * result str str)) : list str * nat :=
  match a with
  | Ok (status, body) =>
      if is_success status
      then ((lit "  ✓ Reachable (" ++ show_status status ++ lit ")")
            :: match body with Ok b => [lit "    Response: " ++ trim b] | Err _ => [] end, 0)
      else ([lit "  ✗ Error status: " ++ show_status status], 1)
  | Err e => ([lit "  ✗ Failed to connect: " ++ e], 1)
  end.
Definition models_report (a : result str (Z * result str str)) : list str * nat :=
  match a with
  | Ok (status, body) =>
      if is_success status then
        let '(list_ok, details) := models_probe_body_outcome (match body with Ok b => b | Err _ => [] end) in
        ((lit "  ✓ /v1/models answered " ++ show_status status) :: details, if list_ok : bool then 0 else 1)
      else ([lit "  ✗ /v1/models returned: " ++ show_status status], 1)
  | Err e => ([lit "  ✗ /v1/models error: " ++ e], 1)
  end.

(** The report of a node and how many of its two probes failed. *)
Definition probe_one_node (node : BackendNode) : boot (list str * nat) :=
  let health_url := base_url node ++ effective_path node (lit "/health") in
  health ← trigger (HttpProbe node health_url None);
  let models_url := base_url node ++ effective_path node (lit "/v1/models") in
  models ← trigger (HttpProbe node models_url None);
  Ret (((lit "  Testing " ++ effective_path node (lit "/health") ++ lit ": " ++ health_url) :: (health_report health).1)
       ++ ((lit "  Testing " ++ effective_path node (lit "/v1/models") ++ lit ": " ++ models_url) :: (models_report models).1),
       (health_report health).2 + (models_report models).2).

(** A node with the short timeout of the test. *)
Definition test_node (url : str) (tls : option TlsConfig) (model api_key prefix : option str) (temperature : option f64)
    : result str BackendNode :=
  from_config (build_node_client 5 tls) clock url 5 model api_key prefix temperature.

(** The probes of a list of nodes, each under its label: probes made and
    failed. *)
Fixpoint test_nodes (grouped : bool) (nodes : list (str * result str BackendNode)) (probes failures : nat) : boot (result str (nat * nat)) :=
  match nodes with
  | [] => Ret (Ok (probes, failures))
  | (_, Err e) :: _ => Ret (Err e)
  | (label, Ok node) :: rest =>
      _ ← trigger (Print (lit "[" ++ label ++ lit "]: " ++ base_url node));
      r ← probe_one_node node;
      let '(report, failed) := r in
      _ ← say_all Print report;
      _ ← (if grouped then trigger (Print []) else Ret tt);
      test_nodes grouped rest (probes + 2) (failures + failed)
  end.

Definition group_nodes_to_test (e : str * BackendGroupConfig) : list (str * result str BackendNode) :=
  (λ n, (e.1, test_node (nc_url n) (nc_tls n) (nc_model n) (nc_api_key n) (nc_strip_path_prefix n) (nc_temperature n)))
    <$> gc_nodes e.2.
Definition nodes_to_test (c : AppConfig) : list (str * result str BackendNode) :=
  match backends c, backend c with
  | Some groups, _ => concat (group_nodes_to_test <$> groups)
  | None, Some b => [(lit "single", test_node (bc_url b) (bc_tls b) (bc_model b) (bc_api_key b) (bc_strip_path_prefix b) None)]
  | None, None => []
  end.
Definition test_intro (c : AppConfig) : str :=
  match backends c, backend c with
  | Some groups, _ =>
      lit "Testing " ++ show_nat (length (groups ≫= λ e, gc_nodes e.2)) ++ lit " backend node(s) across "
      ++ show_nat (length groups) ++ lit " group(s)..." ++ [ascii_of_nat 10]
  | None, Some _ => lit "Testing single backend..." ++ [ascii_of_nat 10]
  | None, None => lit "No backend configured — nothing to test."
  end.

Definition test_backend (config_path : str) : boot Outcome :=
  loaded ← load_config_or_exit config_path;
  match loaded with
  | None => Ret ExitOne
  | Some c =>
      _ ← trigger (Print (test_intro c));
      r ← test_nodes (match backends c with Some _ => true | None => false end) (nodes_to_test c) 0 0;
      match r with
      | Err e => Ret (Failed e)
      | Ok (probes, failures) =>
          if 0 <? failures
          then Ret (Failed (lit "test-backend: " ++ show_nat failures ++ lit " of " ++ show_nat probes ++ lit " probe(s) failed"))
          else
            _ ← (if 0 <? probes then trigger (Print (lit "✓ all " ++ show_nat probes ++ lit " probe(s) passed")) else Ret tt);
            Ret Finished
      end
  end.
End Probes.

(** *** [main] *)
(** The filter's directives, and the warning the user deserves;
    [try_filter]: the error of [EnvFilter::try_new]. *)
Definition resolve_log_filter (try_filter : str → option str) (cli_level env_rust_log : option str) : str * option str :=
  match cli_level, env_rust_log with
  | Some level, _ => (level, None)
  | None, None => (lit "info", None)
  | None, Some raw =>
      match try_filter raw with
      | None => (raw, None)
      | Some e =>
          (lit "info", Some (lit "warning: RUST_LOG=" ++ debug_str raw ++ lit " is not a valid filter (" ++ e
             ++ lit "); falling back to " ++ qlit "'info'" ++ lit " (fix RUST_LOG or use --log-level)"))
      end
  end.

Inductive Command :=
  | Run (o : Overrides) (hide_requests log_augmented_request_text : bool)
  | ListFixes (verbose : bool)
  | CheckConfig
  | TestBackend.

Definition main (show_status : Z → str) (build_node_client : Z → option TlsConfig → result str unit) (clock : Instant)
    (try_filter : str → option str) (env_rust_log : option str) (config : str) (log_level : option LogLevel) (command : Command)
    : boot Outcome :=
  let '(_, log_env_warning) := resolve_log_filter try_filter (show_log_level <$> log_level) env_rust_log in
  _ ← (match log_env_warning with Some w => trigger (Complain w) | None => Ret tt end);
  match command with
  | Run o hide text => run_proxy config o hide text
  | ListFixes verbose => list_fixes config verbose
  | CheckConfig => check_config config
  | TestBackend => test_backend show_status build_node_client clock config
  end.
End Commands.

(** * Facts *)
Section ValidFacts.
Context (to_lowercase : str → str) (parse_ip : str → bool) (url_parse : str → result str (str * option str)).
Context (debug_str : str → str) (show_f64 : f64 → str) (path_exists : str → bool).

Notation valid := (load_validate parse_ip url_parse debug_str show_f64 path_exists).
Notation final := (validate_final url_parse).

(** The loader's sweep, check by check. *)
Lemma load_validate_iff c :
  valid c = Ok c ↔
  validate_server_config parse_ip debug_str (server c) = Ok () ∧ validate_reprompt path_exists (reprompt c) = Ok () ∧
  validate_backends url_parse show_f64 c = Ok () ∧ validate_synthesis (synthesis c) = Ok () ∧
  validate_stats show_f64 (stats c) = Ok () ∧
  match augment_backend c with
  | Some a => validate_http_url url_parse (ab_url a) (lit "Augment backend") = Ok () ∧ require_nonempty (ab_model a) (lit "augment-backend model") = Ok ()
  | None => True
  end ∧
  (ix_enabled (exporters_influxdb c) = true → validate_http_url url_parse (ix_url (exporters_influxdb c)) (lit "InfluxDB exporter") = Ok ()) ∧
  (dump_enabled (dump c) = true → trim (dump_path (dump c)) ≠ []).
Proof.
  unfold load_validate. split.
  - intros H. inv_result. split_and!; try done.
    + destruct (augment_backend c); [|done]. by inv_result.
    + intros E. by rewrite E in *.
    + intros E. rewrite E in *. by eapply require_nonempty_Ok.
  - intros (H1 & H2 & H3 & H4 & H5 & H6 & H7 & H8). rewrite H1, H2, H3, H4, H5. cbn.
    assert (∀ x : result ConfigError (), x = Ok () → (_ ← x; Ok ()) = Ok ()) by by intros ? ->.
    destruct (augment_backend c) as [a|]; [destruct H6 as [-> H6]; cbn; rewrite H6|]; cbn;
      (destruct (ix_enabled _); [rewrite H7 by done|]); cbn; (destruct (dump_enabled _); [|done]);
      by rewrite (proj2 (require_nonempty_Ok _ _)) by auto.
Qed.

Lemma text_error_Ok (r : result ConfigError unit) : text_error r = Ok () → r = Ok ().
Proof. by destruct r as [[]|]. Qed.

Lemma resolve_Ok o mode m : resolve to_lowercase o mode = Ok m →
  match o with Some raw => from_str_mode to_lowercase raw = Some m | None => m = mode end.
Proof. unfold resolve. destruct o as [raw|]; [|by intros [= <-]]. destruct (from_str_mode _ raw); [by intros [= <-]|done]. Qed.

(** What the overrides make of a configuration, field by field. *)
Lemma apply_overrides_Ok o c c' applied ignored :
  apply_overrides to_lowercase o c = Ok (c', applied, ignored) →
  server c' = mkServer (default (port (server c)) (port_override o)) (host (server c)) (max_concurrent_requests (server c))
    (allowed_origins (server c)) ∧
  backends c' = backends c ∧
  backend c' = match backend_url_override o, backends c with
               | Some url, None => Some (with_url url (default BackendConfig_default (backend c)))
               | _, _ => backend c
               end ∧
  match streaming_mode_override o with
  | Some raw => from_str_mode to_lowercase raw = Some (streaming c')
  | None => streaming c' = streaming c
  end ∧
  fixes c' = fixes c ∧ stats c' = stats c ∧ exporters_influxdb c' = exporters_influxdb c ∧ synthesis c' = synthesis c ∧
  augment_backend c' = augment_backend c ∧ reprompt c' = reprompt c ∧ dump c' = dump c.
Proof.
  destruct o as [op ou os od], c as [sv b bs fx st ix sm sy au rp du]. unfold apply_overrides. cbn. intros H.
  destruct op as [p|]; cbn in H; (destruct ou as [url|]; cbn in H; [destruct bs as [gs|]; cbn in H; [|destruct b as [b|]; cbn in H]|]);
    apply result_bind_Ok in H as (m & Hm & H); apply resolve_Ok in Hm; simplify_eq; cbn; split_and!; try done; by destruct sv.
Qed.

(** A configuration the loader accepted and the overrides changed is one the
    loader would accept, once the last check lets it through - but for a dump
    path, which nobody looks at again ([blank_dump_unchecked]). *)
Lemma overrides_keep_valid o c c' applied ignored :
  valid c = Ok c → apply_overrides to_lowercase o c = Ok (c', applied, ignored) →
  final (dump_to (dump_override o) c') = Ok () →
  (∀ path, dump_override o = Some path → trim path ≠ []) →
  valid (dump_to (dump_override o) c') = Ok (dump_to (dump_override o) c').
Proof.
  intros Hv Ha Hf Hd. apply load_validate_iff in Hv as (H1 & H2 & H3 & H4 & H5 & H6 & H7 & H8).
  apply apply_overrides_Ok in Ha as (Es & Ebs & Eb & _ & Ef & Est & Ex & Esy & Eau & Er & Edu).
  set (c'' := dump_to (dump_override o) c') in *.
  assert (server c'' = server c' ∧ backends c'' = backends c' ∧ backend c'' = backend c' ∧ stats c'' = stats c' ∧
    exporters_influxdb c'' = exporters_influxdb c' ∧ synthesis c'' = synthesis c' ∧ augment_backend c'' = augment_backend c' ∧
    reprompt c'' = reprompt c') as (Fs & Fbs & Fb & Fst & Fx & Fsy & Fau & Fr) by (unfold c''; by destruct (dump_override o)).
  unfold validate_final in Hf. rewrite Fs, Fb in Hf. destruct (Z.eqb_spec (port (server c')) 0) as [|Hport]; [done|].
  apply result_bind_Ok in Hf as ([] & Hb & _).
  apply load_validate_iff. rewrite Fs, Fst, Fx, Fsy, Fau, Fr, Est, Ex, Esy, Eau, Er. split_and!; try done.
  - unfold validate_server_config in *. destruct (Z.eqb_spec (port (server c')) 0); [done|].
    rewrite Es. cbn. by destruct (port (server c) =? 0)%Z.
  - unfold validate_backends in *. rewrite Fbs, Fb, Ebs, Eb. destruct (backends c) as [gs|]; [by destruct (backend_url_override o)|].
    destruct (backend_url_override o) as [url|]; [|done]. rewrite Eb in Hb. cbn in Hb. case_bool_decide; [done|].
    apply text_error_Ok in Hb. unfold validate_backend_url. cbn [with_url bc_url]. rewrite Hb.
    destruct (backend c) as [b|]; [|done]. cbn [default from_option id] in *.
    change (validate_backend_config (with_url url b)) with (validate_backend_config b).
    apply result_bind_Ok in H3 as ([] & H3 & _). by rewrite H3.
  - intros E. unfold c'' in *. destruct (dump_override o) as [path|]; cbn in *; [by apply Hd|]. rewrite Edu in *. by apply H8.
Qed.
End ValidFacts.

(** ** What an execution did *)
Inductive Deed :=
  | Served (c : AppConfig) (r : FixRegistry) (exporting hide_requests log_augmented : bool)
  | Probed (node : BackendNode) (url : str) (api_key : option str) (answer : result str (Z * result str str)).
Definition deeds (X : Type) (e : Boot X) (x : X) (s : list Deed) : list Deed :=
  match e in Boot X return X → list Deed with
  | RunServer c r exporting hide text => λ _, s ++ [Served c r exporting hide text]
  | HttpProbe node url key => λ a, s ++ [Probed node url key a]
  | _ => λ _, s
  end x.

Lemma wp_say {A} (say : str → Boot unit) lines (f : unit → boot A) Q s :
  (∀ l x s, deeds unit (say l) x s = s) → wp deeds (f tt) Q s → wp deeds (say_all say lines ≫= f) Q s.
Proof.
  intros Hs Hw. induction lines as [|l ls IH]; [done|]. cbn. intros x. rewrite Hs. exact IH.
Qed.
Lemma wp_log {A} lines (f : unit → boot A) Q s : wp deeds (f tt) Q s → wp deeds (log_all lines ≫= f) Q s.
Proof. intros Hw. induction lines as [|[v l] ls IH]; [done|]. cbn. intros x. exact IH. Qed.

Section CommandFacts.
Context `{Serde, SlotRegex}.
Context (to_lowercase : str → str) (parse_ip : str → bool) (url_parse : str → result str (str * option str)).
Context (debug_str : str → str) (show_f64 : f64 → str) (path_exists is_file : str → bool).
Context (read : str → result str str) (yaml : str → result str AppConfig) (influxdb_feature : bool).

Notation load := (from_file parse_ip url_parse debug_str show_f64 path_exists read yaml).
Notation load_or_exit := (load_config_or_exit parse_ip url_parse debug_str show_f64 path_exists read yaml).

Lemma wp_load {A} path (f : option AppConfig → boot A) Q s :
  wp deeds (f (match load path with Ok c => Some c | Err _ => None end)) Q s →
  wp deeds (load_or_exit path ≫= f) Q s.
Proof.
  intros Hw. unfold load_config_or_exit. cbn. intros _. destruct (load path) as [c|e]; [exact Hw|]. cbn. intros. exact Hw.
Qed.

(** The configuration [run] ends up with. *)
Definition final_config (path : str) (o : Overrides) : option AppConfig :=
  match load path with
  | Err _ => None
  | Ok config =>
      match apply_overrides to_lowercase o config with
      | Err _ => None
      | Ok (c, _, _) =>
          let c := dump_to (dump_override o) c in
          match validate_final url_parse c with Ok _ => Some c | Err _ => None end
      end
  end.

Lemma load_valid path c :
  load path = Ok c → load_validate parse_ip url_parse debug_str show_f64 path_exists c = Ok c.
Proof.
  unfold from_file, load_config. intros E. destruct (negb _); [done|]. destruct (read path); [|done]. destruct (yaml _) as [c0|]; [|done].
  assert (c0 = c) as ->; [|done]. clear -E. unfold load_validate in E. by inv_result.
Qed.

(** C22: Running starts a server exactly when the file loads, the overrides read,
    the last check passes, and the exporter is not enabled or is compiled in (the
    default build has none: enabled there, no server is started).  The server
    gets the configuration with the overrides, one the loader would accept unless
    a blank dump path was given, and the fixes it configures; whenever none is
    started the process exits with an error. *)
Theorem run_serves_valid path o hide text :
  wp deeds (run_proxy to_lowercase parse_ip url_parse debug_str show_f64 path_exists read yaml influxdb_feature path o hide text)
    (λ out done,
       match final_config path o with
       | Some c =>
           if ix_enabled (exporters_influxdb c) && negb influxdb_feature then done = [] ∧ out = ExitOne
           else out ≠ ExitOne ∧ ∃ exporting,
             done = [Served c (create_registry_from_config (fixes c)) exporting hide text] ∧
             (exporting = true → ix_enabled (exporters_influxdb c) = true) ∧
             ((∀ p, dump_override o = Some p → trim p ≠ []) →
                load_validate parse_ip url_parse debug_str show_f64 path_exists c = Ok c)
       | None => done = [] ∧ out = ExitOne
       end) [].
Proof.
  unfold run_proxy, final_config. apply wp_load. destruct (load path) as [config|e] eqn:El; [|done].
  pose proof (load_valid path config El) as Hv.
  destruct (apply_overrides to_lowercase o config) as [[[c applied] ignored]|e] eqn:Ea; [|by cbn].
  set (c'' := dump_to (dump_override o) c).
  assert (∀ Q, wp deeds (match validate_final url_parse c'' with
      | Err e => _ ← trigger (Complain (lit "Error: " ++ e)); Ret ExitOne
      | Ok _ => start_server debug_str influxdb_feature path hide text c'' end) Q [] →
    wp deeds (_ ← (if ignored then trigger (Log Warn (lit "--backend-url ignored: multi-backend 'backends:' config is active")) else Ret tt);
      _ ← trigger (Log Info (match applied with [] => lit "Configuration active (no CLI overrides applied)"
                             | _ => lit "Configuration active (CLI overrides applied)" end));
      _ ← log_all (log_config_settings debug_str c);
      _ ← (match dump_override o with Some _ => trigger (Log Info (lit "Debug dump mode enabled")) | None => Ret tt end);
      match validate_final url_parse c'' with
      | Err e => _ ← trigger (Complain (lit "Error: " ++ e)); Ret ExitOne
      | Ok _ => start_server debug_str influxdb_feature path hide text c'' end) Q []) as Hlogs.
  { intros Q HQ. destruct ignored; cbn; intros; (apply wp_log; destruct (dump_override o); [cbn; intros|]; exact HQ). }
  apply Hlogs. destruct (validate_final url_parse c'') as [[]|e] eqn:Ef; [|by cbn].
  assert ((∀ p, dump_override o = Some p → trim p ≠ []) →
    load_validate parse_ip url_parse debug_str show_f64 path_exists c'' = Ok c'') as Hv'' by by eapply overrides_keep_valid.
  unfold start_server, influxdb_startup_gate. cbn. intros _. destruct (ix_enabled (exporters_influxdb c'')) eqn:Ei; cbn.
  - destruct influxdb_feature; cbn; [|done]. intros [[]|e]; cbn; intros _ [[]|e']; (split; [done|]); eexists; (split; [done|]); done.
  - intros [[]|e']; (split; [done|]); eexists; (split; [done|]); done.
Qed.

(** A blank dump path passes the last check, though the loader refuses it. *)
Lemma blank_dump_unchecked path c :
  final_config path (mkOverrides None None None (Some [])) = Some c →
  validate_final url_parse c = Ok () ∧ load_validate parse_ip url_parse debug_str show_f64 path_exists c ≠ Ok c.
Proof.
  unfold final_config. intros E. destruct (load path) as [config|]; [|done]. cbn in E.
  destruct (validate_final url_parse _) as [[]|] eqn:Ef in E; [|done]. simplify_eq. split; [done|].
  intros Hv. apply load_validate_iff in Hv as (_ & _ & _ & _ & _ & _ & _ & Hd). by apply Hd.
Qed.

(** ** The list of fixes *)
Lemma is_enabled_register_all fs name :
  is_enabled (register_all fs) name = true ↔ ∃ f, f ∈ fs ∧ fix_name f = name.
Proof using Type.
  induction fs as [|f fs IH] using rev_ind; [split; [done|intros (f & Hf & _); set_solver]|].
  rewrite register_all_app. unfold register, is_enabled in *. cbn. rewrite lookup_insert. case_decide as Hd; cbn.
  - split; [intros _; exists f; split; [set_solver|done]|done].
  - rewrite IH. split; intros (g & Hg & Hn); exists g; (split; [|done]); [set_solver|].
    apply elem_of_app in Hg as [?|Hg]; [done|]. set_solver.
Qed.

(** The list says of every fix what a server with this configuration would do:
    all of them are named, and one is enabled exactly when fixes are and its
    module is not switched off. *)
Theorem fix_states_right cfg :
  fix_module_states create_default_registry (create_registry_from_config cfg) =
  (λ f, mkFixState (fix_name f) (fix_description (fix_name f)) (fixes_enabled cfg && module_on cfg f)) <$> specs.
Proof using Type.
  unfold fix_module_states. rewrite default_registry_register_all, (proj1 (register_all_spec specs)).
  apply list_fmap_ext. intros i f Hf. f_equal. unfold create_registry_from_config.
  destruct (fixes_enabled cfg) eqn:Ee; [|unfold registry_from_config; by rewrite Ee].
  rewrite registry_from_config_register_all by done. cbn [andb]. apply Bool.eq_true_iff_eq.
  rewrite is_enabled_register_all. split.
  - intros (g & [Hg _]%list_elem_of_filter & E). unfold module_on in *. by rewrite <- E.
  - intros Hon. exists f. split; [|done]. apply list_elem_of_filter. split; [done|]. by eapply list_elem_of_lookup_2.
Qed.

(** ** The probes of the backends *)
Context (show_status : Z → str) (build_node_client : Z → option TlsConfig → result str unit) (clock : Instant).

Definition health_passes (a : result str (Z * result str str)) : bool :=
  match a with Ok (status, _) => is_success status | Err _ => false end.
Definition models_passes (a : result str (Z * result str str)) : bool :=
  match a with
  | Ok (status, body) => is_success status && (models_probe_body_outcome debug_str (match body with Ok b => b | Err _ => [] end)).1
  | Err _ => false
  end.
Definition counted (passes : bool) : nat := if passes then 0 else 1.

(** Two requests per node, in order and without its key, and how many failed. *)
Fixpoint probed (nodes : list BackendNode) (asked : list Deed) (failures : nat) : Prop :=
  match nodes with
  | [] => asked = [] ∧ failures = 0
  | n :: rest => ∃ health models asked' failures',
      asked = Probed n (base_url n ++ effective_path n (lit "/health")) None health
              :: Probed n (base_url n ++ effective_path n (lit "/v1/models")) None models :: asked' ∧
      failures = counted (health_passes health) + counted (models_passes models) + failures' ∧
      probed rest asked' failures'
  end.

Lemma health_report_count a : (health_report show_status a).2 = counted (health_passes a).
Proof using Type. destruct a as [[status body]|e]; [|done]. cbn. by destruct (is_success status). Qed.
Lemma models_report_count a : (models_report debug_str show_status a).2 = counted (models_passes a).
Proof using Type.
  destruct a as [[status body]|e]; [|done]. cbn. destruct (is_success status); [|done].
  by destruct (models_probe_body_outcome _ _) as [[] details].
Qed.

Lemma wp_test_nodes grouped nodes pre failed s :
  wp deeds (test_nodes debug_str show_status grouped ((λ e, (e.1, Ok e.2)) <$> nodes) pre failed)
    (λ r s', ∃ asked failures, s' = s ++ asked ∧ probed nodes.*2 asked failures ∧
       r = Ok (pre + 2 * length nodes, failed + failures)) s.
Proof using Type.
  revert pre failed s. induction nodes as [|[label n] nodes IH]; intros pre failed s.
  - exists [], 0. rewrite app_nil_r, !Nat.add_0_r. by split_and!.
  - cbn [fmap list_fmap test_nodes bind trigger wp mbind prog_bind deeds fst snd probe_one_node]. intros _ health models.
    apply wp_say; [by intros|].
    assert (∀ P Q (s : list Deed) (p : boot (result str (nat * nat))), (∀ r s', P r s' → Q r s') → wp deeds p P s →
      wp deeds (_ ← (if grouped : bool then trigger (Print []) else Ret tt); p) Q s) as Hblank.
    { intros P Q s0 p HPQ Hp. destruct grouped; cbn; intros; by eapply wp_mono. }
    eapply Hblank, IH. rewrite health_report_count, models_report_count.
    intros r s' (asked & failures & -> & Hp & ->). rewrite <- !app_assoc. cbn [app].
    eexists _, _. split; [reflexivity|]. split; [by eexists _, _, _, _|]. do 2 f_equal; cbn [length]; lia.
Qed.

(** Testing the backends asks every node of the configuration for its health and
    its models, in order and once each; it passes exactly when every answer is a
    success and every model list is one, and otherwise says how many failed. *)
Theorem test_backend_right path c nodes :
  load path = Ok c → nodes_to_test build_node_client clock c = (λ e, (e.1, Ok e.2)) <$> nodes →
  wp deeds (test_backend parse_ip url_parse debug_str show_f64 path_exists read yaml show_status build_node_client clock path)
    (λ out asked, ∃ failures, probed nodes.*2 asked failures ∧
       out = if failures =? 0 then Finished
             else Failed (lit "test-backend: " ++ show_nat failures ++ lit " of " ++ show_nat (2 * length nodes) ++ lit " probe(s) failed")) [].
Proof using Type.
  intros Hl Hn. unfold test_backend. apply wp_load. rewrite Hl. cbn [bind trigger wp mbind prog_bind deeds]. intros _.
  rewrite Hn. apply wp_bind. eapply wp_mono; [apply wp_test_nodes|].
  intros r s' (asked & failures & -> & Hp & ->). rewrite !Nat.add_0_l. cbn [app]. destruct failures as [|f].
  - change (0 <? 0) with false. cbn iota. destruct (0 <? 2 * length nodes); [intros []|]; exists 0; by split.
  - exists (S f). by split.
Qed.
End CommandFacts.
