(* ===== verification/Clients.v ===== *)
(** * The clients the proxy builds (backends/node.rs, exporters/influxdb.rs,
    exporters/mod.rs, proxy/compat.rs)

    The HTTP client of a node with its TLS settings, the exporter of the metrics
    with the manager around it, and the probe of the vram shim with a client of
    its own.  The file system, the certificate
    parsers and the builders of the client libraries are parameters. *)
From S2P Require Import Prelude Prog Config Metrics Export Startup.
From S2P Require Node Json Context.

(** ** The client of a node *)
Definition CONNECT_TIMEOUT_secs : Z := 5.

(** What is asked of [reqwest::Client::builder()]. *)
Record ClientSettings (Cert Ident : Type) := mkSettings {
  cs_timeout : Z;                  (** seconds *)
  cs_connect_timeout : Z;
  cs_pool_max_idle : Z;
  cs_accept_invalid_certs : bool;
  cs_roots : list Cert;
  cs_identity : option Ident;
}.
Arguments mkSettings {Cert Ident}.
Arguments cs_timeout {Cert Ident}.
Arguments cs_connect_timeout {Cert Ident}.
Arguments cs_pool_max_idle {Cert Ident}.
Arguments cs_accept_invalid_certs {Cert Ident}.
Arguments cs_roots {Cert Ident}.
Arguments cs_identity {Cert Ident}.

Section NodeClient.
Context {Cert Ident Client : Type}.
Context (read : str → result str str).
Context (certificate_from_pem : str → result str Cert) (identity_from_pem : str → result str Ident).
Context (build : ClientSettings Cert Ident → result str Client).
Notation Settings := (ClientSettings Cert Ident).

Definition client_builder (timeout_seconds : Z) : Settings := mkSettings timeout_seconds CONNECT_TIMEOUT_secs 10 false [] None.

Definition with_ca (ca_cert_path : option str) (b : Settings) : result str Settings :=
  match ca_cert_path with
  | Some ca_path =>
      ca_cert ← read ca_path;
      ca_cert ← certificate_from_pem ca_cert;
      Ok (mkSettings (cs_timeout b) (cs_connect_timeout b) (cs_pool_max_idle b) (cs_accept_invalid_certs b)
            (cs_roots b ++ [ca_cert]) (cs_identity b))
  | None => Ok b
  end.

Definition with_client_cert (cert_path key_path : option str) (b : Settings) : result str Settings :=
  match cert_path, key_path with
  | Some cert_path, Some key_path =>
      cert_pem ← read cert_path;
      key_pem ← read key_path;
      identity ← identity_from_pem (cert_pem ++ key_pem);
      Ok (mkSettings (cs_timeout b) (cs_connect_timeout b) (cs_pool_max_idle b) (cs_accept_invalid_certs b)
            (cs_roots b) (Some identity))
  | _, _ => Ok b
  end.

Definition with_tls (tls : option TlsConfig) (b : Settings) : result str Settings :=
  match tls with
  | Some tls =>
      let b := if accept_invalid_certs tls
               then mkSettings (cs_timeout b) (cs_connect_timeout b) (cs_pool_max_idle b) true (cs_roots b) (cs_identity b)
               else b in
      b ← with_ca (ca_cert_path tls) b;
      with_client_cert (client_cert_path tls) (client_key_path tls) b
  | None => Ok b
  end.

Definition build_node_client (timeout_seconds : Z) (tls : option TlsConfig) : result str Client :=
  b ← with_tls tls (client_builder timeout_seconds);
  build b.
End NodeClient.

(** ** The context probe of the vram shim (proxy/compat.rs) *)
Definition CONTEXT_PROBE_TIMEOUT_secs : Z := 2.

Section ShimProbe.
Context `{Json.Serde} {Cert Ident Client : Type} (build : ClientSettings Cert Ident → result str Client).

(** Of the limits reqwest has of its own only the idle pool's is a number. *)
Definition probe_settings : ClientSettings Cert Ident :=
  mkSettings CONTEXT_PROBE_TIMEOUT_secs CONTEXT_PROBE_TIMEOUT_secs usize_max false [] None.
(** Built once for the process; a failure is remembered too. *)
Definition probe_client : option Client := match build probe_settings with Ok c => Some c | Err _ => None end.

(** [deadline] is the number of shared accesses the two seconds leave time for. *)
Definition resolve_context_length (deadline : nat) (n : Node.BackendNode) : prog Context.Shared (option Z) :=
  match probe_client with
  | None => Ret None
  | Some _ =>
      r ← timeout deadline (Context.fetch_context_total (Node.base_url n) (Node.api_key n) (Node.model n));
      Ret match r with Some window => window | None => None end
  end.
End ShimProbe.

(** ** The exporter of the metrics *)
Inductive ExportError :=
  | Connection (m : str) | Auth (m : str) | Write (m : str) | ConfigError_ (m : str) | Other (m : str).
Definition show_export_error (e : ExportError) : str :=
  match e with
  | Connection m => lit "Connection error: " ++ m
  | Auth m => lit "Authentication error: " ++ m
  | Write m => lit "Write error: " ++ m
  | ConfigError_ m => lit "Configuration error: " ++ m
  | Other m => m
  end.

Section Influx.
Context (influxdb_feature : bool) (url_parse : str → result str (str * option str)).

Definition feature_off_error : ExportError :=
  ConfigError_ (lit "influxdb enabled in config but binary built without the influxdb feature").

Definition checked_client_url (url : str) : result ExportError unit :=
  match url_parse url with
  | Err e => Err (ConfigError_ (lit "influxdb.url is not a valid URL: " ++ e))
  | Ok (scheme, _) =>
      if bool_decide (scheme = lit "http") || bool_decide (scheme = lit "https") then Ok ()
      else Err (ConfigError_ (lit "influxdb.url must be an http or https URL: " ++ url))
  end.

(** An exporter is its writer queue; without the feature it has none. *)
Definition InfluxDbExporter : Type := option Writer.
Definition influx_new (url : str) : result ExportError InfluxDbExporter :=
  if influxdb_feature then _ ← checked_client_url url; Ok (Some spawned) else Ok None.
Definition influx_from_config (config : InfluxDbConfig) : result ExportError InfluxDbExporter :=
  if negb influxdb_feature && ix_enabled config then Err feature_off_error else influx_new (ix_url config).
Definition exporter_export (m : RequestMetrics) (e : InfluxDbExporter) : result ExportError unit * InfluxDbExporter :=
  match e with
  | Some w => match influx_export m w with
              | (Ok _, w) => (Ok (), Some w)
              | (Err msg, w) => (Err (Other msg), Some w)
              end
  | None => (Err feature_off_error, None)
  end.

(** *** [ExporterManager] *)
Definition manager_from_config (influxdb : InfluxDbConfig) : result ExportError (list InfluxDbExporter) :=
  if ix_enabled influxdb then influx ← influx_from_config influxdb; Ok [influx] else Ok [].

(** What a sweep warns of, and the exporters after it. *)
Fixpoint sweep (f : InfluxDbExporter → result ExportError unit * InfluxDbExporter) (es : list InfluxDbExporter)
    : list ExportError * list InfluxDbExporter :=
  match es with
  | [] => ([], [])
  | e :: es =>
      let '(r, e) := f e in
      let '(warned, es) := sweep f es in
      ((match r with Err err => err :: warned | Ok _ => warned end), e :: es)
  end.
Definition manager_export_all (m : RequestMetrics) : list InfluxDbExporter → list ExportError * list InfluxDbExporter :=
  sweep (exporter_export m).

(** [shutdown], up to the wait for the writer thread. *)
Definition exporter_shutdown (e : InfluxDbExporter) : result ExportError unit * InfluxDbExporter := (Ok (), close <$> e).
Definition manager_shutdown_all : list InfluxDbExporter → list ExportError * list InfluxDbExporter := sweep exporter_shutdown.
End Influx.

(** * Facts *)
Section ClientFacts.
Context {Cert Ident Client : Type}.
Context (read : str → result str str).
Context (certificate_from_pem : str → result str Cert) (identity_from_pem : str → result str Ident).
Context (build : ClientSettings Cert Ident → result str Client).
Notation build_node_client := (build_node_client read certificate_from_pem identity_from_pem build).

(** The client of a node checks certificates unless told not to, trusts one
    authority more exactly when one is named, and shows a certificate of its own
    only when both it and its key are named: half of the pair is no error. *)
Theorem node_client_right timeout tls c :
  build_node_client timeout tls = Ok c →
  ∃ b, build b = Ok c ∧ cs_timeout b = timeout ∧ cs_connect_timeout b = CONNECT_TIMEOUT_secs ∧
    cs_accept_invalid_certs b = default false (accept_invalid_certs <$> tls) ∧
    (length (cs_roots b) = match tls ≫= ca_cert_path with Some _ => 1 | None => 0 end) ∧
    (is_Some (cs_identity b) ↔ is_Some (tls ≫= client_cert_path) ∧ is_Some (tls ≫= client_key_path)).
Proof using Type.
  unfold Clients.build_node_client, with_tls. intros H. destruct tls as [[insecure ca cert key]|]; cbn in *.
  - apply result_bind_Ok in H as (b & H & Hb). exists b. split; [done|].
    apply result_bind_Ok in H as (b1 & H1 & H2). unfold with_ca, with_client_cert in *.
    assert (cs_timeout b1 = timeout ∧ cs_connect_timeout b1 = CONNECT_TIMEOUT_secs ∧ cs_accept_invalid_certs b1 = insecure ∧
      (length (cs_roots b1) = if ca then 1 else 0) ∧ cs_identity b1 = None) as (Ht & Hc & Hi & Hr & Hn)
      by (destruct ca, insecure; inv_result; by simplify_eq).
    destruct cert, key; inv_result; simplify_eq/=; split_and!; try done; rewrite ?Hn; split; try done; intros Hx;
      first [by destruct Hx as [??]|by destruct Hx as [[]?]|by destruct Hx as [? []]|split; by eexists|by eexists].
  - exists (client_builder timeout). split_and!; try done. split; [intros []|intros [[]]]; done.
Qed.
End ClientFacts.

Section ShimFacts.
Context `{Json.Serde} {Cert Ident Client : Type} (build : ClientSettings Cert Ident → result str Client).

(** The shim's window is one the backend itself stated, in this exchange or in
    one the cache remembers from less than its time to live ago, however short
    the deadline; a client that cannot be built asks nothing. *)
Theorem resolve_honest deadline n :
  wp Context.note (resolve_context_length build deadline n)
    (λ r s, (probe_client build = None → r = None ∧ s = []) ∧
       ∀ v, r = Some v →
         (∃ e now, s = [Context.Read (Node.base_url n) (Some e); Context.Clock now] ∧ v = Context.value e ∧
            (Z.max 0 (now - Context.fetched_at e) < Context.CONTEXT_CACHE_TTL)%Z) ∨
         ∃ x, x ∈ s ∧ Context.advertises (Node.base_url n) v x) [].
Proof using Type.
  unfold resolve_context_length. destruct (probe_client build); [|by wp_steps]. apply wp_bind.
  eapply wp_mono; [apply wp_timeout, Context.fetch_context_honest|]. cbv beta. intros r s Hr. cbn. split; [done|].
  intros v Hv. destruct r as [r|]; [|done]. subst r. destruct Hr as [[Hr|(Hr & _)] _]; auto.
Qed.

(** The client of the probe is never built as that of a node with TLS settings
    is: it trusts no authority of the node's and refuses what the node accepts. *)
Theorem probe_ignores_tls timeout tls read certificate_from_pem identity_from_pem c p :
  build_node_client read certificate_from_pem identity_from_pem build timeout tls = Ok c → probe_client build = Some p →
  is_Some (tls ≫= ca_cert_path) ∨ default false (accept_invalid_certs <$> tls) = true →
  ∃ b b', build b = Ok c ∧ build b' = Ok p ∧ cs_roots b' = [] ∧ cs_accept_invalid_certs b' = false ∧
    (cs_roots b ≠ [] ∨ cs_accept_invalid_certs b = true).
Proof using Type.
  unfold probe_client. intros E Ep Hn. destruct (build probe_settings) as [p'|] eqn:Eb; [|done]. injection Ep as <-.
  destruct (node_client_right _ _ _ _ _ _ _ E) as (b & Hb & _ & _ & Ha & Hr & _). exists b, probe_settings. split_and!; [done..|].
  destruct Hn as [[q Hq]|Hi]; [left|right; by rewrite Ha, Hi]. rewrite Hq in Hr. by destruct (cs_roots b).
Qed.
End ShimFacts.

Section InfluxFacts.
Context (url_parse : str → result str (str * option str)).

(** A configuration the loader accepts never has its exporter refused: the
    manager of a binary with the feature starts one writer thread if one is
    asked for and none otherwise, and without the feature asking is an error. *)
Theorem exporters_of_loaded parse_ip debug_str show_f64 path_exists read yaml path config influxdb_feature :
  load_config parse_ip url_parse debug_str show_f64 path_exists read yaml path = Ok config →
  manager_from_config influxdb_feature url_parse (exporters_influxdb config) =
    if ix_enabled (exporters_influxdb config)
    then if influxdb_feature then Ok [Some spawned] else Err feature_off_error
    else Ok [].
Proof.
  intros Hl. unfold manager_from_config, influx_from_config, influx_new. destruct (ix_enabled _) eqn:E; [|done].
  destruct influxdb_feature; cbn; [|done].
  apply load_valid, load_validate_iff in Hl as (_ & _ & _ & _ & _ & _ & Hix & _). specialize (Hix E).
  unfold validate_http_url in Hix. unfold checked_client_url. destruct (url_parse _) as [[scheme h]|]; [|done].
  case_bool_decide; [done|]. case_bool_decide; done.
Qed.

(** After the shutdown every exporter refuses every sample, and each refusal is
    warned of. *)
Lemma shut_exporters_refuse m es :
  (manager_shutdown_all es).1 = [] ∧
  length (manager_export_all m (manager_shutdown_all es).2).1 = length es.
Proof.
  unfold manager_shutdown_all, manager_export_all. induction es as [|e es [IH1 IH2]]; [done|]. cbn.
  destruct (sweep exporter_shutdown es) as [ws es'] eqn:Es. cbn in *. split; [done|]. destruct e as [[q cl dc p wt lv an pc re dr acc fin]|]; cbn.
  - destruct (sweep (exporter_export m) es'); cbn in *; lia.
  - destruct (sweep (exporter_export m) es'); cbn in *; lia.
Qed.
End InfluxFacts.
