(* ===== verification/SwitcherDraw.v ===== *)
(** * The screens of the model switcher (opencode/helpers/model-switcher/src/main.rs)

    What the selectors draw, as the list of commands handed to the terminal,
    and the lines the commands print.  The height of the terminal and
    [to_uppercase] are parameters. *)
From S2P Require Import Prelude Numbers Utf8 Framing Switcher JsoncFacts.

Inductive Color := DarkGrey | Magenta | Cyan | Red | Green | Yellow.
Inductive Ink := ClearAll | Fg (c : Color) | ResetColor | Bold | ResetAttr | Put (s : str).
Definition CR : ascii := ascii_of_nat 13.
Definition crlf : str := [CR; LF].
Definition put (s : str) : Ink := Put (s ++ crlf).

(** ** Parts *)
Definition banner_ink (c : Color) (banner : str) : list Ink :=
  let padding := replicate (length banner) "="%char in
  [Fg DarkGrey; Bold; put (lit "  " ++ padding); Fg c; put (lit "  " ++ banner); Fg DarkGrey; put (lit "  " ++ padding);
   ResetColor; ResetAttr].

Definition instructions (leave filter : str) : Ink :=
  match filter with
  | [] => Put (lit "  Type to filter | ↑↓ navigate | Enter select | Esc " ++ leave ++ crlf ++ crlf)
  | _ => Put (lit "  Filter: " ++ filter ++ lit " | Backspace to clear | Esc " ++ leave ++ crlf ++ crlf)
  end.

(** The scroll window: from the first index on, up to the second. *)
Definition window (len selected max_visible : nat) : nat * nat :=
  let start := if max_visible <=? selected then selected - max_visible + 1 else 0 in
  (start, min (start + max_visible) len).

(** The rows drawn, each with its two marks: selected and current. *)
Definition rows (items : list str) (selected : nat) (is_current : str → bool) (max_visible : nat) : list (bool * bool * str) :=
  let '(start, stop) := window (length items) selected max_visible in
  imap (λ k item, (start + k =? selected, is_current item, item)) (take (stop - start) (drop start items)).

Definition prefix (is_selected is_current : bool) : str :=
  match is_selected, is_current with
  | true, true => lit "  > * "
  | true, false => lit "  >   "
  | false, true => lit "    * "
  | false, false => lit "      "
  end.
Definition row_ink (r : bool * bool * str) : list Ink :=
  let '(is_selected, is_current, item) := r in
  let line := put (prefix is_selected is_current ++ item) in
  if is_selected then [Fg Green; Bold; line; ResetAttr; ResetColor]
  else if is_current then [Fg Yellow; line; ResetColor]
  else [line].

Definition list_ink (items : list str) (selected : nat) (is_current : str → bool) (max_visible : nat) : list Ink :=
  match items with
  | [] => [Fg Red; put (lit "    No matches"); ResetColor]
  | _ =>
      concat (row_ink <$> rows items selected is_current max_visible)
      ++ if max_visible <? length items
         then [Fg DarkGrey;
               put (crlf ++ lit "    [" ++ show_nat (selected + 1) ++ lit "/" ++ show_nat (length items) ++ lit "]");
               ResetColor]
         else []
  end.

(** ** The three screens *)
Definition all_intro (current_default current_agent : str) (agent_names : list str) : list Ink :=
  [put (crlf ++ lit "  This will change ALL models to the same selection:");
   put (lit "  - System default (opencode.jsonc)");
   put (lit "  - All " ++ show_nat (length agent_names) ++ lit " agents (" ++ join (lit ", ") agent_names ++ lit ")");
   Put (crlf ++ lit "  Current system default: "); Fg Cyan; put current_default; ResetColor;
   Put (lit "  Current agent model: "); Fg Cyan; put current_agent; ResetColor].

Definition draw_all (term_height : nat) (items : list str) (selected : nat) (filter current_default current_agent : str)
    (agent_names : list str) : list Ink :=
  ClearAll :: banner_ink Magenta (lit ">>> CHANGE ALL MODELS TO: <<<") ++ all_intro current_default current_agent agent_names
  ++ [instructions (lit "cancel") filter]
  ++ list_ink items selected (λ item, bool_decide (item = current_default) || bool_decide (item = current_agent)) (term_height - 16).

(** Where a selection stands in a sequence, and how to leave it. *)
Definition progress (step total : nat) (current filter : str) : list Ink :=
  [Put (crlf ++ lit "  Step " ++ show_nat step ++ lit "/" ++ show_nat total ++ lit " | Current: "); Fg Cyan; put current; ResetColor;
   instructions (lit "ABORT ALL") filter].

Definition draw_default (term_height : nat) (items : list str) (selected : nat) (filter current : str) (step total : nat) : list Ink :=
  ClearAll :: banner_ink Magenta (lit ">>> SELECTING SYSTEM DEFAULT MODEL <<<") ++ progress step total current filter
  ++ list_ink items selected (λ item, bool_decide (item = current)) (term_height - 12).

Definition ledger_row (name old new : str) : list Ink :=
  if bool_decide (old = new) then [put (lit "    " ++ name ++ lit " : " ++ new ++ lit " (unchanged)")]
  else [Put (lit "    " ++ name ++ lit " : "); Fg Red; Put old; ResetColor; Put (lit " → "); Fg Green; put new; ResetColor].
(** [previous_selections] are [(name, old, new)]. *)
Definition ledger (previous_selections : list (str * str * str)) (default_selection : option (str * str)) : list Ink :=
  match default_selection, previous_selections with
  | None, [] => []
  | _, _ =>
      [Fg DarkGrey; put (lit "  ── Previous selections ──"); ResetColor]
      ++ match default_selection with Some (old, new) => ledger_row (lit "system default") old new | None => [] end
      ++ concat ((λ '(name, old, new), ledger_row name old new) <$> previous_selections) ++ [Put crlf]
  end.
Definition ledger_lines (previous_selections : list (str * str * str)) (default_selection : option (str * str)) : nat :=
  length previous_selections + match default_selection with Some _ => 1 | None => 0 end
  + match default_selection, previous_selections with None, [] => 0 | _, _ => 2 end.

Definition draw (to_uppercase : str → str) (term_height : nat) (items : list str) (selected : nat)
    (filter current agent_name : str) (step total : nat) (previous_selections : list (str * str * str))
    (default_selection : option (str * str)) : list Ink :=
  ClearAll :: ledger previous_selections default_selection
  ++ banner_ink Yellow (lit ">>> SELECTING MODEL FOR: " ++ to_uppercase agent_name ++ lit " <<<")
  ++ progress step total current filter
  ++ list_ink items selected (λ item, bool_decide (item = current))
       (term_height - (12 + ledger_lines previous_selections default_selection)).

(** The last screen. *)
Definition selection_rows (selections : list (str * str * str)) (default_selection : option (str * str)) : list (str * str * str) :=
  match default_selection with Some (old, new) => [(lit "system default", old, new)] | None => [] end ++ selections.
Definition has_changes (selections : list (str * str * str)) (default_selection : option (str * str)) : bool :=
  existsb (λ '(_, old, new), negb (bool_decide (old = new))) (selection_rows selections default_selection).
Definition draw_confirm (selections : list (str * str * str)) (default_selection : option (str * str)) : list Ink :=
  [ClearAll; Fg Yellow; Bold; Put (crlf ++ lit "  ========== CONFIRM CHANGES ==========" ++ crlf ++ crlf); ResetAttr; ResetColor]
  ++ concat ((λ '(name, old, new), ledger_row name old new) <$> selection_rows selections default_selection)
  ++ [Put crlf]
  ++ if has_changes selections default_selection
     then [Put (lit "  Apply these changes? ["); Fg Green; Bold; Put (lit "Y"); ResetAttr; ResetColor; Put (lit "/n] (Enter = Yes): ")]
     else [Fg DarkGrey; put (lit "  No changes to apply. Press Enter or Esc to exit."); ResetColor].

(** ** What the commands print *)
(** A comma before every third digit from the right. *)
Definition with_commas (digits : str) : str :=
  reverse (concat (imap (λ i c, if (0 <? i) && (i mod 3 =? 0) then [","%char; c] else [c]) (reverse digits))).
Definition format_tokens (n : Z) : str := with_commas (show_Z n).

Definition preset_name (p : CtxPreset) : str :=
  match p with Safe => lit "safe" | Balanced => lit "balanced" | Aggressive => lit "aggressive" end.
Definition whole_percent (p : CtxPreset) : Z := f64_as_u64 (SFmul 53 1024 (fraction p) (f64_of_Z 100)).

Definition ctx_lines (ctx_size : Z) (preset : CtxPreset) : list str :=
  [lit "  Context size : " ++ format_tokens ctx_size;
   lit "  Preset       : " ++ preset_name preset ++ lit " (" ++ show_Z (whole_percent preset) ++ lit "%)";
   lit "  limit.context: " ++ format_tokens ctx_size;
   lit "  limit.input  : " ++ format_tokens (input_limit ctx_size preset) ++ lit "  (" ++ show_Z (whole_percent preset)
   ++ lit "% of context)"; []].

Definition opt_tokens (o : option Z) : str := match o with Some n => format_tokens n | None => lit "-" end.
Definition model_row (width : nat) (m : ModelInfo) (pct : option Z) : str :=
  lit "  " ++ pad_end width (id m) ++ lit "  " ++ pad_start 9 (opt_tokens (context m)) ++ lit "  "
  ++ pad_start 9 (opt_tokens (input m)) ++ lit "  " ++ pad_start 9 (opt_tokens (output m)) ++ lit "  "
  ++ (if image m then lit "yes" else lit "no") ++ match pct with Some p => lit " (" ++ show_Z p ++ lit "%)" | None => [] end.

Definition status_lines (st : Status) : list str :=
  let width := Nat.max (foldr (λ e w, Nat.max (length (id e.1)) w) 0 (models st)) 5 in
  [lit "Config: " ++ OPENCODE_CONFIG_PATH; []; lit "  system default : " ++ system_default st]
  ++ ((λ '(name, model), lit "  " ++ pad_end 14 name ++ lit " : " ++ model) <$> agent_models st)
  ++ ((λ name, lit "  " ++ pad_end 14 name ++ lit " : (inherits default)") <$> inheriting st)
  ++ [[]; lit "  " ++ pad_end width (lit "model") ++ lit "  " ++ pad_start 9 (lit "context") ++ lit "  " ++ pad_start 9 (lit "input")
          ++ lit "  " ++ pad_start 9 (lit "output") ++ lit "  image"]
  ++ ((λ '(m, pct), model_row width m pct) <$> models st).

(** * Facts *)

(** ** The scroll window *)
Lemma window_ok len selected max_visible :
  selected < len → let '(start, stop) := window len selected max_visible in
  start ≤ stop ∧ stop ≤ len ∧ stop - start = min max_visible len ∧ (0 < max_visible → start ≤ selected < stop).
Proof. unfold window. destruct (Nat.leb_spec max_visible selected); cbn; lia. Qed.

Lemma imap_fmap {A B} (f : nat → A → B) (g : A → B) l : (∀ k x, l !! k = Some x → f k x = g x) → imap f l = g <$> l.
Proof.
  revert f. induction l as [|x l IH]; intros f H; [done|]. cbn. f_equal; [by apply H|]. apply IH. intros k y Hy. by apply (H (S k)).
Qed.

(** What is drawn of the list is a stretch of it, as long as there is room; the
    item that Enter takes is in it, and is the one marked. *)
Theorem rows_right items selected is_current max_visible :
  selected < length items → 0 < max_visible →
  ∃ above before item after below,
    items = above ++ before ++ item :: after ++ below ∧ length (above ++ before) = selected ∧
    rows items selected is_current max_visible =
      ((λ i, (false, is_current i, i)) <$> before) ++ (true, is_current item, item) :: ((λ i, (false, is_current i, i)) <$> after) ∧
    length (rows items selected is_current max_visible) = min max_visible (length items).
Proof.
  intros Hs Hm. pose proof (window_ok (length items) selected max_visible Hs) as Hw. unfold rows.
  destruct (window _ _ _) as [start stop]. destruct Hw as (H1 & H2 & H3 & H4). specialize (H4 Hm).
  destruct (lookup_lt_is_Some_2 items selected Hs) as [item Hi].
  exists (take start items), (take (selected - start) (drop start items)), item,
    (take (stop - S selected) (drop (S selected) items)), (drop stop items).
  assert (take (stop - start) (drop start items) =
    take (selected - start) (drop start items) ++ item :: take (stop - S selected) (drop (S selected) items)) as Ht.
  { replace (stop - start) with ((selected - start) + (1 + (stop - S selected))) by lia.
    rewrite <- take_take_drop. f_equal. rewrite drop_drop. replace (start + (selected - start)) with selected by lia.
    by rewrite (drop_S _ item). }
  split_and!.
  - rewrite <- (take_drop start items) at 1. f_equal.
    rewrite <- (take_drop (stop - start) (drop start items)) at 1. rewrite Ht, <- app_assoc. cbn.
    rewrite drop_drop. by replace (start + (stop - start)) with stop by lia.
  - rewrite length_app, !length_take, length_drop. lia.
  - rewrite Ht, imap_app. f_equal; [|cbn; f_equal].
    + apply imap_fmap. intros k x Hx. apply lookup_lt_Some in Hx. rewrite length_take, length_drop in Hx.
      replace (start + k =? selected) with false; [done|]. symmetry. apply Nat.eqb_neq. lia.
    + rewrite length_take, length_drop. replace (start + _ =? selected) with true; [done|]. symmetry. apply Nat.eqb_eq. lia.
    + apply imap_fmap. intros k x Hx. cbn. rewrite length_take, length_drop.
      replace (start + _ =? selected) with false; [done|]. symmetry. apply Nat.eqb_neq. lia.
  - rewrite length_imap, length_take, length_drop. lia.
Qed.

(** Without room nothing of the list is drawn, though Enter still takes an item. *)
Lemma rows_blind items selected is_current : rows items selected is_current 0 = [].
Proof.
  unfold rows, window. change (0 <=? selected) with true. cbn iota. cbn zeta. rewrite Nat.add_0_r.
  replace (min _ _ - _) with 0 by lia. done.
Qed.
Lemma ledger_blind to_uppercase height items selected filter current agent_name step total previous_selections default_selection :
  height ≤ 12 + ledger_lines previous_selections default_selection → items ≠ [] →
  draw to_uppercase height items selected filter current agent_name step total previous_selections default_selection =
    ClearAll :: ledger previous_selections default_selection
    ++ banner_ink Yellow (lit ">>> SELECTING MODEL FOR: " ++ to_uppercase agent_name ++ lit " <<<")
    ++ progress step total current filter
    ++ [Fg DarkGrey; put (crlf ++ lit "    [" ++ show_nat (selected + 1) ++ lit "/" ++ show_nat (length items) ++ lit "]"); ResetColor].
Proof.
  intros Hh Hi. unfold draw. replace (height - _) with 0 by lia. unfold list_ink. destruct items as [|i items]; [done|].
  by rewrite rows_blind.
Qed.

(** ** What fits on the terminal *)
Definition line_feeds (s : str) : nat := length (filter (λ c, c = LF) s).
Definition feeds (ink : list Ink) : nat := sum_list_with (λ i, match i with Put s => line_feeds s | _ => 0 end) ink.
Definition unbroken (s : str) : Prop := LF ∉ s.

Lemma line_feeds_app s t : line_feeds (s ++ t) = line_feeds s + line_feeds t.
Proof. unfold line_feeds. by rewrite filter_app, length_app. Qed.
Lemma line_feeds_one s : unbroken s → line_feeds s = 0.
Proof.
  unfold unbroken, line_feeds. intros Hs. replace (filter (λ c, c = LF) s) with (@nil ascii); [done|].
  symmetry. induction s as [|c s IH]; [done|]. rewrite filter_cons_False by set_solver. apply IH. set_solver.
Qed.
Lemma feeds_app a b : feeds (a ++ b) = feeds a + feeds b.
Proof. apply sum_list_with_app. Qed.
Lemma feeds_put s : line_feeds (s ++ crlf) = line_feeds s + 1.
Proof. by rewrite line_feeds_app. Qed.
Lemma one_line_show n : unbroken (show_nat n).
Proof.
  intros Hin. assert (Forall (λ c, is_ascii_digit c = true) (show_nat n)) as Hd
    by (apply show_N_Forall; intros k; unfold pretty_N_char; by repeat case_match).
  eapply Forall_forall in Hd; [|exact Hin]. done.
Qed.
Lemma unbroken_app s t : unbroken s → unbroken t → unbroken (s ++ t).
Proof. unfold unbroken. set_solver. Qed.
Lemma unbroken_join names : Forall unbroken names → unbroken (join (lit ", ") names).
Proof.
  induction names as [|n [|m names] IH]; intros H; [by apply not_elem_of_nil|by apply Forall_cons in H as [? _]|].
  apply Forall_cons in H as [Hn Hm]. apply unbroken_app; [done|]. apply unbroken_app; [|by apply IH]. vm_decide.
Qed.

Lemma feeds_replicate n c : c ≠ LF → unbroken (replicate n c).
Proof. unfold unbroken. intros Hc Hin. apply elem_of_replicate in Hin as [E _]. congruence. Qed.

Lemma feeds_banner c banner : unbroken banner → feeds (banner_ink c banner) = 3.
Proof.
  intros Hb. unfold banner_ink, put. cbn. rewrite !feeds_put, !line_feeds_app, (line_feeds_one banner) by done.
  rewrite (line_feeds_one (replicate _ _)) by (by apply feeds_replicate). reflexivity.
Qed.

Lemma feeds_instructions leave filter : unbroken leave → unbroken filter → feeds [instructions leave filter] = 2.
Proof.
  intros Hl Hf. unfold instructions. destruct filter as [|c f]; cbn [feeds sum_list_with];
    rewrite !line_feeds_app, ?(line_feeds_one leave), ?(line_feeds_one (c :: f)) by done; reflexivity.
Qed.

Lemma feeds_rows rs : Forall (λ r, unbroken r.2) rs → feeds (concat (row_ink <$> rs)) = length rs.
Proof.
  induction 1 as [|[[s c] item] rs Hr _ IH]; [done|]. cbn [fmap list_fmap concat length]. rewrite feeds_app, IH.
  cbn in Hr. assert (line_feeds ((prefix s c ++ item) ++ crlf) = 1) as E.
  { rewrite feeds_put, line_feeds_app, (line_feeds_one item) by done. by destruct s, c. }
  unfold row_ink, put. destruct s; [|destruct c]; cbn [feeds sum_list_with]; rewrite E; reflexivity.
Qed.

Lemma feeds_list items selected is_current max_visible :
  Forall unbroken items → items = [] ∨ selected < length items → 0 < max_visible →
  feeds (list_ink items selected is_current max_visible) ≤ max_visible + 2.
Proof.
  intros Hi Hs Hm. destruct items as [|i items].
  { assert (feeds (list_ink [] selected is_current max_visible) = 1) as -> by reflexivity. lia. }
  destruct Hs as [Hs|Hs]; [done|].
  unfold list_ink. rewrite feeds_app. destruct (rows_right (i :: items) selected is_current max_visible Hs Hm)
    as (above & before & item & after & below & E & _ & Hr & Hl).
  rewrite feeds_rows.
  - assert (∀ a b, feeds [Fg DarkGrey; put (crlf ++ lit "    [" ++ show_nat a ++ lit "/" ++ show_nat b ++ lit "]"); ResetColor] = 2) as Ef.
    { intros a b. unfold put. cbn [feeds sum_list_with]. rewrite !line_feeds_app, !(line_feeds_one (show_nat _)) by apply one_line_show. reflexivity. }
    destruct (max_visible <? _); [rewrite Ef|change (feeds []) with 0]; lia.
  - rewrite Hr. rewrite E, !Forall_app, Forall_cons, Forall_app in Hi.
    rewrite Forall_app, Forall_cons, !Forall_fmap. naive_solver.
Qed.

Lemma feeds_ledger previous_selections default_selection :
  Forall (λ '(name, old, new), unbroken name ∧ unbroken old ∧ unbroken new) previous_selections →
  match default_selection with Some (old, new) => unbroken old ∧ unbroken new | None => True end →
  feeds (ledger previous_selections default_selection) = ledger_lines previous_selections default_selection.
Proof.
  intros Hp Hd. assert (∀ name old new, unbroken name → unbroken old → unbroken new → feeds (ledger_row name old new) = 1) as Hrow.
  { intros name old new Hn Ho Hw. unfold ledger_row, put. case_bool_decide; cbn [feeds sum_list_with];
      rewrite ?feeds_put, ?line_feeds_app, ?(line_feeds_one name), ?(line_feeds_one old), ?(line_feeds_one new) by done; reflexivity. }
  assert (feeds (concat ((λ '(name, old, new), ledger_row name old new) <$> previous_selections)) = length previous_selections) as Hps.
  { clear Hd. induction Hp as [|[[name old] new] ps (Hn & Ho & Hw) _ IH]; [done|]. cbn [fmap list_fmap concat length].
    by rewrite feeds_app, IH, Hrow. }
  assert (feeds [Fg DarkGrey; put (lit "  ── Previous selections ──"); ResetColor] = 1 ∧ feeds [Put crlf] = 1) as [Hh Hc] by done.
  unfold ledger, ledger_lines. destruct default_selection as [[old new]|]; [|destruct previous_selections as [|p ps]; [done|]];
    rewrite !feeds_app, Hh, Hc, Hps; [|change (feeds []) with 0; lia]. destruct Hd as [Ho Hn].
  rewrite (Hrow (lit "system default") old new); [lia|vm_decide|done..].
Qed.

(** Every screen of a selector fits the terminal it is drawn on, the place under
    the last line included, as long as there is room for one row of the list and
    no name holds a line break. *)
Theorem screens_fit to_uppercase height items selected filter current current_agent agent_names agent_name step total
    previous_selections default_selection :
  Forall unbroken (filter :: current :: current_agent :: to_uppercase agent_name :: agent_names ++ items) →
  Forall (λ '(name, old, new), unbroken name ∧ unbroken old ∧ unbroken new) previous_selections →
  match default_selection with Some (old, new) => unbroken old ∧ unbroken new | None => True end →
  items = [] ∨ selected < length items →
  (16 < height → feeds (draw_all height items selected filter current current_agent agent_names) < height) ∧
  (12 < height → feeds (draw_default height items selected filter current step total) < height) ∧
  (12 + ledger_lines previous_selections default_selection < height →
     feeds (draw to_uppercase height items selected filter current agent_name step total previous_selections default_selection) < height).
Proof.
  rewrite !Forall_cons, Forall_app. intros (Hf & Hc & Hca & Hu & Hns & Hi) Hp Hd Hs.
  assert (feeds (progress step total current filter) = 4) as Hprog.
  { unfold progress. change [?a; ?b; ?c; ?d; ?e] with ([a; b; c; d] ++ [e]). rewrite feeds_app, feeds_instructions by (done || vm_decide).
    unfold put. cbn [feeds sum_list_with]. rewrite feeds_put, !line_feeds_app, !(line_feeds_one (show_nat _)), (line_feeds_one current)
      by (done || apply one_line_show). reflexivity. }
  assert (∀ l, feeds (ClearAll :: l) = feeds l) as Hclear by done.
  unfold draw_all, draw_default, draw. split_and!; intros Hh; rewrite Hclear, !feeds_app, feeds_banner, ?Hprog.
  - rewrite feeds_instructions by (done || vm_decide). unfold all_intro, put. cbn [feeds sum_list_with].
    rewrite !feeds_put, !line_feeds_app, (line_feeds_one (show_nat _)), (line_feeds_one (join _ _)), (line_feeds_one current),
      (line_feeds_one current_agent) by (done || apply one_line_show || by apply unbroken_join).
    pose proof (feeds_list items selected (λ item, bool_decide (item = current) || bool_decide (item = current_agent)) (height - 16) Hi Hs) as Hl.
    rewrite !(line_feeds_one (lit _)) by vm_decide. change (line_feeds crlf) with 1. lia.
  - vm_decide.
  - pose proof (feeds_list items selected (λ item, bool_decide (item = current)) (height - 12) Hi Hs). lia.
  - vm_decide.
  - rewrite feeds_ledger by done.
    pose proof (feeds_list items selected (λ item, bool_decide (item = current)) (height - (12 + ledger_lines previous_selections default_selection)) Hi Hs). lia.
  - apply unbroken_app; [vm_decide|]. apply unbroken_app; [done|vm_decide].
Qed.

(** ** Numbers *)
Lemma with_commas_short ds : length ds ≤ 3 → with_commas ds = ds.
Proof. destruct ds as [|a [|b [|c [|d ds]]]]; [done..|cbn; lia]. Qed.

Lemma with_commas_snoc ds a b c : ds ≠ [] → with_commas (ds ++ [a; b; c]) = with_commas ds ++ [","%char; a; b; c].
Proof.
  intros Hds. unfold with_commas. rewrite reverse_app. change (reverse [a; b; c]) with [c; b; a]. cbn [app imap concat].
  assert (∃ d r, reverse ds = d :: r) as (d & r & ->).
  { destruct (reverse ds) as [|d r] eqn:E; [|by exists d, r]. apply (f_equal reverse) in E. by rewrite reverse_involutive in E. }
  cbn [imap concat]. change ((0 <? 3) && (3 mod 3 =? 0)) with true. cbn [negb andb Nat.ltb].
  assert (imap ((λ (i : nat) c0, if (0 <? i) && (i mod 3 =? 0) then [","%char; c0] else [c0]) ∘ S ∘ S ∘ S ∘ S) r =
    imap ((λ (i : nat) c0, if (0 <? i) && (i mod 3 =? 0) then [","%char; c0] else [c0]) ∘ S) r) as Himap.
  { apply imap_ext. intros i x _. cbn [compose]. change (0 <? S (S (S (S i)))) with true. change (0 <? S i) with true.
    replace (S (S (S (S i)))) with (S i + 1 * 3) by lia. by rewrite Nat.Div0.mod_add. }
  rewrite Himap. set (tail := concat _). clearbody tail. change (reverse ([c] ++ [b] ++ [a] ++ [","%char; d] ++ tail) = reverse ([d] ++ tail) ++ [","%char; a; b; c]).
  rewrite !reverse_app. cbn. by rewrite <- !app_assoc.
Qed.

(** A number is printed in groups of three digits, the first of one to three,
    and nothing but the commas between them is added. *)
Theorem format_tokens_right n : (0 ≤ n)%Z →
  ∃ first groups, format_tokens n = concat (first :: ((λ g, ","%char :: g) <$> groups)) ∧ first ++ concat groups = show_Z n ∧
    1 ≤ length first ≤ 3 ∧ Forall (λ g, length g = 3) groups.
Proof.
  intros Hn. destruct (show_last n Hn) as (s & d & E & _). unfold format_tokens.
  assert (show_Z n ≠ []) as Hne by (rewrite E; by destruct s). generalize dependent (show_Z n). clear. intros ds _ Hne.
  remember (length ds) as k eqn:Hk. assert (length ds ≤ k) as Hle by lia. clear Hk. revert ds Hne Hle.
  induction k as [|k IH]; intros ds Hne Hle; [by destruct ds; cbn in Hle; [|lia]|].
  destruct (decide (length ds ≤ 3)) as [H3|H3].
  - exists ds, []. rewrite (with_commas_short ds H3). cbn. rewrite app_nil_r. split_and!; [done..| |lia|constructor].
    destruct ds; [done|cbn; lia].
  - assert (∃ ds' a b c, ds = ds' ++ [a; b; c] ∧ ds' ≠ []) as (ds' & a & b & c & -> & Hd').
    { destruct ds as [|c ds1 _] using rev_ind; [done|]. destruct ds1 as [|b ds2 _] using rev_ind; [cbn in H3; lia|].
      destruct ds2 as [|a ds' _] using rev_ind; [cbn in H3; lia|]. exists ds', a, b, c. rewrite <- !app_assoc. split; [done|].
      intros ->. cbn in H3. lia. }
    rewrite length_app in Hle. cbn in Hle. destruct (IH ds' Hd' ltac:(lia)) as (first & groups & Ef & Ec & Hl & Hg).
    exists first, (groups ++ [[a; b; c]]). rewrite with_commas_snoc, Ef by done. split_and!; [|by rewrite concat_app, app_assoc, Ec|lia..|].
    + rewrite fmap_app. change (first :: ?x ++ ?y) with ((first :: x) ++ y). by rewrite concat_app.
    + by apply Forall_app; repeat constructor.
Qed.
