(* ===== verification/Terminals.v ===== *)
(** * Who takes the terminal gives it back (model-switcher/src/main.rs, model-holder/src/ui/terminal.rs)

    The four screens of the switcher and the screen of the holder switch the
    terminal to raw mode and to its alternate screen and back.  The calls are
    events; one that fails may have changed the terminal all the same. *)
From S2P Require Import Prelude Prog.

Record Tty := mkTty { raw : bool; alternate : bool; hidden : bool }.
Definition cooked : Tty := mkTty false false false.

Inductive Outcome := Fine | Failed (took : bool).
Definition takes (o : Outcome) : bool := match o with Fine => true | Failed took => took end.
Definition is_fine (o : Outcome) : bool := match o with Fine => true | Failed _ => false end.

(** How a screen of the holder ends. *)
Inductive Ending := Returned | Panicked.

Section Screens.
Context {A : Type}.

Inductive Te : Type → Type :=
  | EnableRaw : Te Outcome
  | DisableRaw : Te Outcome
  | EnterScreen (hide : bool) : Te Outcome    (** [EnterAlternateScreen], with [Hide] or without *)
  | LeaveScreen (show : bool) : Te Outcome
  | NewTerminal : Te bool                     (** [Terminal::new] asks for the size *)
  | Loop : Te A.                              (** the screen itself *)

(** [?] on a call to the terminal. *)
Definition trying {B} (e : Te Outcome) (p : prog Te (option B)) : prog Te (option B) :=
  o ← trigger e; if is_fine o then p else Ret None.

(** ** model-switcher: [select_model], [select_default_model], [select_all_model], [confirm_changes] *)
Definition on_screen : prog Te (option A) :=
  trying EnableRaw (trying (EnterScreen true) (
    result ← trigger Loop;
    trying (LeaveScreen true) (trying DisableRaw (Ret (Some result))))).

(** ** model-holder: [UIRenderer] *)
Definition new : prog Te bool :=
  o ← trigger (EnterScreen false);
  if negb (is_fine o) then Ret false
  else
    o ← trigger EnableRaw;
    ok ← (if is_fine o then trigger NewTerminal else Ret false);
    if ok : bool then Ret true
    else _ ← trigger DisableRaw; _ ← trigger (LeaveScreen false); Ret false.

Definition cleanup : prog Te (option unit) := trying DisableRaw (trying (LeaveScreen false) (Ret (Some tt))).
(** What the hook does with the terminal before the message is printed. *)
Definition panic_hook : prog Te unit := _ ← trigger DisableRaw; _ ← trigger (LeaveScreen false); Ret tt.

(** ** The terminal, what the screen answered, and the calls that failed to restore *)
Record Seen := mkSeen { tty : Tty; answer : option A; unrestored : nat; stuck : bool }.
Definition fresh : Seen := mkSeen cooked None 0 false.

Definition set_tty (t : Tty) (s : Seen) : Seen := mkSeen t (answer s) (unrestored s) (stuck s).
Definition restoring (o : Outcome) (t : Tty) (s : Seen) : Seen :=
  mkSeen (if takes o then t else tty s) (answer s) ((if is_fine o then 0 else 1) + unrestored s) (stuck s).
Definition watch (X : Type) (e : Te X) : X → Seen → Seen :=
  match e in Te X return X → Seen → Seen with
  | EnableRaw => λ o s, if takes o then set_tty (mkTty true (alternate (tty s)) (hidden (tty s))) s else s
  | DisableRaw => λ o s, restoring o (mkTty false (alternate (tty s)) (hidden (tty s))) s
  | EnterScreen hide => λ o s,
      let s := if takes o then set_tty (mkTty (raw (tty s)) true (hide || hidden (tty s))) s else s in
      mkSeen (tty s) (answer s) (unrestored s) (stuck s || (takes o && negb (is_fine o)))
  | LeaveScreen show => λ o s, restoring o (mkTty (raw (tty s)) false (negb show && hidden (tty s))) s
  | NewTerminal => λ _ s, s
  | Loop => λ a s, mkSeen (tty s) (Some a) (unrestored s) (stuck s)
  end.
End Screens.
Arguments Te : clear implicits.
Arguments Seen : clear implicits.

(** [run] and the [Drop] behind it; a panic in the loop meets the hook first. *)
Definition run_screen : prog (Te Ending) unit :=
  ending ← trigger Loop;
  _ ← (match ending with Returned => _ ← cleanup; Ret tt | Panicked => panic_hook end);
  _ ← cleanup; Ret tt.
Definition holder_screen : prog (Te Ending) bool :=
  ok ← new;
  if ok : bool then _ ← run_screen; Ret true else Ret false.

(** * Facts *)

(** Takes the execution apart, event by event. *)
Ltac every_outcome :=
  repeat first
    [ progress wp_steps
    | progress cbn [trying is_fine takes negb andb orb]
    | match goal with
      | |- context [is_fine ?o] => is_var o; destruct o as [|[]]
      | |- context [if ?b then _ else _] => is_var b; destruct b
      | |- context [match ?e with Returned => _ | Panicked => _ end] => is_var e; destruct e
      end ].

(** A screen of the switcher that answers has given the terminal back, and the
    answer is the screen's own. *)
Theorem on_screen_gives_back {A} :
  wp watch on_screen (λ (r : option A) s, r = None ∨ (r = answer s ∧ tty s = cooked)) fresh.
Proof. unfold on_screen, trying. every_outcome; by (left + right). Qed.

(** One that fails may leave it in raw mode: the alternate screen cannot be
    entered, and the mode set a line before stays set. *)
Theorem raw_mode_left_on {A} (a : A) :
  let refused X (s : Seen A) (e : Te A X) : X :=
    match e in Te _ X return X with EnterScreen _ => Failed false | NewTerminal => true | Loop => a | _ => Fine end in
  let '(r, s) := run watch refused on_screen fresh in r = None ∧ tty s = mkTty true false false.
Proof. by split. Qed.

(** The holder's screen undoes what it did, whichever step fails; once it is up
    and however it ends, it takes two failures to leave the terminal changed. *)
Theorem holder_screen_gives_back :
  wp watch holder_screen (λ (ok : bool) s,
    (ok = true → unrestored s ≤ 1 → tty s = cooked) ∧
    (ok = false → unrestored s = 0 → stuck s = false → tty s = cooked)) fresh.
Proof.
  unfold holder_screen, run_screen, new, cleanup, panic_hook, trying.
  every_outcome; split; intros; repeat match goal with o : Outcome |- _ => destruct o as [|[]] end; simpl in *; (done || lia).
Qed.
