(* ===== verification/Witnesses.v ===== *)
(** * Concrete instances

    Every property with a hypothesis, applied to concrete data: small node
    stores, chunked streams, tool calls and configurations on which the
    hypotheses are evaluated.  Parsers the proxy takes from third-party crates
    are instantiated by lookup tables. *)
From S2P Require Import Prelude Node Balancer RoundRobin PriorityFree PriorityFreeConc Config Grouped.
From S2P Require Import Json JsonScan Utf8 FixTypes Traverse NullIndex BadFilepath.
From S2P Require MalformedArgs.
From S2P Require Import Fixes Framing Sse StreamPass Merge Synthesis.

(** * Balancers *)
Definition w_node (load : Z) (hl : bool) (cool : Z) : BackendNode :=
  mkNode (lit "http://n") None None 300 load None None hl cool.

(** A store of idle nodes, and one with a busy, a cooled and a lighter node. *)
Definition w_idle : list BackendNode := [w_node 0 true 0; w_node 0 true 0].
Definition w_store : list BackendNode := [w_node 3 true 0; w_node 0 false 100; w_node 2 true 0].

Lemma w_small : small [0; 1] 2.
Proof. done. Qed.

Lemma w_idle_zero : Forall (λ n, active_requests n = 0%Z) w_idle.
Proof. by repeat constructor. Qed.

Lemma w_refs : Forall (λ r, r < length w_idle) [0; 1].
Proof. repeat constructor; simpl; lia. Qed.

(** One request walks to its [compare_exchange] and takes node 0. *)
Lemma w_to_cas : rtc (world_step [0; 1]) (initial 2 w_idle) (mkWorld [Cas 5 0; Idle] w_idle 0).
Proof.
  eapply rtc_l; [exact (step_start [0; 1] 0 5 [Idle; Idle] w_idle 0 eq_refl)|].
  apply rtc_once.
  exact (step_thread [0; 1] 0 (Walk 5 0) (Cas 5 0) [Walk 5 0; Idle] w_idle w_idle 0 0 eq_refl eq_refl).
Qed.

Lemma w_to_held :
  rtc (world_step [0; 1]) (initial 2 w_idle) (mkWorld [Held 0 0; Idle] [w_node 1 true 0; w_node 0 true 0] 0).
Proof.
  etrans; [exact w_to_cas|]. apply rtc_once.
  exact (step_thread [0; 1] 0 (Cas 5 0) (Held 0 0) [Cas 5 0; Idle] w_idle
    [w_node 1 true 0; w_node 0 true 0] 0 0 eq_refl eq_refl).
Qed.

Lemma pf_no_phantom_claims_witness :
  active_requests ([w_node 1 true 0; w_node 0 true 0] !!! 0) = Z.of_nat (live_guards 0 [Held 0 0; Idle]).
Proof.
  by apply (pf_no_phantom_claims [0; 1] 2 w_idle
    (mkWorld [Held 0 0; Idle] [w_node 1 true 0; w_node 0 true 0] 0) 0 ltac:(done) w_small w_refs w_idle_zero
    w_to_held eq_refl ltac:(simpl; lia)).
Defined.

Lemma pf_free_claim_exclusive_witness : claims [0; 1] 0 Idle = 0%Z.
Proof.
  exact (pf_free_claim_exclusive [0; 1] 2 w_idle (mkWorld [Cas 5 0; Idle] w_idle 0) 0 5 0
    [w_node 1 true 0; w_node 0 true 0] 0 ltac:(done) w_small w_refs w_idle_zero w_to_cas eq_refl eq_refl
    1 Idle eq_refl).
Defined.


Definition w_pf : PriorityFreeBalancer := mkPF [0; 1; 2] 0.

Lemma w_pf_wf : pf_wf w_pf w_store.
Proof.
  split; [done|]. split; [repeat constructor; simpl; lia|]. repeat constructor; vm_compute; done.
Qed.

(** Node 0 is busier than node 2, node 1 is cooling down: slot 2 it is. *)
Lemma pf_select_right_witness :
  ∃ i b', right_choice [0; 1; 2] 7 w_store i ∧ pf_nodes b' = [0; 1; 2] ∧
    pf_select w_pf 7 None w_store = Some (Ok (from_claimed ([0; 1; 2] !!! i)), b', bump 1 ([0; 1; 2] !!! i) w_store).
Proof. exact (pf_select_right w_pf 7 None w_store w_pf_wf ltac:(compute_done)). Defined.

Lemma pf_select_refined_witness :
  rtc (solo_step [0; 1; 2]) (Walk 7 0, w_store, 0%Z)
    (Held 2 0, [w_node 3 true 0; w_node 0 false 100; w_node 3 true 0], 0%Z).
Proof. exact (pf_select_refined w_pf 7 None w_store (mkGuard 2 2 None) w_pf _ eq_refl). Defined.

Lemma rr_fair_witness :
  ∃ served, rr_run (mkRR [0; 1] 7 0) [1; 2]%Z None w_idle = Some served ∧ served ≡ₚ [0; 1].
Proof.
  apply (rr_fair (mkRR [0; 1] 7 0) [1; 2]%Z None w_idle); try done.
  intros r Hr. assert (r = 0 ∨ r = 1) as [-> | ->] by (simpl in Hr; set_solver); done.
Defined.

(** ** The router *)
Definition w_router : GroupedLoadBalancer DynBalancer :=
  mkGrouped [mkGroup [lit "big"] (DynPF (mkPF [0] 0)) (lit "a") true;
             mkGroup [] (DynRR (mkRR [1] 0 0)) (lit "b") false].

Lemma w_router_wf : grouped_wf dyn_wf w_router w_idle.
Proof.
  repeat constructor; try done; simpl; try lia; vm_compute; done.
Qed.

Lemma grouped_select_routed_witness :
  ∃ r b' h', select w_router 7%Z (Some (lit "big")) w_idle = Some (r, b', h') ∧
    routed w_router (Some (lit "big")) w_idle r h'.
Proof. exact (grouped_select_routed dyn_wf w_router 7 (Some (lit "big")) w_idle w_router_wf). Defined.

(** ** Configuration and construction *)
Definition w_clients (_ : Z) (_ : option TlsConfig) : result str unit := Ok ().
Definition w_backend (port : String.string) : BackendNodeConfig :=
  mkNodeConfig (lit "http://h:" ++ lit port) 300 None None None None None.
Definition w_groups : list (str * BackendGroupConfig) :=
  [(lit "b", mkGroupConfig [] (lit "round_robin") 30 false [w_backend "2"]);
   (lit "a", mkGroupConfig [lit "m"] (lit "priority_free") 30 true [w_backend "1"; w_backend "3"])].

Definition w_built : GroupedLoadBalancer DynBalancer * list BackendNode :=
  match grouped_new w_clients (λ _, 0%Z) w_groups [] with Ok r => r | Err _ => (mkGrouped [], []) end.

Lemma grouped_new_wf_witness :
  grouped_wf dyn_wf w_built.1 w_built.2 ∧ NoDup (all_nodes w_built.1) ∧
  (λ g, (name g, mappings g, exclusive g)) <$> groups w_built.1
  = (λ p, (p.1, gc_mappings p.2, gc_exclusive p.2)) <$> sort_by_key w_groups.
Proof.
  apply (grouped_new_wf w_clients (λ _, 0%Z) w_groups []); [by vm_compute|constructor].
Defined.

Lemma grouped_new_deterministic_witness :
  grouped_new w_clients (λ _, 0%Z) w_groups [] = grouped_new w_clients (λ _, 0%Z) (reverse w_groups) [].
Proof.
  apply grouped_new_deterministic; [compute_done|by rewrite reverse_Permutation].
Defined.

Definition w_config : AppConfig :=
  mkApp (mkServer 8066 (lit "0.0.0.0") 0 None) None (Some w_groups) FixesConfig_default StatsConfig_default
    InfluxDbConfig_default Fake SynthesisConfig_default None None (mkDump false []).

Definition w_url (_ : str) : result str (str * option str) := Ok (lit "http", Some (lit "h")).

Lemma load_config_groups_ok_witness :
  w_groups ≠ [] ∧ Forall (λ p, p.1 ≠ [] ∧ group_ok p.2) w_groups ∧
  length (catch_all_groups w_groups) ≤ 1 ∧ NoDup (all_mappings w_groups).
Proof.
  apply (load_config_groups_ok (λ _, true) w_url id (λ _, []) (λ _, true) Ok (λ _, Ok w_config)
    (lit "config.yaml") w_config); by vm_compute.
Defined.

Lemma validated_config_routes_witness :
  ∃ b h', grouped_new w_clients (λ _, 0%Z) (reverse w_groups) [] = Ok (b, h') ∧
    ∀ gname g (m : str) now, (gname, g) ∈ w_groups → m ∈ gc_mappings g →
      ∃ gd b2 before after i c n,
        select b now (Some m) h' = Some (Ok gd, b2, bump 1 (node gd) h') ∧ group_name gd = Some gname ∧
        sort_by_key (reverse w_groups) = before ++ (gname, g) :: after ∧ node gd = nodes_of before + i ∧
        gc_nodes g !! i = Some c ∧ h' !! node gd = Some n ∧ described_by c n.
Proof.
  apply (validated_config_routes (λ _, true) w_url id (λ _, []) (λ _, true) Ok (λ _, Ok w_config)
    (lit "config.yaml") w_config); [by vm_compute|done|by repeat constructor|by rewrite reverse_Permutation|constructor].
Defined.

(** * JSON text *)

Definition w_lookup (docs : list (str * Value)) (s : str) : option Value :=
  (λ p, p.2.2) <$> list_find (λ p, p.1 = s) docs.

(** A parser that knows the documents listed, and decodes the escape-free
    string tokens. *)
Definition w_serde (docs : list (str * Value)) : Serde := {|
  from_str := w_lookup docs;
  from_str_string token := if has_backslash (token_inner token) then None else Some (token_inner token);
  to_string _ := lit "{}";
  stream_keys s := v ← w_lookup docs s; m ← as_object v; Some m.*1;
|}.

Ltac plain_string body :=
  exists body; split; [|reflexivity]; repeat (apply sb_plain; [done|done|by vm_compute|]); apply sb_nil.

Definition w_entry (k v : String.string) : Entry := mkEntry (lit " ") (qlit k) [] (lit " ") (qlit v) [].
Definition w_entries : list Entry := [w_entry "'a'" "1"; w_entry "'b'" "'x'"; w_entry "'a'" "null"].

Lemma w_entry_ok k v :
  jstring (qlit k) → jvalue (qlit v) → entry_ok (w_entry k v).
Proof. intros Hk Hv. split; simpl; try done; by repeat constructor. Qed.

Lemma w_entries_ok : Forall entry_ok w_entries.
Proof.
  apply Forall_cons; split; [|apply Forall_cons; split; [|apply Forall_cons; split; [|done]]];
    apply w_entry_ok.
  - plain_string (lit "a").
  - apply jv_literal; [done|done|by repeat constructor].
  - plain_string (lit "b").
  - apply jv_string. plain_string (lit "x").
  - plain_string (lit "a").
  - apply jv_literal; [done|done|by repeat constructor].
Qed.

Lemma spans_of_rendered_witness :
  let b := render_object [] w_entries [] (lit " tail") in
  (span_texts b <$> top_level_key_spans (H := w_serde []) b (lit "a"))
  = (λ e, (e_key e, e_val e)) <$> filter (λ e, key_hit (H := w_serde []) (lit "a") e = true) w_entries.
Proof.
  apply (spans_of_rendered (H := w_serde []) [] w_entries [] (lit " tail") (lit "a"));
    [by constructor..|exact w_entries_ok].
Defined.

Lemma depth1_keys_of_rendered_witness :
  depth1_keys (H := w_serde []) (render_object [] w_entries [] (lit " tail"))
  = mapM (λ e, decode_key (H := w_serde []) (e_key e)) w_entries.
Proof.
  apply (depth1_keys_of_rendered (H := w_serde []) [] w_entries [] (lit " tail"));
    [by constructor..|exact w_entries_ok].
Defined.

Lemma keys_spans_agree_witness :
  length (top_level_key_spans (H := w_serde []) (qlit "{'a':1,'a':2}") (lit "a"))
  = length (filter (.= lit "a") [lit "a"; lit "a"]).
Proof. apply (keys_spans_agree (H := w_serde [])). by vm_compute. Defined.

(** * Fixes *)
Definition w_empty_serde : Serde := w_serde [].

Definition w_failing_fix : ResponseFix :=
  mkFix (lit "failing") Info (λ _, true) (λ _, None) (λ _ _, true)
    (λ _ _, Some (Err (ParseError (lit "no")))).

Lemma erring_fix_is_noop_witness :
  fst <$> run_ctx (H := w_empty_serde) [w_failing_fix] VNull (VObject []) []
  = fst <$> run_ctx (H := w_empty_serde) [] VNull (VObject []) [].
Proof.
  exact (erring_fix_is_noop (H := w_empty_serde) [] w_failing_fix [] VNull (VObject []) (VObject []) []
    (ParseError (lit "no")) eq_refl eq_refl).
Defined.

(** A response whose only tool call has the given arguments. *)
Definition w_call (name args : str) : Value :=
  VObject [kv "index" (vnat 0);
           kv "function" (VObject [kv "name" (VString name); kv "arguments" (VString args)])].
Definition w_response (call : Value) : Value :=
  VObject [kv "id" (vstr "r");
           kv "choices" (VArray [VObject [kv "message" (VObject [kv "tool_calls" (VArray [call])])]])].

Definition w_dup_path : str := qlit "{'filePath':'/a','filePath':".
Definition w_cut_path : str := qlit "{'filePath':'/a'}".
Definition w_path_serde : Serde := w_serde [(w_cut_path, VObject [kv "filePath" (vstr "/a")])].

Lemma null_index_repairs_witness :
  ∃ tool_calls',
    tool_calls_at (null_index_apply (w_response (VObject [kv "index" VNull]))).1 0 (lit "message") = Some tool_calls' ∧
    length tool_calls' = length [VObject [kv "index" VNull]] ∧
    ∀ j c c', [VObject [kv "index" VNull]] !! j = Some c → tool_calls' !! j = Some c' → NullIndex.repaired j c c'.
Proof. apply null_index_repairs; [by left|done]. Defined.

Lemma fix_arguments_truncates_witness :
  ∃ pre value rest,
    w_dup_path = pre ++ filepath_key ++ value ++ rest ∧
    w_cut_path = pre ++ filepath_key ++ value ++ lit "}" ∧
    is_Some (from_str (Serde := w_path_serde) w_cut_path) ∧
    SCHEMA_BODY_KEY ∉ keys_after (H := w_path_serde) w_dup_path (length (pre ++ filepath_key ++ value)).
Proof. exact (fix_arguments_truncates (H := w_path_serde) w_dup_path w_cut_path ltac:(by vm_compute) ltac:(by vm_compute)). Defined.

(** U+3000 between the colon and the value. *)
Definition w_wide_space : str := ascii_of_nat <$> [227; 128; 128].

Lemma fix_arguments_panics_witness :
  BadFilepath.fix_arguments (H := w_empty_serde) (qlit "{'filePath':" ++ w_wide_space ++ qlit "'/a',") = None.
Proof.
  apply (fix_arguments_panics (H := w_empty_serde)). split; [done|]. exists 1, 7.
  split_and!; [by vm_compute..|]. by eexists.
Defined.

Lemma content_never_deleted_witness :
  BadFilepath.fix_arguments (H := w_empty_serde) (qlit "{'filePath':'/a', 'content': 'body','filePath'")
  ≠ Some (Ok (qlit "{'filePath':'/a'}")).
Proof.
  apply (content_never_deleted (H := w_empty_serde) _ 1 4 [] [w_entry "'content'" "'body'"] ","%char
    (qlit "'filePath'") [lit "content"]); try (by vm_compute); try by constructor.
  apply Forall_singleton, w_entry_ok; [plain_string (lit "content")|].
  apply jv_string. plain_string (lit "body").
Defined.

Lemma bad_filepath_apply_minimal_witness :
  let response := w_response (w_call (lit "write") w_dup_path) in
  let response' := w_response (w_call (lit "write") w_cut_path) in
  (∀ k, k ≠ lit "choices" → get response' k = get response k) ∧
  (response' = response ∨
   option_Forall2 (Forall2 (call_repaired (H := w_path_serde)))
     (tool_calls_at response 0 (lit "message")) (tool_calls_at response' 0 (lit "message"))).
Proof.
  eapply (bad_filepath_apply_minimal (H := w_path_serde)). by vm_compute.
Defined.

Definition w_slots : str := qlit "{'a':1,{}':2}".
Definition w_filled : str := qlit "{'a':1,'b':2}".
Definition w_masked : str := qlit "{'a':1,'" ++ MalformedArgs.SENTINEL ++ qlit "':2}".
Definition w_slot_serde : Serde :=
  w_serde [(w_masked, VObject [kv "a" (vnat 1); kv "sentinel" (vnat 2)]);
           (w_filled, VObject [kv "a" (vnat 1); kv "b" (vnat 2)])].
Definition w_slot_schemas : MalformedArgs.ToolSchemas := {[ lit "tool" := [lit "a"; lit "b"] ]}.
Definition w_wide_schemas : MalformedArgs.ToolSchemas := {[ lit "tool" := [lit "a"; lit "b"; lit "c"] ]}.

Lemma empty_keys_filled_witness :
  is_Some (from_str (Serde := w_slot_serde) w_filled) ∧
  ∃ params, w_slot_schemas !! lit "tool" = Some params ∧ MalformedArgs.filled (H := w_slot_serde) w_slots params w_filled.
Proof.
  apply (MalformedArgs.empty_keys_filled (H := w_slot_serde) (H0 := MalformedArgs.scanning_regex)
    (H1 := MalformedArgs.scanning_regex_laws) w_slots (lit "tool") w_slot_schemas w_filled).
  by vm_compute.
Defined.

Lemma empty_keys_no_guess_witness :
  ∃ e, MalformedArgs.fix_arguments (H := w_slot_serde) (H0 := MalformedArgs.scanning_regex)
         w_slots (lit "tool") w_wide_schemas = Err e.
Proof.
  apply (MalformedArgs.empty_keys_no_guess (H := w_slot_serde) (H0 := MalformedArgs.scanning_regex)
    w_slots (lit "tool") w_wide_schemas [lit "a"; lit "b"; lit "c"]); [by vm_compute..|].
  by vm_compute.
Defined.

Definition w_request : Value :=
  VObject [kv "tools" (VArray [VObject [kv "function" (VObject [kv "name" (vstr "tool");
    kv "parameters" (VObject [kv "properties" (VObject [kv "a" VNull; kv "b" VNull])])])]])].

Lemma empty_keys_all_or_nothing_witness :
  let response := w_response (w_call (lit "tool") w_slots) in
  let response' := w_response (w_call (lit "tool") w_filled) in
  (∀ k, k ≠ lit "choices" → get response' k = get response k) ∧
  (MalformedArgs.extract_tool_schemas w_request = ∅ ∧ response' = response ∨
   option_Forall2 (Forall2 (MalformedArgs.call_filled (H := w_slot_serde) (H0 := MalformedArgs.scanning_regex)
       (MalformedArgs.extract_tool_schemas w_request)))
     (tool_calls_at response 0 (lit "message")) (tool_calls_at response' 0 (lit "message"))).
Proof.
  eapply (MalformedArgs.empty_keys_all_or_nothing (H := w_slot_serde) (H0 := MalformedArgs.scanning_regex) _ w_request);
    [by vm_compute|by left].
Defined.

Lemma pipeline_choices_only_witness :
  get (w_response (w_call (lit "tool") w_filled)) (lit "id") = get (w_response (w_call (lit "tool") w_slots)) (lit "id").
Proof.
  eapply (pipeline_choices_only (H := w_slot_serde) (H0 := MalformedArgs.scanning_regex) FixesConfig_default
    (w_response (w_call (lit "tool") w_slots)) w_request); [by vm_compute|done].
Defined.

Lemma startup_registry_is_configured_default_witness :
  apply_fixes_with_context (H := w_slot_serde)
    (create_registry_from_config (H := w_slot_serde) (H0 := MalformedArgs.scanning_regex) FixesConfig_default)
    (w_response (w_call (lit "tool") w_slots)) w_request =
  apply_fixes_with_context (H := w_slot_serde)
    (configure (create_default_registry (H := w_slot_serde) (H0 := MalformedArgs.scanning_regex)) [])
    (w_response (w_call (lit "tool") w_slots)) w_request.
Proof.
  apply (startup_registry_is_configured_default (H := w_slot_serde) (H0 := MalformedArgs.scanning_regex)
    FixesConfig_default). done.
Defined.

(** * Streams *)
Definition w_event1 : str := lit "data: {}" ++ [LF; LF].
Definition w_event2 : str := lit "data: [DONE]" ++ [LF; LF].

(** The same stream in two cuts: CR LF line ends, one of them across chunks. *)
Definition w_chunks : list str :=
  [lit "data: {}" ++ [CR; LF; CR]; [LF] ++ lit "data: [DO"; lit "NE]" ++ [LF; LF] ++ lit "ta"].
Definition w_chunks' : list str :=
  [lit "da"; lit "ta: {}" ++ [CR; LF; CR; LF] ++ lit "data: [DONE]" ++ [LF; LF] ++ lit "t"; lit "a"].
Definition w_framed (chunks : list str) : list Framed := (frame_all framing_new chunks).1.
Definition w_rest (chunks : list str) : FramingState := (frame_all framing_new chunks).2.

Lemma w_is_event body : find_double_newline (body ++ [LF; LF]) = Some (length body) → is_event (body ++ [LF; LF]).
Proof. intros H. by exists body. Qed.

Lemma framing_lossless_witness :
  ∃ es,
    concat (bytes_of <$> w_framed w_chunks) = concat es ∧
    sum_list (count_of <$> w_framed w_chunks) = length es ∧ Forall is_event es ∧
    find_double_newline (pending (w_rest w_chunks)) = None ∧
    concat (bytes_of <$> w_framed w_chunks) ++ default [] (finish (w_rest w_chunks)).1 = lf_normalize (concat w_chunks).
Proof.
  apply framing_lossless; [by repeat constructor|by vm_compute|by repeat constructor].
Defined.

Lemma framing_chunk_independent_witness :
  concat (bytes_of <$> w_framed w_chunks) = concat (bytes_of <$> w_framed w_chunks') ∧
  sum_list (count_of <$> w_framed w_chunks) = sum_list (count_of <$> w_framed w_chunks') ∧
  (finish (w_rest w_chunks)).1 = (finish (w_rest w_chunks')).1 ∧
  concat (bytes_of <$> w_framed w_chunks) ++ default [] (finish (w_rest w_chunks)).1 = lf_normalize (concat w_chunks).
Proof.
  apply (framing_chunk_independent w_chunks w_chunks'); try first [by vm_compute|by repeat constructor].
  exists [w_event1; w_event2], (lit "ta"). split; [|by repeat constructor].
  split_and!; [by vm_compute| |by vm_compute]. repeat constructor; apply w_is_event; by vm_compute.
Defined.

Lemma take_all_settles_witness :
  take_all 7 (push framing_new w_event1) = take_all 3 (push framing_new w_event1) ∧
  settled (take_all 3 (push framing_new w_event1)).2.
Proof. apply (take_all_settles framing_new w_event1 4). by split. Defined.

Lemma take_framed_cuts_witness :
  take_framed (mkFraming (w_event1 ++ lit "ta") 0 true) = (Events (w_event1 ++ []) 1, mkFraming (lit "ta") 1 true).
Proof.
  apply (take_framed_cuts (mkFraming (w_event1 ++ lit "ta") 0 true) [w_event1] (lit "ta")).
  - by exists [], (w_event1 ++ lit "ta").
  - split_and!; [done| |done]. apply Forall_singleton, w_is_event. by vm_compute.
Defined.

Lemma pass_through_delivers_witness :
  let script := [Ok (lit "data: {}" ++ [CR; LF; CR]); Ok ([LF] ++ lit "data: [DO"); Err (lit "reset")] in
  ∃ items st', drive (4 * length script + 1) (pass_new script true) = Some (items, st') ∧
  sent items = lf_normalize (until_error script) ∧
  accumulated st' = Some (sent items) ∧
  (error_of items = Some (lit "reset") ∧ completion_tx st' = Sent BackendError ∨
   error_of items = None ∧ completion_tx st' = Sent Completed).
Proof.
  destruct (pass_through_delivers
    [Ok (lit "data: {}" ++ [CR; LF; CR]); Ok ([LF] ++ lit "data: [DO"); Err (lit "reset")] true) as (items & st' & Hd & _ & Hs & Ha & He).
  exists items, st'. split; [exact Hd|]. split; [|by split; [|apply He]]. apply Hs. exists [w_event1], (lit "data: [DO"). split; [|by repeat constructor].
  split_and!; [by vm_compute| |by vm_compute]. apply Forall_singleton, w_is_event. by vm_compute.
Defined.

(** * Merging and synthesis *)
Definition w_fragment (i : nat) (args : String.string) : Value :=
  VObject [kv "index" (vnat i); kv "function" (VObject [kv "arguments" (VString (lit args))])].

Lemma w_fragment_ok i args : (Z.of_nat i < 2 ^ 64)%Z → fragment i (w_fragment i args).
Proof. intros Hi. split; [done|]. split; [|done]. right. split; by eexists. Qed.

(** Two calls, their fragments interleaved, and one over the cap. *)
Definition w_fragments : list (list (nat * Value)) :=
  [[(1, w_fragment 1 "b"); (0, w_fragment 0 "a")]; [(101, w_fragment 101 "x"); (1, w_fragment 1 "B"); (0, w_fragment 0 "A")]].

Lemma tool_calls_reassemble_witness :
  ∃ arr', args_at arr' 0 = lit "caA" ∧ args_at arr' 1 = lit "bB" ∧ length arr' ≤ 101.
Proof.
  destruct (tool_calls_reassemble seed_message [w_fragment 0 "c"] w_fragments) as (m' & arr & _ & _ & _ & Hj & Hl).
  - reflexivity.
  - apply Forall_singleton, (w_fragment_ok 0 "c"). lia.
  - repeat first [apply Forall_nil; exact I|apply Forall_cons; split]; [apply (w_fragment_ok 1)|apply (w_fragment_ok 0)|
      apply (w_fragment_ok 101)|apply (w_fragment_ok 1)|apply (w_fragment_ok 0)]; lia.
  - exists arr. split_and!; [rewrite Hj; vm_compute; reflexivity|rewrite Hj; vm_compute; reflexivity|exact Hl].
Defined.

Definition w_chunk (text : String.string) : Value :=
  VObject [kv "id" (vstr "c"); kv "choices" (VArray [VObject [kv "index" (vnat 0);
    kv "delta" (VObject [kv "content" (VString (lit text))])]])].

Lemma w_chunk_ok text : chunk_ok (w_chunk text).
Proof.
  split; [by eexists|]. eexists. split; [done|]. right. eexists. split; [done|].
  split; [by eexists|]. by eexists.
Qed.

Lemma stream_text_reassembles_witness :
  ∃ v, merge_openai None [w_chunk "Hel"; w_chunk "lo"] = Some (Some v) ∧
    ∀ k, text_key k → response_text k v = concat (delta_text k <$> [w_chunk "Hel"; w_chunk "lo"]).
Proof.
  apply stream_text_reassembles; [done|]. by repeat (apply Forall_cons; split; [apply w_chunk_ok|]).
Defined.

Definition w_message : list (str * Value) :=
  [kv "role" (vstr "assistant"); kv "content" (vstr "Hello");
   kv "tool_calls" (VArray [w_fragment 0 "{}"])].
Definition w_choice : Value := VObject [kv "index" (vnat 0); kv "message" (VObject w_message)].
Definition w_completion : Value :=
  VObject [kv "id" (vstr "c"); kv "model" (vstr "m"); kv "choices" (VArray [w_choice])].
Definition w_raw : RawCompletion :=
  match parse_raw_completion 0 w_completion with Ok r => r | Err _ => mkRaw (mkMeta [] 0 [] []) [] None None end.

Lemma synthesis_merges_back_witness :
  ∃ v, merge_openai None (synthesize_choices 0 w_raw [w_choice] 2) = Some (Some v) ∧
    ∀ k, text_key k → response_text k v = text_at k (VObject w_message).
Proof.
  apply (synthesis_merges_back 0 w_completion 2 w_raw w_choice w_message); [by vm_compute..|].
  intros ts Hts. assert (ts = [w_fragment 0 "{}"]) as -> by (vm_compute in Hts |- *; congruence).
  apply Forall_singleton. exists 0. apply w_fragment_ok. lia.
Defined.
