(* ===== verification/RequestWitnesses.v ===== *)
(** * Concrete instances: the request path

    Every property with a hypothesis of the components a request passes on its
    way to a backend and back, applied to concrete data. *)
From S2P Require Import Prelude Json Node Balancer Config PromptCache Reprompt.
From S2P Require Import Synthesis Merge Augment Anthropic Wire Http Decode Rewrite Prog Handler HandlerFacts HandlerWorld.
From S2P Require Import Witnesses.

(** * Reprompting *)
Definition w_conversation : list (str * Value) :=
  [kv "stream" (VBool true); kv "model" (vstr "m");
   kv "messages" (VArray [VObject [kv "role" (vstr "user"); kv "content" (vstr "go")]])].
Definition w_stop (text : String.string) : Value :=
  VObject [kv "choices" (VArray [VObject [kv "finish_reason" (vstr "stop");
    kv "message" (VObject [kv "role" (vstr "assistant"); kv "content" (VString (lit text))])]])].
Definition w_engine : RepromptEngine := mkEngine (lit "old") (Some (lit "p")) true 3 1000 [] false true.
Definition w_view : str → FileView := λ _, mkView (Ok (Some 2%Z)) (Ok (lit "Continue.")).
(** The backend stops once more, then fails. *)
Definition w_send (attempt : nat) (_ : Value) : FollowUp :=
  match attempt with 0 => Answer (w_stop "Second.") | _ => RequestFailed end.

Lemma w_idle_ok : counters_ok w_idle.
Proof. repeat constructor; simpl; unfold usize_max; lia. Qed.

Lemma reprompt_keeps_text_witness :
  ∃ r totals', maybe_reprompt w_view 0 (λ _, 0%Z) w_send w_engine (w_stop "First.") (VObject w_conversation) 0
      ∅ (mkTotals 0 0 0) w_idle =
      Some (r, set_prompt (lit "Continue.") w_engine,
            {[lit "p" := mkCache (lit "Continue.") (Some 2%Z)]}, totals', w_idle) ∧
    content_of r = Some (VString (join_blank [lit "First."; lit "Second."])).
Proof.
  destruct (reprompt_keeps_text w_view 0 (λ _, 0%Z) w_send w_engine (w_stop "First.") (VObject w_conversation) 0
    ∅ (mkTotals 0 0 0) w_idle eq_refl eq_refl (mk_is_Some _ _ eq_refl) ltac:(simpl; lia)
    w_idle_ok) as (_ & r & totals' & E & _ & Hc).
  exists r, totals'. split; [exact E|]. by apply Hc.
Defined.

Lemma follow_up_extends_witness :
  ∃ f, build_follow_up (lit "Continue.") (VObject w_conversation) (w_stop "First.") (w_node 0 true 0) = Some (Some f) ∧
    get f (lit "stream") = Some (VBool false) ∧ get f (lit "model") = Some (vstr "m").
Proof.
  destruct (follow_up_extends (lit "Continue.") w_conversation (w_stop "First.") (w_node 0 true 0))
    as (f & E & _ & Hs & _ & _ & _ & Hk).
  { vm_decide. }
  exists f. split; [exact E|]. split; [exact Hs|]. rewrite Hk; [done|].
  unfold overridden. intros [?|[?|[?|[[? [? ?]]|[? [? ?]]]]]]; done.
Defined.

Lemma resolve_prompt_current_witness :
  (resolve_prompt w_view w_engine ∅).1.1 = lit "Continue.".
Proof.
  pose proof (resolve_prompt_current (λ _, lit "Continue.") w_view w_engine ∅ (lit "p") 2) as H.
  destruct (resolve_prompt w_view w_engine ∅) as [[p e'] st]. apply H; try done.
  - exists 2%Z. done.
  - by intros [? ?].
Defined.

(** * Rewriting *)
Definition w_body : str := lit "body".
Definition w_parsed : Serde := w_serde [(w_body, VObject w_conversation)].

Lemma backend_sees_witness :
  ∃ sent, apply_backend_overrides_bytes (H := w_parsed) w_body (w_node 0 true 0) true (lit "/v1/chat/completions")
    = Some (to_string (Serde := w_parsed) (VObject sent), true) ∧
    map_get (lit "stream_options") sent = Some (VObject [kv "include_usage" (VBool true)]).
Proof.
  destruct (backend_sees (H := w_parsed) w_conversation w_body (w_node 0 true 0) true (lit "/v1/chat/completions"))
    as (sent & E & _ & Hs & _).
  - vm_decide.
  - by vm_compute.
  - by vm_compute.
  - exists sent. split; [exact E|]. exact Hs.
Defined.

(** * Anthropic *)
Definition w_anthropic : AnthropicMessage :=
  mkMessage (lit "msg") (lit "message") (lit "assistant")
    [BThinking (lit "hm") (Some (lit "sig")); BText (lit "Hello"); BToolUse (lit "t1") (lit "bash") (VObject [])]
    (lit "m") None None (mkUsage 5 7).

Lemma anthropic_stream_merges_back_witness :
  merge_anthropic_events (as_events (synthesize_anthropic_chunks (H := w_parsed) w_anthropic 2)) =
    Some (merged_message w_anthropic (vstr "tool_use") 7
      (merged_block (H := w_parsed) <$> am_content w_anthropic)).
Proof.
  destruct (anthropic_stream_merges_back (H := w_parsed) w_anthropic 2) as [E _]; [simpl; lia|exact E].
Defined.

(** * Handling *)
#[local] Instance w_deps : Deps := {|
  deps_serde := w_parsed;
  deps_text := {| to_str := Some |};
  deps_codecs := {| gzip b := (b, None); zlib b := (b, None); raw_deflate b := (b, None);
                    brotli b := (b, None); zstd b := Ok (b, None) |};
  deps_wire := {| f32_round := Some; hash_order l := l |};
  debug_model _ := [];
|}.

Definition w_proxy : Proxy :=
  mkProxy w_config FixTypes.registry_new false false true false false false (λ _, w_node 0 true 0).
Definition w_post : Request := mkRequest (lit "POST") (lit "/v1/chat/completions") None [].

(** A request arrives, counts itself, has its body read and claims node 0. *)
Lemma w_to_busy :
  ∃ w, rtc (step w_proxy) (idle_world 2 w_idle) w ∧ length (threads w) = 1 ∧
    total (λ t, claims_on 0 (guards_of t)) (threads w) = 1%Z ∧ length (nodes w) = 2.
Proof.
  eexists. split; [|split; [|split]].
  - eapply rtc_l; [apply (step_arrive w_proxy w_post)|].
    eapply rtc_l; [eapply (step_event w_proxy 0 unit (GaugeAdd 1) _ _ tt); reflexivity|].
    eapply rtc_l; [eapply (step_event w_proxy 0 _ (ReadBody _) _ _ (Ok w_body)); reflexivity|].
    apply rtc_once.
    eapply (step_event w_proxy 0 _ (Select (Some (lit "m"))) _ _ (Ok (from_claimed 0))); [reflexivity|].
    exists [0; 1], [w_node 1 true 0; w_node 0 true 0]. split; [repeat constructor; simpl; lia|].
    split; [|reflexivity]. split_and!; [set_solver|done|reflexivity].
  - reflexivity.
  - reflexivity.
  - reflexivity.
Qed.

Lemma proxy_balanced_witness :
  ∃ w, balanced 2 w ∧ active_requests (nodes w !!! 0) = 1%Z.
Proof.
  destruct w_to_busy as (w & Hw & Hl & Hc & Hn).
  destruct (proxy_balanced w_proxy 2 w_idle w ltac:(lia) w_idle_zero Hw) as (Hb & _ & _);
    [rewrite Hl; unfold usize_max; lia|].
  exists w. split; [exact Hb|]. destruct Hb as (_ & _ & _ & Ha). rewrite Ha by (rewrite Hn; lia). exact Hc.
Defined.
