(* ===== verification/ProbeWitnesses.v ===== *)
(** * Concrete instances: the probes

    Every property with a hypothesis of the label parser, the two probe caches
    and start-up discovery, applied to concrete data. *)
From S2P Require Import Prelude Prog Node Config Json Framing KvLabels Http.
From S2P Require Import Context Preflight Compat Witnesses.

(** * Labels *)
Definition w_labels : list (str * str) :=
  [(lit "engine", lit "0"); (lit "note", qlit "a,b'}" ++ [BACKSLASH; LF]); (lit "num_gpu_blocks", lit "5080")].

Lemma w_labels_names : Forall (λ l, label_name l.1) w_labels.
Proof. repeat constructor; done. Qed.

Lemma series_roundtrip_witness :
  cache_config_labels (render_series w_labels (lit "1.0")) = Some (list_to_map w_labels) ∧
  (list_to_map w_labels : gmap str str) !! lit "note" = Some (qlit "a,b'}" ++ [BACKSLASH; LF]).
Proof.
  split; [|vm_compute; reflexivity]. apply (series_roundtrip w_labels (lit "1.0")).
  - vm_decide.
  - exact w_labels_names.
  - discriminate.
  - split; [discriminate|]. repeat constructor.
Defined.

(** * The scan and what it leaves behind *)
Lemma scan_memory_bounded_witness :
  scan_chunks [lit "a" ++ [LF]; lit "bc"] (mkScan [] 0) = inr (mkScan (lit "bc") 4) ∧
  scanned (mkScan (lit "bc") 4) = Z.of_nat (length (concat [lit "a" ++ [LF]; lit "bc"])).
Proof.
  assert (scan_chunks [lit "a" ++ [LF]; lit "bc"] (mkScan [] 0) = inr (mkScan (lit "bc") 4)) as E by (vm_compute; reflexivity).
  split; [exact E|]. apply (scan_memory_bounded _ _ E).
Defined.

Lemma w_to_known :
  ∃ sys, reaches kv_note kv_effect kv_job (mkSystem [] (kv_booted 0)) sys ∧
    kv_info (sys_world sys) !! lit "http://b" = Some (Known None).
Proof.
  eexists. split.
  - eapply rtc_l; [apply (sys_spawn _ _ _ (kv_cache_info (lit "http://b") None) []); by exists (lit "http://b"), None|].
    eapply rtc_l; [by eapply (sys_event _ _ _ 0 _ (ReadKv (lit "http://b")) _ _ None)|].
    eapply rtc_l; [by eapply (sys_event _ _ _ 0 _ (GetMetrics _ None) _ _ (Some (Ok (200%Z, []))))|].
    apply rtc_once. by eapply (sys_event _ _ _ 0 _ (WriteKv _ (Known None)) _ _ tt).
  - reflexivity.
Qed.

Lemma kv_memory_honest_witness :
  ∃ w, kv_honest w ∧ kv_info w !! lit "http://b" = Some (Known None) ∧
    ∃ status chunks, (metrics_url (lit "http://b"), Some (Ok (status, Ok <$> chunks))) ∈ scrapes w ∧
      is_success status = true ∧ first_info (concat chunks) = None.
Proof.
  destruct w_to_known as (sys & Hr & Hk). pose proof (kv_memory_honest 0 sys Hr) as Hh.
  exists (sys_world sys). split; [exact Hh|]. split; [exact Hk|].
  destruct (proj1 Hh _ _ Hk) as [(o & Ho & status & chunks & -> & Hs & _ & Hn) _]. by exists status, chunks.
Defined.

Definition w_series : str := qlit "vllm:cache_config_info{engine='0'} 1" ++ [LF].
Definition w_info : KvCacheInfo := default ∅ (found (scan_stream [Ok w_series] (mkScan [] 0))).

Lemma known_entry_lost_witness :
  ∃ sys sys', kv_info (sys_world sys) !! lit "http://b" = Some (Known (Some w_info)) ∧
    sys_step kv_note kv_effect kv_job sys sys' ∧
    kv_info (sys_world sys') !! lit "http://b" = Some (FailedAt 7) ∧ w_info !! lit "engine" = Some (lit "0").
Proof.
  destruct (known_entry_lost (lit "http://b") 7 w_info [Ok w_series]) as (sys & sys' & _ & Hk & Hs & Hf).
  { vm_compute. reflexivity. }
  exists sys, sys'. split; [exact Hk|]. split; [exact Hs|]. split; [exact Hf|]. vm_compute. reflexivity.
Defined.

(** * The context cache *)
Definition w_props_text : str := lit "props".
#[local] Instance w_props_serde : Serde :=
  w_serde [(w_props_text, VObject [kv "default_generation_settings" (VObject [kv "n_ctx" (vnat 4096)])]);
           (lit "models", VObject [kv "data" (VArray [VObject [kv "id" (vstr "qwen")]])])].
#[local] Instance w_plain_text : HeaderText := {| to_str := Some |}.
Definition w_client (_ : Z) (_ : option TlsConfig) : result str unit := Ok tt.
Definition w_said : result str Answer := Ok (mkAnswer 200 [] (Ok w_props_text)).

Lemma w_to_cached :
  ∃ sys, reaches note effect (cache_job w_client) (mkSystem [] (booted 0)) sys ∧
    context_cache (sys_world sys) !! lit "http://b" = Some (mkEntry 4096 5).
Proof.
  eexists. split.
  - eapply rtc_l; [apply (sys_spawn _ _ _ _ [] _ _ (job_fetch w_client (lit "http://b") None None))|].
    eapply rtc_l; [by eapply (sys_event _ _ _ 0 _ (ReadContext (lit "http://b")) _ _ None)|].
    eapply rtc_l; [eapply (sys_event _ _ _ 0 _ (HttpGet _ None) _ _ w_said); [done|by exists 3%Z]|].
    apply rtc_once. eapply (sys_event _ _ _ 0 _ (TryWriteContext _ 4096) _ _ true); [done|by exists 5%Z].
  - reflexivity.
Qed.

Lemma context_cache_honest_witness :
  ∃ w, honest w ∧ context_cache w !! lit "http://b" = Some (mkEntry 4096 5).
Proof.
  destruct w_to_cached as (sys & Hr & Hk). exists (sys_world sys).
  split; [exact (context_cache_honest w_client 0 sys Hr)|exact Hk].
Defined.

(** * Start-up discovery *)
Definition w_probed : BackendsConfig :=
  [(lit "g", mkGroupConfig [] (lit "priority") 0 false
     [mkNodeConfig (lit "http://b/") 300 None None None None None;
      mkNodeConfig (lit "http://c") 300 None (Some (lit "mine")) None None None])].
Definition w_answer (X : Type) (_ : list Seen) (e : Shared X) : X :=
  match e in Shared X return X with
  | HttpGet _ _ => Ok (mkAnswer 200 [] (Ok (lit "models")))
  | Now => 0%Z
  | ReadContext _ => None
  | TryWriteContext _ _ | TryRemoveContext _ | WarnedContext _ | WarnContext _ => true
  end.
Definition w_outcomes : list (option NodeProbeOutcome) :=
  [Some (mkOutcome (lit "g") 0 (Some (lit "qwen"))); Some (mkOutcome (lit "g") 1 None)].

Lemma w_outcomes_returned :
  Forall2 (λ '(name, i, cfg) o, returns (probe_node w_client name i cfg) o) (probes w_probed) w_outcomes.
Proof. repeat constructor; exists w_answer, []; vm_compute; reflexivity. Qed.

Lemma preflight_fills_models_witness :
  ∃ b, apply_outcomes w_outcomes w_probed = Some b ∧
    (g ← head b; nc_model <$> head (gc_nodes g.2)) = Some (Some (lit "qwen")) ∧
    (g ← head b; nc_model <$> last (gc_nodes g.2)) = Some (Some (lit "mine")).
Proof.
  destruct (preflight_fills_models w_client w_probed w_outcomes) as [E _].
  - vm_decide.
  - exact w_outcomes_returned.
  - exists (fill w_probed w_outcomes). split; [exact E|]. split; vm_compute; reflexivity.
Defined.
