(* ===== verification/MetricsWitnesses.v ===== *)
(** * Concrete instances: metrics and their export

    Every property with a hypothesis of the collector, the stats line and the
    exporter, applied to concrete samples. *)
From S2P Require Import Prelude Json Metrics Formatter Export.

(** * Samples *)
Definition w_body : Value :=
  VObject [kv "model" (vstr "m"); kv "usage" (VObject [kv "prompt_tokens" (vnat 40); kv "completion_tokens" (vnat 6)]);
           kv "timings" (VObject [kv "predicted_per_second" (VNumber (NFloat (f64_of_Z 30))); kv "prompt_n" (vnat 40)])].
Definition w_metrics : RequestMetrics := from_response (lit "id") 5 w_body (VObject []) true (f64_of_Z 1000).

Lemma sample_wire_safe_witness : wire_safe w_metrics ∧ generation_tps (timing w_metrics) = Some (f64_of_Z 30).
Proof.
  split; [|vm_compute; reflexivity].
  apply (sample_wire_safe (lit "id") 5 w_body (VObject []) true (f64_of_Z 1000)). vm_compute. reflexivity.
Defined.

Lemma signal_of_split_witness : has_timing_split w_metrics = true ∧ has_throughput_signal w_metrics = true.
Proof.
  assert (has_timing_split w_metrics = true) as E by (vm_compute; reflexivity).
  split; [exact E|]. apply (signal_of_split (lit "id") 5 w_body (VObject []) true (f64_of_Z 1000) E).
Defined.

Definition w_slots : Value := VArray [VObject [kv "id" (vnat 1); kv "n_ctx" (vnat 8)]; VObject [kv "n_ctx" (vnat 4)]].
Lemma slots_summed_witness : ∃ info, from_slots_response w_slots = Some info ∧ total_context info = 12%Z.
Proof.
  assert (from_slots_response w_slots = Some (mkContextInfo 12 0 [mkSlot 1 0 8 false; mkSlot 0 0 4 false])) as E
    by (vm_compute; reflexivity).
  eexists. split; [exact E|]. destruct (slots_summed _ _ E) as (l & _ & _ & Ht & _). rewrite Ht. reflexivity.
Defined.

(** * The stats line *)

(** One cell per char. *)
#[local] Instance one_cell : Display := {|
  char_width := λ _, Some 1; str_width := λ s, length (chars s); show_time := λ _, []; metrics_json := λ _, None |}.

(** A model name that tries to break the line and to name a column. *)
Definition w_forger : RequestMetrics :=
  mkMetrics [] 0 (lit "a" ++ [ascii_of_nat 10] ++ lit "ctx=1") (Some (lit "g=2")) None None (usage w_metrics) (timing w_metrics)
    f64_zero f64_zero true None None lengths_new true false None (f64_of_Z 1000) None.

Lemma compact_unforgeable_witness :
  one_line (format_compact w_forger) ∧ eq_signs (format_compact w_forger) = 9 ∧ length (compact_tail w_forger) = 1.
Proof.
  destruct (compact_unforgeable w_forger) as (Hl & He & _).
  - repeat constructor.
  - repeat constructor.
  - intros g [= <-]. repeat constructor.
  - split; [exact Hl|]. split; [rewrite He|]; reflexivity.
Defined.

(** * The exporter *)
Lemma point_unforgeable_witness :
  ∃ p, build_data_point w_forger = Some p ∧ (lit "model", lit "a_ctx_1") ∈ tags p.
Proof.
  assert (∃ p, build_data_point w_forger = Some p) as [p E] by (eexists; reflexivity).
  exists p. split; [exact E|]. destruct (point_unforgeable w_forger p E) as (_ & Hm & _); [|exact Hm].
  intros e H. discriminate H.
Defined.

Definition accept_all (p : DataPoint) : bool := false.
Definition w_queued : Writer := (enqueue w_metrics spawned).2.

Lemma w_to_queued : rtc (writer_step accept_all) spawned w_queued.
Proof. apply rtc_once. apply (ws_enqueue _ w_metrics spawned). Qed.
Lemma w_to_closed : rtc (writer_step accept_all) spawned (close w_queued).
Proof. eapply rtc_r; [apply w_to_queued|]. apply ws_close. Qed.

Lemma writer_loses_nothing_witness : queue w_queued = [w_metrics] ∧ accepted w_queued = [w_metrics].
Proof.
  split; [reflexivity|]. destruct (writer_loses_nothing accept_all w_queued w_to_queued) as (Hk & _).
  rewrite <- Hk. reflexivity.
Defined.

(** Every write fails: four attempts, then the drop is counted and the thread ends. *)
Lemma writer_drains_witness :
  let w' := run_worker accept_all (remaining (close w_queued)) (λ _, false) (close w_queued) in
  pc w' = Done ∧ (finished w').*1 = [w_metrics] ∧ retries w' = 3%Z ∧ dropped w' = 1%Z.
Proof.
  destruct (writer_drains accept_all (close w_queued) (λ _, false) w_to_closed eq_refl) as (Hd & Hf & _).
  split; [exact Hd|]. split; [exact Hf|]. split; vm_compute; reflexivity.
Defined.
