(* ===== verification/WireWitnesses.v ===== *)
(** * Concrete instances: the observer, the wire types and the config edits

    Every property with a hypothesis of these parts, applied to concrete
    streams, requests and files. *)
From S2P Require Import Prelude Prog Json Framing StreamPass Metrics Observer.
From S2P Require Import Augment Anthropic Wire WireFacts Handler HandlerFacts.
From S2P Require Import Utf8 Sse Jsonc JsoncFacts Switcher Witnesses RequestWitnesses.

(** * A watched stream *)
Definition w_watched : list (result str str) := [Ok (lit "data: {}" ++ [LF; LF]); Err (lit "reset")].
Definition w_observer : StreamObserver :=
  mkObserver FixTypes.registry_new (Some (VObject [])) true (f64_of_Z 100) None 1 (lit "http://a") None false.

Lemma stream_reported_witness :
  ∃ items st' e, drive (4 * length w_watched + 1) (pass_new w_watched true) = Some (items, st') ∧
    sent items = lf_normalize (until_error w_watched) ∧ completion_tx st' = Sent e ∧ (error_of items = None ↔ e ≠ BackendError) ∧
    wp obs_note (analyze (H := w_empty_serde) w_observer e (default [] (accumulated st')))
      (analyzed (H := w_empty_serde) w_observer e (sent items)) book_new.
Proof.
  destruct (stream_reported (H := w_empty_serde) w_observer w_watched) as (items & st' & e & Hd & _ & Hs & He).
  exists items, st', e. split; [exact Hd|]. split; [|exact He]. apply Hs. exists [w_event1], []. split; [|by repeat constructor].
  split_and!; [by vm_compute| |by vm_compute]. apply Forall_singleton, w_is_event. by vm_compute.
Defined.

(** * Typed requests *)
#[local] Existing Instance w_deps.
#[local] Instance w_wire_laws : WireLaws.
Proof. split; [by intros n n' [= ->]|done]. Qed.

Definition w_part : ContentPart := mkPart (lit "text") (Some (lit "hello")) None.
Definition w_typed : ChatCompletionRequest :=
  mkChatRequest (lit "m")
    [mkMsg (lit "user") (Some (Parts [w_part])) None None None;
     mkMsg (lit "assistant") None None
       (Some [mkToolCall (Some (lit "c1")) (Some (lit "function")) (Some 0%Z) (mkFunctionCall (lit "f") (lit "{}"))]) None]
    (Some (Some (NInt 1))) (Some None) (Some 64%Z) (Some true) None (Some (ChoiceString (lit "auto"))) (Some [lit "a"; lit "b"])
    None None None None None (Some 9%Z) [kv "top_k" (vnat 40)].

Lemma w_typed_ok : chat_ok w_typed.
Proof.
  split.
  - repeat constructor; intros ts [= <-]; repeat constructor; simplify_eq/=; lia.
  - intros n [= <-]. by split.
  - intros n [= <-]. by split.
  - intros x Hx. apply elem_of_cons in Hx as [[= ->]|Hx]; [by intros n [= <-]|]. apply elem_of_cons in Hx as [[= ->]|Hx]; [done|]. repeat (apply elem_of_cons in Hx as [?|Hx]; [done|]). by apply elem_of_nil in Hx.
  - repeat constructor. vm_decide.
Qed.

Lemma chat_request_roundtrip_witness :
  ∃ r, chat_request (of_chat_request w_typed) = Some r ∧ cr_temperature r = cr_temperature w_typed ∧ cr_top_p r = None ∧
    cr_messages r = cr_messages w_typed ∧ cr_extra r = cr_extra w_typed.
Proof.
  rewrite (chat_request_roundtrip w_typed w_typed_ok). eexists. split; [reflexivity|]. by split_and!.
Defined.

(** A request with a catch-all key, augmented: the key is still there. *)
Definition w_extended : list (str * Value) :=
  [kv "model" (vstr "m"); kv "top_k" (vnat 40);
   kv "messages" (VArray [VObject [kv "role" (vstr "user"); kv "content" (vstr "hi")]])].

Lemma augmentation_keeps_fields_witness :
  lit "top_k" ∉ CHAT_FIELDS ∧ ∃ bytes, enrich false (lit "body") (Some (VObject w_extended)) (Some (lit "a", lit "p", lit "c")) = Some bytes ∧
  (bytes = lit "body" ∨ ∃ w, bytes = to_string w ∧ ∀ k, k ∉ CHAT_FIELDS → get w k = map_get k w_extended).
Proof.
  split; [vm_decide|]. assert (∃ bytes, enrich false (lit "body") (Some (VObject w_extended)) (Some (lit "a", lit "p", lit "c")) = Some bytes) as [bytes E]
    by (eexists; vm_compute; reflexivity).
  exists bytes. split; [exact E|].
  apply (augmentation_keeps_fields false (lit "body") w_extended (lit "a", lit "p", lit "c") bytes); [|exact E].
  vm_decide.
Defined.

(** * Config edits *)

(** A comment, a URL in a string, and two trailing commas. *)
Definition w_pieces : list Piece :=
  [Raw "{"%char; LineComment (lit " the model"); Raw LF; StrLit (lit "$schema"); Raw ":"%char; StrLit (lit "https://x");
   Raw ","%char; BlockComment (lit " a, b "); StrLit (lit "a"); Raw ":"%char; Raw "["%char; Raw "1"%char; Raw ","%char;
   Raw "]"%char; Raw ","%char; Raw " "%char; LineComment (lit "end"); Raw LF; Raw "}"%char].

Lemma strip_jsonc_right_witness :
  pieces_ok w_pieces ∧ strip_jsonc (render w_pieces) = render (cleaned w_pieces) ∧
  render (cleaned w_pieces) = qlit "{
'$schema':'https://x', 'a':[1] 
}".
Proof.
  assert (pieces_ok w_pieces) as Hok by (repeat split; try done; vm_decide).
  split; [exact Hok|]. split; [exact (strip_jsonc_right w_pieces Hok)|vm_compute; reflexivity].
Defined.

Definition w_limits : list (str * Z) := [(lit "context", 262144%Z); (lit "output", 32768%Z)].
Lemma edit_limit_right_witness :
  edit_limit_on_line (qlit "  'm': { 'limit': { 'context': 262144, 'output': 32768 } },") (lit "input") (Some 222822%Z)
  = qlit "  'm': { 'limit': { 'context': 262144, 'input': 222822, 'output': 32768 } },".
Proof.
  pose proof (edit_limit_right (qlit "  'm': { ") w_limits (lit " },") (lit "input") (Some 222822%Z)) as E.
  cbv zeta in E.
  transitivity (qlit "  'm': { " ++ quoted (lit "limit") ++ lit ": " ++ object_text (set_limit (lit "input") (Some 222822%Z) w_limits) ++ lit " },").
  - apply E; [vm_compute; reflexivity|unfold key_ok; vm_decide| |intros v [= <-]; lia].
    repeat (constructor; [split; [unfold key_ok; vm_decide|simpl; lia]|]). constructor.
  - vm_compute. reflexivity.
Defined.

Definition w_agent : str := lit "---
description: x
model: a/b
---
# Prompt
".
Lemma agent_model_roundtrip_witness :
  ∃ content', on_disk (update_agent_model (lit "p.md") (lit "c/d")) {[ lit "p.md" := w_agent ]}
      = (Ok (), <[lit "p.md" := content']> {[ lit "p.md" := w_agent ]}) ∧
    lines content' = [lit "---"; lit "description: x"; lit "model: c/d"; lit "---"; lit "# Prompt"] ∧
    on_disk (get_current_model (lit "p.md")) (<[lit "p.md" := content']> {[ lit "p.md" := w_agent ]})
      = (Ok (lit "c/d"), <[lit "p.md" := content']> {[ lit "p.md" := w_agent ]}).
Proof.
  apply (agent_model_roundtrip {[ lit "p.md" := w_agent ]} (lit "p.md") (lit "c/d") w_agent 2).
  - apply lookup_singleton_eq.
  - vm_compute. reflexivity.
  - assert (lines w_agent = [lit "---"; lit "description: x"; lit "model: a/b"; lit "---"; lit "# Prompt"]) as -> by (vm_compute; reflexivity).
    repeat (constructor; [split; [vm_decide|vm_compute; reflexivity]|]). constructor.
  - unfold plain_model. vm_decide.
Defined.
