(* ===== verification/HolderWitnesses.v ===== *)
(** * Concrete instances: the model holder

    Runs of the holder on two files, and every property of it with a hypothesis
    at a concrete input. *)
From S2P Require Import Prelude Numbers Prog Utf8 UnixPath HolderState HolderScreen HolderViews Sse HolderArgs Holder HolderWorld HolderFacts HolderRuns.

Definition w_args : HoldArgs := mkArgs [lit "/m/a.gguf"; lit "/m/b.gguf"] true 4096 false 1.
Definition w_glob (p : str) : option (list str) := Some [p].
Definition w_hold : hd (result ModelHolderError unit) :=
  hold_models_with_tui (Some (lit "/")) w_glob (λ _, true) Some w_args.

Lemma w_command : command (Some (lit "/")) w_glob (λ _, true) Some w_hold.
Proof. exists w_args. by left. Qed.

(** Steps of a run, the answer given. *)
Ltac answers x :=
  eapply rtc_l; [apply step_own; eapply (step_main _ _ _ _ _ _ x); [repeat constructor|cbn [hd_effect]; first [reflexivity|split; [first [reflexivity|by cbn]|reflexivity]]]|].
Ltac works c := eapply rtc_l; [apply step_own; eapply (step_worker 0); [reflexivity|c]|].

(** A file that cannot be opened is neither locked nor counted as failed: with
    the other one locked the title says locked, and the help page that every
    file is. *)
Lemma unopened_reported_locked : ∃ m, runs to_ascii_lowercase (start w_hold) m ∧ w_ui (m_world m) = UiRunning ∧
  overall (w_app (m_world m)) = lit "● locked" ∧ stage <$> head (files (w_app (m_world m))) = Some Found ∧
  head (help_lines 62 (w_app (m_world m))) = Some (lit "Every file locked successfully.").
Proof.
  eexists. split.
  - unfold start. change w_hold with (hold_paths w_args [lit "/m/a.gguf"; lit "/m/b.gguf"]). unfold hold_paths.
    answers true. answers tt. answers tt.
    cbn [map_paths]. answers false. answers tt. answers (None : option Z).
    cbn [map_paths]. answers false. answers tt. answers (Some 10%Z). answers tt. answers 0%Z.
    answers (Some (0, 10%Z)). answers 0%Z. answers tt. answers tt.
    cbn [map_paths]. answers false. answers tt.
    eapply rtc_l; [apply step_own; eapply step_scope; repeat constructor|].
    works ltac:(eapply (wk_clock _ _ 0); [reflexivity|cbn; lia]). works ltac:(eapply wk_mlock; reflexivity).
    works ltac:(eapply wk_add; reflexivity). works ltac:(eapply (wk_timed _ _ _ 0); [reflexivity|cbn; lia]).
    works ltac:(eapply wk_publish; reflexivity).
    answers false. answers tt. answers ([] : list str). answers false. answers tt. apply rtc_refl.
  - by split_and!.
Qed.

(** * The properties at concrete inputs *)
Lemma w_running : ∃ m, runs to_ascii_lowercase (start w_hold) m ∧ w_ui (m_world m) = UiRunning.
Proof. destruct unopened_reported_locked as (m & Hr & Hu & _). by exists m. Qed.

Lemma screen_honest_witness : ∃ m, w_ui (m_world m) = UiRunning ∧ w_gone (m_world m) = [] ∧
  (all_locked (w_app (m_world m)) = true → Forall (λ mp, mp_pinned mp = true) (w_maps (m_world m))).
Proof.
  destruct w_running as (m & Hr & Hu). exists m. split; [exact Hu|].
  destruct (screen_honest to_ascii_lowercase _ _ _ _ _ m w_command Hr Hu) as (Hg & _ & _ & Ha). split; [exact Hg|exact Ha].
Defined.

(** A run without a screen whose one file cannot be locked. *)
Definition w_one : HoldArgs := mkArgs [lit "/m/a.gguf"] true 4096 false 1.
Definition w_report : list Line :=
  [LStart 1; LMapped (lit "/m/a.gguf") 10; LSkipWarmup; LLocking; LLockedSome 0 1; LFailed (lit "/m/a.gguf")].
Lemma w_reported : ∃ m, runs to_ascii_lowercase (start (hold_models_oneshot (Some (lit "/")) w_glob (λ _, true) Some w_one)) m ∧
  w_told (m_world m) = w_report.
Proof.
  eexists. split.
  - unfold start. change (hold_models_oneshot _ _ _ _ _) with (oneshot_paths w_one [lit "/m/a.gguf"]). unfold oneshot_paths.
    answers tt. cbn [map_all]. answers (Some 10%Z). answers (Some (0, 10%Z)). answers tt. answers tt. answers tt.
    eapply rtc_l; [apply step_own; eapply step_scope; repeat constructor|].
    works ltac:(eapply wk_refused; reflexivity). works ltac:(eapply wk_fail; reflexivity).
    answers tt. answers 0%Z. answers [lit "/m/a.gguf"]. answers tt. answers tt. apply rtc_refl.
  - reflexivity.
Qed.

Lemma reports_true_witness : ∃ m, w_told (m_world m) = w_report ∧ Forall (line_true 1 (m_world m)) (w_told (m_world m)).
Proof.
  destruct w_reported as (m & Hr & Ht). exists m. split; [exact Ht|].
  exact (proj1 (reports_true to_ascii_lowercase (Some (lit "/")) w_glob (λ _, true) Some w_one _ m (or_intror eq_refl) Hr)).
Defined.

Definition w_app_two : AppState := fill_app [] [lit "/m/a.gguf"; lit "/m/b.gguf"] app_new.

Lemma filtered_files_right_witness : filtered_files to_ascii_lowercase w_app_two ≡ₚ shown_of to_ascii_lowercase w_app_two.
Proof. apply (filtered_files_right to_ascii_lowercase w_app_two). by vm_compute. Defined.

Lemma w_view : view_ok to_ascii_lowercase w_app_two.
Proof. split; [by apply Nat.le_0_l|reflexivity]. Qed.

Lemma two_presses_quit_witness :
  (handle_key to_ascii_lowercase w_app_two Esc).2 ||
  (handle_key to_ascii_lowercase (handle_key to_ascii_lowercase w_app_two Esc).1 Esc).2 = true.
Proof. apply (two_presses_quit to_ascii_lowercase w_app_two Esc w_view). by left. Defined.

Lemma w_dir (dir : str) : Some (lit "/") = Some dir → is_absolute dir = true ∧ ParentDir ∉ components dir.
Proof. intros [= <-]. split; [reflexivity|]. vm_decide. Qed.

(** A file system whose canonical paths are all the root. *)
Lemma expand_globs_right_witness : ∃ paths, expand_globs (Some (lit "/")) w_glob (λ _, true) (λ _, Some (lit "/m")) [lit "m"] = Ok paths ∧
  paths ≠ [] ∧ NoDup paths.
Proof.
  eexists. split; [vm_compute; reflexivity|].
  assert (∀ p q p' q' : str, Some (lit "/m") = Some p' → Some (lit "/m") = Some q' → components p' = components q' → p' = q') as Hinj
    by congruence.
  destruct (expand_globs_right (Some (lit "/")) w_glob (λ _, true) (λ _, Some (lit "/m")) [lit "m"] [lit "/m"] w_dir
    (λ p q p' q', Hinj p q p' q') eq_refl) as (Hne & Hnd & _). split; [exact Hne|exact Hnd].
Defined.
