(* ===== verification/ServerWitnesses.v ===== *)
(** * Concrete instances: starting and stopping

    The properties of start-up and of the shutdown, applied to a concrete
    configuration and a concrete run. *)
From S2P Require Import Prelude Prog Node Balancer Config Json Metrics Export Grouped Preflight Http FixTypes.
From S2P Require Import Drain Server Startup Clients Witnesses ProbeWitnesses MetricsWitnesses.

(** * The shutdown *)

(** One connection, one request, its sample exported, the signal while the
    response is under way. *)
Definition w_draining : Server :=
  mkServer (Draining GRACEFUL_SHUTDOWN_GRACE) false true true [mkConn 1 false false] 0 0 (enqueue w_metrics spawned).2 [] 0.

Lemma w_to_draining : serves (λ _, false) 0 w_draining.
Proof.
  unfold serves, serving.
  do 2 (eapply rtc_l; [apply sv_own; first [by apply turn_accept|by apply turn_checked]|]).
  eapply rtc_l; [eapply (sv_conn _ _ 0); [reflexivity|by apply conn_request]|].
  eapply rtc_l; [by eapply (sv_sample _ _ 0)|].
  eapply rtc_l; [by eapply (sv_export _ _ 0 w_metrics)|].
  eapply rtc_l; [apply sv_signal|].
  apply rtc_once, sv_own. by apply turn_break.
Qed.

Lemma drain_ends_witness :
  rank w_draining = 4 ∧ (phase w_draining = Closed ∨ waiting w_draining ∨ ∃ s', own_turn w_draining s') ∧
  ∀ s', own_turn w_draining s' → rank s' < 4.
Proof.
  destruct (drain_ends (λ _, false) 0 w_draining w_to_draining eq_refl) as (Ho & _ & Hw).
  split; [reflexivity|]. split; [exact Hw|]. intros s' Ht. exact (proj2 (Ho s' Ht)).
Defined.

(** The client hangs up, the drain is over, the exporter is shut. *)
Definition w_closing : Server :=
  mkServer (Closing JOIN_BUDGET) false true true [] 0 0 (close (enqueue w_metrics spawned).2) [] 0.

Lemma w_to_closing : serves (λ _, false) 0 w_closing.
Proof.
  unfold serves. transitivity w_draining; [exact w_to_draining|].
  eapply rtc_l; [eapply (sv_conn _ _ 0); [reflexivity|by apply conn_ends]|].
  eapply rtc_l; [apply sv_own; eapply (turn_join _ 0); [by right; eexists|reflexivity|reflexivity]|].
  apply rtc_once, sv_own. by apply turn_shutdown.
Qed.

Lemma shutdown_keeps_samples_witness :
  conns w_closing = [] ∧ refused w_closing = [] ∧
  let w := run_worker (λ _, false) (remaining (exporter w_closing)) (λ _, true) (exporter w_closing) in
  pc w = Done ∧ (finished w).*1 = [w_metrics].
Proof.
  destruct (shutdown_keeps_samples (λ _, false) 0 w_closing (λ _, true) w_to_closing) as (Hr & _ & _ & Hs).
  destruct (Hr eq_refl) as [_ Hc]. destruct (Hs eq_refl) as (Hl & Hd & Ha & _).
  split; [exact Hc|]. split; [by apply nil_length_inv, Nat.le_0_r|]. split; [exact Hd|exact Ha].
Defined.

(** * The start *)
#[local] Instance w_models_serde : Serde := w_props_serde.
#[local] Instance w_ascii_text : HeaderText := {| to_str := Some |}.
(** The client factory of the code, over a file system without files. *)
Definition w_factory : Z → option TlsConfig → result str unit :=
  build_node_client (Cert:=unit) (Ident:=unit) (λ _, Err (lit "No such file")) (λ _, Ok tt) (λ _, Ok tt) (λ _, Ok tt).
Definition w_found : list (option NodeProbeOutcome) :=
  (λ '(name, i, _), Some (mkOutcome name i (Some (lit "qwen")))) <$> probes w_groups.

Lemma w_found_returned :
  Forall2 (λ '(name, i, cfg) o, returns (probe_node w_factory name i cfg) o) (probes w_groups) w_found.
Proof. repeat constructor; exists w_answer, []; vm_compute; reflexivity. Qed.

Lemma server_starts_witness :
  ∃ st h, server_wf (st_load_balancer st) h ∧ idle h ∧ st_concurrent_semaphore st = None.
Proof.
  destruct (server_starts w_factory (λ _, 0%Z) (λ _, true) w_url id (λ _, []) (λ _, true) Ok (λ _, Ok w_config)
    (lit "config.yaml") w_config w_found FixTypes.registry_new false false (λ _, Ok tt) (2 ^ 61 - 1)%Z) as (st & h & _ & Hwf & Hi & _ & Hsem & _).
  - vm_compute. reflexivity.
  - intros groups E. injection E as <-. split; [vm_decide|exact w_found_returned].
  - repeat constructor.
  - exists st, h. split; [exact Hwf|]. split; [exact Hi|]. destruct (st_concurrent_semaphore st) as [n|] eqn:E; [|reflexivity].
    destruct (proj1 (Hsem n) eq_refl) as [-> Hn]. vm_compute in Hn. discriminate Hn.
Defined.
