(* ===== verification/StreamTests.v ===== *)
(** * The tests of the synthesized streams, evaluated

    The witnesses of the round trips of [SseText], and the repository's own
    tests of [synthesis.rs] on what a synthesized body holds, the bytes of its
    golden test included, computed over [JsonText] and the layout axum's
    documentation gives an event. *)
From S2P Require Import Prelude Utf8 Json JsonText MalformedArgs Fixes Framing Sse StreamPass Merge Synthesis Anthropic SseText Wire Http Decode Prog Handler HandlerFacts Served Witnesses RequestWitnesses.
From S2P Require Config.
#[local] Existing Instance json_text.

(** An event of the one-line fields the code sets. *)
#[local] Instance plain_event : EventText := λ ev d,
  match ev with Some e => lit "event: " ++ e ++ [LF] | None => [] end ++ lit "data: " ++ d ++ [LF; LF].
#[local] Instance plain_event_laws : EventTextLaws.
Proof. by intros ev d. Qed.

#[local] Instance one_line_dec s : Decision (one_line s) := _.
#[local] Instance legible_dec v : Decision (legible v).
Proof. unfold legible. apply _. Defined.
#[local] Instance legible_chunk_dec c : Decision (legible_chunk c).
Proof. destruct c; apply _. Defined.

(** ** The round trips at concrete messages *)
Lemma openai_body_reads_back_witness :
  let body := openai_body (synthesize_openai_chunks w_raw 2) 25 in
  waited body = 175%Z ∧
  ∃ v, parse_accumulated_sse (sent_text body) = Some (Some v) ∧ ∀ k, text_key k → response_text k v = text_at k (VObject w_message).
Proof.
  destruct (openai_body_reads_back 0 w_completion 2 25 w_raw w_choice w_message) as [W R]; [by vm_compute..| | |done|].
  - intros ts Hts. assert (ts = [w_fragment 0 "{}"]) as -> by (vm_compute in Hts |- *; congruence).
    apply Forall_singleton. exists 0. apply w_fragment_ok. lia.
  - vm_decide.
  - split; [|exact R]. etrans; [exact W|]. by vm_compute.
Defined.

Lemma anthropic_body_reads_back_witness :
  parse_accumulated_sse (sent_text (anthropic_body (synthesize_anthropic_chunks w_anthropic 2) 25)) =
    Some (Some (merged_message w_anthropic (vstr "tool_use") 7 (merged_block <$> am_content w_anthropic))).
Proof.
  destruct (anthropic_body_reads_back w_anthropic 2 25) as [_ E]; [simpl; lia|done|vm_decide|exact E].
Defined.

(** ** An answer through the whole handler *)
#[local] Existing Instance scanning_regex.
#[local] Instance text_deps : Deps := {|
  deps_serde := json_text;
  deps_text := {| to_str := Some |};
  deps_codecs := {| gzip b := (b, None); zlib b := (b, None); raw_deflate b := (b, None);
                    brotli b := (b, None); zstd b := Ok (b, None) |};
  deps_wire := {| f32_round := Some; hash_order l := l |};
  debug_model _ := [];
|}.



(** ** synthesis.rs *)
Definition CONFIG_CHUNK : nat := 2000.
Definition body_of (raw : Value) : str :=
  match synthesize_streaming_response 0 raw CONFIG_CHUNK with Ok cs => sent_text (openai_body cs 0) | Err _ => [] end.
Definition claude_body_of (raw : Value) : option str :=
  sent_text <$> synthesize_anthropic_openai_format_response (λ _, lit "u") 0 raw CONFIG_CHUNK 0.
Definition message_body (blocks : list AnthropicContentBlock) (stop_reason : option str) : str :=
  sent_text (anthropic_body (synthesize_anthropic_chunks
    (mkMessage (lit "m60") (lit "message") (lit "assistant") blocks (lit "m") stop_reason None (mkUsage 1 1)) CONFIG_CHUNK) 0).

(** The body holds the pieces, in this order. *)
Fixpoint holds (b : str) (pieces : list String.string) : bool :=
  match pieces with
  | [] => true
  | p :: ps => match find_sub b (qlit p) with Some i => holds (drop i b) ps | None => false end
  end.
Definition lacks (b : str) (p : String.string) : bool := negb (contains_sub b (qlit p)).

Definition probe : Value := json "{
  'id': 'cmpl-probe', 'object': 'chat.completion', 'created': 171, 'model': 'qwen3', 'system_fingerprint': 'fp_999',
  'choices': [
    {'index': 0, 'message': {'role': 'assistant', 'content': 'Answer here.', 'reasoning_text': 'Hmm, let me think.', 'tool_calls': [{'id': 'call_1', 'type': 'function', 'function': {'name': 'lookup', 'arguments': '{\'q\':\'x\'}'}}]}},
    {'index': 1, 'message': {'role': 'assistant', 'content': 'SECOND CHOICE'}}],
  'usage': {'prompt_tokens': 5, 'completion_tokens': 7, 'total_tokens': 12, 'llama_extra': {'k': 1}},
  'x_top_unknown': {'alpha': true}}".

(** The golden bytes, an event a row. *)
Definition BASELINE_BYTES : list String.string := [
    "data: {'id':'cmpl-probe','object':'chat.completion.chunk','created':171,'model':'qwen3','choices':[{'index':0,'delta':{'role':'assistant'},'finish_reason':null}],'system_fingerprint':'fp_999','x_top_unknown':{'alpha':true}}";
    "data: {'id':'cmpl-probe','object':'chat.completion.chunk','created':171,'model':'qwen3','choices':[{'index':0,'delta':{'reasoning_text':'Hmm, let me think.'},'finish_reason':null}],'system_fingerprint':'fp_999','x_top_unknown':{'alpha':true}}";
    "data: {'id':'cmpl-probe','object':'chat.completion.chunk','created':171,'model':'qwen3','choices':[{'index':0,'delta':{'content':'Answer here.'},'finish_reason':null}],'system_fingerprint':'fp_999','x_top_unknown':{'alpha':true}}";
    "data: {'id':'cmpl-probe','object':'chat.completion.chunk','created':171,'model':'qwen3','choices':[{'index':0,'delta':{'tool_calls':[{'id':'call_1','type':'function','function':{'name':'lookup','arguments':'{\'q\':\'x\'}'}}]},'finish_reason':null}],'system_fingerprint':'fp_999','x_top_unknown':{'alpha':true}}";
    "data: {'id':'cmpl-probe','object':'chat.completion.chunk','created':171,'model':'qwen3','choices':[{'index':0,'delta':{},'finish_reason':'tool_calls'}],'system_fingerprint':'fp_999','x_top_unknown':{'alpha':true}}";
    "data: {'id':'cmpl-probe','object':'chat.completion.chunk','created':171,'model':'qwen3','choices':[{'index':1,'delta':{'role':'assistant'},'finish_reason':null}],'system_fingerprint':'fp_999','x_top_unknown':{'alpha':true}}";
    "data: {'id':'cmpl-probe','object':'chat.completion.chunk','created':171,'model':'qwen3','choices':[{'index':1,'delta':{'content':'SECOND CHOICE'},'finish_reason':null}],'system_fingerprint':'fp_999','x_top_unknown':{'alpha':true}}";
    "data: {'id':'cmpl-probe','object':'chat.completion.chunk','created':171,'model':'qwen3','choices':[{'index':1,'delta':{},'finish_reason':'stop'}],'system_fingerprint':'fp_999','x_top_unknown':{'alpha':true},'usage':{'prompt_tokens':5,'completion_tokens':7,'total_tokens':12,'llama_extra':{'k':1}}}";
    "data: [DONE]"]%string.
Example golden_bytes : body_of probe = concat ((λ e, qlit e ++ [LF; LF]) <$> BASELINE_BYTES).
Proof. vm_compute. reflexivity. Qed.

(** [envelope_*]: the skeleton of a chunk, and of the one that finishes. *)
Example envelopes :
  let meta := mkMeta (lit "cmpl-env") 42 (lit "qwen3") [] in
  VObject (sse_envelope meta (lit "content") (vstr "hi") 0) =
    json "{'id':'cmpl-env','object':'chat.completion.chunk','created':42,'model':'qwen3','choices':[{'index':0,'delta':{'content':'hi'},'finish_reason':null}]}" ∧
  get (VObject (sse_envelope meta FINISH_EVENT (vstr "tool_calls") 1)) (lit "choices") =
    Some (json "[{'index':1,'delta':{},'finish_reason':'tool_calls'}]").
Proof. vm_compute. done. Qed.

(** The order of the deltas, and the reason a choice finished for. *)
Example choices_in_order : forallb (λ '(raw, present, absent), holds (body_of (json raw)) present && forallb (lacks (body_of (json raw))) absent)
  [("{'id':'c59','created':9,'model':'m','choices':[{'index':0,'message':{'role':'assistant','content':'TEXT-BODY','reasoning_text':'REASON-BODY','tool_calls':[{'id':'call_9','type':'function','function':{'name':'f','arguments':'{}'}}]}}]}",
    ["REASON-BODY"; "TEXT-BODY"; "call_9"; "'finish_reason':'tool_calls'"], ["'finish_reason':'stop'"]);
   ("{'id':'c','created':1,'model':'m','choices':[{'index':0,'message':{'role':'assistant','content':'x'}}]}",
    ["'finish_reason':'stop'"], []);
   ("{'id':'c','created':1,'model':'m','choices':[{'index':0,'finish_reason':'length','message':{'role':'assistant','content':'x','tool_calls':[{'id':'t','type':'function','function':{'name':'f','arguments':'{}'}}]}}]}",
    ["'finish_reason':'length'"], ["'finish_reason':'tool_calls'"])]%string = true.
Proof. vm_compute. reflexivity. Qed.

(** [chunk_size_chars_default_splits_3000_chars_into_two]. *)
Example two_pieces : length <$> split_chars (replicate 3000 "x"%char) CONFIG_CHUNK = [2000; 1000].
Proof. vm_compute. reflexivity. Qed.

(** Typed messages: stop reasons, signatures, tool results, indices without a gap. *)
Example typed_messages : forallb (λ '(blocks, stop, present, absent),
    holds (message_body blocks stop) present && forallb (lacks (message_body blocks stop)) absent)
  [([BToolUse (lit "t1") (lit "f") (VObject [])], None, ["'stop_reason':'tool_use'"], []);
   ([BText (lit "hi")], None, ["'stop_reason':'end_turn'"], []);
   ([BText (lit "hi")], Some (lit "max_tokens"), ["'stop_reason':'max_tokens'"], ["'stop_reason':'end_turn'"]);
   ([BThinking (lit "deep") (Some (lit "sig_abc"))], None, ["'type':'signature_delta'"; "'signature':'sig_abc'"], []);
   ([BThinking (lit "deep") None], None, ["'thinking':'deep'"], ["signature_delta"]);
   ([BText (lit "T"); BToolResult (lit "toolu_9") (json "[{'type':'text','text':'TR-ARRAY'}]") (Some true)], None,
    ["'index':1"; "'type':'tool_result'"; "'tool_use_id':'toolu_9'"; "TR-ARRAY"; "'is_error':true";
     "'type':'content_block_stop','index':1"], []);
   ([BToolResult (lit "toolu_2") (vstr "TR-STRING") None], None,
    ["'type':'tool_result'"; "'content':'TR-STRING'"], ["'type':'text'"; "'is_error'"]);
   ([BThinking (lit "d") (Some (lit "s")); BText (lit "v"); BToolUse (lit "t") (lit "f") (json "{'a':1}");
     BToolResult (lit "u1") (json "[{'type':'text','text':'A'}]") (Some false); BToolResult (lit "u2") (vstr "B") None], None,
    ["'index':0"; "'index':1"; "'index':2"; "'index':3"; "'index':4"], ["'index':5"])]%string = true.
Proof. vm_compute. reflexivity. Qed.

(** Converted responses. *)
Example converted : forallb (λ '(raw, present), holds (default [] (claude_body_of raw)) present)
  [(probe, ["message_start"; "'llama_extra'"; "'input_tokens':5"; "'output_tokens':7"; "fp_999"; "'x_top_unknown'"; "content_block_start";
     "'index':3"; "SECOND CHOICE"; "'stop_reason':'tool_use'"; "event: message_stop"]);
   (json "{'id':'i','model':'m','choices':[{'index':0,'finish_reason':'length','message':{'role':'assistant','content':'x'}}]}",
    ["'stop_reason':'max_tokens'"]);
   (json "{'id':'i','model':'m','choices':[{'index':0,'finish_reason':'stop','message':{'role':'assistant','content':'x'}}]}",
    ["'stop_reason':'end_turn'"])]%string = true.
Proof. vm_compute. reflexivity. Qed.

(** [malformed_known_fields_are_rejected_by_both_paths]. *)
Example malformed_rejected : forallb (λ raw,
    bool_decide (claude_body_of (json raw) = None) && match parse_raw_completion 0 (json raw) with Err _ => true | Ok _ => false end)
  ["[]"; "{'choices': null}"; "{'id': 'i', 'model': 'm', 'choices': []}";
   "{'id': 'i', 'model': 'm', 'choices': [{'index': null, 'message': {'role': 'assistant', 'content': 'leaky'}}]}";
   "{'id': 'i', 'model': 'm', 'choices': [{'message': 'not an object'}]}";
   "{'id': 'i', 'model': 'm', 'choices': [{'index': 0}]}";
   "{'id': 'i', 'model': 'm', 'choices': [{'index': 0, 'finish_reason': 7, 'message': {'role': 'assistant', 'content': 'x'}}]}"]%string = true.
Proof. vm_compute. reflexivity. Qed.

(** [extras_exclude_envelope_owned_keys]. *)
Example extras_of_probe :
  match parse_raw_completion 0 probe with Ok r => (extras (meta r)).*1 | Err _ => [] end = [lit "system_fingerprint"; lit "x_top_unknown"].
Proof. vm_compute. reflexivity. Qed.
