(* ===== verification/Tests.v ===== *)
(** * The unit tests of the repository, evaluated

    One module per part: reading a configuration, the fixes, the tools, the
    statistics.  The inputs and the expected results are those of the tests,
    computed with the definitions of the model over [JsonText]. *)
From S2P Require Import Prelude.
From S2P Require Numbers Prog Json JsonText Config ConfigRead Net JsonScan FixTypes Traverse NullIndex BadFilepath MalformedArgs Fixes Framing Sse KvLabels Jsonc Switcher Metrics Formatter.

(** * Reading a configuration, at concrete documents

    JSON is YAML: over [JsonText] the reader of [ConfigRead] and the sweep of
    [Config] run on documents of the repository's own tests (config/mod.rs,
    config/loader.rs) and on what the shipped sample holds, and the laws the reader is proved
    under hold. *)
Module ConfigTests.
Import Numbers Json JsonText Config ConfigRead Net.

(** A document keeps every entry of a mapping. *)
Definition jt_document (s : str) : option Value :=
  '(v, r) ← read_value (λ k v m, m ++ [(k, v)]) s; if bool_decide (skip_ws r = []) then Some v else None.
#[local] Instance yaml_json : Yaml := {|
  Node := Value;
  y_parse := jt_document;
  y_error _ := lit "invalid configuration";
  y_bool v := match v with VBool b => Some b | _ => None end;
  y_u64 := as_u64;
  y_f64 v := match v with VNumber (NFloat x) => Some x | VNumber (NInt z) => Some (f64_of_Z z) | _ => None end;
  y_str := as_str;
  y_variant := as_str;
  y_some v := match v with VNull => None | _ => Some v end;
  y_seq := as_array;
  y_map v := match v with VObject m => Some (prod_map VString id <$> m) | _ => None end;
  y_any_str := as_str;
  y_value _ := true;
  yield_order _ l := l;
|}.
#[local] Instance json_writer : YamlWriter := {|
  n_bool := VBool; n_u64 z := VNumber (NInt z); n_f64 x := VNumber (NFloat x); n_str := VString; n_null := VNull;
  n_seq := VArray; n_map := VObject;
|}.
#[local] Instance json_yaml_laws : YamlLaws.
Proof.
  constructor; intros; try done. cbn. unfold u64 in *. destruct (Z.leb_spec 0 z), (Z.ltb_spec z (2 ^ 64)); cbn; first [done|lia].
Qed.

(** ** What is read *)
Definition app (s : String.string) : option AppConfig := match jt_document (qlit s) with Some v => read_app v | None => None end.
Definition part {A} (read : Value → option A) (s : String.string) : option A := match jt_document (qlit s) with Some v => read v | None => None end.
Arguments app s%_string.
Arguments part {A} read s%_string.

Definition server_8066 : ServerConfig := mkServer 8066 (lit "0.0.0.0") 0 None.
Definition local_backend : BackendConfig := mkBackendConfig (lit "http://localhost:8080") 300 None None None None.

(** The sample the program is shipped with: everything else is commented out. *)
Definition sample : String.string :=
  "{'server':{'port':8066,'host':'0.0.0.0','max_concurrent_requests':0},'backend':{'url':'http://localhost:8080','timeout_seconds':300}}".
Definition sample_config : AppConfig :=
  mkApp server_8066 (Some local_backend) None (mkFixes true []) (mkStats true Pretty (f64_of_Z 50000))
    (mkInflux false (lit "http://localhost:8086") (lit "my-org") (lit "llama-metrics") []) Fake (mkSynthesis 0 2000) None None
    (mkDump false []).
Example sample_read : app sample = Some sample_config.
Proof. vm_compute. reflexivity. Qed.

Example node_read : part read_node "{'url':'http://localhost:8080','temperature':1.5,'tls':{'accept_invalid_certs':true,'ca_cert_path':null}}" =
  Some (mkNodeConfig (lit "http://localhost:8080") 300 (Some (mkTls true None None None)) None None None (Some (decimal false 15 (-1)))).
Proof. vm_compute. reflexivity. Qed.

Example group_read : part read_group
    "{'mappings':['haiku','claude-haiku-4-5-20251001'],'strategy':'priority_free','exclusive':true,'nodes':[{'url':'http://localhost:8080','timeout_seconds':7},{'url':'http://localhost:8081'}]}" =
  Some (mkGroupConfig [lit "haiku"; lit "claude-haiku-4-5-20251001"] (lit "priority_free") 30 true
    [mkNodeConfig (lit "http://localhost:8080") 7 None None None None None;
     mkNodeConfig (lit "http://localhost:8081") 300 None None None None None]).
Proof. vm_compute. reflexivity. Qed.

Example group_defaults : part read_group "{'mappings':[],'nodes':[]}" = Some (mkGroupConfig [] (lit "round_robin") 30 false []).
Proof. vm_compute. reflexivity. Qed.

Example augment_read : part read_augment "{'url':'http://localhost:8701','model':'fast-model'}" =
  Some (mkAugment false (lit "http://localhost:8701") (lit "fast-model") (lit "./augmenter/backend_prompt.md")
    (lit "./augmenter/request_prompt.md") 15).
Proof. vm_compute. reflexivity. Qed.

(** The alias, and a lone string for a list. *)
Example reprompt_read : part read_reprompt "{'enabled':true,'prompt':'x','done_sentinel':'FINISH'}" =
  Some (mkReprompt true None (Some (lit "x")) 3 [lit "FINISH"] true false true 30000).
Proof. vm_compute. reflexivity. Qed.
Example reprompt_twice : part read_reprompt "{'done_sentinel':'A','done_sentinels':['B']}" = None.
Proof. vm_compute. reflexivity. Qed.

Example synthesis_read : part read_synthesis "{'chunk_delay_ms':10}" = Some (mkSynthesis 10 2000).
Proof. vm_compute. reflexivity. Qed.
Example stats_read : part read_stats "{'format':'json','max_plausible_prefill_tps':-1.0}" = Some (mkStats true Json (f64_of_Z (-1))).
Proof. vm_compute. reflexivity. Qed.
Example module_read : part read_module "{}" = Some (mkFixModule true []).
Proof. vm_compute. reflexivity. Qed.

Example leftovers_named : leftover_fix_module_options <$>
    part read_fixes "{'enabled':true,'modules':{'toolcall_null_index':{'enabled':true,'bogus_option':7},'toolcall_bad_filepath':{'enabled':false}}}" =
  Some [(lit "toolcall_null_index", lit "bogus_option")].
Proof. vm_compute. reflexivity. Qed.

Example max_concurrent_read : (max_concurrent_requests <$> part read_server "{'port':8066,'host':'0.0.0.0','max_concurrent_requests':25}",
    allowed_origins <$> part read_server "{'port':8066,'host':'0.0.0.0','allowed_origins':['https://app.example']}") =
  (Some 25%Z, Some (Some [lit "https://app.example"])).
Proof. vm_compute. reflexivity. Qed.

(** ** What is refused *)
Example refused : (
  app "{'server':{'port':8066,'host':'0.0.0.0'},'bogus_app_key':1}",
  part read_server "{'port':8066,'host':'0.0.0.0','bogus_server_key':1}",
  part read_server "{'port':65536,'host':'0.0.0.0'}",
  part read_server "{'port':8066,'port':8067,'host':'0.0.0.0'}",
  part read_backend "{'timeout_seconds':300}",
  part read_group "{'mappings':[],'exclusive':'true','nodes':[]}",
  part read_fixes "{'enbaled':false}",
  part read_exporters "{'influxd':{'enabled':true,'url':'http://localhost:8086'}}",
  part read_mode "'accumulator'", part read_mode "'teleport'", part read_synthesis "{'chunk_delay_ms':-1}") =
  (None, None, None, None, None, None, None, None, None, None, None).
Proof. vm_compute. reflexivity. Qed.

(** ** The loader on whole files *)
Definition no_url : str := lit "relative URL without a base".
(** Enough of [Url::parse] for the URLs below. *)
Definition t_url (s : str) : result str (str * option str) :=
  match find_sub s (lit "://") with
  | Some i => Ok (take i s, Some (drop (i + 3) s))
  | None => Err no_url
  end.
Definition load (s : String.string) : result ConfigError AppConfig :=
  load_config (λ h, bool_decide (is_Some (parse_ip h))) t_url id (λ _, lit "?") (λ p, bool_decide (p ≠ lit "/missing.md")) Ok yaml_from_str (qlit s).
Arguments load s%_string.
(** Loads, or the refusal names what it is about. *)
Definition base (section : String.string) : String.string :=
  String.append "{'server':{'port':8066,'host':'0.0.0.0'},'backend':{'url':'http://localhost:8080'}" (String.append section "}").
Definition groups (g : String.string) : String.string :=
  String.append "{'server':{'port':8066,'host':'0.0.0.0'},'backends':" (String.append g "}").
Definition hosted (h : String.string) : String.string :=
  String.append "{'server':{'port':8066,'host':'" (String.append h "'}}").
Definition verdict (s : String.string) : option str :=
  match load s with Ok _ => None | Err (Validation msg) => Some msg | Err _ => Some (lit "parse") end.
Definition about (what : String.string) (v : option str) : bool :=
  match v with Some msg => match find_sub msg (lit what) with Some _ => true | None => false end | None => false end.

Example loads : Forall (λ s, verdict s = None) [
    sample; "{'server':{'port':8066,'host':'0.0.0.0'}}"; groups "{'main':{'mappings':[],'nodes':[{'url':'http://localhost:8080'}]}}";
    hosted "::1"; hosted "[::1]"; hosted "localhost"; hosted "cosmo.lan"; base ",'streaming':'passthrough'";
    base ",'reprompt':{'enabled':true,'prompt_file':'/there.md'}"; base ",'dump':{'enabled':true,'path':'/tmp/d'}";
    base ",'augment-backend':{'enabled':true,'url':'https://x.test:1','model':'fast'}";
    groups "{'g':{'mappings':[],'nodes':[{'url':'http://localhost:8080','temperature':0.0}]}}";
    groups "{'g':{'mappings':[],'nodes':[{'url':'http://localhost:8080','temperature':2.0}]}}";
    base ",'synthesis':{'chunk_delay_ms':25,'chunk_size_chars':512}"; base ",'exporters':{'influxdb':{'enabled':false,'url':''}}"]%string.
Proof. repeat (apply Forall_cons; split; [vm_compute; reflexivity|]). apply Forall_nil_2. Qed.

Example refusals : Forall (λ '(s, what), about what (verdict s) = true) [
    ("{'server':{'port':0,'host':'0.0.0.0'}}", "port"); (hosted "not a host!!", "RFC-1123"); (base ",'streaming':'teleport'", "parse");
    ("{'server':{'port':8066,'host':'0.0.0.0'},'backend':{'url':'http://localhost:8080','timeout_seconds':0}}", "timeout");
    ("{'server':{'port':8066,'host':'0.0.0.0'},'backend':{'url':'http://localhost:8080','timeout_seconds':18446744073709551615}}", "timeout_seconds");
    (base ",'reprompt':{'enabled':true,'prompt_file':'/missing.md'}", "does not exist"); (base ",'reprompt':{'enabled':true}", "neither");
    (base ",'reprompt':{'enabled':true,'prompt':'go','done_sentinels':['DONE','']}", "done_sentinels");
    (base ",'reprompt':{'enabled':true,'prompt':'go','max_total_ms':18446744073709551615}", "max_total_ms");
    (base ",'dump':{'enabled':true,'path':''}", "dump path");
    (base ",'augment-backend':{'enabled':true,'url':'ftp://nope','model':'fast'}", "http");
    (base ",'augment-backend':{'enabled':true,'url':'http://x.test:1','model':''}", "model");
    (groups "{'g':{'mappings':[],'nodes':[{'url':'http://localhost:8080','temperature':-0.1}]}}", "temperature");
    (groups "{'g':{'mappings':[],'nodes':[{'url':'http://localhost:8080','temperature':2.5}]}}", "temperature");
    (groups "{'g1':{'mappings':['qwen3'],'nodes':[{'url':'http://a:1'}]},'g2':{'mappings':['qwen3','llama'],'nodes':[{'url':'http://b:1'}]}}",
     "Model 'qwen3' is mapped in both group 'g1' and group 'g2'");
    (groups "{'g1':{'mappings':[],'nodes':[{'url':'http://a:1'}]},'g2':{'mappings':[],'nodes':[{'url':'http://b:1'}]}}", "catch-all");
    (groups "{}", "No backend groups"); (groups "{'':{'mappings':['m'],'nodes':[{'url':'http://a:1'}]}}", "group name");
    (groups "{'g':{'mappings':[],'failure_cooldown_secs':18446744073709551615,'nodes':[{'url':'http://a:1'}]}}", "failure_cooldown_secs");
    (base ",'synthesis':{'chunk_size_chars':0}", "chunk_size_chars"); (base ",'synthesis':{'chunk_delay_ms':18446744073709551615}", "chunk_delay_ms");
    (base ",'exporters':{'influxdb':{'enabled':true,'url':''}}", "InfluxDB")]%string.
Proof. repeat (apply Forall_cons; split; [vm_compute; reflexivity|]). apply Forall_nil_2. Qed.

(** ** The round trip at a configuration that sets every section *)
Definition t_full : AppConfig :=
  mkApp (mkServer 443 (lit "::1") 8 (Some [lit "https://app.example"])) (Some local_backend)
    (Some [(lit "g", mkGroupConfig [lit "m"] (lit "priority_free") 0 true [mkNodeConfig (lit "http://a:1") 5 None (Some (lit "q")) None None (Some f64_zero)])])
    (mkFixes false [(lit "toolcall_null_index", mkFixModule false [lit "bogus"])]) (mkStats false Compact f64_zero)
    (mkInflux true (lit "http://i:1") (lit "o") (lit "b") (lit "t")) Passthrough (mkSynthesis 1 2)
    (Some (mkAugment true (lit "http://x:1") (lit "fast") (lit "p") (lit "r") 9))
    (Some (mkReprompt true None (Some (lit "go")) 1 [lit "A"; lit "B"] false true false 7)) (mkDump true (lit "/d")).
Lemma t_u64 z : bool_decide (0 ≤ z < 2 ^ 64)%Z = true → u64 z.
Proof. apply bool_decide_eq_true. Qed.
Lemma t_yielded {A} (l : list (str * A)) : bool_decide (NoDup l.*1) = true → yielded l.
Proof. intros Hn%bool_decide_eq_true. by split. Qed.
Ltac fits := first [apply t_u64; vm_compute; reflexivity|apply t_yielded; vm_compute; reflexivity|exact I|vm_decide].
Lemma t_full_wf : config_wf t_full.
Proof.
  split; [split; fits|]. split; [fits|].
  split; [split; [fits|apply Forall_singleton; split; [fits|apply Forall_singleton; fits]]|].
  split; [split; [fits|apply Forall_singleton; split; fits]|]. split; [split; fits|]. split; [fits|split; fits].
Qed.
Lemma sample_wf : config_wf sample_config.
Proof.
  split; [split; fits|]. split; [fits|]. split; [fits|]. split; [split; [fits|apply Forall_nil_2]|].
  split; [split; fits|]. by split.
Qed.
Lemma config_documents_witness :
  read_app (document (λ _, false) t_full) = Some t_full ∧ read_app (document (λ _, true) sample_config) = Some sample_config.
Proof.
  split.
  - exact (proj1 (config_documents (λ _, false) t_full t_full_wf)).
  - exact (proj1 (config_documents (λ _, true) sample_config sample_wf)).
Defined.
End ConfigTests.

(** * The unit tests of the fixes, evaluated

    The inputs and the expected results of the repository's own tests of
    [toolcall_bad_filepath_fix.rs], [toolcall_null_index_fix.rs],
    [toolcall_malformed_arguments_fix.rs] and [json_scan.rs], computed with the
    definitions of the model over [JsonText]. *)
Module FixTests.
Import Numbers Json JsonText JsonScan FixTypes Traverse NullIndex BadFilepath MalformedArgs Fixes.
#[local] Existing Instance json_text.

(** Every case of a table. *)
Ltac cases := repeat (apply Forall_cons; split; [repeat split; vm_compute; reflexivity|]); apply Forall_nil_2.

Definition ok {A} (o : outcome A) : option A :=
  match o with Some (Ok a) => Some a | _ => None end.
(** What a repaired text parses to. *)
Definition repaired (args : str) : option Value := ok (BadFilepath.fix_arguments args) ≫= from_str.
Definition refused (o : outcome str) : option bool :=
  match o with Some (Err (ParseError _)) => Some true | Some (Err (RebuildError _)) => Some false | _ => None end.
Definition write_call (args : str) : Value :=
  VObject [kv "choices" (VArray [VObject [kv "message" (VObject [kv "tool_calls" (VArray [VObject [
    kv "function" (VObject [kv "name" (vstr "write"); kv "arguments" (VString args)])]])])]])].
Definition call_args (response : Value) : option str :=
  cs ← get response (lit "choices") ≫= as_array; c ← head cs; m ← get c (lit "message");
  ts ← get m (lit "tool_calls") ≫= as_array; t ← head ts; f ← get t (lit "function"); get f (lit "arguments") ≫= as_str.

(** ** toolcall_bad_filepath_fix.rs *)
Example filepath_valid : forallb (λ s, negb (is_malformed (qlit s))) [
    "{'content':'code','filePath':'/path/to/file'}";
    "{'filePath': '/path'}"; "{'other': 'value'}"; "{'content':'line1\nline2','filePath':'/path/to/file'}";
    "{'content':'write it like {\'filePath\': \'x\'} please','filePath':'/real/path'}";
    "{'content':'say \'filePath','filePath':'/real/path'}";
    "{'meta':{'filePath':'/x'},'content':'hi'}";
    "{'meta':{'filePath':'/a','filePath':'/b'},'content':'x'}"]%string = true.
Proof. vm_compute. reflexivity. Qed.

Example filepath_repairs : Forall (λ '(s, r), is_malformed (qlit s) = true ∧ repaired (qlit s) = Some (json r)) [
    ("{'content':'code','filePath':'/path/to/file','filePath'/path/to/file'}", "{'content':'code','filePath':'/path/to/file'}");
    ("{'filePath':'/日本語/file.txt','extra':'dropped','filePath':'/日本語/other.txt'}", "{'filePath':'/日本語/file.txt','extra':'dropped'}");
    ("{'filePath':'/über/lösung.rs','x':1,'filePath':'/über/lösung.rs'}", "{'filePath':'/über/lösung.rs','x':1}");
    ("{'filePath':'/path','filePath'/broken'}", "{'filePath':'/path'}");
    ("{'content':'BODY','filePath':'/x','filePath'/bad'}", "{'content':'BODY','filePath':'/x'}");
    ("{'filePath':'/p\\','filePath'/x'}", "{'filePath':'/p\\'}");
    ("{'content':'#!/usr/bin/perl\n# test\n','filePath':'/home/iphands/prog/slop/trash/primes.pl','filePath'/home/iphands/prog/slop/llama-proxy/trash/primes.pl'}",
     "{'content':'#!/usr/bin/perl\n# test\n','filePath':'/home/iphands/prog/slop/trash/primes.pl'}");
    ("{'filePath':'/path1','filePath':'/path2'}", "{'filePath':'/path1'}");
    ("{'content':'code','filePath':'/path1','filePath}/path2'}", "{'content':'code','filePath':'/path1'}");
    ("{'content':'code','filePath':'/path1','filePath/path2'}", "{'content':'code','filePath':'/path1'}");
    ("{'content':'中文测试内容','filePath':'/x/中文测试目录/file.rs','filePath'/x/第二个坏路径'}",
     "{'content':'中文测试内容','filePath':'/x/中文测试目录/file.rs'}");
    ("{'content':'写入🀄内容🎉','filePath':'/x/🀄目录/文件.rs','filePath'/x/坏🎉'}", "{'content':'写入🀄内容🎉','filePath':'/x/🀄目录/文件.rs'}");
    ("{'content':'esc content','filePath':'/x/\u4e2d\u6587\u4ef6/file.rs','filePath'/x/bad'}",
     "{'content':'esc content','filePath':'/x/中文件/file.rs'}")]%string.
Proof. cases. Qed.

(** The refusals, and that the original bytes are forwarded. *)
Example filepath_refusals : Forall (λ '(s, parse), is_malformed (qlit s) = true ∧
    refused (BadFilepath.fix_arguments (qlit s)) = Some parse ∧
    (bad_filepath_apply (write_call (qlit s)) ≫= λ '(v, _), call_args v) = Some (qlit s)) [
    ("{'key': 'value' broken", true);
    ("{'filePath':'/p\','content':'BODY'}", true);
    ("{'filePath':'/tmp/x.txt','content':'THE ENTIRE FILE BODY','filePath'/tmp/x.txt'}", false)]%string.
Proof. cases. Qed.

(** ** toolcall_malformed_arguments_fix.rs *)
#[local] Existing Instance scanning_regex.
Definition schema_map (order : list String.string) : ToolSchemas := {[ lit "write" := lit <$> order ]}.
Definition fill (order : list String.string) (s : String.string) : result FixError (option str) :=
  MalformedArgs.fix_arguments (qlit s) (lit "write") (schema_map order).
Arguments fill (order s)%_string.

Example slots_detected : is_match <$> [qlit "{'content':'test',{}':'/path'}"; qlit "{{}':'value'}"; qlit "{'file_path':'test','content':'data'}";
    qlit "{'x':'{'': 1}'}"] = [true; true; false; false].
Proof. vm_compute. reflexivity. Qed.

Example schemas_in_declaration_order : extract_tool_schemas (json "{'tools':[
    {'type':'function','function':{'name':'write','parameters':{'type':'object','properties':{'file_path':{'type':'string'},'content':{'type':'string'}}}}},
    {'type':'function','function':{'name':'read','parameters':{'properties':{'path':{'type':'string'}}}}},
    {'type':'function','function':{'name':'','parameters':{'properties':{'path':{}}}}}]}") !! lit "write" =
  Some [lit "file_path"; lit "content"].
Proof. vm_compute. reflexivity. Qed.

Example slots_filled : Forall (λ '(order, s, r), fill order s = Ok (Some (qlit r))) [
    (["file_path"; "content"], "{'content':'#!/bin/bash\necho hello',{}':'/tmp/test.sh'}", "{'content':'#!/bin/bash\necho hello','file_path':'/tmp/test.sh'}");
    (["path"; "content"], "{'content':'test value',{}':'/some/path'}", "{'content':'test value','path':'/some/path'}");
    (["file_path"; "content"; "mode"], "{'content':'data','mode':'0755',{}':'/tmp/file'}", "{'content':'data','mode':'0755','file_path':'/tmp/file'}");
    (["path"; "mode"; "content"], "{'content':'data',{}':'/tmp/a',{}':'hello'}", "{'content':'data','path':'/tmp/a','mode':'hello'}");
    (["path"; "content"], "{'content':'brace {} here',{}':'/tmp/a'}", "{'content':'brace {} here','path':'/tmp/a'}");
    (["path"; "content"], "{'outer':{'':1},'content':'x',{}':'/tmp/a'}", "{'outer':{'':1},'content':'x','path':'/tmp/a'}");
    (["path"; "mode"; "content"], "{'content':'你好世界',{}':'/路径/文件.rs',{}':'第二'}", "{'content':'你好世界','path':'/路径/文件.rs','mode':'第二'}");
    (["path"; "mode"; "content"], "{'content':'say \'hi\'',{}':'/tmp/a',{}':'b'}", "{'content':'say \'hi\'','path':'/tmp/a','mode':'b'}")]%string.
Proof. cases. Qed.

Example slots_refused : Forall (λ '(order, s, e), fill order s = Err (RebuildError (lit e))) [
    (["path"; "mode"; "content"], "{'content':'x',{}':'/tmp/a'}", "ambiguous: 2 candidates for 1 slots");
    (["path"; "content"], "{'content':'x',{}':'/tmp/a',{}':'/tmp/b'}", "fill invalid: 2 slots, 1 candidate");
    (["path"; "content"], "{'path':'/p','content':'c',{}':'/tmp/x'}", "no candidate keys")]%string.
Proof. cases. Qed.

Example slots_left : Forall (λ '(order, s), fill order s = Ok None) [
    (["path"; "content"], "{'path':'/x','content':'y'}"); (["path"], "{'x':'{\'\': 1}'}")]%string.
Proof. cases. Qed.

Example slots_spliced : Forall (λ '(s, missing, r), splice_empty_key_slots (qlit s) (lit <$> missing) = qlit r) [
    ("{'content':'x',{}':'/tmp/a'}", ["path"], "{'content':'x','path':'/tmp/a'}");
    ("{'content':'x',{}':'/tmp/a',{}':'/tmp/b'}", ["path"], "{'content':'x','path':'/tmp/a',{}':'/tmp/b'}");
    ("{'path':'/x','content':'y'}", ["z"], "{'path':'/x','content':'y'}")]%string.
Proof. cases. Qed.

(** ** json_scan.rs *)
Definition spans (s key : str) : list (str * str) :=
  (λ sp, (slice s (key_start sp) (key_end sp), slice s (value_start sp) (value_end sp))) <$> top_level_key_spans s key.
Definition LF : ascii := byte 10.
Definition lines (ls : list String.string) : str := join [LF] (qlit <$> ls).

(** The two mechanisms agree. *)
Example scan_counts : Forall (λ '(s, n), top_level_key_count s (lit "filePath") = n ∧ length (top_level_key_spans s (lit "filePath")) = n) [
    (qlit "{'filePath':1,'filePath':2}", 2);
    (qlit "{'a':{'filePath':1},'b':[{'filePath':2}],'filePath':3}", 1);
    (qlit "{'meta':{'filePath':'/x'},'content':'hi'}", 0);
    (qlit "{'msg':'he said \'filePath'}", 0);
    (qlit "{'content':'x = \'filePath\'; y','filePath':'/a','filePath':'/b'}", 2);
    (qlit "{'file\u0050ath':1,'filePath':2}", 2);
    (qlit "{'say\'filePath\'x':1,'filePath':2}", 1);
    (qlit "{'content':'你好世界','filePath':'/路径/文件.rs','note':'中','filePath':'/第二'}", 2);
    (qlit "{'filePath':{},'filePath':[]}", 2);
    (lines ["{"; "  'filePath' : 1,"; "  'other': 2,"; "  'filePath'	:	{'nested':true}"; "}"; ""], 2);
    (qlit "{'a':{'b':{'filePath':1}},'c':[[{'filePath':2}]],'filePath':3}", 1);
    (qlit "{'filePath':1}trailing junk", 1);
    (qlit "{'filePath':{'deep':[{'x':'\'}'}]},'filePath':2,'z':'}{['}", 2);
    (qlit "{'filePath':{'a':'x'},'filePath':['e','f'],'g':{'h':{'i':[1,'}}]']}}}", 2);
    (qlit "{'filePath':-1.5e3,'filePath':true,'filePath':null,'other':''}", 3);
    (qlit "{'':''}", 0); (qlit "", 0); (qlit "   ", 0); (qlit "-", 0); (qlit "123", 0); (qlit "'filePath'", 0);
    (qlit "[{'filePath':1}]", 0); (qlit "{'filePath':1,", 0); (qlit "{'filePath'", 0); (qlit "{'filePath':1,}", 0);
    (qlit "{-}", 0); (qlit "{'a':1'filePath':2}", 0)].
Proof. cases. Qed.

Example scan_spans_texts : Forall (λ '(s, r), spans (qlit s) (lit "filePath") = prod_map qlit qlit <$> r) [
    ("{'filePath':1,'filePath':2}", [("'filePath'", "1"); ("'filePath'", "2")]);
    ("{'a':{'filePath':1},'b':[{'filePath':2}],'filePath':3}", [("'filePath'", "3")]);
    ("{'content':'你好世界','filePath':'/路径/文件.rs','note':'中','filePath':'/第二'}",
     [("'filePath'", "'/路径/文件.rs'"); ("'filePath'", "'/第二'")]);
    ("{'filePath':{},'filePath':[]}", [("'filePath'", "{}"); ("'filePath'", "[]")])]%string.
Proof. cases. Qed.

Example keys_listed :
  keys_after (qlit "{'a':1,'content':'body','b':2}") 6 = [lit "content"; lit "b"] ∧
  keys_after (qlit "{'a':1,'content':'body','filePath'/x}") 6 = [lit "content"] ∧ keys_after (qlit "{'a':1}") 6 = [] ∧
  depth1_keys (qlit "{'b':1,'a':2,'b':3}") = Some [lit "b"; lit "a"; lit "b"] ∧ depth1_keys (lit "{}") = Some [] ∧
  depth1_keys (lit "garbage") = None ∧ depth1_keys (qlit "{'a':1,'filePath'/bad}") = None.
Proof. vm_compute. tauto. Qed.

(** ** toolcall_null_index_fix.rs *)
Definition calls (l : String.string) : Value := VObject [kv "choices" (VArray [VObject [kv "message" (VObject [kv "tool_calls" (json l)])]])].
Arguments calls l%_string.
Definition fixes_to (a b : String.string) : Prop := null_index_apply (calls a) = (calls b, null_index_action).
Arguments fixes_to (a b)%_string.

Example index_needed : needs_index_fix <$> [json "{'id':'c','index':null}"; json "{'id':'c'}"; json "{'id':'c','index':0}";
    json "{'index':'0'}"; json "{'index':true}"; json "{'index':[0]}"; json "{'index':{'i':0}}"] = [true; true; false; true; true; true; true].
Proof. vm_compute. reflexivity. Qed.

Example index_repaired :
  fixes_to "[{'id':'1','index':null},{'id':'2','function':{}}]" "[{'id':'1','index':0},{'id':'2','function':{},'index':1}]" ∧
  fixes_to "[{'index':0},{'index':null},{'id':'c'}]" "[{'index':0},{'index':1},{'id':'c','index':2}]" ∧
  fixes_to "[{'index':'0'},{'index':true}]" "[{'index':0},{'index':1}]" ∧
  fixes_to "[{'index':5},{'index':null}]" "[{'index':5},{'index':1}]" ∧
  fixes_to "[{'id':'1'},42,{'index':null}]" "[{'id':'1','index':0},42,{'index':2}]".
Proof. repeat split; vm_compute; reflexivity. Qed.

Example index_untouched : Forall (λ v, null_index_apply v = (v, NotApplicable))
  [calls "[{'index':0}]"; calls "'not-an-array'"; json "{'id':'chatcmpl-1'}"].
Proof. cases. Qed.
End FixTests.

(** * The tests of the tools, evaluated

    The repository's own tests of the model switcher ([config/tests.rs]) and of
    the label parser ([kv_labels.rs]), computed with the definitions of the
    model.  The switcher's serde_json has sorted maps, so its codec here is
    [JsonText] with the keys of every object sorted. *)
Module ToolTests.
Import Prog Json JsonText Framing Sse KvLabels Jsonc Switcher.

(** ** config/tests.rs *)
Fixpoint sorted_value (v : Value) : Value :=
  match v with
  | VArray l => VArray (sorted_value <$> l)
  | VObject m => VObject (merge_sort (λ a b, str_le a.1 b.1) ((λ e, (e.1, sorted_value e.2)) <$> m))
  | v => v
  end.
#[local] Instance sorted_text : Serde := {|
  from_str s := sorted_value <$> jt_parse s;
  from_str_string s := v ← jt_parse s; as_str v;
  to_string := jt_print;
  stream_keys s := v ← jt_parse s; m ← as_object v; Some m.*1;
|}.

Definition V2_LINE : str := qlit "        'cosmo-proxy': { 'name': 'cosmo-proxy', 'capabilities': { 'tools': true, 'input': ['text', 'image'], 'output': ['text'] }, 'limit': { 'context': 262144, 'input': 222822, 'output': 262144 } },".
Definition V2_CONFIG : str := qlit "{
  // OpenCode 2 schema: providers / package / settings
  '$schema': 'https://opencode.ai/config.json',
  'model': 'cosmo-proxy/cosmo-proxy',
  'default_agent': 'local-mind', // trailing comment
  /* block
     comment with 'model': 'nope' */
  'permissions': [
    { 'action': 'shell', 'resource': '*', 'effect': 'allow' }
  ],
  'providers': {
    'cosmo-proxy': {
      'name': 'cosmo-proxy',
      'settings': { 'baseURL': 'http://cosmo.lan:8799/v1' },
      'models': {
        'cosmo-proxy': { 'name': 'cosmo-proxy', 'capabilities': { 'tools': true, 'input': ['text', 'image'], 'output': ['text'] }, 'limit': { 'context': 262144, 'input': 222822, 'output': 262144 } },
        'cosmo-light': { 'name': 'cosmo-light', 'capabilities': { 'tools': true, 'input': ['text'], 'output': ['text'] }, 'limit': { 'context': 131072, 'output': 32768 } }
      }
    },
    'cosmo-00': {
      'name': 'cosmo-00',
      'models': {
        'cosmo-6000': { 'name': 'cosmo-6000', 'limit': { 'context': 262144, 'output': 262144 } },
      },
    },
  }
}
".
Definition AGENT_MD : str := qlit "---
description: Senior Engineer
mode: subagent
model: cosmo-proxy/cosmo-proxy
color: '#FF6B35'
permissions:
  - action: read
    model: not-this-one
---

model: also not this one (body text)
".
Definition lits (l : list String.string) : list str := lit <$> l.
Definition qlits (l : list String.string) : list str := qlit <$> l.
Definition PATH : str := lit "opencode.jsonc".

(** A command on a disk that holds one file. *)
Definition on_file {A} (content : str) (p : tried A) : result EditError A * str :=
  let '(r, disk) := on_disk p {[PATH := content]} in (r, default [] (disk !! PATH)).
Definition answer {A} (content : str) (p : tried A) : option A := match (on_file content p).1 with Ok a => Some a | Err _ => None end.
(** The first occurrence of a text put in the place of another. *)
Definition replacen (s a b : str) : str :=
  match find_sub s a with Some i => take i s ++ b ++ drop (i + length a) s | None => s end.

Example v2_parsed :
  (v ← parse_jsonc V2_CONFIG; get v (lit "model")) = Some (vstr "cosmo-proxy/cosmo-proxy") ∧
  (v ← parse_jsonc V2_CONFIG; get v (lit "$schema")) = Some (vstr "https://opencode.ai/config.json").
Proof. vm_compute. done. Qed.

Example models_listed :
  answer V2_CONFIG (read_models PATH) = Some (lits ["cosmo-00/cosmo-6000"; "cosmo-proxy/cosmo-light"; "cosmo-proxy/cosmo-proxy"]%string) ∧
  answer (qlit "{ 'provider': { 'p': { 'models': { 'm': { 'name': 'm' } } } } }") (read_models PATH) = Some [lit "p/m"] ∧
  option_map (map (λ m, (context m, input m, image m))) (answer V2_CONFIG (read_model_info PATH)) =
    Some [(Some 262144%Z, None, false); (Some 131072%Z, None, false); (Some 262144%Z, Some 222822%Z, true)].
Proof. vm_compute. done. Qed.

Example default_model_round_trip :
  let '(r, after) := on_file V2_CONFIG (update_default_model PATH (lit "cosmo-00/cosmo-6000")) in
  r = Ok () ∧ answer V2_CONFIG (get_default_model PATH) = Some (lit "cosmo-proxy/cosmo-proxy") ∧
  answer after (get_default_model PATH) = Some (lit "cosmo-00/cosmo-6000") ∧
  after = replacen V2_CONFIG (qlit "'model': 'cosmo-proxy/cosmo-proxy'") (qlit "'model': 'cosmo-00/cosmo-6000'").
Proof. vm_compute. done. Qed.

Example nested_model_ignored :
  let cfg := join [LF] (qlits ["{"; "  'agent': {"; "    'x': {"; "      'model': 'a/a'"; "    }"; "  },"; "  'model': 'b/b'"; "}"; ""]%string) in
  let after := (on_file cfg (update_default_model PATH (lit "c/c"))).2 in
  contains_sub after (qlit "'model': 'a/a'") = true ∧ contains_sub after (qlit "'model': 'c/c'" ++ [LF]) = true.
Proof. vm_compute. done. Qed.

Example limit_edits :
  let out := edit_limit_on_line V2_LINE (lit "input") (Some 200000%Z) in
  contains_sub out (qlit "'input': ['text', 'image']") = true ∧
  contains_sub out (qlit "'limit': { 'context': 262144, 'input': 200000, 'output': 262144 }") = true ∧
  let line := qlit "  'm': { 'name': 'm', 'limit': { 'context': 1000, 'output': 10 } }," in
  let added := edit_limit_on_line line (lit "input") (Some 850%Z) in
  added = qlit "  'm': { 'name': 'm', 'limit': { 'context': 1000, 'input': 850, 'output': 10 } }," ∧
  edit_limit_on_line added (lit "input") None = line ∧
  let removed := edit_limit_on_line V2_LINE (lit "input") None in
  contains_sub removed (qlit "'limit': { 'context': 262144, 'output': 262144 }") = true ∧
  contains_sub removed (qlit "'input': ['text', 'image']") = true ∧
  let other := qlit "  'model': 'cosmo-proxy/cosmo-proxy'," in edit_limit_on_line other (lit "context") (Some 5%Z) = other.
Proof. vm_compute. done. Qed.

Definition limits (content : str) : option (list (option Z * option Z)) :=
  option_map (map (λ m, (context m, input m))) (answer content (read_model_info PATH)).
Example limits_updated :
  let '(r, once) := on_file V2_CONFIG (update_limits PATH (Some 131072%Z) (Some 111411%Z)) in
  let '(r', twice) := on_file once (update_limits PATH None None) in
  r = Ok 3 ∧ limits once = Some (replicate 3 (Some 131072%Z, Some 111411%Z)) ∧
  r' = Ok 3 ∧ limits twice = Some (replicate 3 (Some 131072%Z, None)) ∧
  contains_sub twice (lit "// trailing comment") = true.
Proof. vm_compute. done. Qed.

Example image_edits :
  let off := set_image_on_line V2_LINE false in
  contains_sub off (qlit "'capabilities': { 'tools': true, 'input': ['text'], 'output': ['text'] }") = true ∧
  contains_sub off (qlit "'input': 222822") = true ∧ set_image_on_line off false = off ∧
  set_image_on_line off true = V2_LINE ∧ set_image_on_line V2_LINE true = V2_LINE ∧
  let line := qlit "  'm': { 'name': 'm', 'limit': { 'context': 1000 } }" in
  set_image_on_line line true =
    qlit "  'm': { 'name': 'm', 'capabilities': { 'tools': true, 'input': ['text', 'image'], 'output': ['text'] }, 'limit': { 'context': 1000 } }" ∧
  set_image_on_line line false = line.
Proof. vm_compute. done. Qed.

Example image_updated :
  let '(r, on) := on_file V2_CONFIG (update_image PATH true) in
  let '(r', off) := on_file on (update_image PATH false) in
  let all b c := match answer c (read_model_info PATH) with Some l => forallb (λ m, Bool.eqb (image m) b) l | None => false end in
  r = Ok 2 ∧ all true on = true ∧ r' = Ok 3 ∧ all false off = true.
Proof. vm_compute. done. Qed.

Example broken_refused : on_file V2_CONFIG (write_jsonc_checked PATH (qlit "{ 'model': ")) = (Err (WouldNotParse PATH), V2_CONFIG).
Proof. vm_compute. reflexivity. Qed.

Example agent_edits :
  answer AGENT_MD (get_current_model PATH) = Some (lit "cosmo-proxy/cosmo-proxy") ∧
  (on_file AGENT_MD (update_agent_model PATH (lit "cosmo-01/cosmo-4060"))).2 =
    replacen AGENT_MD (lit "model: cosmo-proxy/cosmo-proxy") (lit "model: cosmo-01/cosmo-4060") ∧
  let bare := join [LF] (lits ["---"; "mode: primary"; "---"; "model: body/only"; ""]%string) in
  answer bare (get_current_model PATH) = None ∧ answer bare (update_agent_model PATH (lit "a/b")) = None.
Proof. vm_compute. done. Qed.

(** A directory of agents: what is listed, and what each entry holds. *)
Definition in_directory (X : Type) (_ : unit) (e : Ed X) : X :=
  match e in Ed X return X with
  | ReadDir _ => Some (Some <$> lits ["neckbeard.md"; "chat.md"; "local-mind.md"; "hoodie.md"; "plain.md"; "notes.txt"]%string)
  | ReadFile p => Some (if ends_with p (lit "plain.md") then join [LF] (lits ["---"; "mode: subagent"; "---"; ""]%string) else AGENT_MD)
  | WriteFile _ _ => true
  | Exists _ => true
  | Typed _ => []
  end.
Example agents_discovered :
  let listed {A} (p : tried A) := (run (λ _ _ _ s, s) in_directory p ()).1 in
  (match listed (discover_agents (lit "agents")) with Ok l => name <$> l | Err _ => [] end) = lits ["local-mind"; "chat"; "hoodie"; "neckbeard"]%string ∧
  listed (unpinned_agents (lit "agents")) = Ok [lit "plain"].
Proof. vm_compute. done. Qed.

(** ** kv_labels.rs *)
Definition VLLM_LINE : String.string :=
  "vllm:cache_config_info{block_size='16',cache_dtype='auto',engine='0',gpu_memory_utilization='0.9',kv_cache_size_tokens='81280',num_gpu_blocks='5080'} 1".
Definition body_of_lines (ls : list String.string) : str := concat ((λ l, qlit l ++ [LF]) <$> ls).
(** The labels of the chosen series: how many, and what the named ones are. *)
Definition labels_are (ls : list String.string) (size : nat) (named : list (String.string * str)) : bool :=
  match parse_cache_config_info (body_of_lines ls) with
  | Some m => bool_decide (base.size m = size) && forallb (λ '(k, v), bool_decide (m !! lit k = Some v)) named
  | None => false
  end.

Example labels_parsed : labels_are
  ["# HELP vllm:cache_config_info Information of the LLMEngine CacheConfig"; "# TYPE vllm:cache_config_info gauge"; VLLM_LINE]%string 6
  [("num_gpu_blocks", lit "5080"); ("block_size", lit "16"); ("kv_cache_size_tokens", lit "81280");
   ("gpu_memory_utilization", lit "0.9"); ("cache_dtype", lit "auto"); ("engine", lit "0")]%string = true.
Proof. vm_compute. reflexivity. Qed.

Example other_families_ignored : labels_are
  ["# HELP vllm:num_requests_running Number of requests currently running on an instance."; "# TYPE vllm:num_requests_running gauge";
   "vllm:num_requests_running{engine='0',model_name='qwen3'} 3.0"; "# HELP vllm:cache_config_info Information of the LLMEngine CacheConfig";
   "# TYPE vllm:cache_config_info gauge";
   "vllm:cache_config_info{block_size='16',cache_dtype='auto',enable_prefix_caching='True',engine='0',gpu_memory_utilization='0.9',kv_cache_max_concurrency='5',kv_cache_size_tokens='81280',num_gpu_blocks='5080'} 1";
   "# HELP vllm:prompt_tokens_total Number of prefill tokens processed."; "# TYPE vllm:prompt_tokens_total counter";
   "vllm:prompt_tokens_total{engine='0',model_name='qwen3'} 1.0e+04"; "vllm:cache_config_info_extra{num_gpu_blocks='9999'} 1"]%string 8
  [("num_gpu_blocks", lit "5080"); ("enable_prefix_caching", lit "True"); ("kv_cache_max_concurrency", lit "5")]%string = true.
Proof. vm_compute. reflexivity. Qed.

Example absent_gauge : parse_cache_config_info (body_of_lines
  ["# HELP llama_cpp_prompt_tokens_total Total number of prompt tokens processed"; "# TYPE llama_cpp_prompt_tokens_total counter";
   "llama_cpp_prompt_tokens_total{model='qwen3'} 1.234567e+06"; "process_cpu_seconds_total 12.5"]%string) = None.
Proof. vm_compute. reflexivity. Qed.

Example values_unescaped : labels_are
  ["vllm:cache_config_info{cache_dtype='fp8\'kv',engine='0',note='a,b\nc',quant_param='\\'} 1"]%string 4
  [("cache_dtype"%string, qlit "fp8'kv"); ("note"%string, lit "a,b" ++ LF :: lit "c"); ("quant_param"%string, lit "\")] = true.
Proof. vm_compute. reflexivity. Qed.

Example lowest_engine : labels_are
  ["vllm:cache_config_info{engine='2',num_gpu_blocks='2222'} 1"; "vllm:cache_config_info{engine='10',num_gpu_blocks='1111'} 1";
   "vllm:cache_config_info{engine='1',num_gpu_blocks='5080'} 1"]%string 2
  [("engine", lit "1"); ("num_gpu_blocks", lit "5080")]%string = true.
Proof. vm_compute. reflexivity. Qed.
End ToolTests.

(** * The tests of the statistics, evaluated

    The repository's own tests of [collector.rs] and [formatter.rs] with the
    bodies as JSON text, and the six lines the README of llama-proxy shows as
    its compact examples. *)
Module StatsTests.
Import Numbers Json JsonText Metrics Formatter Sse.
#[local] Existing Instance json_text.

(** A decimal as Rust reads it. *)
Definition dec (s : String.string) : f64 := default f64_zero (as_f64 (json s)).
Definition near (tol : String.string) (v : f64) (s : String.string) : bool :=
  f64_lt (f64_sub (dec s) (dec tol)) v && f64_lt v (f64_add (dec s) (dec tol)).

(** ** collector.rs *)
Definition measured (body : String.string) (ms : f64) : RequestMetrics :=
  from_response [] 0 (json body) (json "{'messages':[]}") false ms.
Definition usage_of body ms := usage (measured body ms).
Definition timing_of body ms := timing (measured body ms).

Example from_response_basic :
  let m := from_response [] 0 (json "{'model':'test-model','choices':[{'finish_reason':'stop','message':{'content':'Hello world'}}]}")
             (json "{'messages':[{'role':'user','content':'Hi'}]}") false (dec "100.0") in
  (model m, finish_reason (lengths m), output_len (lengths m), streaming m, duration_ms m) =
  (lit "test-model", lit "stop", 11%Z, false, dec "100.0").
Proof. vm_compute. reflexivity. Qed.

Definition with_timings : String.string :=
  "{'model':'test-model','timings':{'prompt_ms':50.5,'predicted_ms':100.25,'prompt_per_second':198.0,'predicted_per_second':99.75,'prompt_n':42,'cache_n':10},'choices':[{'finish_reason':'stop'}]}".
Example from_response_with_timings :
  let t := timing_of with_timings (dec "150.0") in
  (prompt_ms t, generation_ms t, generation_tps t) = (dec "50.5", dec "100.25", Some (dec "99.75")) ∧
  near "0.01" (default f64_zero (prompt_tps t)) "633.66" = true ∧
  (cached_tokens (usage_of with_timings (dec "150.0")), context_used (usage_of with_timings (dec "150.0"))) = (Some 10%Z, Some 42%Z).
Proof. vm_compute. auto. Qed.

Example prefill_rate_no_cache_uses_backend_verbatim :
  prompt_tps (timing_of "{'timings':{'prompt_ms':50.5,'prompt_per_second':198.0,'predicted_per_second':99.75,'prompt_n':42}}" (dec "150.0")) =
  Some (dec "198.0").
Proof. vm_compute. reflexivity. Qed.

Definition request_lengths (request : String.string) : Z * Z :=
  let l := lengths (from_response [] 0 (json "{'model':'m','choices':[{'finish_reason':'stop'}]}") (json request) false (dec "50.0")) in
  (input_messages l, input_len l).
Example from_response_with_messages :
  request_lengths "{'messages':[{'role':'system','content':'You are helpful'},{'role':'user','content':'Hello there'}]}" = (2, 26)%Z.
Proof. vm_compute. reflexivity. Qed.
Example from_response_multimodal_content :
  request_lengths "{'messages':[{'role':'user','content':[{'type':'text','text':'What is in that image?'},{'type':'image_url','image_url':{'url':'http://example.com/image.png'}}]}]}" = (1, 22)%Z.
Proof. vm_compute. reflexivity. Qed.

Example split_flag_is_rate_provenance_not_duration_presence :
  let m := measured "{'timings':{'prompt_ms':500.0,'predicted_ms':100.0},'usage':{'prompt_tokens':10,'completion_tokens':5,'total_tokens':15}}" (dec "1000.0") in
  (prompt_ms (timing m), prompt_tps (timing m), generation_tps (timing m), has_timing_split m, f64_lt f64_zero (total_tps m)) =
  (dec "500.0", None, None, false, true).
Proof. vm_compute. reflexivity. Qed.

Example aborted_stream_without_usage_has_no_signal :
  let m := measured "{'model':'cosmo-6000','choices':[{'index':0,'delta':{'content':'partial'},'finish_reason':null}]}" (dec "24811.0") in
  (total_tokens (usage m), total_tps m, has_throughput_signal m, duration_ms m) = (0%Z, f64_zero, false, dec "24811.0").
Proof. vm_compute. reflexivity. Qed.

Example anthropic_usage_without_output_tokens_yields_none_completion :
  usage_of "{'usage':{'input_tokens':10},'content':[{'type':'text','text':'ok'}],'stop_reason':'end_turn'}" (dec "50.0") =
  mkUsage (Some 10%Z) None 10 None None (Some 10%Z) None None None.
Proof. vm_compute. reflexivity. Qed.

Example from_response_timings_only :
  let u := usage_of "{'timings':{'prompt_n':538,'predicted_n':983,'prompt_ms':316.829,'predicted_ms':29669.411,'prompt_per_second':1698.07,'predicted_per_second':33.13},'prompt_progress':{'total':562},'choices':[{'finish_reason':null,'delta':{'content':null}}]}" (dec "30181.0") in
  (prompt_tokens u, completion_tokens u, total_tokens u, context_used u) = (Some 538, Some 983, 1521, Some 538)%Z.
Proof. vm_compute. reflexivity. Qed.

Example from_anthropic_with_thinking :
  let m := measured "{'id':'msg_2','type':'message','role':'assistant','model':'claude-3','content':[{'type':'thinking','thinking':'Let me reason...'},{'type':'text','text':'The answer is 42'}],'stop_reason':'end_turn','usage':{'input_tokens':100,'output_tokens':200}}" (dec "5000.0") in
  (output_len (lengths m), finish_reason (lengths m), total_tokens (usage m), context_used (usage m)) = (16, lit "end_turn", 300, Some 100)%Z.
Proof. vm_compute. reflexivity. Qed.

Example no_timings_reports_total_only :
  let m := measured "{'model':'cosmo-6000','usage':{'prompt_tokens':39240,'completion_tokens':146,'total_tokens':39386},'choices':[{'finish_reason':'tool_calls','message':{'content':''}}]}" (dec "1731.0") in
  (has_timing_split m, prompt_tps (timing m), generation_tps (timing m)) = (false, None, None) ∧
  near "0.1" (total_tps m) "22753.32" && near "0.01" (decode_tps_min m) "84.34" = true.
Proof. vm_compute. auto. Qed.

Example decode_tps_min_survives_the_timings_token_fallback :
  let m := measured "{'timings':{'prompt_n':1000,'predicted_n':400,'predicted_ms':2000.0}}" (dec "2000.0") in
  (completion_tokens (usage m), near "0.01" (decode_tps_min m) "200.0") = (Some 400%Z, true).
Proof. vm_compute. reflexivity. Qed.

Example decode_tps_min_zero_duration_stays_zero :
  let m := measured "{'usage':{'prompt_tokens':10,'completion_tokens':100,'total_tokens':110}}" f64_zero in
  (decode_tps_min m, total_tps m) = (f64_zero, f64_zero).
Proof. vm_compute. reflexivity. Qed.

Example decode_tps_min_clamps_hostile_division :
  let m := measured "{'usage':{'prompt_tokens':18446744073709551615,'completion_tokens':18446744073709551615,'total_tokens':18446744073709551615}}" f64_min_positive in
  (total_tokens (usage m), decode_tps_min m, total_tps m) = (u64_max, f64_zero, f64_zero).
Proof. vm_compute. reflexivity. Qed.

Example anthropic_cache_fields_are_extracted :
  usage_of "{'type':'message','usage':{'input_tokens':100,'output_tokens':20,'cache_read_input_tokens':30000,'cache_creation_input_tokens':500}}" (dec "100.0") =
  mkUsage (Some 100%Z) (Some 20%Z) 120 (Some 30000%Z) (Some 500%Z) (Some 30600%Z) None None None.
Proof. vm_compute. reflexivity. Qed.

Example openai_cached_tokens_do_not_inflate_context_used :
  usage_of "{'usage':{'prompt_tokens':5000,'completion_tokens':10,'total_tokens':5010,'prompt_tokens_details':{'cached_tokens':4096}}}" (dec "100.0") =
  mkUsage (Some 5000%Z) (Some 10%Z) 5010 (Some 4096%Z) None (Some 5000%Z) None None None.
Proof. vm_compute. reflexivity. Qed.

Example vllm_per_request_metrics_are_used :
  let m := measured "{'usage':{'prompt_tokens':16,'completion_tokens':120,'total_tokens':136},'metrics':{'time_to_first_token_ms':291.44680208992213,'generation_time_ms':760.3732609422877,'queue_time_ms':12.5,'mean_itl_ms':6.3896912684225855,'tokens_per_second':114.0879549816357}}" (dec "1100.0") in
  let t := timing m in
  (has_timing_split m, queue_ms t) = (true, Some (dec "12.5")) ∧
  near "0.01" (prompt_ms t) "291.4468" && near "0.01" (generation_ms t) "760.3733" &&
  near "0.1" (default f64_zero (generation_tps t)) "157.82" && near "0.01" (default f64_zero (mean_itl_ms t)) "6.3897" = true.
Proof. vm_compute. auto. Qed.

(** A vLLM answer: prompt tokens, what its usage says of the cache, and the
    time to the first token; the rate of the prefill. *)
Definition vllm_prefill (prompt cached ttft : String.string) : option f64 :=
  let body := (lit "{'usage':{'prompt_tokens':" ++ lit prompt ++ lit ",'completion_tokens':498" ++ lit cached ++
    lit "},'metrics':{" ++ lit ttft ++ lit "'generation_time_ms':2546.0,'queue_time_ms':0.0095}}")%list in
  prompt_tps (timing_of (String.string_of_list_ascii body) (dec "3163.0")).
Definition details (n : String.string) : String.string :=
  String.append ",'prompt_tokens_details':{'cached_tokens':" (String.append n "}").
Definition first_token (ms : String.string) : String.string :=
  String.append "'time_to_first_token_ms':" (String.append ms ",").

Example vllm_prefill_is_rated_on_non_cached_tokens_across_the_five_logged_rows :
  forallb (λ '(p, c, t, tol, want), match vllm_prefill p (details c) (first_token t) with Some v => near tol v want | None => false end)
    [("59043", "51200", "1221.5584", "64.21", "6421.0"); ("21001", "3200", "1390.9384", "127.97", "12797.0");
     ("105798", "99200", "506.7069", "130.21", "13021.0"); ("162906", "156800", "519.7498", "117.48", "11748.0");
     ("186417", "182400", "321.5830", "124.91", "12491.0")]%string = true.
Proof. vm_compute. reflexivity. Qed.

(** No cache, a cache of nothing, of more than the prompt and of all of it:
    the rate is the backend's; without a first token there is none. *)
Example vllm_prefill_is_verbatim :
  let rate p c t := match vllm_prefill p c t with Some v => near "1.0" v | None => λ _, false end in
  rate "21001"%string ""%string (first_token "1390.9384") "15098.44"%string &&
  rate "21001"%string (details "0") (first_token "1390.9384") "15098.44"%string &&
  rate "1000"%string (details "5000") (first_token "500.0") "2000.0"%string &&
  rate "50000"%string (details "50000") (first_token "250.0") "200000.0"%string = true ∧
  vllm_prefill "186417" (details "182400") "" = None ∧ vllm_prefill "0" "" (first_token "250.0") = None ∧
  vllm_prefill "null" "" (first_token "250.0") = None.
Proof. vm_compute. auto. Qed.

Example context_info_from_slots_response :
  from_slots_response (json "[{'id':0,'n_ctx':4096,'n_tokens':100,'is_processing':true},{'id':1,'n_ctx':4096,'n_tokens':50,'is_processing':false}]") =
  Some (mkContextInfo 8192 150 [mkSlot 0 100 4096 true; mkSlot 1 50 4096 false]).
Proof. vm_compute. reflexivity. Qed.
Example context_info_boundaries :
  from_slots_response (json "[]") = Some (mkContextInfo 0 0 []) ∧ from_slots_response (json "{'not':'array'}") = None ∧
  from_slots_response (json "[{'id':0},{'n_ctx':2048,'n_tokens':25}]") =
    Some (mkContextInfo 2048 25 [mkSlot 0 0 0 false; mkSlot 0 25 2048 false]) ∧
  (slots <$> from_slots_response (json "[{'id':18446744073709551615,'n_ctx':10,'n_tokens':1}]")) = Some [mkSlot u64_max 1 10 false].
Proof. vm_compute. auto. Qed.
Example context_info_saturates_at_u64_max :
  (λ i, (total_context i, used_context i)) <$>
    from_slots_response (json "[{'id':0,'n_ctx':18446744073709551615,'n_tokens':18446744073709551615},{'id':1,'n_ctx':1,'n_tokens':1}]") =
  Some (u64_max, u64_max).
Proof. vm_compute. reflexivity. Qed.

(** ** formatter.rs *)

(** Two cells for the ideographs of the tests, which are the characters from
    U+3000 on; the lines of the box, below that, take one. *)
Definition cells_of (c : str) : nat :=
  match c with b :: _ :: _ => if (byte_val b <? 0xE3)%Z then 1 else 2 | _ => 1 end.
#[local] Instance cells : Display := {|
  char_width c := Some (cells_of c); str_width s := sum_list (cells_of <$> chars s); show_time _ := []; metrics_json _ := None |}.

(** [create_test_metrics], with its rates and counts. *)
Definition test_metrics (pp tg : option f64) (prompt completion : option Z) (floor : f64) : RequestMetrics :=
  mkMetrics [] 0 (lit "test-model") None None None (mkUsage prompt completion 150 None None None None None None)
    (mkTiming pp tg (dec "500.0") (dec "1176.0") None None) (dec "125.0") floor true None None
    (mkLengths (lit "stop") 0 0 0) true false None (dec "1200.0") None.
Definition test_floor : f64 := f64_div (dec "50.0") (dec "1.2").

Example format_compact_test :
  format_compact (test_metrics (Some (dec "200.5")) (Some (dec "42.5")) (Some 100%Z) (Some 50%Z) test_floor) =
  lit "model=test-model       pp=   0.201k tg=   42.5 dur=   1200ms ctx=   n/a/   n/a tok=   100/    50 stream=ok      finish=stop".
Proof. vm_compute. reflexivity. Qed.
Example format_compact_without_timing_split :
  format_compact (test_metrics None None (Some 100%Z) (Some 50%Z) test_floor) =
  lit "model=test-model       pp=     n/a tg>=   41.7 dur=   1200ms ctx=   n/a/   n/a tok=   100/    50 stream=ok      finish=stop       work=125.00".
Proof. vm_compute. reflexivity. Qed.
Example compact_without_counted_output_prints_no_floor :
  format_compact (test_metrics None None (Some 100%Z) None f64_zero) =
  lit "model=test-model       pp=     n/a tg=     n/a dur=   1200ms ctx=   n/a/   n/a tok=   100/   n/a stream=ok      finish=stop       work=125.00".
Proof. vm_compute. reflexivity. Qed.
Example compact_half_split_falls_to_the_floor_tier :
  format_compact (test_metrics (Some (dec "88000.0")) None (Some 100%Z) (Some 50%Z) test_floor) =
  lit "model=test-model       pp=     n/a tg>=   41.7 dur=   1200ms ctx=   n/a/   n/a tok=   100/    50 stream=ok      finish=stop       work=125.00".
Proof. vm_compute. reflexivity. Qed.
Example compact_measured_decode_beats_the_floor_without_usage_counts :
  format_compact (test_metrics (Some (dec "200.5")) (Some (dec "42.5")) (Some 0%Z) None f64_zero) =
  lit "model=test-model       pp=   0.201k tg=   42.5 dur=   1200ms ctx=   n/a/   n/a tok=     0/   n/a stream=ok      finish=stop".
Proof. vm_compute. reflexivity. Qed.

(** [readme_examples]: a fixture, and the lines of the README. *)
Definition readme (name : String.string) (group : option str) (u : Usage) (pp tg : option f64) (total floor : f64)
    (finish : String.string) (is_stream : bool) (ending : option str) (ms : f64) (live : option Z) : RequestMetrics :=
  mkMetrics [] 0 (lit name) group None None u (mkTiming pp tg f64_zero f64_zero None None) total floor (is_some pp || is_some tg)
    (Some 262144%Z) None (mkLengths (lit finish) 0 0 0) is_stream false ending ms live.
Definition counted (prompt completion cached : option Z) : Usage := mkUsage prompt completion 0 cached None prompt None None None.
Definition rated (tokens wall : String.string) : f64 := f64_div (dec tokens) (f64_div (dec wall) f64_thousand).

Example readme_compact_example_is_the_rendered_line :
  format_compact <$>
    [readme "cosmo-6000" None (counted (Some 9074) (Some 412) (Some 3200))%Z (Some (dec "14765.0")) (Some (dec "146.32"))
       (rated "9486.0" "3144.0") (rated "412.0" "3144.0") "stop" true (Some (lit "ok")) (dec "3144.0") (Some 1%Z);
     readme "cosmo-6000" None (counted (Some 9074) (Some 412) (Some 3200))%Z None None
       (rated "9486.0" "3144.0") (rated "412.0" "3144.0") "stop" true (Some (lit "ok")) (dec "3144.0") (Some 1%Z);
     readme "cosmo-6000" None (counted (Some 9074) None None)%Z None None f64_zero f64_zero "unknown" true (Some (lit "client_gone"))
       (dec "3144.0") (Some 1%Z);
     readme "cosmo-6000" None (counted None None None) None None f64_zero f64_zero "unknown" false None (dec "12.0") (Some 1%Z);
     readme "Qwen3-14B-128K-Q3_K_S.gguf" (Some (lit "local")) (counted (Some 4100) (Some 118) None)%Z (Some (dec "12858.0"))
       (Some (dec "51.06")) (rated "4218.0" "2841.0") (rated "118.0" "2841.0") "tool_calls" true (Some (lit "ok")) (dec "2841.0") (Some 3%Z);
     readme "cosmo-6000" None (counted (Some 2048) None None)%Z None None f64_zero f64_zero "unknown" true (Some (lit "truncated"))
       (dec "30000.0") None] =
  lit <$>
    ["model=cosmo-6000       pp=  14.765k tg=  146.3 dur=   3144ms ctx=  9074/262144 tok=  9074/   412 stream=ok      finish=stop       concurrent=1 cache=3200";
     "model=cosmo-6000       pp=     n/a tg>=  131.0 dur=   3144ms ctx=  9074/262144 tok=  9074/   412 stream=ok      finish=stop       work=3017.18 concurrent=1 cache=3200";
     "model=cosmo-6000       pp=     n/a tg=     n/a dur=   3144ms ctx=  9074/262144 tok=  9074/   n/a stream=gone    finish=n/a        concurrent=1";
     "model=cosmo-6000       pp=     n/a tg=     n/a dur=     12ms ctx=   n/a/262144 tok=   n/a/   n/a stream=sync    finish=n/a        concurrent=1";
     "model=Qwen3-14B-128... pp=  12.858k tg=   51.1 dur=   2841ms ctx=  4100/262144 tok=  4100/   118 stream=ok      finish=tool_calls group=local concurrent=3";
     "model=cosmo-6000       pp=     n/a tg=     n/a dur=  30000ms ctx=  2048/262144 tok=  2048/   n/a stream=trunc   finish=n/a"]%string.
Proof. vm_compute. reflexivity. Qed.

Example truncate_to_width_tests :
  (λ '(s, n), truncate_to_width (lit s) n) <$>
    [("hello", 10); ("hello", 5); ("hello world this is long", 10); ("hi", 2); ("", 10);
     ("模型模型模型", 8); ("模型模型模型", 7); ("模型模型模型", 4)]%string =
  lit <$> ["hello"; "hello"; "hello w..."; "hi"; ""; "模型..."; "模型..."; "..."]%string.
Proof. vm_compute. reflexivity. Qed.

Example truncate_to_width_cuts_on_display_cells :
  forallb (λ n, str_width (truncate_to_width (lit "本地大模型-Qwen3-14B-量化版很长") n) <=? max n 3) (seq 1 40) = true.
Proof. vm_compute. reflexivity. Qed.

(** Every row of the box spans the frame, in its three shapes. *)
Definition wide_metrics (pp tg : option f64) (rate : f64) : RequestMetrics :=
  mkMetrics [] 0 (lit "本地大模型-Qwen3-14B-量化版") None (Some (lit "客户标识-中文-identifier")) (Some (lit "会话-abc"))
    (mkUsage (Some 100%Z) (Some 50%Z) 150 None None (Some 100%Z) (Some 10%Z) None None)
    (mkTiming pp tg (dec "500.0") (dec "1176.0") None None) rate rate true (Some 4096%Z) (Some (dec "2.44"))
    (mkLengths (lit "停止done") 0 0 0) true true (Some (lit "truncated")) (dec "1200.0") (Some 2%Z).
Definition row_widths (s : str) : list nat := str_width <$> Sse.lines s.
Example pretty_rows_all_share_the_frame_width :
  forallb (λ m, forallb (λ w, w =? BOX_INNER + 2)%nat (row_widths (format_pretty m)))
    [wide_metrics (Some (dec "200.5")) (Some (dec "42.5")) (dec "125.0");
     wide_metrics None None (dec "12345678.99"); wide_metrics (Some (dec "12345678.99")) None (dec "12345678.99")] = true.
Proof. vm_compute. reflexivity. Qed.
End StatsTests.
